(** * p2pIM: message format v0, nonce search and the in-memory server

    A shallow embedding of [messages.py], [server1.py] and [generate1.py],
    and what holds of them.

    Modelling conventions.
    - A Python [str] is a [string]: one [ascii] per code point, so the model
      covers the strings whose code points are below 256.  [len], slices and
      comparisons work on code points; [encode_utf8] writes out the two-byte
      form of the code points from 128 on.  A [str] with a code point from
      U+0100 on, a lone surrogate or a decimal digit of another script for
      instance, is outside the model: [str_of_code_points] says which lists
      of code points are inside, and the handler that starts from the bytes
      read, [Server.handle_data], has no answer outside.
    - A Python [int] is a [Z].
    - A Python [float] is the rational it denotes; every operation rounds to 53
      significant bits, ties to even (module [Float]).
    - An attribute that may hold [None] is an [option].
    - A call that may raise returns a [result], or an [outcome] for a handler
      of the server.
    - The dict of the server is an association list in insertion order.
    - The clock is an input: a function from the number of readings made so
      far to the instant read.
    - The library is the one of CPython 3.11 on Linux: [to_bytes] is
      big-endian by default, and [strftime] leaves the year unpadded.

    The file has the program first (modules [Py] to [Generate]), then the
    vocabulary of the statements (module [Spec]), then the facts. *)

From Stdlib Require Import ZArith QArith Qabs Qround Qcanon List String Ascii Bool Lia Sorted.
From Stdlib Require Import DecimalString.
From Stdlib Require Import Qpower Lqa.
Import ListNotations.

Local Open Scope string_scope.
Local Open Scope Z_scope.

(* ================================================================== *)
(** * Python built-ins used by the program *)
(* ================================================================== *)

Module Py.

(** Exceptions the modelled code can raise. *)
Inductive exn : Type :=
| ValueError
| OverflowError
| RuntimeError (msg : string)
| AttributeError
| TypeError
| UnicodeDecodeError.

(** Outcome of a call on an object of state [S]: a value or an exception,
    each with the state the call leaves behind. *)
Inductive result (S A : Type) : Type :=
| Ret (a : A) (s : S)
| Exc (e : exn) (s : S).
Arguments Ret {S A} a s.
Arguments Exc {S A} e s.

Definition ord (c : ascii) : Z := Z.of_N (N_of_ascii c).
Definition chr (z : Z) : ascii := ascii_of_N (Z.to_N z).

Definition len (s : string) : Z := Z.of_nat (String.length s).

Fixpoint drop (n : nat) (s : string) : string :=
  match n, s with
  | O, _ => s
  | S _, EmptyString => EmptyString
  | S n', String _ r => drop n' r
  end.

Fixpoint take (n : nat) (s : string) : string :=
  match n, s with
  | O, _ => EmptyString
  | S _, EmptyString => EmptyString
  | S n', String c r => String c (take n' r)
  end.

(** Python's index normalisation for slices: a negative bound counts from
    the end, and the result is clipped to [0, len]. *)
Definition clip (s : string) (i : Z) : Z :=
  let i' := if i <? 0 then i + len s else i in
  Z.max 0 (Z.min i' (len s)).

(** [s[a:b]] *)
Definition slice (s : string) (a b : Z) : string :=
  let a' := clip s a in
  let b' := clip s b in
  take (Z.to_nat (b' - a')) (drop (Z.to_nat a') s).

Definition startswith (s p : string) : bool := String.prefix p s.

Definition endswith (s p : string) : bool :=
  (String.length p <=? String.length s)%nat
  && String.eqb (drop (String.length s - String.length p) s) p.

(** [a > b] on [str]: lexicographic on code points. *)
Definition str_gt (a b : string) : bool :=
  match String.compare a b with Gt => true | _ => false end.

(** [s.encode('utf-8')] for code points below 256.  No such code point is
    a surrogate, so the [UnicodeEncodeError] of [encode] does not occur on
    the strings of this development. *)
Fixpoint encode_utf8 (s : string) : list Z :=
  match s with
  | EmptyString => []
  | String c r =>
      let o := ord c in
      if o <? 128 then o :: encode_utf8 r
      else (192 + o / 64) :: (128 + o mod 64) :: encode_utf8 r
  end.

(** The code points of a string. *)
Definition code_points (s : string) : list Z := map ord (list_ascii_of_string s).

(** The string that has the code points [cps], when all of them are below
    256.  A Python [str] holds code points up to 0x10FFFF, lone surrogates
    included: for those this development has no string, and [None] says
    so. *)
Fixpoint str_of_code_points (cps : list Z) : option string :=
  match cps with
  | [] => Some EmptyString
  | c :: r =>
      if (0 <=? c) && (c <? 256) then
        match str_of_code_points r with
        | Some s => Some (String (chr c) s)
        | None => None
        end
      else None
  end.

(** A continuation byte of UTF-8. *)
Definition is_cont (b : Z) : bool := (128 <=? b) && (b <=? 191).

(** The second byte that the lead [b0] of a sequence of three or four bytes
    admits: no overlong form, no surrogate, nothing above U+10FFFF. *)
Definition second_ok (b0 b1 : Z) : bool :=
  if b0 =? 224 then (160 <=? b1) && (b1 <=? 191)
  else if b0 =? 237 then (128 <=? b1) && (b1 <=? 159)
  else if b0 =? 240 then (144 <=? b1) && (b1 <=? 191)
  else if b0 =? 244 then (128 <=? b1) && (b1 <=? 143)
  else is_cont b1.

(** [data.decode('utf-8')], strict, on a list of bytes: the code points,
    or [None] for the [UnicodeDecodeError]. *)
Fixpoint decode_utf8 (data : list Z) : option (list Z) :=
  match data with
  | [] => Some []
  | b0 :: r0 =>
      if (0 <=? b0) && (b0 <? 128) then option_map (cons b0) (decode_utf8 r0)
      else
        match r0 with
        | [] => None
        | b1 :: r1 =>
            if (194 <=? b0) && (b0 <=? 223) then
              if is_cont b1
              then option_map (cons ((b0 - 192) * 64 + (b1 - 128))) (decode_utf8 r1)
              else None
            else
              match r1 with
              | [] => None
              | b2 :: r2 =>
                  if (224 <=? b0) && (b0 <=? 239) then
                    if second_ok b0 b1 && is_cont b2
                    then option_map
                           (cons ((b0 - 224) * 4096 + (b1 - 128) * 64 + (b2 - 128)))
                           (decode_utf8 r2)
                    else None
                  else
                    match r2 with
                    | [] => None
                    | b3 :: r3 =>
                        if (240 <=? b0) && (b0 <=? 244) then
                          if second_ok b0 b1 && is_cont b2 && is_cont b3
                          then option_map
                                 (cons ((b0 - 240) * 262144 + (b1 - 128) * 4096
                                        + (b2 - 128) * 64 + (b3 - 128)))
                                 (decode_utf8 r3)
                          else None
                        else None
                    end
              end
        end
  end.

(** [str(n)] for a non-negative [n]. *)
Definition str_of_nat (n : nat) : string := NilZero.string_of_uint (Nat.to_uint n).

Definition hexdigit (d : Z) : ascii :=
  if d <? 10 then chr (48 + d) else chr (87 + d).

(** The [n] low hexadecimal digits of [v], most significant first. *)
Fixpoint hex_of (n : nat) (v : Z) : string :=
  match n with
  | O => EmptyString
  | S n' => hex_of n' (v / 16) ++ String (hexdigit (v mod 16)) EmptyString
  end.

(** [v.to_bytes(length = k).hex()]: big-endian, unsigned; [OverflowError]
    when [v] is negative or needs more than [k] bytes. *)
Definition to_bytes_hex (k : nat) (v : Z) : option string :=
  if (0 <=? v) && (v <? 256 ^ Z.of_nat k) then Some (hex_of (2 * k) v) else None.

(** ** [int(s)] and [int(s, 16)] on a [str] *)

(** C [isspace] in the C locale. *)
Definition is_space (c : ascii) : bool :=
  let o := ord c in ((9 <=? o) && (o <=? 13)) || (o =? 32).

(** Before parsing, a non-ASCII string has its Unicode spaces replaced by a
    blank; at the first other character from 127 on it is cut and a question
    mark is left there.  Below 256 the Unicode spaces from 127 on are
    U+0085 and U+00A0, and no such character is a decimal digit. *)
Fixpoint to_ascii_digits (s : string) : string :=
  match s with
  | EmptyString => EmptyString
  | String c r =>
      let o := ord c in
      if o <? 127 then String c (to_ascii_digits r)
      else if (o =? 133) || (o =? 160) then String " " (to_ascii_digits r)
      else String "?" EmptyString
  end.

Fixpoint lstrip (s : string) : string :=
  match s with
  | String c r => if is_space c then lstrip r else s
  | EmptyString => s
  end.

Definition digit_value (c : ascii) : Z :=
  let o := ord c in
  if (48 <=? o) && (o <=? 57) then o - 48
  else if (97 <=? o) && (o <=? 122) then o - 87
  else if (65 <=? o) && (o <=? 90) then o - 55
  else 37.

Definition is_underscore (c : ascii) : bool := ord c =? 95.

(** The run of digits and underscores at the head of [s].  [prev_us] says
    that the previous character was an underscore, [seen] that a digit has
    been read.  Two underscores in a row, an underscore at the end of the
    run and a run with no digit are errors. *)
Fixpoint scan_digits (base : Z) (s : string) (prev_us seen : bool) (acc : Z)
  : option (Z * string) :=
  match s with
  | String c r =>
      if digit_value c <? base then
        scan_digits base r false true (acc * base + digit_value c)
      else if is_underscore c then
        if prev_us then None else scan_digits base r true seen acc
      else if prev_us || negb seen then None else Some (acc, s)
  | EmptyString => if prev_us || negb seen then None else Some (acc, s)
  end.

Definition skip_prefix (base : Z) (s : string) : string :=
  match s with
  | String c0 (String c1 r) =>
      if (base =? 16) && (ord c0 =? 48) && ((ord c1 =? 120) || (ord c1 =? 88))
      then match r with
           | String c2 r' => if is_underscore c2 then r' else r
           | EmptyString => r
           end
      else s
  | _ => s
  end.

(** [int(s, base)] for [base] 10 or 16; [None] is [ValueError].  On the
    code points below 256 the digits of [int] are those of ASCII.  ([int]
    also takes the decimal digits from U+0660 on; such strings are outside
    the model.) *)
Definition int_of_str (base : Z) (s : string) : option Z :=
  let s1 := lstrip (to_ascii_digits s) in
  let '(sign, s2) :=
    match s1 with
    | String c r =>
        if ord c =? 43 then (1, r) else if ord c =? 45 then (-1, r) else (1, s1)
    | EmptyString => (1, s1)
    end in
  let s3 := skip_prefix base s2 in
  match s3 with
  | String c _ =>
      if is_underscore c then None
      else
        match scan_digits base s3 false false 0 with
        | Some (v, rest) =>
            match lstrip rest with
            | EmptyString => Some (sign * v)
            | String _ _ => None
            end
        | None => None
        end
  | EmptyString => None
  end.

End Py.

(* ================================================================== *)
(** * hashlib.sha256 *)
(* ================================================================== *)

Module SHA256.

Definition w32 (x : Z) : Z := x mod 4294967296.

Definition rotr (n x : Z) : Z :=
  Z.lor (Z.shiftr x n) (w32 (Z.shiftl x (32 - n))).

Definition ch (x y z : Z) : Z :=
  Z.lxor (Z.land x y) (Z.land (Z.lxor x 4294967295) z).

Definition maj (x y z : Z) : Z :=
  Z.lxor (Z.lxor (Z.land x y) (Z.land x z)) (Z.land y z).

Definition bsig0 (x : Z) : Z := Z.lxor (Z.lxor (rotr 2 x) (rotr 13 x)) (rotr 22 x).
Definition bsig1 (x : Z) : Z := Z.lxor (Z.lxor (rotr 6 x) (rotr 11 x)) (rotr 25 x).
Definition ssig0 (x : Z) : Z := Z.lxor (Z.lxor (rotr 7 x) (rotr 18 x)) (Z.shiftr x 3).
Definition ssig1 (x : Z) : Z := Z.lxor (Z.lxor (rotr 17 x) (rotr 19 x)) (Z.shiftr x 10).

(** Round constants: the first 32 bits of the fractional parts of the cube
    roots of the first 64 primes. *)
Definition round_constants : list Z :=
  [ 1116352408; 1899447441; 3049323471; 3921009573; 961987163; 1508970993;
    2453635748; 2870763221; 3624381080; 310598401; 607225278; 1426881987;
    1925078388; 2162078206; 2614888103; 3248222580; 3835390401; 4022224774;
    264347078; 604807628; 770255983; 1249150122; 1555081692; 1996064986;
    2554220882; 2821834349; 2952996808; 3210313671; 3336571891; 3584528711;
    113926993; 338241895; 666307205; 773529912; 1294757372; 1396182291;
    1695183700; 1986661051; 2177026350; 2456956037; 2730485921; 2820302411;
    3259730800; 3345764771; 3516065817; 3600352804; 4094571909; 275423344;
    430227734; 506948616; 659060556; 883997877; 958139571; 1322822218;
    1537002063; 1747873779; 1955562222; 2024104815; 2227730452; 2361852424;
    2428436474; 2756734187; 3204031479; 3329325298 ].

(** Initial hash value: square roots of the first 8 primes. *)
Definition initial_hash : list Z :=
  [ 1779033703; 3144134277; 1013904242; 2773480762;
    1359893119; 2600822924; 528734635; 1541459225 ].

(** Padding: a one bit, zero bits up to 56 modulo 64 bytes, then the bit
    length on 8 bytes, big-endian. *)
Definition be_bytes (n : nat) (v : Z) : list Z :=
  map (fun i => (v / 256 ^ Z.of_nat i) mod 256) (rev (seq 0 n)).

Definition pad (msg : list Z) : list Z :=
  let l := Z.of_nat (List.length msg) in
  let k := (55 - l) mod 64 in
  (msg ++ [128] ++ repeat 0 (Z.to_nat k) ++ be_bytes 8 (8 * l))%list.

Fixpoint be_words (fuel : nat) (bs : list Z) : list Z :=
  match fuel, bs with
  | S f, b0 :: b1 :: b2 :: b3 :: r =>
      (((b0 * 256 + b1) * 256 + b2) * 256 + b3) :: be_words f r
  | _, _ => []
  end.

Fixpoint chunks16 (fuel : nat) (ws : list Z) : list (list Z) :=
  match fuel, ws with
  | S f, _ :: _ => firstn 16 ws :: chunks16 f (skipn 16 ws)
  | _, _ => []
  end.

(** Message schedule; [recent] holds the words so far, newest first. *)
Fixpoint schedule (n : nat) (recent : list Z) : list Z :=
  match n with
  | O => rev recent
  | S n' =>
      let w := w32 (ssig1 (nth 1 recent 0) + nth 6 recent 0
                    + ssig0 (nth 14 recent 0) + nth 15 recent 0) in
      schedule n' (w :: recent)
  end.

Definition round (st : list Z) (kw : Z * Z) : list Z :=
  match st with
  | [a; b; c; d; e; f; g; h] =>
      let t1 := h + bsig1 e + ch e f g + fst kw + snd kw in
      let t2 := bsig0 a + maj a b c in
      [w32 (t1 + t2); a; b; c; w32 (d + t1); e; f; g]
  | _ => st
  end.

Definition compress (h : list Z) (block : list Z) : list Z :=
  let w := schedule 48 (rev block) in
  let st := fold_left round (combine round_constants w) h in
  map (fun p => w32 (fst p + snd p)) (combine h st).

Definition digest_words (msg : list Z) : list Z :=
  let bs := pad msg in
  let ws := be_words (List.length bs) bs in
  fold_left compress (chunks16 (List.length ws) ws) initial_hash.

(** [hashlib.sha256(msg).hexdigest()] *)
Definition hexdigest (msg : list Z) : string :=
  String.concat EmptyString (map (Py.hex_of 8) (digest_words msg)).

End SHA256.

(* ================================================================== *)
(** * Python floats *)
(* ================================================================== *)

(** A finite binary64 value is the rational it denotes.  Each operation
    computes the exact result and rounds it to 53 significant bits, ties to
    even.  The exponent range of binary64 is modelled only where the program
    can leave it: in the conversion of an [int] of any size ([of_int]). *)
Module Float.

Definition float := Q.

(** Nearest integer to [p / q] for [q > 0], ties to even. *)
Definition round_half_even (p q : Z) : Z :=
  let f := p / q in
  let r := p mod q in
  if 2 * r <? q then f
  else if q <? 2 * r then f + 1
  else if Z.even f then f else f + 1.

(** The exponent [e] with [2^e <= a / d < 2^(e+1)], for [a, d > 0]. *)
Definition exponent (a d : Z) : Z :=
  let e0 := Z.log2 a - Z.log2 d in
  if a * 2 ^ Z.max 0 (- e0) <? d * 2 ^ Z.max 0 e0 then e0 - 1 else e0.

(** [m * 2^s] *)
Definition scale (m s : Z) : Q :=
  Qred (Qmake (m * 2 ^ Z.max 0 s) (Z.to_pos (2 ^ Z.max 0 (- s)))).

Definition rnd (x : Q) : float :=
  let n := Qnum x in
  let d := Zpos (Qden x) in
  if n =? 0 then 0%Q
  else
    let a := Z.abs n in
    let s := exponent a d - 52 in
    let m := round_half_even (a * 2 ^ Z.max 0 (- s)) (d * 2 ^ Z.max 0 s) in
    scale (Z.sgn n * m) s.

(** [float(z)]; [None] is [OverflowError]. *)
Definition of_int (z : Z) : option float :=
  let f := rnd (inject_Z z) in
  if Qle_bool (inject_Z (2 ^ 1024)) (Qabs f) then None else Some f.

(** [a / b] on two [int]s, [b <> 0]: correctly rounded. *)
Definition truediv_int (a b : Z) : float := rnd (inject_Z a / inject_Z b).

Definition mul (a b : float) : float := rnd (a * b).
Definition div (a b : float) : float := rnd (a / b).

(** [int(x)]: truncation towards zero. *)
Definition to_int (x : float) : Z := Z.quot (Qnum x) (Zpos (Qden x)).

End Float.

(* ================================================================== *)
(** * datetime *)
(* ================================================================== *)

Module Datetime.

(** An aware [datetime] in UTC. *)
Record datetime : Type := mkDatetime {
  year : Z; month : Z; day : Z;
  hour : Z; minute : Z; second : Z; microsecond : Z
}.

(** A [timedelta], in microseconds. *)
Definition timedelta := Z.

Definition timedelta_seconds (s : Z) : timedelta := s * 1000000.

Definition is_leap (y : Z) : bool :=
  (y mod 4 =? 0) && (negb (y mod 100 =? 0) || (y mod 400 =? 0)).

Definition days_in_month (y m : Z) : Z :=
  if m =? 2 then (if is_leap y then 29 else 28)
  else if (m =? 4) || (m =? 6) || (m =? 9) || (m =? 11) then 30
  else 31.

Definition days_before_year (y : Z) : Z :=
  let y' := y - 1 in y' * 365 + y' / 4 - y' / 100 + y' / 400.

Fixpoint days_before_month_nat (y : Z) (m : nat) : Z :=
  match m with
  | O => 0
  | S m' => days_before_month_nat y m' + days_in_month y (Z.of_nat m)
  end.

Definition days_before_month (y m : Z) : Z :=
  days_before_month_nat y (Z.to_nat (m - 1)).

(** Proleptic Gregorian ordinal; 1 January of year 1 is day 1. *)
Definition toordinal (d : datetime) : Z :=
  days_before_year (year d) + days_before_month (year d) (month d) + day d.

(** The checks of the [datetime] constructor. *)
Definition valid (d : datetime) : bool :=
  (1 <=? year d) && (year d <=? 9999)
  && (1 <=? month d) && (month d <=? 12)
  && (1 <=? day d) && (day d <=? days_in_month (year d) (month d))
  && (0 <=? hour d) && (hour d <=? 23)
  && (0 <=? minute d) && (minute d <=? 59)
  && (0 <=? second d) && (second d <=? 59)
  && (0 <=? microsecond d) && (microsecond d <=? 999999).

(** Comparison of two aware datetimes of the same offset: the fields in
    order. *)
Definition cmp (a b : datetime) : comparison :=
  fold_right (fun (c rest : comparison) => match c with Eq => rest | _ => c end) Eq
    [ year a ?= year b; month a ?= month b; day a ?= day b;
      hour a ?= hour b; minute a ?= minute b; second a ?= second b;
      microsecond a ?= microsecond b ].

(** [a <= b] *)
Definition leb (a b : datetime) : bool :=
  match cmp a b with Gt => false | _ => true end.

(** [a - b] *)
Definition sub (a b : datetime) : timedelta :=
  ((toordinal a - toordinal b) * 86400
   + (hour a - hour b) * 3600 + (minute a - minute b) * 60
   + (second a - second b)) * 1000000
  + (microsecond a - microsecond b).

(** [t1 / t2] on two [timedelta]s: the quotient of the microsecond counts,
    a [float]. *)
Definition truediv (t1 t2 : timedelta) : Float.float := Float.truediv_int t1 t2.

Definition digit (v : Z) : ascii := Py.chr (48 + v).

Definition pad2 (v : Z) : string :=
  String (digit (v / 10)) (String (digit (v mod 10)) EmptyString).

(** [d.strftime('%Y%m%d%H%M%S')].  The C library writes the year without
    leading zeros, the other fields on two digits. *)
Definition strftime (d : datetime) : string :=
  Py.str_of_nat (Z.to_nat (year d))
  ++ pad2 (month d) ++ pad2 (day d)
  ++ pad2 (hour d) ++ pad2 (minute d) ++ pad2 (second d).

Definition is_digit (c : ascii) : bool :=
  let o := Py.ord c in (48 <=? o) && (o <=? 57).

Definition dval (c : ascii) : Z := Py.ord c - 48.

Definition two (a b : ascii) : Z := dval a * 10 + dval b.

(** The two-character alternatives of the directives' patterns. *)
Definition month_pat (a b : ascii) : bool :=
  is_digit a && is_digit b && (1 <=? two a b) && (two a b <=? 12).

Definition day_pat (a b : ascii) : bool :=
  (is_digit a && is_digit b && (1 <=? two a b) && (two a b <=? 31))
  || ((Py.ord a =? 32) && is_digit b && (1 <=? dval b)).

Definition hour_pat (a b : ascii) : bool :=
  is_digit a && is_digit b && (two a b <=? 23).

Definition minute_pat (a b : ascii) : bool :=
  is_digit a && is_digit b && (two a b <=? 59).

Definition second_pat (a b : ascii) : bool :=
  is_digit a && is_digit b && (two a b <=? 61).

Definition day_value (a b : ascii) : Z :=
  if Py.ord a =? 32 then dval b else two a b.

(** [datetime.strptime(s, '%Y%m%d%H%M%S')] on a string [s] of 14
    characters, which is what [parse] passes.  On 14 characters the pattern
    of the format matches the whole string exactly when every directive after
    the year takes two characters; the fields then go through the checks of
    the constructor.  [None] stands for [ValueError].  Strings of another
    length are outside this model and are given [None].  So are the strings
    with a code point from U+0100 on, where the pattern also takes the
    decimal digits of other scripts. *)
Definition strptime (s : string) : option datetime :=
  match s with
  | String y1 (String y2 (String y3 (String y4
    (String m1 (String m2 (String d1 (String d2
    (String h1 (String h2 (String n1 (String n2
    (String s1 (String s2 EmptyString))))))))))))) =>
      if is_digit y1 && is_digit y2 && is_digit y3 && is_digit y4
         && month_pat m1 m2 && day_pat d1 d2
         && hour_pat h1 h2 && minute_pat n1 n2 && second_pat s1 s2
      then
        let dt := {| year := ((dval y1 * 10 + dval y2) * 10 + dval y3) * 10 + dval y4;
                     month := two m1 m2; day := day_value d1 d2;
                     hour := two h1 h2; minute := two n1 n2; second := two s1 s2;
                     microsecond := 0 |} in
        if valid dt then Some dt else None
      else None
  | _ => None
  end.

End Datetime.

(* ================================================================== *)
(** * messages.py: class Message_v0 *)
(* ================================================================== *)

Module Message_v0.
Import Py Datetime.

Definition format_bytes : Z := 16.
Definition version_bytes : Z := 1.
Definition timestamp_bytes : Z := 14.
Definition nonce_bytes : Z := 10.
Definition checksum_bytes : Z := 12.
Definition pow_bytes : Z := 8.
Definition pow_target : Z := 2 ^ (8 * pow_bytes / 2) - 1.
Definition overhead_bytes : Z :=
  format_bytes + timestamp_bytes + nonce_bytes + version_bytes + checksum_bytes.
Definition min_message_bytes : Z := 8 + overhead_bytes.
Definition max_payload_bytes : Z := 128.
Definition max_message_bytes : Z := max_payload_bytes + overhead_bytes.
Definition min_message_age : timedelta := timedelta_seconds 10.

(** [2**(4*pow_bytes) - 1], the bound on a proof of work. *)
Definition pow_max : Z := 2 ^ (4 * pow_bytes) - 1.

Definition dq : string := String (chr 34) EmptyString.
Definition nl : string := String (chr 10) EmptyString.

Definition get_checksum (payload : string) : string :=
  slice (SHA256.hexdigest (encode_utf8 payload)) 0 checksum_bytes.

(** [None] stands for the [ValueError] of [int]. *)
Definition get_initial_pow (timestamp nonce checksum : string) (target : Z)
  : option Z :=
  let digest :=
    SHA256.hexdigest
      (encode_utf8 timestamp ++ encode_utf8 nonce ++ encode_utf8 checksum)%list in
  match int_of_str 16 (slice digest 0 pow_bytes) with
  | Some h => Some (Z.abs (target - h))
  | None => None
  end.

Record Message : Type := mkMessage {
  version : string;
  timestamp_str : option string;
  timestamp_obj : option datetime;
  nonce : option string;
  checksum : option string;
  payload : option string;
  initial_pow : option Z;
  current_pow : option Z;
  utc_now : option datetime
}.

(** [Message_v0()]: what [__init__] sets. *)
Definition __init__ : Message :=
  {| version := "0"; timestamp_str := None; timestamp_obj := None;
     nonce := None; checksum := None; payload := None;
     initial_pow := None; current_pow := None; utc_now := None |}.

(** How [format] writes an attribute that may be [None]. *)
Definition fmt (o : option string) : string :=
  match o with Some s => s | None => "None" end.

(** [str(self)] *)
Definition __str__ (self : Message) : string :=
  "[" ++ dq ++ version self ++ dq ++ "," ++ dq ++ fmt (timestamp_str self)
  ++ dq ++ "," ++ dq ++ fmt (nonce self) ++ dq ++ "," ++ dq
  ++ fmt (checksum self) ++ dq ++ "," ++ dq ++ fmt (payload self) ++ dq ++ "]".

(** The clock is read where the caller passes no time: [clock] is what
    [datetime.now(timezone.utc)] answers then. *)
Definition now_or (utc_now : option datetime) (clock : datetime) : datetime :=
  match utc_now with Some t => t | None => clock end.

Definition set_timestamp (self : Message) (utc_now : option datetime)
  (clock : datetime) : Message :=
  let t := now_or utc_now clock in
  {| version := version self;
     timestamp_str := Some (strftime t); timestamp_obj := Some t;
     nonce := nonce self; checksum := checksum self; payload := payload self;
     initial_pow := initial_pow self; current_pow := current_pow self;
     utc_now := Message_v0.utc_now self |}.

(** [set_payload].  The payload is assigned before its checksum is taken:
    on a payload holding a lone surrogate the [encode] of [get_checksum]
    raises [UnicodeEncodeError] and leaves the new payload with the old
    checksum.  No string of this development holds a surrogate, so this
    exit does not appear below. *)
Definition set_payload (self : Message) (new_payload : string)
  : result Message unit :=
  if len new_payload >? max_payload_bytes then
    Exc (RuntimeError "Payload too large") self
  else
    let cs := get_checksum new_payload in
    let n := match nonce self with
             | Some n => n
             | None => String.concat EmptyString (repeat "a" (Z.to_nat nonce_bytes))
             end in
    let self1 :=
      {| version := version self;
         timestamp_str := timestamp_str self; timestamp_obj := timestamp_obj self;
         nonce := Some n; checksum := Some cs; payload := Some new_payload;
         initial_pow := initial_pow self; current_pow := current_pow self;
         utc_now := Message_v0.utc_now self |} in
    match timestamp_str self with
    | None => Exc AttributeError self1
    | Some ts =>
        match get_initial_pow ts n cs pow_target with
        | None => Exc ValueError self1
        | Some p =>
            Ret tt
              {| version := version self;
                 timestamp_str := timestamp_str self;
                 timestamp_obj := timestamp_obj self;
                 nonce := Some n; checksum := Some cs; payload := Some new_payload;
                 initial_pow := Some p; current_pow := current_pow self;
                 utc_now := Message_v0.utc_now self |}
        end
    end.

(** The value [update_pow] and [parse] give to [current_pow]:
    [min(2**(4*pow_bytes) - 1, int(initial_pow * age * size))] with
    [age = max(now - timestamp, min_message_age) / min_message_age] and
    [size = max(length, min_message_bytes) / min_message_bytes]. *)
Definition scaled_pow (initial : Z) (now stamp : datetime) (length : Z) : Z :=
  let age := truediv (Z.max (sub now stamp) min_message_age) min_message_age in
  let size := Float.truediv_int (Z.max length min_message_bytes) min_message_bytes in
  Z.min (2 ^ (4 * pow_bytes) - 1)
        (Float.to_int (Float.mul (Float.mul (Float.rnd (inject_Z initial)) age) size)).

Definition set_current_pow (self : Message) (p : option Z) : Message :=
  {| version := version self;
     timestamp_str := timestamp_str self; timestamp_obj := timestamp_obj self;
     nonce := nonce self; checksum := checksum self; payload := payload self;
     initial_pow := initial_pow self; current_pow := p;
     utc_now := Message_v0.utc_now self |}.

Definition update_pow (self : Message) (utc_now : datetime) : result Message unit :=
  match timestamp_obj self, initial_pow self with
  | Some stamp, Some initial =>
      Ret tt (set_current_pow self
                (Some (scaled_pow initial utc_now stamp (len (__str__ self)))))
  | _, _ => Exc TypeError self
  end.

Definition alphabet : string :=
  "abcdefghijklmnopqrstuvwxyzABCDEFGHIJKLMNOPQRSTUVWXYZ0123456789".

(** [itertools.product(chars, repeat = n)], each tuple joined into a string:
    the rightmost position advances first. *)
Fixpoint product (chars : list ascii) (repeat : nat) : list string :=
  match repeat with
  | O => [EmptyString]
  | S n => flat_map (fun c => map (String c) (product chars n)) chars
  end.

Inductive search_result : Type :=
| Found (tries : Z) (candidate : string) (initial : Z)
| Exhausted (tries : Z)
| Failed (e : exn).

(** The [for] loop of [update_nonce] over the candidates left. *)
Fixpoint search (ts cs : string) (required_pow : Z) (candidates : list string)
  (tries : Z) : search_result :=
  match candidates with
  | [] => Exhausted tries
  | candidate :: rest =>
      let tries := tries + 1 in
      match get_initial_pow ts candidate cs pow_target with
      | None => Failed ValueError
      | Some p =>
          if p <? required_pow then Found tries candidate p
          else search ts cs required_pow rest tries
      end
  end.

Definition update_nonce (self : Message) (required_pow : Z)
  (utc_now : option datetime) (clock : datetime) : result Message Z :=
  let required_pow :=
    if required_pow <? 0 then 2 ^ (4 * pow_bytes) - 1 else required_pow in
  let self1 :=
    {| version := version self;
       timestamp_str := timestamp_str self; timestamp_obj := timestamp_obj self;
       nonce := nonce self; checksum := checksum self; payload := payload self;
       initial_pow := None; current_pow := None;
       utc_now := Message_v0.utc_now self |} in
  match timestamp_str self, checksum self with
  | Some ts, Some cs =>
      match search ts cs required_pow
              (product (list_ascii_of_string alphabet) (Z.to_nat nonce_bytes)) 0 with
      | Failed e => Exc e self1
      | Exhausted _ =>
          Exc (RuntimeError "Couldn't reach target proof of work") self1
      | Found tries candidate p =>
          let self2 :=
            {| version := version self;
               timestamp_str := timestamp_str self;
               timestamp_obj := timestamp_obj self;
               nonce := Some candidate; checksum := checksum self;
               payload := payload self;
               initial_pow := Some p; current_pow := None;
               utc_now := Message_v0.utc_now self |} in
          match update_pow self2 (now_or utc_now clock) with
          | Ret _ self3 => Ret tries self3
          | Exc e self3 => Exc e self3
          end
      end
  | _, _ => Exc AttributeError self1
  end.

(** [parse]: the reply and the object afterwards. *)
Definition parse (self : Message) (s : string) (required_pow : Z)
  (utc_now : option datetime) (clock : datetime) : result Message string :=
  if len s <? overhead_bytes then
    Ret ("Message too short: " ++ str_of_nat (String.length s) ++ "<"
         ++ str_of_nat (Z.to_nat overhead_bytes) ++ nl) self
  else if negb (startswith s ("[" ++ dq ++ "0" ++ dq ++ "," ++ dq)) then
    Ret ("Wrong format/version" ++ nl) self
  else if negb (endswith s (dq ++ "]")) then
    Ret ("Wrong format/payload" ++ nl) self
  else
    let d_start := 5 + version_bytes in
    let d_end := d_start + timestamp_bytes in
    let timestamp_str := slice s d_start d_end in
    match int_of_str 10 timestamp_str with
    | None => Ret ("Wrong format/datetime" ++ nl) self
    | Some _ =>
    let utc_now := now_or utc_now clock in
    if str_gt timestamp_str (strftime utc_now) then
      Ret ("Datetime in future" ++ nl) self
    else
    let n_start := 3 + d_end in
    let n_end := n_start + nonce_bytes in
    let nonce := slice s n_start n_end in
    let c_start := 3 + n_end in
    let c_end := c_start + checksum_bytes in
    let checksum := slice s c_start c_end in
    match get_initial_pow timestamp_str nonce checksum pow_target with
    | None => Exc ValueError self
    | Some initial_pow =>
    if initial_pow >? required_pow then
      match to_bytes_hex (Z.to_nat (pow_bytes / 2)) required_pow with
      | Some h => Ret ("Required PoW: 0x" ++ h ++ nl) self
      | None => Exc OverflowError self
      end
    else
    match strptime timestamp_str with
    | None => Ret ("Wrong format/datetime" ++ nl) self
    | Some timestamp_obj =>
    let p_start := 3 + c_end in
    let payload := slice s p_start (-2) in
    let checksum_reference := get_checksum payload in
    if negb (String.eqb checksum checksum_reference) then
      Ret ("Wrong checksum" ++ nl) self
    else
    let current_pow := scaled_pow initial_pow utc_now timestamp_obj (len s) in
    if current_pow >? required_pow then
      match to_bytes_hex (Z.to_nat (pow_bytes / 2)) required_pow with
      | Some h => Ret ("Required PoW: 0x" ++ h ++ nl) self
      | None => Exc OverflowError self
      end
    else
      Ret EmptyString
        {| version := version self;
           timestamp_str := Some timestamp_str;
           timestamp_obj := Some timestamp_obj;
           nonce := Some nonce; checksum := Some checksum;
           payload := Some payload;
           initial_pow := Some initial_pow; current_pow := Some current_pow;
           utc_now := Message_v0.utc_now self |}
    end end end.

End Message_v0.

(* ================================================================== *)
(** * server1.py *)
(* ================================================================== *)

Module Server.
Import Py Datetime Message_v0.

(** What is fixed once the server runs: the module globals [utc_now] and
    [max_storage], and the wall clock, given as the answers of the
    successive calls of [datetime.now(timezone.utc)]. *)
Record Env : Type := mkEnv {
  utc_now : option datetime;
  max_storage : Z;
  wall : nat -> datetime
}.

(** The module globals that change, and the number of clock readings so
    far.  [messages] is the dict in insertion order, keyed by
    [initial_pow]. *)
Record State : Type := mkState {
  messages : list (Z * Message);
  required_pow : Z;
  ticks : nat
}.

Definition initial_state : State :=
  {| messages := []; required_pow := 2 ^ (4 * pow_bytes) - 1; ticks := 0 |}.

(** One reading of the clock, made only where [utc_now] is [None]. *)
Definition tick (env : Env) (n : nat) : nat :=
  match utc_now env with Some _ => n | None => S n end.

(** [d[k] = v]: an existing key keeps its place. *)
Fixpoint dict_set (d : list (Z * Message)) (k : Z) (v : Message)
  : list (Z * Message) :=
  match d with
  | [] => [(k, v)]
  | (k', v') :: r => if k' =? k then (k, v) :: r else (k', v') :: dict_set r k v
  end.

(** [d.pop(k, None)] *)
Fixpoint dict_pop (d : list (Z * Message)) (k : Z) : list (Z * Message) :=
  match d with
  | [] => []
  | (k', v') :: r => if k' =? k then r else (k', v') :: dict_pop r k
  end.

Fixpoint storage_of (d : list (Z * Message)) : Z :=
  match d with
  | [] => 0
  | (_, m) :: r => len (__str__ m) + storage_of r
  end.

Definition get_storage_used (st : State) : Z := storage_of (messages st).

(** The loop of [get_worst_pow]: [done] holds the entries already visited,
    last first. *)
Fixpoint worst_loop (env : Env) (todo done : list (Z * Message)) (n : nat)
  (worst_initial worst_current : Z)
  : result (list (Z * Message) * nat) (Z * Z) :=
  match todo with
  | [] => Ret (worst_initial, worst_current) (rev done, n)
  | (initial_pow, message) :: rest =>
      match update_pow message (now_or (utc_now env) (wall env n)) with
      | Exc e message' =>
          Exc e (rev done ++ (initial_pow, message') :: rest, tick env n)%list
      | Ret _ message' =>
          match current_pow message' with
          | None => Exc TypeError
                      (rev done ++ (initial_pow, message') :: rest, tick env n)%list
          | Some c =>
              if worst_current <? c
              then worst_loop env rest ((initial_pow, message') :: done)
                     (tick env n) initial_pow c
              else worst_loop env rest ((initial_pow, message') :: done)
                     (tick env n) worst_initial worst_current
          end
      end
  end.

Definition get_worst_pow (env : Env) (st : State) : result State (Z * Z) :=
  match worst_loop env (messages st) [] (ticks st) 0 0 with
  | Ret w (d, n) =>
      Ret w {| messages := d; required_pow := required_pow st; ticks := n |}
  | Exc e (d, n) =>
      Exc e {| messages := d; required_pow := required_pow st; ticks := n |}
  end.

(** How a call of [handle_message] ends: a reply is written and the
    handler returns, the process exits after a reply, or an exception
    leaves the handler.  [OutOfFuel] is the model's own: the loop was cut. *)
Inductive outcome : Type :=
| Replied (reply : string) (st : State)
| Exited (reply : string) (st : State)
| Raised (e : exn) (st : State)
| OutOfFuel (st : State).

(** The [while] loop that makes room, then the insertion. *)
Fixpoint make_room (fuel : nat) (env : Env) (message : Message) (msg_str : string)
  (st : State) : outcome :=
  if (0 <? Z.of_nat (List.length (messages st)))
     && (len msg_str + get_storage_used st >? max_storage env)
  then
    match fuel with
    | O => OutOfFuel st
    | S fuel' =>
        match get_worst_pow env st with
        | Exc e st' => Raised e st'
        | Ret (worst_initial, worst_current) st' =>
            match current_pow message with
            | None => Raised TypeError st'
            | Some c =>
                if c >? worst_current then
                  match to_bytes_hex (Z.to_nat (pow_bytes / 2)) worst_current with
                  | Some h => Replied ("Required pow: 0x" ++ h ++ nl) st'
                  | None => Raised OverflowError st'
                  end
                else
                  make_room fuel' env message msg_str
                    {| messages := dict_pop (messages st') worst_initial;
                       required_pow := required_pow st'; ticks := ticks st' |}
            end
        end
    end
  else
    match initial_pow message, current_pow message with
    | Some i, Some c =>
        Replied ("ok" ++ nl)
          {| messages := dict_set (messages st) i message;
             required_pow := Z.max (required_pow st) c; ticks := ticks st |}
    | _, _ => Raised TypeError st
    end.

Fixpoint all_messages (d : list (Z * Message)) : string :=
  match d with
  | [] => EmptyString
  | (_, m) :: r => __str__ m ++ nl ++ all_messages r
  end.

(** [message.payload == p] *)
Definition payload_is (message : Message) (p : string) : bool :=
  match payload message with
  | Some q => String.eqb q p
  | None => false
  end.

(** [handle_message] from the call of [parse] on: [s] is the decoded data,
    a string of characters below U+0100.  The decoding itself is in
    [handle_data] below. *)
Definition handle_message (fuel : nat) (env : Env) (st : State) (s : string)
  : outcome :=
  let st1 := {| messages := messages st; required_pow := required_pow st;
                ticks := tick env (ticks st) |} in
  match parse __init__ s (required_pow st) (utc_now env) (wall env (ticks st)) with
  | Exc e _ => Raised e st1
  | Ret reply message =>
      if negb (String.eqb reply EmptyString) then Replied reply st1
      else if payload_is message "__info__" then
        match to_bytes_hex (Z.to_nat (pow_bytes / 2)) (required_pow st1) with
        | Some h => Replied ("Required pow: 0x" ++ h ++ nl) st1
        | None => Raised OverflowError st1
        end
      else if payload_is message "__messages__" then
        Replied (all_messages (messages st1)) st1
      else if payload_is message "__exit__" then
        match utc_now env with
        | Some _ => Exited ("Exiting..." ++ nl) st1
        | None => Replied ("Ignoring __exit__" ++ nl) st1
        end
      else if payload_is message "__memory__" then
        match utc_now env with
        | Some _ =>
            Replied ("Total memory used by messages: "
                     ++ str_of_nat (Z.to_nat (get_storage_used st1)) ++ nl) st1
        | None => Replied ("Ignoring __memory__" ++ nl) st1
        end
      else make_room fuel env message (__str__ message) st1
  end.

(** The states the server can be in when a handler starts: from the
    initial state, through any number of handlers that returned or were
    left by an exception. *)
Inductive reachable (env : Env) : State -> Prop :=
| reach_init : reachable env initial_state
| reach_reply : forall fuel st s reply st',
    reachable env st ->
    handle_message fuel env st s = Replied reply st' ->
    reachable env st'
| reach_raise : forall fuel st s e st',
    reachable env st ->
    handle_message fuel env st s = Raised e st' ->
    reachable env st'.

(** [handle_message] from the bytes read.  On bytes that are not UTF-8
    [data.decode('utf-8')] raises [UnicodeDecodeError] before [parse] is
    called: nothing catches it, no reply is written, and the globals are as
    they were.  On bytes that decode to a string of this development the
    handler goes on as [handle_message] has it.  On bytes that decode to a
    [str] with a character from U+0100 on the answer is [None]: the
    development does not say what the handler does. *)
Definition handle_data (fuel : nat) (env : Env) (st : State) (data : list Z)
  : option outcome :=
  match decode_utf8 data with
  | None => Some (Raised UnicodeDecodeError st)
  | Some cps =>
      match str_of_code_points cps with
      | None => None
      | Some s => Some (handle_message fuel env st s)
      end
  end.

(** The states the server can be in when a handler starts, as long as the
    data received so far was not UTF-8 or decoded to characters below
    U+0100. *)
Inductive reachable_by_data (env : Env) : State -> Prop :=
| by_data_init : reachable_by_data env initial_state
| by_data_reply : forall fuel st data reply st',
    reachable_by_data env st ->
    handle_data fuel env st data = Some (Replied reply st') ->
    reachable_by_data env st'
| by_data_raise : forall fuel st data e st',
    reachable_by_data env st ->
    handle_data fuel env st data = Some (Raised e st') ->
    reachable_by_data env st'.

End Server.

(* ================================================================== *)
(** * generate1.py *)
(* ================================================================== *)

Module Generate.
Import Py Datetime Message_v0.

Inductive scaled : Type :=
| Passed (required_pow : Z)
| Exit_with (msg : string)
| Raise (e : exn).

(** From the check of [--duration] to the value [args.pow] has when
    [update_nonce] is called: [w] is [int(args.pow, 16)], [d] is
    [args.duration] as parsed. *)
Definition scale_pow (w d : Z) : scaled :=
  if d <=? 0 then Exit_with "Message duration must be > 0"
  else if 999999999 <? d / 86400 then Raise OverflowError
  else
    let duration := timedelta_seconds d in
    let age := truediv (Z.max duration min_message_age) min_message_age in
    match Float.of_int w with
    | None => Raise OverflowError
    | Some wf => Passed (Float.to_int (Float.div wf age))
    end.

(** What [--debug] prints after the message: the two proofs of work, 8
    hexadecimal digits each.  [print] puts a blank between its arguments. *)
Definition debug_text (message : Message) : exn + string :=
  match initial_pow message with
  | None => inl AttributeError
  | Some ip =>
      match to_bytes_hex (Z.to_nat (pow_bytes / 2)) ip with
      | None => inl OverflowError
      | Some ipow =>
          match current_pow message with
          | None => inl AttributeError
          | Some cp =>
              match to_bytes_hex (Z.to_nat (pow_bytes / 2)) cp with
              | None => inl OverflowError
              | Some cpow =>
                  inr (", init PoW: " ++ ipow ++ "  current PoW: " ++ cpow)
              end
          end
      end
  end.

(** How the loop ends: after the last payload, or with an exception that
    nothing catches; [unfinished] is what was printed of a line that was
    not ended. *)
Inductive ended : Type :=
| Finished
| Stopped (unfinished : string) (e : exn).

(** The loop over [args.message].  [pow] is [args.pow] after the scaling,
    [current_time] and [message_time] are the two options after parsing,
    [wall] is what the successive readings of the clock answer and [n] the
    number of readings so far: each turn reads the clock twice, whether or
    not the options replace what it read.  The one [message] object is used
    for all payloads.  The result is the lines printed, without their
    newline, and how the loop ended. *)
Fixpoint main_loop (pow : Z) (current_time message_time : option datetime)
  (debug : bool) (wall : nat -> datetime) (n : nat) (message : Message)
  (payloads : list string) : list string * ended :=
  match payloads with
  | [] => ([], Finished)
  | payload :: rest =>
      let current_time' := now_or current_time (wall n) in
      let message_time' := now_or message_time (wall (S n)) in
      let message1 := set_timestamp message (Some message_time') message_time' in
      match set_payload message1 payload with
      | Exc e _ => ([], Stopped EmptyString e)
      | Ret _ message2 =>
          match update_nonce message2 pow (Some current_time') current_time' with
          | Exc e _ => ([], Stopped EmptyString e)
          | Ret _ message3 =>
              match (if debug then debug_text message3 else inr EmptyString) with
              | inl e => ([], Stopped (__str__ message3) e)
              | inr d =>
                  let (lines, e) :=
                    main_loop pow current_time message_time debug wall
                      (S (S n)) message3 rest in
                  ((__str__ message3 ++ d) :: lines, e)
              end
          end
      end
  end.

(** [line] is what a turn of the loop prints for [payload]. *)
Definition printed_for (pow : Z) (current_time message_time : option datetime)
  (debug : bool) (wall : nat -> datetime) (payload line : string) : Prop :=
  exists (n : nat) (message message2 message3 : Message) (tries : Z) (d : string),
    version message = "0"
    /\ set_payload
         (set_timestamp message (Some (now_or message_time (wall (S n))))
            (now_or message_time (wall (S n)))) payload
       = Ret tt message2
    /\ update_nonce message2 pow (Some (now_or current_time (wall n)))
         (now_or current_time (wall n))
       = Ret tries message3
    /\ (if debug then debug_text message3 else inr EmptyString) = inr d
    /\ line = __str__ message3 ++ d.

(** The clock of the sample runs: it always answers 2 January 2000,
    03:04:05. *)
Definition sample_wall (n : nat) : datetime := mkDatetime 2000 1 2 3 4 5 0.

End Generate.

(* ================================================================== *)
(** * Vocabulary of the statements *)
(* ================================================================== *)

Module Spec.
Import Py Datetime Message_v0 Server.

Fixpoint all_chars (p : ascii -> bool) (s : string) : bool :=
  match s with
  | EmptyString => true
  | String c r => p c && all_chars p r
  end.

(** The number a string of digits denotes, most significant digit first. *)
Fixpoint digits_value (base acc : Z) (s : string) : Z :=
  match s with
  | EmptyString => acc
  | String c r => digits_value base (acc * base + digit_value c) r
  end.

Definition is_digit_of (base : Z) (c : ascii) : bool := digit_value c <? base.

(** Eight words of 32 bits. *)
Definition is_state (h : list Z) : Prop :=
  List.length h = 8%nat /\ Forall (fun w => 0 <= w < 4294967296) h.

(** The first word of the digest. *)
Definition first_word (msg : list Z) : Z := nth 0 (SHA256.digest_words msg) 0.

(** The bytes that are hashed for the proof of work. *)
Definition pow_input (timestamp nonce checksum : string) : list Z :=
  (encode_utf8 timestamp ++ encode_utf8 nonce ++ encode_utf8 checksum)%list.

(** ** The verifier, as an ordered list of checks *)

(** The fields [parse] cuts out of [s]. *)
Definition field_timestamp (s : string) : string := slice s 6 20.
Definition field_nonce (s : string) : string := slice s 23 33.
Definition field_checksum (s : string) : string := slice s 36 48.
Definition field_payload (s : string) : string := slice s 51 (-2).

Definition is_some {A : Type} (o : option A) : bool :=
  match o with Some _ => true | None => false end.

(** The initial and the current proof of work of the frame [s]; 0 stands
    where an earlier check has already failed. *)
Definition frame_initial_pow (s : string) : Z :=
  match get_initial_pow (field_timestamp s) (field_nonce s) (field_checksum s)
          pow_target with
  | Some p => p
  | None => 0
  end.

Definition frame_current_pow (s : string) (now : datetime) : Z :=
  match strptime (field_timestamp s) with
  | Some t => scaled_pow (frame_initial_pow s) now t (len s)
  | None => 0
  end.

(** The checks in their order: whether the check passes, and the
    diagnostic when it does not. *)
Definition verifier_checks (s : string) (required_pow : Z) (now : datetime)
  : list (bool * string) :=
  [ (53 <=? len s,
     "Message too short: " ++ str_of_nat (String.length s) ++ "<53" ++ nl);
    (startswith s ("[" ++ dq ++ "0" ++ dq ++ "," ++ dq),
     "Wrong format/version" ++ nl);
    (endswith s (dq ++ "]"), "Wrong format/payload" ++ nl);
    (is_some (int_of_str 10 (field_timestamp s)), "Wrong format/datetime" ++ nl);
    (negb (str_gt (field_timestamp s) (strftime now)), "Datetime in future" ++ nl);
    (frame_initial_pow s <=? required_pow,
     "Required PoW: 0x" ++ hex_of 8 required_pow ++ nl);
    (is_some (strptime (field_timestamp s)), "Wrong format/datetime" ++ nl);
    (String.eqb (field_checksum s) (get_checksum (field_payload s)),
     "Wrong checksum" ++ nl);
    (frame_current_pow s now <=? required_pow,
     "Required PoW: 0x" ++ hex_of 8 required_pow ++ nl) ].

(** The diagnostic of the first check that fails; the empty string when
    every check passes. *)
Fixpoint first_failure (checks : list (bool * string)) : string :=
  match checks with
  | [] => EmptyString
  | (true, _) :: rest => first_failure rest
  | (false, d) :: _ => d
  end.

(** The message [parse] leaves when every check passes. *)
Definition parsed (self : Message) (s : string) (now : datetime) : Message :=
  mkMessage (version self)
    (Some (field_timestamp s)) (strptime (field_timestamp s))
    (Some (field_nonce s)) (Some (field_checksum s)) (Some (field_payload s))
    (Some (frame_initial_pow s)) (Some (frame_current_pow s now))
    (Message_v0.utc_now self).

(** The wire form with the given fields. *)
Definition frame (timestamp nonce checksum payload : string) : string :=
  "[" ++ dq ++ "0" ++ dq ++ "," ++ dq ++ timestamp ++ dq ++ "," ++ dq ++ nonce
  ++ dq ++ "," ++ dq ++ checksum ++ dq ++ "," ++ dq ++ payload ++ dq ++ "]".

(** 2 January 2000, 03:04:05 *)
Definition sample_now : datetime := mkDatetime 2000 1 2 3 4 5 0.

(** A frame whose timestamp characters are a sign and 13 digits. *)
Definition signed_timestamp_frame : string :=
  frame "+2000010203040" "aaaaaaaaaa" "e3b0c44298fc" EmptyString.

(** The number that the first six fields of a datetime write in
    YYYYMMDDhhmmss. *)
Definition stamp_number (d : datetime) : Z :=
  year d * 10000000000 + month d * 100000000 + day d * 1000000
  + hour d * 10000 + minute d * 100 + second d.

Definition four_digits (y : Z) : string :=
  String (digit (y / 1000)) (String (digit (y / 100 mod 10))
    (String (digit (y / 10 mod 10)) (String (digit (y mod 10)) EmptyString))).

Definition starts_with_nonzero_digit (s : string) : bool :=
  match s with
  | String c _ => (49 <=? ord c) && (ord c <=? 57)
  | EmptyString => false
  end.

(** What [strftime] needs of the decimal writing of a year: four digits
    from 1000 on, no leading zero below. *)
Definition year_ok (y : Z) (s : string) : bool :=
  if y <? 1000 then starts_with_nonzero_digit s
  else String.eqb s (four_digits y).

(** [year_ok] on [k] successive years from [y] on, [u] being the
    little-endian decimal writing of [y]. *)
Fixpoint year_table (k : nat) (y : Z) (u : Decimal.uint) : bool :=
  match k with
  | O => true
  | S k' =>
      year_ok y (NilZero.string_of_uint (Decimal.rev u))
      && year_table k' (y + 1) (Decimal.Little.succ u)
  end.

(** A valid, fully initialized message: version 0, a timestamp of 14
    digits that parses to the instant the message holds, a nonce of
    [nonce_bytes] characters, and the checksum of the payload. *)
Definition valid_message (m : Message) : Prop :=
  version m = "0"
  /\ exists ts t n p,
       timestamp_str m = Some ts /\ all_chars is_digit ts = true
       /\ timestamp_obj m = Some t /\ strptime ts = Some t
       /\ nonce m = Some n /\ len n = nonce_bytes
       /\ payload m = Some p /\ checksum m = Some (get_checksum p).

(** The timestamp that a message holds is not after [now]. *)
Definition not_after (m : Message) (now : datetime) : Prop :=
  exists t, timestamp_obj m = Some t /\ leb t now = true.

(** The message of scenario 1: empty payload, stamped at [sample_now]. *)
Definition sample_message : Message :=
  mkMessage "0" (Some "20000102030405") (Some sample_now)
    (Some "aaaaaaaaaa") (Some "e3b0c44298fc") (Some EmptyString)
    (Some 1270388943) (Some 1270388943) None.

(** ** The nonce search *)

(** The characters of the miner, in the order of the search. *)
Definition nonce_chars : list ascii := list_ascii_of_string alphabet.

(** The candidates in the order [update_nonce] tries them. *)
Definition candidates : list string := product nonce_chars (Z.to_nat nonce_bytes).

(** Position of a character in a list; the length of the list when it is
    not there. *)
Fixpoint rank_in (l : list ascii) (c : ascii) : nat :=
  match l with
  | [] => O
  | x :: r => if Ascii.eqb x c then O else S (rank_in r c)
  end.

(** Lexicographic order on strings, the characters ordered by [rank]. *)
Fixpoint lex_lt (rank : ascii -> nat) (a b : string) : Prop :=
  match a, b with
  | EmptyString, String _ _ => True
  | String x a', String y b' =>
      (rank x < rank y)%nat \/ (x = y /\ lex_lt rank a' b')
  | _, EmptyString => False
  end.

Definition in_chars (l : list ascii) (c : ascii) : bool :=
  existsb (Ascii.eqb c) l.

(** The initial proof of work that a nonce gives to a stamped and paid
    message. *)
Definition nonce_pow (timestamp checksum nonce : string) : Z :=
  match get_initial_pow timestamp nonce checksum pow_target with
  | Some p => p
  | None => 0
  end.

(** The bound [update_nonce] searches with: a negative argument stands for
    the default [2**(4*pow_bytes) - 1]. *)
Definition search_bound (required_pow : Z) : Z :=
  if required_pow <? 0 then pow_max else required_pow.

(** ** The server *)

(** The payloads that [handle_message] answers without storing. *)
Definition is_control (p : string) : bool :=
  String.eqb p "__info__" || String.eqb p "__messages__"
  || String.eqb p "__exit__" || String.eqb p "__memory__".

(** The state of the server once [parse] has been called: the clock has
    been read if there is no fixed time. *)
Definition after_parse (env : Env) (st : State) : State :=
  mkState (messages st) (required_pow st) (tick env (ticks st)).

(** Midnight of 1 January 2000, and a server started with
    [--mem 128 --current-time 20000101000000]. *)
Definition sample_midnight : datetime := mkDatetime 2000 1 1 0 0 0 0.

Definition sample_env : Env := mkEnv (Some sample_midnight) 128 (fun _ => sample_midnight).

(** A server started with [--mem 128] and no fixed time: its clock reads
    midnight of 1 January 2000 first, and 20 seconds more at each
    reading. *)
Definition running_env : Env :=
  mkEnv None 128 (fun n => mkDatetime 2000 1 1 0 0 (20 * Z.of_nat n) 0).

(** Two entries of the store with the same key and the same message, up to
    the current proof of work. *)
Definition same_but_current_pow (a b : Z * Message) : Prop :=
  fst a = fst b /\ set_current_pow (snd a) None = set_current_pow (snd b) None.

(** The current proof of work that the message holds is the one
    [update_pow] computes at [now]. *)
Definition up_to_date (now : datetime) (m : Message) : Prop :=
  update_pow m now = Ret tt m.

(** The state after the handlers of the frames [l], one after the other,
    each with the fuel of the store's size. *)
Fixpoint run (env : Env) (st : State) (l : list string) : State :=
  match l with
  | [] => st
  | s :: r =>
      match handle_message (S (List.length (messages st))) env st s with
      | Replied _ st' | Exited _ st' | Raised _ st' | OutOfFuel st' => run env st' r
      end
  end.

(** Frames stamped at [sample_midnight] with the first nonce. *)
Definition midnight_frame (checksum payload : string) : string :=
  frame "20000101000000" "aaaaaaaaaa" checksum payload.

Definition frame_hello_world : string := midnight_frame "b94d27b9934d" "hello world".
Definition frame_hello_w : string := midnight_frame "7d54b750c56c" "hello w".
Definition frame_hi : string := midnight_frame "8f434346648f" "hi".
Definition frame_a : string := midnight_frame "ca978112ca1b" "a".
Definition frame_x100 : string :=
  midnight_frame "09ecb6ebc8bc"
    (String.concat EmptyString (repeat "x" 100)).

(** What a successful [parse] of the frame gives at [sample_midnight];
    [__init__] when the frame is refused. *)
Definition parsed_at_midnight (s : string) : Message :=
  match parse __init__ s (2 ^ 32 - 1) (Some sample_midnight) sample_midnight with
  | Ret _ m => m
  | Exc _ m => m
  end.

(** The sample server after it has admitted hello world and hello w: 124
    bytes of 128 are used. *)
Definition two_hello_state : State :=
  run sample_env initial_state [frame_hello_world; frame_hello_w].


(** ** The generator *)

(** The formula of the spec for the scaled bound, as it is written:
    [floor(W / max(D, min_message_age).seconds / min_message_age.seconds)],
    the divisions taken from left to right. *)
Definition claimed_required_pow (w d : Z) : Z := w / Z.max d 10 / 10.


(** An entry of the store as [handle_message] writes it: the key is the
    initial proof of work of the message, between 0 and [2^32 - 1], and the
    message has its instant. *)
Definition stored_entry (e : Z * Message) : Prop :=
  initial_pow (snd e) = Some (fst e)
  /\ 0 <= fst e <= pow_max
  /\ timestamp_obj (snd e) <> None.

Definition well_formed (st : State) : Prop :=
  Forall stored_entry (messages st) /\ 0 <= required_pow st <= pow_max.

(** ** The message object *)

(** A digit of [hexdigest]: 0 to 9, a to f. *)
Definition is_lower_hex (c : ascii) : bool :=
  let o := ord c in ((48 <=? o) && (o <=? 57)) || ((97 <=? o) && (o <=? 102)).

(** The object after [update_nonce] has cleared the two proofs of work. *)
Definition without_pow (self : Message) : Message :=
  mkMessage (version self) (timestamp_str self) (timestamp_obj self)
    (nonce self) (checksum self) (payload self) None None
    (Message_v0.utc_now self).

(** The nonce [set_payload] leaves: the one the object has, or the first
    candidate. *)
Definition nonce_or_default (self : Message) : string :=
  match nonce self with Some n => n | None => "aaaaaaaaaa" end.

(** ** Timestamps *)

(** The instant with its microseconds dropped: what the 14 characters of a
    timestamp can hold. *)
Definition whole_second (t : datetime) : datetime :=
  mkDatetime (year t) (month t) (day t) (hour t) (minute t) (second t) 0.

(** A frame with any three characters where the wire form has the
    separators between its fields. *)
Definition loose_frame (timestamp a nonce b checksum c payload : string) : string :=
  "[" ++ dq ++ "0" ++ dq ++ "," ++ dq ++ timestamp ++ a ++ nonce ++ b
  ++ checksum ++ c ++ payload ++ dq ++ "]".


(** ** Objects made through the methods *)

(** The object a call leaves, whether it returned or raised. *)
Definition object_after {A : Type} (r : result Message A) : Message :=
  match r with Ret _ m => m | Exc _ m => m end.

(** The objects a program can hold: made by the constructor, then changed
    by the methods only, whether the call returned or raised.  The
    arguments are any ints and instants, and any strs of code points below
    256: [cps] are the code points of the str passed. *)
Inductive built : Message -> Prop :=
| built_init : built __init__
| built_set_timestamp : forall self utc_now clock,
    built self -> built (set_timestamp self utc_now clock)
| built_set_payload : forall self cps p,
    str_of_code_points cps = Some p ->
    built self -> built (object_after (set_payload self p))
| built_update_nonce : forall self required_pow utc_now clock,
    built self ->
    built (object_after (update_nonce self required_pow utc_now clock))
| built_update_pow : forall self now,
    built self -> built (object_after (update_pow self now))
| built_parse : forall self cps s required_pow utc_now clock,
    str_of_code_points cps = Some s ->
    built self ->
    built (object_after (parse self s required_pow utc_now clock)).

(** What holds of every such object. *)
Definition consistent (m : Message) : Prop :=
  version m = "0"
  /\ (forall n, nonce m = Some n -> len n = nonce_bytes)
  /\ (forall c, checksum m = Some c ->
        exists p, payload m = Some p /\ c = get_checksum p)
  /\ (forall p, payload m = Some p ->
        checksum m = Some (get_checksum p) /\ nonce m <> None)
  /\ (forall i, initial_pow m = Some i -> 0 <= i <= pow_max)
  /\ (forall c, current_pow m = Some c ->
        0 <= c <= pow_max /\ initial_pow m <> None /\ timestamp_obj m <> None)
  /\ (timestamp_str m = None <-> timestamp_obj m = None).

(** ** The store *)

(** An entry of the store that came through [parse]: a valid message of
    53 characters or more on the wire, kept under its initial proof of
    work, which is the one of its timestamp, nonce and checksum. *)
Definition genuine_entry (e : Z * Message) : Prop :=
  initial_pow (snd e) = Some (fst e)
  /\ valid_message (snd e)
  /\ 53 <= len (__str__ (snd e))
  /\ exists ts n c,
       timestamp_str (snd e) = Some ts /\ nonce (snd e) = Some n
       /\ checksum (snd e) = Some c
       /\ get_initial_pow ts n c pow_target = Some (fst e).

(** The bound the loop of [handle_message] keeps: the store is within
    [max_storage], or it holds one message at most. *)
Definition within_bound (env : Env) (st : State) : Prop :=
  (List.length (messages st) <= 1)%nat
  \/ get_storage_used st <= max_storage env.

(** An entry whose current proof of work is set, and is [r]-related to
    the bound [w]. *)
Definition pow_is (r : Z -> Z -> Prop) (w : Z) (e : Z * Message) : Prop :=
  exists c, current_pow (snd e) = Some c /\ r c w.

(** An entry whose current proof of work has been computed: it is not
    below the key and not above 2^32 - 1. *)
Definition updated_entry (e : Z * Message) : Prop :=
  exists c, current_pow (snd e) = Some c /\ fst e <= c <= pow_max.

(** [(wi, wc)] is what [get_worst_pow] is to return on the entries [l]:
    [wc] is the largest current proof of work, [wi] the key of the first
    entry that has it; both are 0 when there is no entry. *)
Definition worst_of (l : list (Z * Message)) (wi wc : Z) : Prop :=
  (l = [] /\ wi = 0 /\ wc = 0)
  \/ exists before m after,
       l = (before ++ (wi, m) :: after)%list
       /\ current_pow m = Some wc
       /\ Forall (pow_is Z.lt wc) before
       /\ Forall (pow_is Z.le wc) after.

(** More sample frames stamped at [sample_midnight]. *)
Definition frame_d : string := midnight_frame "18ac3e7343f0" "d".
Definition frame_u21 : string :=
  midnight_frame "788a8c5f9600" (String.concat EmptyString (repeat "u" 21)).
Definition frame_messages : string := midnight_frame "fb7dbe0acfac" "__messages__".

(** The sample server after it has admitted hello w and hi: 115 bytes of
    128 are used. *)
Definition hello_hi_state : State :=
  run sample_env initial_state [frame_hello_w; frame_hi].

End Spec.

(* ================================================================== *)
(** * Facts on strings and slices *)
(* ================================================================== *)

Module StrFacts.
Import Py.

Lemma length_app (a b : string) :
  String.length (a ++ b) = (String.length a + String.length b)%nat.
Proof. induction a as [|c a IH]; simpl; [reflexivity | now rewrite IH]. Qed.

Lemma app_assoc (a b c : string) : (a ++ b) ++ c = a ++ (b ++ c).
Proof. induction a as [|x a IH]; simpl; [reflexivity | now rewrite IH]. Qed.

Lemma app_empty_r (a : string) : a ++ EmptyString = a.
Proof. induction a as [|x a IH]; simpl; [reflexivity | now rewrite IH]. Qed.

Lemma drop_app (a b : string) : drop (String.length a) (a ++ b) = b.
Proof. induction a as [|x a IH]; simpl; [now destruct b | exact IH]. Qed.

Lemma take_app (a b : string) : take (String.length a) (a ++ b) = a.
Proof. induction a as [|x a IH]; simpl; [now destruct b | now rewrite IH]. Qed.

Lemma take_all (a : string) : take (String.length a) a = a.
Proof. induction a as [|x a IH]; simpl; [reflexivity | now rewrite IH]. Qed.

Lemma length_take (n : nat) (s : string) :
  (n <= String.length s)%nat -> String.length (take n s) = n.
Proof.
  revert s; induction n as [|n IH]; intros [|c s] H; simpl in *; try reflexivity; try lia.
  now rewrite IH by lia.
Qed.

Lemma length_drop (n : nat) (s : string) :
  String.length (drop n s) = (String.length s - n)%nat.
Proof.
  revert s; induction n as [|n IH]; intros [|c s]; simpl; try reflexivity; try lia.
  apply IH.
Qed.

Lemma len_nonneg (s : string) : 0 <= len s.
Proof. unfold len; lia. Qed.

Lemma len_app (a b : string) : len (a ++ b) = len a + len b.
Proof. unfold len; rewrite length_app; lia. Qed.

(** A slice with bounds inside the string. *)
Lemma slice_inside (s : string) (a b : Z) :
  0 <= a -> a <= b -> b <= len s ->
  slice s a b = take (Z.to_nat (b - a)) (drop (Z.to_nat a) s).
Proof.
  intros Ha Hab Hb. unfold slice, clip.
  destruct (Z.ltb_spec a 0); [lia|]. destruct (Z.ltb_spec b 0); [lia|].
  rewrite !Z.max_r, !Z.min_l by lia. reflexivity.
Qed.

Lemma length_slice (s : string) (a b : Z) :
  0 <= a -> a <= b -> b <= len s -> len (slice s a b) = b - a.
Proof.
  intros Ha Hab Hb. rewrite slice_inside by assumption.
  unfold len in *. rewrite length_take; [lia|]. rewrite length_drop. lia.
Qed.

(** The slice that covers the middle of three pieces. *)
Lemma slice_middle (p m r : string) (a b : Z) :
  a = len p -> b = len p + len m -> slice (p ++ m ++ r) a b = m.
Proof.
  intros -> ->. pose proof (len_nonneg p). pose proof (len_nonneg m).
  pose proof (len_nonneg r).
  rewrite slice_inside; try lia.
  - replace (Z.to_nat (len p)) with (String.length p) by (unfold len; lia).
    rewrite drop_app.
    replace (Z.to_nat (len p + len m - len p)) with (String.length m)
      by (unfold len; lia).
    apply take_app.
  - rewrite !len_app. lia.
Qed.

Lemma slice_head (m r : string) (b : Z) :
  b = len m -> slice (m ++ r) 0 b = m.
Proof. intros ->. apply (slice_middle EmptyString m r); reflexivity. Qed.

End StrFacts.

(* ================================================================== *)
(** * Facts on [int] and on hexadecimal writing *)
(* ================================================================== *)

Module IntFacts.
Import Py Spec StrFacts.

Lemma all_chars_app p a b :
  all_chars p (a ++ b) = all_chars p a && all_chars p b.
Proof.
  induction a as [|c a IH]; simpl; [reflexivity|].
  now rewrite IH, andb_assoc.
Qed.

Lemma all_chars_impl (p q : ascii -> bool) s :
  (forall c, p c = true -> q c = true) ->
  all_chars p s = true -> all_chars q s = true.
Proof.
  intros Hpq. induction s as [|c s IH]; simpl; [reflexivity|].
  intros H. apply andb_prop in H as [Hc Hs].
  now rewrite (Hpq _ Hc), IH.
Qed.

Lemma ord_range c : 0 <= ord c < 256.
Proof.
  unfold ord. pose proof (N_ascii_bounded c). lia.
Qed.

Lemma ord_chr z : 0 <= z < 256 -> ord (chr z) = z.
Proof.
  intros H. unfold ord, chr.
  rewrite N_ascii_embedding by lia. lia.
Qed.

Lemma chr_ord c : chr (ord c) = c.
Proof.
  unfold ord, chr. rewrite N2Z.id. apply ascii_N_embedding.
Qed.

Lemma ord_inj a b : ord a = ord b -> a = b.
Proof. intros H. rewrite <- (chr_ord a), <- (chr_ord b). now rewrite H. Qed.

(** What a digit of a base up to 16 is not. *)
Lemma digit_facts base c :
  base <= 16 -> is_digit_of base c = true ->
  (ord c <? 127) = true /\ is_space c = false
  /\ (ord c =? 43) = false /\ (ord c =? 45) = false
  /\ (ord c =? 120) = false /\ (ord c =? 88) = false
  /\ is_underscore c = false.
Proof.
  unfold is_digit_of, digit_value, is_space, is_underscore.
  intros Hb Hd. apply Z.ltb_lt in Hd. revert Hd.
  destruct (Z.leb_spec 48 (ord c)), (Z.leb_spec (ord c) 57),
    (Z.leb_spec 97 (ord c)), (Z.leb_spec (ord c) 122),
    (Z.leb_spec 65 (ord c)), (Z.leb_spec (ord c) 90);
    simpl; intros Hd; try lia;
    repeat split;
    repeat match goal with
    | |- (_ <? _) = true => apply Z.ltb_lt; lia
    | |- (_ =? _) = false => apply Z.eqb_neq; lia
    | |- (_ || _) = false => apply orb_false_iff; split
    | |- (_ && _) = false => apply andb_false_iff
    | |- (_ <=? _) = false \/ _ =>
        first [ left; apply Z.leb_gt; lia | right; apply Z.leb_gt; lia ]
    end.
Qed.

Lemma to_ascii_digits_id base s :
  base <= 16 -> all_chars (is_digit_of base) s = true -> to_ascii_digits s = s.
Proof.
  intros Hb. induction s as [|c s IH]; simpl; [reflexivity|].
  intros H. apply andb_prop in H as [Hc Hs].
  destruct (digit_facts base c Hb Hc) as [-> _]. now rewrite IH.
Qed.

Lemma scan_all_digits base s :
  base <= 16 -> all_chars (is_digit_of base) s = true ->
  forall seen acc, s <> EmptyString \/ seen = true ->
  scan_digits base s false seen acc = Some (digits_value base acc s, EmptyString).
Proof.
  intros Hb. induction s as [|c s IH]; simpl; intros Hall seen acc Hne.
  - destruct Hne as [Hne | ->]; [congruence | reflexivity].
  - apply andb_prop in Hall as [Hc Hs].
    unfold is_digit_of in Hc. rewrite Hc. apply IH; auto.
Qed.

(** [int] on a non-empty string of digits of the base gives the number
    they denote. *)
Lemma int_of_str_digits base s :
  base = 10 \/ base = 16 ->
  s <> EmptyString -> all_chars (is_digit_of base) s = true ->
  int_of_str base s = Some (digits_value base 0 s).
Proof.
  intros Hbase Hne Hall.
  assert (Hb : base <= 16) by lia.
  unfold int_of_str. rewrite (to_ascii_digits_id base s Hb Hall).
  destruct s as [|c0 s]; [congruence|].
  simpl in Hall. apply andb_prop in Hall as [Hc0 Hs].
  destruct (digit_facts base c0 Hb Hc0) as (_ & Hsp & Hplus & Hminus & _ & _ & Hus).
  simpl lstrip. rewrite Hsp, Hplus, Hminus.
  assert (Hskip : skip_prefix base (String c0 s) = String c0 s).
  { destruct s as [|c1 s]; [reflexivity|]. simpl.
    simpl in Hs. apply andb_prop in Hs as [Hc1 _].
    destruct (digit_facts base c1 Hb Hc1) as (_ & _ & _ & _ & Hx & HX & _).
    rewrite Hx, HX. simpl. now rewrite andb_false_r. }
  rewrite Hskip, Hus.
  rewrite (scan_all_digits base (String c0 s) Hb).
  - cbn [lstrip]. now rewrite Z.mul_1_l.
  - simpl. now rewrite Hc0, Hs.
  - left; congruence.
Qed.

Lemma digits_value_app base acc a b :
  digits_value base acc (a ++ b) = digits_value base (digits_value base acc a) b.
Proof. revert acc; induction a as [|c a IH]; simpl; intros; [reflexivity | apply IH]. Qed.

Lemma hexdigit_value d : 0 <= d < 16 -> digit_value (hexdigit d) = d.
Proof.
  intros H. unfold hexdigit, digit_value.
  destruct (Z.ltb_spec d 10).
  - rewrite ord_chr by lia.
    destruct (Z.leb_spec 48 (48 + d)), (Z.leb_spec (48 + d) 57);
      cbn [andb]; lia.
  - rewrite ord_chr by lia.
    destruct (Z.leb_spec 48 (87 + d)), (Z.leb_spec (87 + d) 57),
      (Z.leb_spec 97 (87 + d)), (Z.leb_spec (87 + d) 122);
      cbn [andb]; lia.
Qed.

Lemma length_hex_of n v : String.length (hex_of n v) = n.
Proof.
  revert v; induction n as [|n IH]; intros v; simpl; [reflexivity|].
  rewrite length_app, IH. simpl. lia.
Qed.

Lemma hex_of_all_digits n v : all_chars (is_digit_of 16) (hex_of n v) = true.
Proof.
  revert v; induction n as [|n IH]; intros v; simpl; [reflexivity|].
  rewrite all_chars_app, IH. simpl. unfold is_digit_of.
  rewrite hexdigit_value by (apply Z.mod_pos_bound; lia).
  rewrite andb_true_r. apply Z.ltb_lt. apply Z.mod_pos_bound. lia.
Qed.

Lemma hex_of_value n v acc :
  0 <= v ->
  digits_value 16 acc (hex_of n v) = acc * 16 ^ Z.of_nat n + v mod 16 ^ Z.of_nat n.
Proof.
  revert v acc; induction n as [|n IH]; intros v acc Hv.
  - simpl. rewrite Z.mod_1_r. lia.
  - cbn [hex_of]. rewrite digits_value_app, IH by (apply Z.div_pos; lia).
    cbn [digits_value]. rewrite hexdigit_value by (apply Z.mod_pos_bound; lia).
    rewrite Nat2Z.inj_succ, Z.pow_succ_r by lia.
    assert (Hp : 0 < 16 ^ Z.of_nat n) by (apply Z.pow_pos_nonneg; lia).
    rewrite (Z.rem_mul_r v 16 (16 ^ Z.of_nat n)) by lia. lia.
Qed.

(** Reading back the hexadecimal writing of a number that fits. *)
Lemma int_of_hex_of n v :
  (0 < n)%nat -> 0 <= v < 16 ^ Z.of_nat n ->
  int_of_str 16 (hex_of n v) = Some v.
Proof.
  intros Hn Hv. rewrite int_of_str_digits.
  - rewrite hex_of_value by lia. rewrite Z.mod_small by lia. f_equal; lia.
  - now right.
  - intros E. pose proof (length_hex_of n v) as L. rewrite E in L. simpl in L. lia.
  - apply hex_of_all_digits.
Qed.

Lemma to_bytes_hex_some k v :
  0 <= v < 256 ^ Z.of_nat k -> to_bytes_hex k v = Some (hex_of (2 * k) v).
Proof.
  intros [H0 H1]. unfold to_bytes_hex.
  apply Z.leb_le in H0. apply Z.ltb_lt in H1. now rewrite H0, H1.
Qed.

End IntFacts.

(* ================================================================== *)
(** * Shape of a SHA-256 digest *)
(* ================================================================== *)

Module DigestFacts.
Import Py Spec StrFacts IntFacts SHA256.

Lemma w32_range x : 0 <= w32 x < 4294967296.
Proof. unfold w32. apply Z.mod_pos_bound. lia. Qed.

Lemma round_length st kw : List.length st = 8%nat -> List.length (round st kw) = 8%nat.
Proof.
  intros H.
  do 9 (destruct st as [|? st]; try discriminate). reflexivity.
Qed.

Lemma rounds_length kws st :
  List.length st = 8%nat -> List.length (fold_left round kws st) = 8%nat.
Proof.
  revert st; induction kws as [|kw kws IH]; intros st H; simpl; [exact H|].
  apply IH, round_length, H.
Qed.

Lemma compress_state h block : is_state h -> is_state (compress h block).
Proof.
  intros [Hl _]. unfold compress. split.
  - rewrite length_map, length_combine, rounds_length by exact Hl.
    rewrite Hl. reflexivity.
  - apply Forall_map. apply Forall_forall. intros p _. apply w32_range.
Qed.

Lemma initial_hash_state : is_state initial_hash.
Proof.
  split; [reflexivity|]. unfold initial_hash.
  repeat constructor; lia.
Qed.

Lemma digest_words_state msg : is_state (digest_words msg).
Proof.
  unfold digest_words.
  generalize (chunks16 (List.length (be_words (List.length (pad msg)) (pad msg)))
                (be_words (List.length (pad msg)) (pad msg))).
  intros blocks. generalize initial_hash_state. generalize initial_hash.
  induction blocks as [|b blocks IH]; intros h Hh; simpl; [exact Hh|].
  apply IH, compress_state, Hh.
Qed.

Lemma first_word_range msg : 0 <= first_word msg < 4294967296.
Proof.
  unfold first_word. destruct (digest_words_state msg) as [Hl Hf].
  destruct (digest_words msg) as [|w ws]; [discriminate|].
  simpl. now inversion Hf.
Qed.

Lemma length_hexdigest msg : String.length (hexdigest msg) = 64%nat.
Proof.
  unfold hexdigest. destruct (digest_words_state msg) as [Hl _].
  destruct (digest_words msg)
    as [|w0 [|w1 [|w2 [|w3 [|w4 [|w5 [|w6 [|w7 [|w8 ws]]]]]]]]];
    try discriminate Hl.
  cbn [map String.concat]. rewrite !length_app, !length_hex_of. reflexivity.
Qed.

(** The digest in hexadecimal starts with the eight digits of its first
    word. *)
Lemma hexdigest_head msg :
  slice (hexdigest msg) 0 8 = hex_of 8 (first_word msg).
Proof.
  unfold hexdigest, first_word. destruct (digest_words_state msg) as [Hl _].
  destruct (digest_words msg) as [|w ws]; [discriminate|].
  destruct ws as [|w1 ws]; [discriminate|].
  cbn [map String.concat nth].
  apply slice_head. unfold len. now rewrite length_hex_of.
Qed.

End DigestFacts.

(* ================================================================== *)
(** * The initial proof of work *)
(* ================================================================== *)

Module PowFacts.
Import Py Spec StrFacts IntFacts DigestFacts Message_v0.

(** [int(hexdigest[0:pow_bytes], 16)] never fails: it is the first word of
    the digest. *)
Lemma hash_prefix_value timestamp nonce checksum :
  int_of_str 16
    (slice (SHA256.hexdigest (pow_input timestamp nonce checksum)) 0 pow_bytes)
  = Some (first_word (pow_input timestamp nonce checksum)).
Proof.
  change pow_bytes with 8. rewrite hexdigest_head.
  apply int_of_hex_of; [lia|]. apply first_word_range.
Qed.

Lemma get_initial_pow_value timestamp nonce checksum target :
  get_initial_pow timestamp nonce checksum target
  = Some (Z.abs (target - first_word (pow_input timestamp nonce checksum))).
Proof.
  unfold get_initial_pow. fold (pow_input timestamp nonce checksum).
  now rewrite hash_prefix_value.
Qed.

Lemma pow_target_value : pow_target = 4294967295.
Proof. reflexivity. Qed.

Lemma pow_max_value : pow_max = 4294967295.
Proof. reflexivity. Qed.

(** With the target of the class the proof of work is between 0 and the
    target. *)
Lemma initial_pow_range timestamp nonce checksum :
  exists p, get_initial_pow timestamp nonce checksum pow_target = Some p
            /\ 0 <= p <= pow_max.
Proof.
  rewrite get_initial_pow_value. eexists; split; [reflexivity|].
  pose proof (first_word_range (pow_input timestamp nonce checksum)).
  rewrite pow_target_value, pow_max_value. lia.
Qed.

(** C1, as the code has it.  For every timestamp, nonce and checksum the
    first 8 hexadecimal characters of SHA-256(timestamp, nonce, checksum)
    read as a number H below 2^32, and the initial proof of work is
    |T - H| where the target T is 0xFFFFFFFF = 2^(4*pow_bytes) - 1, the top
    of the 32-bit range and not its midpoint; so it is T - H. *)
Theorem initial_pow_is_distance_to_target (timestamp nonce checksum : string) :
  exists H : Z,
    int_of_str 16
      (slice (SHA256.hexdigest
                (encode_utf8 timestamp ++ encode_utf8 nonce
                 ++ encode_utf8 checksum)%list) 0 8) = Some H
    /\ 0 <= H < 2 ^ 32
    /\ get_initial_pow timestamp nonce checksum pow_target
       = Some (Z.abs (pow_target - H))
    /\ Z.abs (pow_target - H) = pow_target - H
    /\ pow_target = 4294967295
    /\ pow_target = 2 ^ (4 * pow_bytes) - 1.
Proof.
  exists (first_word (pow_input timestamp nonce checksum)).
  pose proof (first_word_range (pow_input timestamp nonce checksum)) as R.
  split; [exact (hash_prefix_value timestamp nonce checksum)|].
  split; [change (2 ^ 32) with 4294967296; exact R|].
  split; [apply get_initial_pow_value|].
  split; [rewrite pow_target_value; lia|].
  split; reflexivity.
Qed.

(** C1 as stated fails: for the timestamp 20000102030405, the nonce
    aaaaaaaaaa and the checksum of the empty payload, H is 0xb4476730 and
    the codec's proof of work is 1270388943, not |0x7FFFFFFF - H|; and the
    target of the class is not 0x7FFFFFFF = 2^(4*pow_bytes - 1) - 1. *)
Lemma initial_pow_midpoint_target_fails :
  exists H : Z,
    int_of_str 16
      (slice (SHA256.hexdigest
                (encode_utf8 "20000102030405" ++ encode_utf8 "aaaaaaaaaa"
                 ++ encode_utf8 "e3b0c44298fc")%list) 0 8) = Some H
    /\ get_initial_pow "20000102030405" "aaaaaaaaaa" "e3b0c44298fc" pow_target
       = Some 1270388943
    /\ get_initial_pow "20000102030405" "aaaaaaaaaa" "e3b0c44298fc" pow_target
       <> Some (Z.abs (2147483647 - H))
    /\ pow_target <> 2147483647
    /\ pow_target <> 2 ^ (4 * pow_bytes - 1) - 1.
Proof.
  exists 3024578352.
  split; [vm_compute; reflexivity|].
  split; [vm_compute; reflexivity|].
  split; [vm_compute; discriminate|].
  split; vm_compute; discriminate.
Qed.

End PowFacts.

(* ================================================================== *)
(** * The verifier *)
(* ================================================================== *)

Module ParseFacts.
Import Py Datetime Message_v0 Spec StrFacts IntFacts DigestFacts PowFacts.

Lemma scaled_pow_le_max initial now stamp length :
  scaled_pow initial now stamp length <= pow_max.
Proof. unfold scaled_pow. apply Z.le_min_l. Qed.

Lemma frame_initial_pow_eq s :
  get_initial_pow (field_timestamp s) (field_nonce s) (field_checksum s) pow_target
  = Some (frame_initial_pow s).
Proof.
  unfold frame_initial_pow.
  destruct (initial_pow_range (field_timestamp s) (field_nonce s) (field_checksum s))
    as (p & -> & _). reflexivity.
Qed.

Lemma frame_initial_pow_range s : 0 <= frame_initial_pow s <= pow_max.
Proof.
  unfold frame_initial_pow.
  destruct (initial_pow_range (field_timestamp s) (field_nonce s) (field_checksum s))
    as (p & -> & R). exact R.
Qed.

(** What [parse] does, check by check. *)
Lemma parse_unfold self s required_pow utc_now clock :
  parse self s required_pow utc_now clock =
  let now := now_or utc_now clock in
  let too_weak :=
    match to_bytes_hex 4 required_pow with
    | Some h => Ret ("Required PoW: 0x" ++ h ++ nl) self
    | None => Exc OverflowError self
    end in
  if len s <? 53 then
    Ret ("Message too short: " ++ str_of_nat (String.length s) ++ "<53" ++ nl) self
  else if negb (startswith s ("[" ++ dq ++ "0" ++ dq ++ "," ++ dq)) then
    Ret ("Wrong format/version" ++ nl) self
  else if negb (endswith s (dq ++ "]")) then Ret ("Wrong format/payload" ++ nl) self
  else if negb (is_some (int_of_str 10 (field_timestamp s))) then
    Ret ("Wrong format/datetime" ++ nl) self
  else if str_gt (field_timestamp s) (strftime now) then
    Ret ("Datetime in future" ++ nl) self
  else if frame_initial_pow s >? required_pow then too_weak
  else if negb (is_some (strptime (field_timestamp s))) then
    Ret ("Wrong format/datetime" ++ nl) self
  else if negb (String.eqb (field_checksum s) (get_checksum (field_payload s))) then
    Ret ("Wrong checksum" ++ nl) self
  else if frame_current_pow s now >? required_pow then too_weak
  else Ret EmptyString (parsed self s now).
Proof.
  unfold parse, parsed, frame_current_pow.
  change overhead_bytes with 53.
  change (5 + version_bytes) with 6.
  change (6 + timestamp_bytes) with 20.
  change (3 + 20) with 23. change (23 + nonce_bytes) with 33.
  change (3 + 33) with 36. change (36 + checksum_bytes) with 48.
  change (3 + 48) with 51.
  change (Z.to_nat (pow_bytes / 2)) with 4%nat.
  change (str_of_nat (Z.to_nat 53)) with "53".
  fold (field_timestamp s) (field_nonce s) (field_checksum s) (field_payload s).
  cbv zeta.
  destruct (len s <? 53); [reflexivity|].
  destruct (startswith s _); [|reflexivity].
  destruct (endswith s _); [|reflexivity].
  cbn [negb].
  destruct (int_of_str 10 (field_timestamp s)); [|reflexivity].
  cbn [is_some negb].
  destruct (str_gt _ _); [reflexivity|].
  rewrite frame_initial_pow_eq.
  destruct (frame_initial_pow s >? required_pow); [reflexivity|].
  destruct (strptime (field_timestamp s)); [|reflexivity].
  cbn [is_some negb].
  destruct (negb _); [reflexivity|].
  reflexivity.
Qed.

Lemma too_weak_reply (self : Message) required_pow p :
  0 <= required_pow -> required_pow < p -> p <= pow_max ->
  match to_bytes_hex 4 required_pow with
  | Some h => Ret ("Required PoW: 0x" ++ h ++ nl) self
  | None => Exc OverflowError self
  end = Ret ("Required PoW: 0x" ++ hex_of 8 required_pow ++ nl) self.
Proof.
  intros H0 H1 H2. rewrite to_bytes_hex_some; [reflexivity|].
  rewrite pow_max_value in H2. change (256 ^ Z.of_nat 4) with 4294967296. lia.
Qed.

(** C3, as the code has it.  For every input string, every required_pow
    that is not negative and every now, parse goes through the checks of
    [verifier_checks] in their order -- minimum length, frame prefix, frame
    suffix, the timestamp characters are accepted by int (which also takes
    blanks around, a sign and single underscores between digits), the
    timestamp string is not greater than now's, initial proof of work,
    calendar parse of the timestamp, checksum, current proof of work -- and
    returns the diagnostic of the first check that fails, the empty string
    when none does. *)
Theorem parse_returns_first_failing_diagnostic
  (self : Message) (s : string) (required_pow : Z)
  (utc_now : option datetime) (clock : datetime) :
  0 <= required_pow ->
  exists self',
    parse self s required_pow utc_now clock
    = Ret (first_failure (verifier_checks s required_pow (now_or utc_now clock)))
          self'.
Proof.
  intros Hrp. rewrite parse_unfold. cbv zeta.
  unfold verifier_checks. set (now := now_or utc_now clock).
  pose proof (frame_initial_pow_range s) as Ri.
  destruct (Z.ltb_spec (len s) 53) as [L|L].
  { exists self. cbn [first_failure].
    destruct (Z.leb_spec 53 (len s)); [lia | reflexivity]. }
  cbn [first_failure]. destruct (Z.leb_spec 53 (len s)) as [_|]; [|lia].
  destruct (startswith s _); cbn [negb]; [|now exists self].
  destruct (endswith s _); cbn [negb]; [|now exists self].
  destruct (is_some (int_of_str 10 (field_timestamp s))); cbn [negb];
    [|now exists self].
  destruct (str_gt (field_timestamp s) (strftime now)); cbn [negb];
    [now exists self|].
  destruct (Z.leb_spec (frame_initial_pow s) required_pow) as [Li|Li].
  2:{ exists self. replace (frame_initial_pow s >? required_pow) with true
        by (symmetry; apply Z.gtb_lt; lia).
      apply too_weak_reply with (p := frame_initial_pow s); lia. }
  replace (frame_initial_pow s >? required_pow) with false
    by (symmetry; rewrite Z.gtb_ltb; apply Z.ltb_ge; lia).
  destruct (is_some (strptime (field_timestamp s))); cbn [negb];
    [|now exists self].
  destruct (String.eqb (field_checksum s) (get_checksum (field_payload s)));
    cbn [negb]; [|now exists self].
  destruct (Z.leb_spec (frame_current_pow s now) required_pow) as [Lc|Lc].
  - replace (frame_current_pow s now >? required_pow) with false
      by (symmetry; rewrite Z.gtb_ltb; apply Z.ltb_ge; lia).
    eexists; reflexivity.
  - exists self. replace (frame_current_pow s now >? required_pow) with true
      by (symmetry; apply Z.gtb_lt; lia).
    apply too_weak_reply with (p := frame_current_pow s now); try lia.
    unfold frame_current_pow. destruct (strptime (field_timestamp s)).
    + apply scaled_pow_le_max.
    + rewrite pow_max_value; lia.
Qed.

(** C7.  For every input string, required_pow and now: when parse returns
    the empty string the object holds the fields cut out of the input --
    timestamp (string and instant), nonce, checksum, payload -- and the two
    proofs of work; when it returns a diagnostic, and when it raises, the
    object is left as it was. *)
Theorem parse_assigns_exactly_on_success
  (self : Message) (s : string) (required_pow : Z)
  (utc_now : option datetime) (clock : datetime) :
  match parse self s required_pow utc_now clock with
  | Ret reply self' =>
      (reply = EmptyString
       /\ self' = parsed self s (now_or utc_now clock)
       /\ timestamp_str self' = Some (field_timestamp s)
       /\ (exists t, timestamp_obj self' = Some t
                     /\ strptime (field_timestamp s) = Some t)
       /\ nonce self' = Some (field_nonce s)
       /\ checksum self' = Some (field_checksum s)
       /\ payload self' = Some (field_payload s)
       /\ initial_pow self' = Some (frame_initial_pow s)
       /\ current_pow self' = Some (frame_current_pow s (now_or utc_now clock)))
      \/ (reply <> EmptyString /\ self' = self)
  | Exc _ self' => self' = self
  end.
Proof.
  rewrite parse_unfold. cbv zeta.
  assert (W : forall r : result Message string,
             r = match to_bytes_hex 4 required_pow with
                 | Some h => Ret ("Required PoW: 0x" ++ h ++ nl) self
                 | None => Exc OverflowError self
                 end ->
             match r with
             | Ret reply self' =>
                 (reply = EmptyString
                  /\ self' = parsed self s (now_or utc_now clock)
                  /\ timestamp_str self' = Some (field_timestamp s)
                  /\ (exists t, timestamp_obj self' = Some t
                                /\ strptime (field_timestamp s) = Some t)
                  /\ nonce self' = Some (field_nonce s)
                  /\ checksum self' = Some (field_checksum s)
                  /\ payload self' = Some (field_payload s)
                  /\ initial_pow self' = Some (frame_initial_pow s)
                  /\ current_pow self' = Some (frame_current_pow s (now_or utc_now clock)))
                 \/ (reply <> EmptyString /\ self' = self)
             | Exc _ self' => self' = self
             end).
  { intros r ->. destruct (to_bytes_hex 4 required_pow); [|reflexivity].
    right. split; [discriminate | reflexivity]. }
  destruct (len s <? 53); [right; split; [discriminate | reflexivity]|].
  destruct (negb (startswith s _)); [right; split; [discriminate | reflexivity]|].
  destruct (negb (endswith s _)); [right; split; [discriminate | reflexivity]|].
  destruct (negb (is_some (int_of_str 10 _)));
    [right; split; [discriminate | reflexivity]|].
  destruct (str_gt _ _); [right; split; [discriminate | reflexivity]|].
  destruct (frame_initial_pow s >? required_pow); [now apply W|].
  destruct (strptime (field_timestamp s)) as [t|] eqn:Et; cbn [is_some negb];
    [|right; split; [discriminate | reflexivity]].
  destruct (negb (String.eqb _ _)); [right; split; [discriminate | reflexivity]|].
  destruct (frame_current_pow s (now_or utc_now clock) >? required_pow);
    [now apply W|].
  left. unfold parsed. rewrite Et. cbn.
  repeat split. exists t; split; reflexivity.
Qed.

End ParseFacts.

Module ParseSamples.
Import Py Datetime Message_v0 Spec ParseFacts.

(** C3 as stated fails.  The frame below has the minimum length, the
    prefix and the suffix, and its timestamp characters are not 14 digits:
    the first failing check of the claim is the third, whose diagnostic is
    Wrong format/datetime.  With required_pow 0 parse returns the
    diagnostic of the proof of work instead, because int accepts the sign. *)
Lemma parse_signed_timestamp_passes_digit_check :
  let s := signed_timestamp_frame in
  (53 <=? len s) = true
  /\ startswith s ("[" ++ dq ++ "0" ++ dq ++ "," ++ dq) = true
  /\ endswith s (dq ++ "]") = true
  /\ all_chars is_digit (field_timestamp s) = false
  /\ parse __init__ s 0 (Some sample_now) sample_now
     = Ret ("Required PoW: 0x00000000" ++ nl) __init__
  /\ parse __init__ s 0 (Some sample_now) sample_now
     <> Ret ("Wrong format/datetime" ++ nl) __init__.
Proof.
  cbv zeta. repeat split; try (vm_compute; reflexivity).
  vm_compute. discriminate.
Qed.

(** The theorem of C3 at that frame. *)
Lemma parse_returns_first_failing_diagnostic_witness :
  0 <= 0
  /\ exists self',
       parse __init__ signed_timestamp_frame 0 (Some sample_now) sample_now
       = Ret (first_failure
                (verifier_checks signed_timestamp_frame 0
                   (now_or (Some sample_now) sample_now))) self'.
Proof.
  split; [lia|].
  apply (parse_returns_first_failing_diagnostic
           __init__ signed_timestamp_frame 0 (Some sample_now) sample_now).
  lia.
Defined.

End ParseSamples.

(* ================================================================== *)
(** * Timestamps as strings and as instants *)
(* ================================================================== *)

Module DatetimeFacts.
Import Py Datetime Spec StrFacts IntFacts.

Lemma is_digit_spec c : is_digit c = true <-> 48 <= ord c <= 57.
Proof.
  unfold is_digit. rewrite andb_true_iff, !Z.leb_le. tauto.
Qed.

Lemma is_digit_value c : is_digit c = true -> digit_value c = dval c /\ 0 <= dval c <= 9.
Proof.
  intros H. apply is_digit_spec in H. unfold digit_value, dval.
  destruct (Z.leb_spec 48 (ord c)), (Z.leb_spec (ord c) 57); cbn [andb]; lia.
Qed.

Lemma is_digit_base10 c : is_digit c = true -> is_digit_of 10 c = true.
Proof.
  intros H. destruct (is_digit_value c H) as [E R].
  unfold is_digit_of. rewrite E. apply Z.ltb_lt. lia.
Qed.

Lemma digit_is_digit v : 0 <= v <= 9 -> is_digit (digit v) = true.
Proof.
  intros H. apply is_digit_spec. unfold digit. rewrite ord_chr; lia.
Qed.

Lemma dval_digit v : 0 <= v <= 9 -> dval (digit v) = v.
Proof. intros H. unfold dval, digit. rewrite ord_chr; lia. Qed.

Lemma ascii_compare_ord a b : Ascii.compare a b = (ord a ?= ord b).
Proof. unfold Ascii.compare, ord. now rewrite N2Z.inj_compare. Qed.

Lemma digits_value_acc base acc s :
  digits_value base acc s
  = acc * base ^ len s + digits_value base 0 s.
Proof.
  revert acc. induction s as [|c s IH]; intros acc.
  - simpl. change (len EmptyString) with 0. lia.
  - cbn [digits_value]. rewrite IH, (IH (0 * base + digit_value c)).
    unfold len. cbn [String.length]. rewrite Nat2Z.inj_succ, Z.pow_succ_r by lia.
    ring.
Qed.

Lemma digits_value_bound s :
  all_chars is_digit s = true ->
  0 <= digits_value 10 0 s < 10 ^ len s.
Proof.
  induction s as [|c s IH]; intros H.
  - simpl. change (len EmptyString) with 0. lia.
  - simpl in H. apply andb_prop in H as [Hc Hs].
    destruct (is_digit_value c Hc) as [E R]. specialize (IH Hs).
    cbn [digits_value]. rewrite digits_value_acc, E.
    unfold len in *. cbn [String.length]. rewrite Nat2Z.inj_succ, Z.pow_succ_r by lia.
    nia.
Qed.

(** On two strings of digits of the same length the order of the strings
    is the order of the numbers. *)
Lemma compare_digit_strings a : forall b,
  String.length a = String.length b ->
  all_chars is_digit a = true -> all_chars is_digit b = true ->
  String.compare a b = (digits_value 10 0 a ?= digits_value 10 0 b).
Proof.
  induction a as [|x a IH]; intros [|y b] L Ha Hb; try discriminate.
  - reflexivity.
  - simpl in L, Ha, Hb. injection L as L.
    apply andb_prop in Ha as [Hx Ha]. apply andb_prop in Hb as [Hy Hb].
    destruct (is_digit_value x Hx) as [Ex Rx].
    destruct (is_digit_value y Hy) as [Ey Ry].
    pose proof (digits_value_bound a Ha) as Ba.
    pose proof (digits_value_bound b Hb) as Bb.
    cbn [String.compare digits_value].
    rewrite (digits_value_acc 10 (0 * 10 + digit_value x)),
            (digits_value_acc 10 (0 * 10 + digit_value y)), Ex, Ey.
    assert (Hl : len a = len b) by (unfold len; lia).
    rewrite Hl in *.
    assert (Hp : 0 < 10 ^ len b) by (apply Z.pow_pos_nonneg; unfold len; lia).
    rewrite ascii_compare_ord.
    assert (Ho : (ord x ?= ord y) = (dval x ?= dval y)).
    { unfold dval. destruct (Z.compare_spec (ord x) (ord y)); symmetry;
        [apply Z.compare_eq_iff | apply Z.compare_lt_iff | apply Z.compare_gt_iff];
        lia. }
    rewrite Ho.
    destruct (Z.compare_spec (dval x) (dval y)) as [E|E|E].
    + rewrite E, (IH b L Ha Hb).
      destruct (Z.compare_spec (digits_value 10 0 a) (digits_value 10 0 b));
        symmetry;
        [apply Z.compare_eq_iff | apply Z.compare_lt_iff | apply Z.compare_gt_iff];
        lia.
    + symmetry. apply Z.compare_lt_iff. nia.
    + symmetry. apply Z.compare_gt_iff. nia.
Qed.

Lemma valid_bounds d :
  valid d = true ->
  1 <= year d <= 9999 /\ 1 <= month d <= 12
  /\ 1 <= day d <= days_in_month (year d) (month d)
  /\ 0 <= hour d <= 23 /\ 0 <= minute d <= 59 /\ 0 <= second d <= 59
  /\ 0 <= microsecond d <= 999999.
Proof.
  unfold valid. rewrite !andb_true_iff, !Z.leb_le. tauto.
Qed.

Lemma days_in_month_le y m : days_in_month y m <= 31.
Proof.
  unfold days_in_month.
  destruct (m =? 2); [destruct (is_leap y); lia|].
  destruct ((m =? 4) || (m =? 6) || (m =? 9) || (m =? 11)); lia.
Qed.

(** A string of 14 digits that [strptime] accepts writes the number of the
    instant it gives. *)
Lemma strptime_digits ts t :
  strptime ts = Some t -> all_chars is_digit ts = true ->
  String.length ts = 14%nat
  /\ digits_value 10 0 ts = stamp_number t
  /\ valid t = true.
Proof.
  intros P D.
  destruct ts as [|y1 [|y2 [|y3 [|y4 [|m1 [|m2 [|d1 [|d2 [|h1 [|h2
    [|n1 [|n2 [|s1 [|s2 [|x ts]]]]]]]]]]]]]]]; try discriminate P.
  cbn [strptime] in P.
  match type of P with (if ?c then _ else _) = _ => destruct c; [|discriminate] end.
  match type of P with (if ?c then _ else _) = _ => destruct c eqn:V; [|discriminate] end.
  injection P as <-.
  split; [reflexivity|]. split; [|exact V].
  cbn [all_chars] in D. rewrite !andb_true_iff in D.
  destruct D as (Y1 & Y2 & Y3 & Y4 & M1 & M2 & D1 & D2 & H1 & H2 & N1 & N2 & S1 & S2 & _).
  cbn [digits_value].
  repeat match goal with
  | H : is_digit ?c = true |- _ =>
      let E := fresh "E" in let R := fresh "R" in
      destruct (is_digit_value c H) as [E R]; rewrite E; clear E;
      apply is_digit_spec in H; revert H R
  end.
  intros.
  unfold stamp_number, day_value, two. cbn [year month day hour minute second].
  replace (ord d1 =? 32) with false by (symmetry; apply Z.eqb_neq; lia).
  ring.
Qed.

Lemma pad2_digits v :
  0 <= v <= 99 ->
  all_chars is_digit (pad2 v) = true /\ digits_value 10 0 (pad2 v) = v.
Proof.
  intros H. unfold pad2. cbn [all_chars digits_value].
  assert (A : 0 <= v / 10 <= 9) by (Z.div_mod_to_equations; lia).
  assert (B : 0 <= v mod 10 <= 9) by (pose proof (Z.mod_pos_bound v 10); lia).
  rewrite !digit_is_digit by assumption. split; [reflexivity|].
  destruct (is_digit_value _ (digit_is_digit _ A)) as [-> _].
  destruct (is_digit_value _ (digit_is_digit _ B)) as [-> _].
  rewrite !dval_digit by assumption.
  pose proof (Z.div_mod v 10). lia.
Qed.

Lemma four_digits_ok y :
  0 <= y <= 9999 ->
  all_chars is_digit (four_digits y) = true /\ digits_value 10 0 (four_digits y) = y.
Proof.
  intros H. unfold four_digits. cbn [all_chars digits_value].
  assert (A : 0 <= y / 1000 <= 9) by (Z.div_mod_to_equations; lia).
  assert (B : 0 <= y / 100 mod 10 <= 9) by (pose proof (Z.mod_pos_bound (y / 100) 10); lia).
  assert (C : 0 <= y / 10 mod 10 <= 9) by (pose proof (Z.mod_pos_bound (y / 10) 10); lia).
  assert (E : 0 <= y mod 10 <= 9) by (pose proof (Z.mod_pos_bound y 10); lia).
  rewrite !digit_is_digit by assumption. split; [reflexivity|].
  destruct (is_digit_value _ (digit_is_digit _ A)) as [-> _].
  destruct (is_digit_value _ (digit_is_digit _ B)) as [-> _].
  destruct (is_digit_value _ (digit_is_digit _ C)) as [-> _].
  destruct (is_digit_value _ (digit_is_digit _ E)) as [-> _].
  rewrite !dval_digit by assumption.
  clear A B C E. Z.div_mod_to_equations. lia.
Qed.

Lemma year_table_spec k :
  forall y u, year_table k y u = true ->
  forall i, (i < k)%nat ->
  year_ok (y + Z.of_nat i)
    (NilZero.string_of_uint (Decimal.rev (Nat.to_little_uint i u))) = true.
Proof.
  induction k as [|k IH]; intros y u T i Hi; [lia|].
  cbn [year_table] in T. apply andb_prop in T. destruct T as [T0 T1].
  destruct i as [|i].
  - cbn [Nat.to_little_uint]. now rewrite Z.add_0_r.
  - cbn [Nat.to_little_uint].
    replace (y + Z.of_nat (S i)) with (y + 1 + Z.of_nat i) by lia.
    apply IH; [assumption|lia].
Qed.

(** How [str] writes a year: four digits from 1000 on, and never a
    leading zero.  Both facts are checked on every year. *)
Lemma year_string_table :
  year_table (Z.to_nat 9999) 1 (Decimal.Little.succ Decimal.zero) = true.
Proof. vm_compute. reflexivity. Qed.

Lemma year_string_ok y :
  1 <= y <= 9999 -> year_ok y (str_of_nat (Z.to_nat y)) = true.
Proof.
  intros H.
  pose proof (year_table_spec _ _ _ year_string_table (Z.to_nat (y - 1))) as T.
  replace (1 + Z.of_nat (Z.to_nat (y - 1))) with y in T by lia.
  unfold str_of_nat, Nat.to_uint.
  replace (Z.to_nat y) with (S (Z.to_nat (y - 1))) by lia.
  cbn [Nat.to_little_uint]. apply T. lia.
Qed.

Lemma year_string_long y :
  1000 <= y <= 9999 -> str_of_nat (Z.to_nat y) = four_digits y.
Proof.
  intros H. pose proof (year_string_ok y) as T. unfold year_ok in T.
  replace (y <? 1000) with false in T by (symmetry; apply Z.ltb_ge; lia).
  apply String.eqb_eq, T. lia.
Qed.

Lemma year_string_short y :
  1 <= y < 1000 -> starts_with_nonzero_digit (str_of_nat (Z.to_nat y)) = true.
Proof.
  intros H. pose proof (year_string_ok y) as T. unfold year_ok in T.
  replace (y <? 1000) with true in T by (symmetry; apply Z.ltb_lt; lia).
  apply T. lia.
Qed.

Lemma leb_stamp_number a b :
  valid a = true -> valid b = true -> leb a b = true ->
  year a <= year b /\ stamp_number a <= stamp_number b.
Proof.
  intros Va Vb. apply valid_bounds in Va, Vb.
  pose proof (days_in_month_le (year a) (month a)).
  pose proof (days_in_month_le (year b) (month b)).
  unfold leb, cmp, stamp_number. cbn [fold_right].
  destruct (Z.compare_spec (year a) (year b)); [|intros _; lia|discriminate].
  destruct (Z.compare_spec (month a) (month b)); [|intros _; lia|discriminate].
  destruct (Z.compare_spec (day a) (day b)); [|intros _; lia|discriminate].
  destruct (Z.compare_spec (hour a) (hour b)); [|intros _; lia|discriminate].
  destruct (Z.compare_spec (minute a) (minute b)); [|intros _; lia|discriminate].
  destruct (Z.compare_spec (second a) (second b)); [|intros _; lia|discriminate].
  intros _. lia.
Qed.

Lemma length_pad2 v : String.length (pad2 v) = 2%nat.
Proof. reflexivity. Qed.

Lemma digits_value_snoc s t :
  digits_value 10 0 (s ++ t)
  = digits_value 10 0 s * 10 ^ len t + digits_value 10 0 t.
Proof. now rewrite digits_value_app, digits_value_acc. Qed.

(** From the year 1000 on [strftime] writes 14 digits, the number of the
    instant. *)
Lemma strftime_long now :
  valid now = true -> 1000 <= year now ->
  all_chars is_digit (strftime now) = true
  /\ String.length (strftime now) = 14%nat
  /\ digits_value 10 0 (strftime now) = stamp_number now.
Proof.
  intros V Y. apply valid_bounds in V.
  pose proof (days_in_month_le (year now) (month now)).
  unfold strftime. rewrite year_string_long by lia.
  destruct (four_digits_ok (year now)) as [A0 B0]; [lia|].
  destruct (pad2_digits (month now)) as [A1 B1]; [lia|].
  destruct (pad2_digits (day now)) as [A2 B2]; [lia|].
  destruct (pad2_digits (hour now)) as [A3 B3]; [lia|].
  destruct (pad2_digits (minute now)) as [A4 B4]; [lia|].
  destruct (pad2_digits (second now)) as [A5 B5]; [lia|].
  split; [|split].
  - now rewrite !all_chars_app, A0, A1, A2, A3, A4, A5.
  - rewrite !length_app, !length_pad2. reflexivity.
  - rewrite !digits_value_snoc, B0, B1, B2, B3, B4, B5.
    rewrite !len_app. unfold len. rewrite !length_pad2.
    unfold stamp_number. change (Z.of_nat 2) with 2.
    change (10 ^ (2 + (2 + (2 + (2 + 2))))) with 10000000000.
    change (10 ^ (2 + (2 + (2 + 2)))) with 100000000.
    change (10 ^ (2 + (2 + 2))) with 1000000.
    change (10 ^ (2 + 2)) with 10000.
    change (10 ^ 2) with 100. ring.
Qed.

(** The check of the future: a timestamp of 14 digits whose instant is
    not after now is not greater, as a string, than now's. *)
Lemma stamp_not_in_future ts t now :
  strptime ts = Some t -> all_chars is_digit ts = true ->
  valid now = true -> leb t now = true ->
  str_gt ts (strftime now) = false.
Proof.
  intros P D Vn L.
  destruct (strptime_digits ts t P D) as (Len & Val & Vt).
  destruct (leb_stamp_number t now Vt Vn L) as [Ly Ls].
  unfold str_gt.
  destruct (Z.le_gt_cases 1000 (year now)) as [Y|Y].
  - destruct (strftime_long now Vn Y) as (Dn & Lenn & Valn).
    rewrite compare_digit_strings by (assumption || congruence).
    rewrite Val, Valn.
    destruct (Z.compare_spec (stamp_number t) (stamp_number now)); try reflexivity.
    lia.
  - pose proof (valid_bounds _ Vn) as Bn. pose proof (valid_bounds _ Vt) as Bt.
    pose proof (days_in_month_le (year t) (month t)).
    assert (S : starts_with_nonzero_digit (str_of_nat (Z.to_nat (year now))) = true)
      by (apply year_string_short; lia).
    unfold strftime.
    destruct (str_of_nat (Z.to_nat (year now))) as [|c r]; [discriminate S|].
    cbn [starts_with_nonzero_digit] in S.
    apply andb_prop in S as [S1 S2]. apply Z.leb_le in S1, S2.
    destruct ts as [|y1 rest]; [discriminate Len|].
    cbn [all_chars] in D. apply andb_prop in D as [D1 Dr].
    destruct (is_digit_value y1 D1) as [E1 R1].
    pose proof (digits_value_bound rest Dr) as Br.
    cbn [digits_value] in Val. rewrite digits_value_acc, E1 in Val.
    cbn [String.length] in Len. injection Len as Len.
    unfold len in *. rewrite Len in *.
    change (10 ^ Z.of_nat 13) with 10000000000000 in *.
    assert (Z1 : dval y1 = 0) by (unfold stamp_number in Val; lia).
    cbn [append String.compare]. rewrite ascii_compare_ord.
    unfold dval in Z1.
    replace (ord y1 ?= ord c) with Lt by (symmetry; apply Z.compare_lt_iff; lia).
    reflexivity.
Qed.

End DatetimeFacts.

(* ================================================================== *)
(** * Serialize, then parse *)
(* ================================================================== *)

Module RoundTrip.
Import Py Datetime Message_v0 Spec StrFacts IntFacts DigestFacts PowFacts
  ParseFacts DatetimeFacts.

Lemma slice_to_negative (p m r : string) (a b : Z) :
  a = len p -> b = - len r -> 0 < len r -> slice (p ++ m ++ r) a b = m.
Proof.
  intros -> -> Hr. pose proof (len_nonneg p). pose proof (len_nonneg m).
  unfold slice, clip. rewrite !len_app.
  destruct (Z.ltb_spec (len p) 0); [lia|].
  destruct (Z.ltb_spec (- len r) 0); [|lia].
  rewrite (Z.min_l (len p)), (Z.max_r 0 (len p)) by lia.
  rewrite Z.min_l, Z.max_r by lia.
  replace (Z.to_nat (len p)) with (String.length p) by (unfold len; lia).
  rewrite drop_app.
  replace (Z.to_nat (- len r + (len p + (len m + len r)) - len p))
    with (String.length m) by (unfold len; lia).
  apply take_app.
Qed.

Lemma startswith_app a b : startswith (a ++ b) a = true.
Proof.
  unfold startswith. induction a as [|x a IH]; simpl.
  - now destruct b.
  - destruct (ascii_dec x x); [exact IH | congruence].
Qed.

Lemma endswith_app a b : endswith (a ++ b) b = true.
Proof.
  unfold endswith. rewrite length_app.
  replace (String.length a + String.length b - String.length b)%nat
    with (String.length a) by lia.
  rewrite drop_app, String.eqb_refl.
  rewrite andb_true_r. apply Nat.leb_le. lia.
Qed.

Lemma len_get_checksum p : len (get_checksum p) = 12.
Proof.
  unfold get_checksum. change checksum_bytes with 12.
  rewrite length_slice; try lia.
  unfold len. rewrite length_hexdigest. lia.
Qed.

Section Frame.
Variables ts n c p : string.
Hypothesis Lts : len ts = 14.
Hypothesis Ln : len n = 10.
Hypothesis Lc : len c = 12.

Let pre : string := "[" ++ dq ++ "0" ++ dq ++ "," ++ dq.
Let sep : string := dq ++ "," ++ dq.
Let suf : string := dq ++ "]".

Lemma frame_pieces :
  frame ts n c p = pre ++ ts ++ sep ++ n ++ sep ++ c ++ sep ++ p ++ suf.
Proof. reflexivity. Qed.

Lemma len_frame : len (frame ts n c p) = 53 + len p.
Proof.
  rewrite frame_pieces, !len_app, Lts, Ln, Lc.
  change (len pre) with 6. change (len sep) with 3. change (len suf) with 2. lia.
Qed.

Lemma frame_startswith : startswith (frame ts n c p) pre = true.
Proof. rewrite frame_pieces. apply startswith_app. Qed.

Lemma frame_endswith : endswith (frame ts n c p) suf = true.
Proof.
  rewrite frame_pieces.
  replace (pre ++ ts ++ sep ++ n ++ sep ++ c ++ sep ++ p ++ suf)
    with ((pre ++ ts ++ sep ++ n ++ sep ++ c ++ sep ++ p) ++ suf)
    by (now rewrite !app_assoc).
  apply endswith_app.
Qed.

Lemma frame_timestamp : field_timestamp (frame ts n c p) = ts.
Proof.
  rewrite frame_pieces. unfold field_timestamp.
  apply slice_middle; [reflexivity|]. rewrite Lts. reflexivity.
Qed.

Lemma frame_nonce : field_nonce (frame ts n c p) = n.
Proof.
  rewrite frame_pieces. unfold field_nonce.
  replace (pre ++ ts ++ sep ++ n ++ sep ++ c ++ sep ++ p ++ suf)
    with ((pre ++ ts ++ sep) ++ n ++ sep ++ c ++ sep ++ p ++ suf)
    by (now rewrite !app_assoc).
  apply slice_middle; rewrite !len_app, Lts, ?Ln; reflexivity.
Qed.

Lemma frame_checksum : field_checksum (frame ts n c p) = c.
Proof.
  rewrite frame_pieces. unfold field_checksum.
  replace (pre ++ ts ++ sep ++ n ++ sep ++ c ++ sep ++ p ++ suf)
    with ((pre ++ ts ++ sep ++ n ++ sep) ++ c ++ sep ++ p ++ suf)
    by (now rewrite !app_assoc).
  apply slice_middle; rewrite !len_app, Lts, Ln, ?Lc; reflexivity.
Qed.

Lemma frame_payload : field_payload (frame ts n c p) = p.
Proof.
  rewrite frame_pieces. unfold field_payload.
  replace (pre ++ ts ++ sep ++ n ++ sep ++ c ++ sep ++ p ++ suf)
    with ((pre ++ ts ++ sep ++ n ++ sep ++ c ++ sep) ++ p ++ suf)
    by (now rewrite !app_assoc).
  apply slice_to_negative; [|reflexivity|reflexivity].
  rewrite !len_app, Lts, Ln, Lc. reflexivity.
Qed.

End Frame.

Lemma to_str_frame m ts n c p :
  version m = "0" -> timestamp_str m = Some ts -> nonce m = Some n ->
  checksum m = Some c -> payload m = Some p ->
  __str__ m = frame ts n c p.
Proof. intros V T N C P. unfold __str__, frame. now rewrite V, T, N, C, P. Qed.

(** C5.  For every valid, fully initialized message m whose timestamp is
    not after now, parsing the wire form of m with a required_pow that
    bounds nothing (at least 2^32 - 1) and that now returns the empty
    diagnostic, and the parsed message has m's version, timestamp (string
    and instant), nonce, checksum and payload. *)
Theorem parse_of_wire_form_restores_message
  (m : Message) (required_pow : Z) (now clock : datetime) :
  valid_message m -> not_after m now -> valid now = true ->
  pow_max <= required_pow ->
  exists m',
    parse __init__ (__str__ m) required_pow (Some now) clock = Ret EmptyString m'
    /\ version m' = version m
    /\ timestamp_str m' = timestamp_str m
    /\ timestamp_obj m' = timestamp_obj m
    /\ nonce m' = nonce m
    /\ checksum m' = checksum m
    /\ payload m' = payload m.
Proof.
  intros (V & ts & t & n & p & Ets & Dts & Et & Pts & En & Ln & Ep & Ec)
         (t' & Et' & Le) Vn Hrp.
  rewrite Et in Et'. injection Et' as <-.
  destruct (strptime_digits ts t Pts Dts) as (Lts & _ & _).
  assert (Lts' : len ts = 14) by (unfold len; lia).
  change nonce_bytes with 10 in Ln.
  pose proof (len_get_checksum p) as Lc.
  set (c := get_checksum p) in *.
  rewrite (to_str_frame m ts n c p V Ets En Ec Ep).
  set (s := frame ts n c p).
  assert (Fts : field_timestamp s = ts) by (apply frame_timestamp; assumption).
  assert (Fn : field_nonce s = n) by (apply frame_nonce; assumption).
  assert (Fc : field_checksum s = c) by (apply frame_checksum; assumption).
  assert (Fp : field_payload s = p) by (apply frame_payload; assumption).
  pose proof (len_frame ts n c p Lts' Ln Lc) as Ls. fold s in Ls.
  pose proof (len_nonneg p) as Lp.
  exists (parsed __init__ s now).
  split.
  - rewrite parse_unfold. cbv zeta. cbn [now_or].
    destruct (Z.ltb_spec (len s) 53); [lia|].
    unfold s at 1. rewrite (frame_startswith ts n c p). cbn [negb].
    unfold s at 1. rewrite (frame_endswith ts n c p). cbn [negb].
    rewrite Fts, Fc, Fp.
    rewrite (int_of_str_digits 10 ts).
    + cbn [is_some negb].
      rewrite (stamp_not_in_future ts t now Pts Dts Vn Le).
      pose proof (frame_initial_pow_range s) as Ri.
      replace (frame_initial_pow s >? required_pow) with false
        by (symmetry; rewrite Z.gtb_ltb; apply Z.ltb_ge; lia).
      rewrite Pts. cbn [is_some negb].
      unfold c. rewrite String.eqb_refl. cbn [negb].
      assert (Rc : frame_current_pow s now <= pow_max).
      { unfold frame_current_pow. rewrite Fts, Pts. apply scaled_pow_le_max. }
      replace (frame_current_pow s now >? required_pow) with false
        by (symmetry; rewrite Z.gtb_ltb; apply Z.ltb_ge; lia).
      reflexivity.
    + now left.
    + intros E. rewrite E in Lts. discriminate Lts.
    + apply (all_chars_impl is_digit); [apply is_digit_base10 | exact Dts].
  - unfold parsed. cbn [version timestamp_str timestamp_obj nonce checksum payload].
    rewrite Fts, Fn, Fc, Fp, Pts. rewrite V, Ets, Et, En, Ec, Ep.
    repeat split; reflexivity.
Qed.

(** The theorem of C5 at the message of scenario 1. *)
Lemma parse_of_wire_form_restores_message_witness :
  valid_message sample_message /\ not_after sample_message sample_now
  /\ valid sample_now = true /\ pow_max <= 4294967295
  /\ exists m',
       parse __init__ (__str__ sample_message) 4294967295 (Some sample_now) sample_now
       = Ret EmptyString m'
       /\ version m' = version sample_message
       /\ timestamp_str m' = timestamp_str sample_message
       /\ timestamp_obj m' = timestamp_obj sample_message
       /\ nonce m' = nonce sample_message
       /\ checksum m' = checksum sample_message
       /\ payload m' = payload sample_message.
Proof.
  assert (V : valid_message sample_message).
  { split; [reflexivity|].
    exists "20000102030405", sample_now, "aaaaaaaaaa", EmptyString.
    repeat split; vm_compute; reflexivity. }
  assert (A : not_after sample_message sample_now).
  { exists sample_now. split; reflexivity. }
  assert (W : valid sample_now = true) by reflexivity.
  assert (R : pow_max <= 4294967295) by (vm_compute; discriminate).
  split; [exact V|]. split; [exact A|]. split; [exact W|]. split; [exact R|].
  exact (parse_of_wire_form_restores_message
           sample_message 4294967295 sample_now sample_now V A W R).
Defined.

End RoundTrip.

(* ================================================================== *)
(** * The nonce search *)
(* ================================================================== *)

Module MinerFacts.
Import Py Datetime Message_v0 Spec StrFacts IntFacts PowFacts.

Section Product.
Variable chars : list ascii.

Lemma in_product n c :
  In c (product chars n)
  <-> String.length c = n /\ all_chars (in_chars chars) c = true.
Proof.
  revert c. induction n as [|n IH]; intros c; cbn [product].
  - split.
    + intros [<- | []]. split; reflexivity.
    + intros [L _]. destruct c; [now left | discriminate].
  - rewrite in_flat_map. split.
    + intros (x & Hx & Hc). apply in_map_iff in Hc as (r & <- & Hr).
      apply IH in Hr as [L A]. cbn. rewrite L, A. split; [reflexivity|].
      rewrite andb_true_r. unfold in_chars. apply existsb_exists.
      exists x. split; [exact Hx | apply Ascii.eqb_refl].
    + intros [L A]. destruct c as [|x r]; [discriminate|].
      cbn in L, A. injection L as L. apply andb_prop in A as [Ax Ar].
      unfold in_chars in Ax. apply existsb_exists in Ax as (y & Hy & E).
      apply Ascii.eqb_eq in E. subst y.
      exists x. split; [exact Hy|]. apply in_map, IH. now split.
Qed.

Variable rank : ascii -> nat.

Lemma sorted_app (l1 l2 : list string) :
  StronglySorted (lex_lt rank) l1 -> StronglySorted (lex_lt rank) l2 ->
  (forall a b, In a l1 -> In b l2 -> lex_lt rank a b) ->
  StronglySorted (lex_lt rank) (l1 ++ l2).
Proof.
  intros S1 S2 H. induction S1 as [|a l1 S1 IH F]; [exact S2|].
  cbn. constructor.
  - apply IH. intros x y Hx Hy. apply H; [now right | exact Hy].
  - apply Forall_app. split; [exact F|].
    apply Forall_forall. intros y Hy. apply H; [now left | exact Hy].
Qed.

Lemma sorted_block x l :
  StronglySorted (lex_lt rank) l ->
  StronglySorted (lex_lt rank) (map (String x) l).
Proof.
  induction 1 as [|a l S IH F]; cbn; constructor; [exact IH|].
  apply Forall_map. revert F. apply Forall_impl. intros b Hb. now right.
Qed.

Lemma sorted_blocks (cs : list ascii) (l : list string) :
  StronglySorted (fun x y => (rank x < rank y)%nat) cs ->
  StronglySorted (lex_lt rank) l ->
  StronglySorted (lex_lt rank) (flat_map (fun c => map (String c) l) cs).
Proof.
  intros Sc Sl. induction Sc as [|x cs Sc IH F]; cbn [flat_map]; [constructor|].
  apply sorted_app; [apply sorted_block, Sl | exact IH |].
  intros a b Ha Hb. apply in_map_iff in Ha as (a' & <- & _).
  apply in_flat_map in Hb as (y & Hy & Hb). apply in_map_iff in Hb as (b' & <- & _).
  left. rewrite Forall_forall in F. now apply F.
Qed.

Lemma sorted_product n :
  StronglySorted (fun x y => (rank x < rank y)%nat) chars ->
  StronglySorted (lex_lt rank) (product chars n).
Proof.
  intros Sc. induction n as [|n IH]; cbn [product].
  - repeat constructor.
  - now apply sorted_blocks.
Qed.

End Product.

Lemma hd_product x r n :
  hd_error (product (x :: r) n)
  = Some (String.concat EmptyString (repeat (String x EmptyString) n)).
Proof.
  induction n as [|n IH]; [reflexivity|].
  cbn [product flat_map].
  destruct (product (x :: r) n) as [|c cs]; [discriminate IH|].
  cbn in IH. injection IH as ->. cbn [map app hd_error repeat].
  f_equal. destruct n; reflexivity.
Qed.

Lemma nonce_chars_sorted :
  StronglySorted (fun x y => (rank_in nonce_chars x < rank_in nonce_chars y)%nat)
    nonce_chars.
Proof.
  apply Sorted_StronglySorted.
  - intros x y z; lia.
  - unfold nonce_chars, alphabet. cbn [list_ascii_of_string].
    repeat (constructor; [|try constructor; vm_compute; lia]). constructor.
Qed.

Lemma nonce_pow_eq ts cs c :
  get_initial_pow ts c cs pow_target = Some (nonce_pow ts cs c).
Proof.
  unfold nonce_pow. destruct (initial_pow_range ts c cs) as (p & -> & _).
  reflexivity.
Qed.

(** The loop stops at the first candidate below the bound ... *)
Lemma search_found ts cs bound cands : forall tries,
  (exists c, In c cands /\ nonce_pow ts cs c < bound) ->
  exists before w after,
    cands = (before ++ w :: after)%list
    /\ (forall c, In c before -> ~ nonce_pow ts cs c < bound)
    /\ nonce_pow ts cs w < bound
    /\ search ts cs bound cands tries
       = Found (tries + Z.of_nat (List.length before) + 1) w (nonce_pow ts cs w).
Proof.
  induction cands as [|c cands IH]; intros tries (x & Hx & Px); [destruct Hx|].
  cbn [search]. rewrite nonce_pow_eq.
  destruct (Z.ltb_spec (nonce_pow ts cs c) bound) as [L|L].
  - exists [], c, cands. repeat split; try assumption.
    + intros ? [].
    + cbn. f_equal. lia.
  - destruct Hx as [-> | Hx]; [lia|].
    destruct (IH (tries + 1)) as (before & w & after & -> & B & W & S).
    { now exists x. }
    exists (c :: before), w, after. repeat split; try assumption.
    + intros y [<- | Hy]; [lia | now apply B].
    + rewrite S. f_equal. cbn [List.length]. lia.
Qed.

(** ... and runs through all of them when none is. *)
Lemma search_exhausted ts cs bound cands : forall tries,
  (forall c, In c cands -> ~ nonce_pow ts cs c < bound) ->
  search ts cs bound cands tries = Exhausted (tries + Z.of_nat (List.length cands)).
Proof.
  induction cands as [|c cands IH]; intros tries H; cbn [search].
  - f_equal. cbn. lia.
  - rewrite nonce_pow_eq.
    destruct (Z.ltb_spec (nonce_pow ts cs c) bound) as [L|L].
    + exfalso. apply (H c); [now left | exact L].
    + rewrite IH by (intros y Hy; apply H; now right).
      f_equal. cbn [List.length]. lia.
Qed.

(** C4.  The characters of the miner are the 62 of
    abcdefghijklmnopqrstuvwxyzABCDEFGHIJKLMNOPQRSTUVWXYZ0123456789, in this
    order: lowercase, then uppercase, then digits.  For a stamped and paid
    message the miner goes through the strings of 10 of these characters,
    in the lexicographic order that the order of the alphabet gives, from
    aaaaaaaaaa on.  When some
    candidate has an initial proof of work strictly below the bound, it
    returns after the first such candidate w: every candidate before w is
    not below the bound, the count returned is the number of candidates
    tried with w included, and the message has the nonce w, its initial
    proof of work and the current proof of work at now.  When no candidate
    is below the bound it raises.  The bound is required_pow, or
    2^32 - 1 when required_pow is negative. *)
Theorem update_nonce_takes_first_candidate_below_bound
  (self : Message) (ts cs : string) (t : datetime) (required_pow : Z)
  (utc_now : option datetime) (clock : datetime) :
  timestamp_str self = Some ts -> timestamp_obj self = Some t ->
  checksum self = Some cs ->
  nonce_chars
  = list_ascii_of_string
      "abcdefghijklmnopqrstuvwxyzABCDEFGHIJKLMNOPQRSTUVWXYZ0123456789"
  /\ hd_error candidates = Some "aaaaaaaaaa"
  /\ (forall c, In c candidates
                <-> String.length c = 10%nat
                    /\ all_chars (in_chars nonce_chars) c = true)
  /\ StronglySorted (lex_lt (rank_in nonce_chars)) candidates
  /\ ((exists c, In c candidates /\ nonce_pow ts cs c < search_bound required_pow) ->
      exists before w after self',
        candidates = (before ++ w :: after)%list
        /\ (forall c, In c before -> ~ nonce_pow ts cs c < search_bound required_pow)
        /\ nonce_pow ts cs w < search_bound required_pow
        /\ update_nonce self required_pow utc_now clock
           = Ret (Z.of_nat (List.length before) + 1) self'
        /\ nonce self' = Some w
        /\ initial_pow self' = Some (nonce_pow ts cs w)
        /\ current_pow self'
           = Some (scaled_pow (nonce_pow ts cs w) (now_or utc_now clock) t
                     (len (__str__ self'))))
  /\ ((forall c, In c candidates -> ~ nonce_pow ts cs c < search_bound required_pow) ->
      exists self',
        update_nonce self required_pow utc_now clock
        = Exc (RuntimeError "Couldn't reach target proof of work") self').
Proof.
  intros Ets Et Ecs.
  split; [reflexivity|].
  split; [exact (hd_product _ _ 10)|].
  split; [intros c; apply in_product|].
  split; [apply sorted_product, nonce_chars_sorted|].
  unfold update_nonce. rewrite Ets, Ecs.
  fold pow_max. fold (search_bound required_pow).
  fold nonce_chars. fold candidates.
  split.
  - intros Hex.
    destruct (search_found ts cs (search_bound required_pow) candidates 0 Hex)
      as (before & w & after & E & B & W & S).
    rewrite S. unfold update_pow. cbn [timestamp_obj initial_pow]. rewrite Et.
    exists before, w, after. eexists.
    split; [exact E|]. split; [exact B|]. split; [exact W|].
    split; [reflexivity|]. cbn. repeat split.
  - intros Hall.
    rewrite (search_exhausted ts cs _ candidates 0 Hall). eexists; reflexivity.
Qed.

(** The theorem of C4 at the message of scenario 1, with the default
    bound. *)
Lemma update_nonce_takes_first_candidate_below_bound_witness :
  let ts := "20000102030405" in
  let cs := "e3b0c44298fc" in
  timestamp_str sample_message = Some ts
  /\ timestamp_obj sample_message = Some sample_now
  /\ checksum sample_message = Some cs
  /\ nonce_chars
     = list_ascii_of_string
         "abcdefghijklmnopqrstuvwxyzABCDEFGHIJKLMNOPQRSTUVWXYZ0123456789"
  /\ hd_error candidates = Some "aaaaaaaaaa"
  /\ (forall c, In c candidates
                <-> String.length c = 10%nat
                    /\ all_chars (in_chars nonce_chars) c = true)
  /\ StronglySorted (lex_lt (rank_in nonce_chars)) candidates
  /\ ((exists c, In c candidates /\ nonce_pow ts cs c < search_bound (-1)) ->
      exists before w after self',
        candidates = (before ++ w :: after)%list
        /\ (forall c, In c before -> ~ nonce_pow ts cs c < search_bound (-1))
        /\ nonce_pow ts cs w < search_bound (-1)
        /\ update_nonce sample_message (-1) (Some sample_now) sample_now
           = Ret (Z.of_nat (List.length before) + 1) self'
        /\ nonce self' = Some w
        /\ initial_pow self' = Some (nonce_pow ts cs w)
        /\ current_pow self'
           = Some (scaled_pow (nonce_pow ts cs w)
                     (now_or (Some sample_now) sample_now) sample_now
                     (len (__str__ self'))))
  /\ ((forall c, In c candidates -> ~ nonce_pow ts cs c < search_bound (-1)) ->
      exists self',
        update_nonce sample_message (-1) (Some sample_now) sample_now
        = Exc (RuntimeError "Couldn't reach target proof of work") self').
Proof.
  intros ts cs.
  split; [reflexivity|]. split; [reflexivity|]. split; [reflexivity|].
  exact (update_nonce_takes_first_candidate_below_bound
           sample_message ts cs sample_now (-1) (Some sample_now) sample_now
           eq_refl eq_refl eq_refl).
Defined.

(** Scenario 1: with the default bound the first candidate is taken. *)
Lemma update_nonce_scenario_1 :
  exists self',
    update_nonce sample_message (-1) (Some sample_now) sample_now = Ret 1 self'
    /\ nonce self' = Some "aaaaaaaaaa"
    /\ initial_pow self' = Some 1270388943
    /\ current_pow self' = Some 1270388943.
Proof.
  unfold update_nonce. cbn [timestamp_str checksum sample_message].
  fold nonce_chars. fold candidates.
  pose proof (hd_product "a"%char (tl nonce_chars) 10) as Hd.
  change (product ("a"%char :: tl nonce_chars) 10) with candidates in Hd.
  destruct candidates as [|c rest]; [discriminate Hd|].
  cbn in Hd. injection Hd as ->.
  cbn [search]. rewrite nonce_pow_eq.
  assert (P : nonce_pow "20000102030405" "e3b0c44298fc" "aaaaaaaaaa" = 1270388943)
    by (vm_compute; reflexivity).
  rewrite P. change (-1 <? 0) with true. cbv iota.
  change (1270388943 <? 2 ^ (4 * pow_bytes) - 1) with true. cbv iota.
  eexists. split; [vm_compute; reflexivity|].
  repeat split.
Qed.

End MinerFacts.

(* ================================================================== *)
(** * The server: what a handler does to the state *)
(* ================================================================== *)

Module ServerFacts.
Import Py Datetime Message_v0 Server Spec StrFacts IntFacts PowFacts ParseFacts.

(** What a successful [parse] has established. *)
Lemma parse_success self s required_pow utc_now clock m :
  parse self s required_pow utc_now clock = Ret EmptyString m ->
  m = parsed self s (now_or utc_now clock)
  /\ 53 <= len s
  /\ (exists t, strptime (field_timestamp s) = Some t)
  /\ frame_initial_pow s <= required_pow
  /\ frame_current_pow s (now_or utc_now clock) <= required_pow.
Proof.
  rewrite parse_unfold. cbv zeta.
  destruct (Z.ltb_spec (len s) 53) as [Hl|Hl]; [discriminate|].
  destruct (negb (startswith s _)); [discriminate|].
  destruct (negb (endswith s _)); [discriminate|].
  destruct (negb (is_some (int_of_str 10 _))); [discriminate|].
  destruct (str_gt _ _); [discriminate|].
  destruct (frame_initial_pow s >? required_pow) eqn:Ei;
    [destruct (to_bytes_hex 4 required_pow); discriminate|].
  destruct (strptime (field_timestamp s)) as [t|] eqn:Et; cbn [is_some negb];
    [|discriminate].
  destruct (negb (String.eqb _ _)); [discriminate|].
  destruct (frame_current_pow s (now_or utc_now clock) >? required_pow) eqn:Ec;
    [destruct (to_bytes_hex 4 required_pow); discriminate|].
  intros Hm. injection Hm as <-.
  rewrite Z.gtb_ltb in Ei, Ec. apply Z.ltb_ge in Ei, Ec.
  repeat split; try assumption. now exists t.
Qed.

Lemma frame_current_pow_le_max s now : frame_current_pow s now <= pow_max.
Proof.
  unfold frame_current_pow. destruct (strptime (field_timestamp s)).
  - apply scaled_pow_le_max.
  - rewrite pow_max_value. lia.
Qed.

Lemma parsed_pows self s now :
  initial_pow (parsed self s now) = Some (frame_initial_pow s)
  /\ current_pow (parsed self s now) = Some (frame_current_pow s now).
Proof. split; reflexivity. Qed.

Lemma get_worst_pow_required_pow env st w st' :
  get_worst_pow env st = Ret w st' -> required_pow st' = required_pow st.
Proof.
  unfold get_worst_pow.
  destruct (worst_loop env (messages st) [] (ticks st) 0 0) as [a [d n]|e [d n]];
    intros H; [injection H as _ <-; reflexivity | discriminate].
Qed.

Lemma get_worst_pow_required_pow_exc env st e st' :
  get_worst_pow env st = Exc e st' -> required_pow st' = required_pow st.
Proof.
  unfold get_worst_pow.
  destruct (worst_loop env (messages st) [] (ticks st) 0 0) as [a [d n]|e' [d n]];
    intros H; [discriminate | injection H as _ <-; reflexivity].
Qed.

(** The loop and the insertion keep a watermark that bounds the current
    proof of work of the message. *)
Lemma admit_required_pow fuel env message msg_str : forall st,
  (forall c, current_pow message = Some c -> c <= required_pow st) ->
  match make_room fuel env message msg_str st with
  | Replied _ st' | Exited _ st' | Raised _ st' | OutOfFuel st' =>
      required_pow st' = required_pow st
  end.
Proof.
  induction fuel as [|fuel IH]; intros st Hc; cbn [make_room].
  - destruct (_ && _); [reflexivity|].
    destruct (initial_pow message); [|reflexivity].
    destruct (current_pow message) as [c|]; [|reflexivity].
    cbn. specialize (Hc c eq_refl). lia.
  - destruct (_ && _).
    + destruct (get_worst_pow env st) as [[wi wc] st1|e st1] eqn:G.
      * apply get_worst_pow_required_pow in G.
        destruct (current_pow message) as [c|] eqn:Ec; [|exact G].
        destruct (c >? wc).
        -- destruct (to_bytes_hex _ wc); exact G.
        -- rewrite <- G.
           apply (IH (mkState (dict_pop (messages st1) wi)
                        (required_pow st1) (ticks st1))).
           cbn [required_pow]. rewrite G. exact Hc.
      * now apply get_worst_pow_required_pow_exc in G.
    + destruct (initial_pow message); [|reflexivity].
      destruct (current_pow message) as [c|]; [|reflexivity].
      cbn. specialize (Hc c eq_refl). lia.
Qed.

(** No handler changes the watermark. *)
Lemma handle_message_required_pow fuel env st s :
  match handle_message fuel env st s with
  | Replied _ st' | Exited _ st' | Raised _ st' | OutOfFuel st' =>
      required_pow st' = required_pow st
  end.
Proof.
  unfold handle_message.
  destruct (parse __init__ s (required_pow st) (utc_now env) (wall env (ticks st)))
    as [reply m|e m] eqn:P; [|reflexivity].
  destruct (String.eqb_spec reply EmptyString) as [->|]; cbn [negb]; [|reflexivity].
  destruct (payload_is m "__info__"); [destruct (to_bytes_hex _ _); reflexivity|].
  destruct (payload_is m "__messages__"); [reflexivity|].
  destruct (payload_is m "__exit__"); [destruct (utc_now env); reflexivity|].
  destruct (payload_is m "__memory__"); [destruct (utc_now env); reflexivity|].
  apply parse_success in P as (-> & _ & _ & _ & Hc).
  set (st1 := mkState _ _ _).
  change (required_pow st) with (required_pow st1).
  apply admit_required_pow. intros c E. cbn in E. injection E as <-. exact Hc.
Qed.

(** C10.  In every state the server can reach required_pow has its initial
    value 2^32 - 1: a parsed message has a current proof of work of at
    most required_pow, so the maximum taken after an insertion changes
    nothing.  The threshold given to the verifier and the reply to
    __info__ are therefore the same for the life of the process. *)
Theorem required_pow_never_changes (env : Env) (st : State) :
  reachable env st ->
  required_pow st = 2 ^ 32 - 1
  /\ to_bytes_hex (Z.to_nat (pow_bytes / 2)) (required_pow st) = Some "ffffffff".
Proof.
  intros R.
  assert (E : required_pow st = 2 ^ 32 - 1).
  { induction R as [|fuel st s reply st' R IH H|fuel st s e st' R IH H].
    - reflexivity.
    - pose proof (handle_message_required_pow fuel env st s) as K.
      rewrite H in K. congruence.
    - pose proof (handle_message_required_pow fuel env st s) as K.
      rewrite H in K. congruence. }
  split; [exact E|]. rewrite E. reflexivity.
Qed.

End ServerFacts.

(* ================================================================== *)
(** * The server: rejection of a weaker message *)
(* ================================================================== *)

Module RejectFacts.
Import Py Datetime Message_v0 Server Spec StrFacts IntFacts PowFacts ParseFacts
  ServerFacts.

Lemma update_pow_ret m now u m' :
  update_pow m now = Ret u m' ->
  exists c, m' = set_current_pow m (Some c) /\ c <= pow_max.
Proof.
  unfold update_pow.
  destruct (timestamp_obj m); [|discriminate].
  destruct (initial_pow m); [|discriminate].
  intros H. injection H as _ <-. eexists. split; [reflexivity|].
  apply scaled_pow_le_max.
Qed.

Lemma to_str_set_current_pow m p : __str__ (set_current_pow m p) = __str__ m.
Proof. reflexivity. Qed.

Lemma set_current_pow_twice m p q :
  set_current_pow (set_current_pow m p) q = set_current_pow m q.
Proof. reflexivity. Qed.

(** [get_worst_pow] keeps the keys, their order and the messages, up to
    the current proofs of work it writes; what it returns is between 0 and
    [2^32 - 1]. *)
Lemma worst_loop_ret env todo : forall done n wi wc wi' wc' d' n',
  worst_loop env todo done n wi wc = Ret (wi', wc') (d', n') ->
  0 <= wc <= pow_max ->
  0 <= wc' <= pow_max
  /\ Forall2 same_but_current_pow (rev done ++ todo) d'.
Proof.
  induction todo as [|[k m] todo IH]; intros done n wi wc wi' wc' d' n' H R.
  - cbn in H. injection H as <- <- <- <-. split; [exact R|].
    rewrite app_nil_r.
    induction (rev done) as [|e l IHl]; constructor; [now split | exact IHl].
  - cbn [worst_loop] in H.
    destruct (update_pow m _) as [u m'|e m'] eqn:U; [|discriminate].
    apply update_pow_ret in U as (c & -> & Hc).
    cbn [current_pow set_current_pow] in H.
    assert (S : forall l : list (Z * Message),
              Forall2 same_but_current_pow
                (rev ((k, set_current_pow m (Some c)) :: done) ++ todo) l ->
              Forall2 same_but_current_pow (rev done ++ (k, m) :: todo) l).
    { intros l F. cbn [rev] in F. rewrite <- List.app_assoc in F. cbn [app] in F.
      apply Forall2_app_inv_l in F as (l1 & l2 & F1 & F2 & ->).
      apply Forall2_app; [exact F1|].
      inversion F2 as [|x y l l' [Kx Mx] F3]; subst.
      constructor; [|exact F3]. split; [exact Kx|].
      cbn [snd] in *. rewrite <- Mx. reflexivity. }
    destruct (Z.ltb_spec wc c).
    + apply IH in H as [R' F]; [|lia]. split; [exact R' | now apply S].
    + apply IH in H as [R' F]; [|lia]. split; [exact R' | now apply S].
Qed.

(** With a fixed time and current proofs of work that are up to date,
    [get_worst_pow] writes what is there already. *)
Lemma worst_loop_up_to_date env now todo : forall done n wi wc wi' wc' d' n',
  utc_now env = Some now ->
  Forall (fun e => up_to_date now (snd e)) todo ->
  worst_loop env todo done n wi wc = Ret (wi', wc') (d', n') ->
  d' = (rev done ++ todo)%list /\ n' = n.
Proof.
  induction todo as [|[k m] todo IH]; intros done n wi wc wi' wc' d' n' E F H.
  - cbn in H. injection H as _ _ <- <-. now rewrite app_nil_r.
  - cbn [worst_loop] in H. rewrite E in H. cbn [now_or] in H.
    inversion F as [|x l U F']; subst. cbn [snd] in U. unfold up_to_date in U.
    rewrite U in H. unfold tick in H. rewrite E in H.
    destruct (current_pow m) as [c|]; [|discriminate].
    destruct (wc <? c); apply IH in H as [-> ->]; try assumption;
      cbn [rev]; rewrite <- List.app_assoc; split; reflexivity.
Qed.

Lemma same_but_current_pow_keys d d' :
  Forall2 same_but_current_pow d d' -> map fst d' = map fst d.
Proof.
  induction 1 as [|a b l l' [K _] F IH]; cbn; [reflexivity|]. now rewrite K, IH.
Qed.

Lemma same_but_current_pow_storage d d' :
  Forall2 same_but_current_pow d d' -> storage_of d' = storage_of d.
Proof.
  induction 1 as [|[k m] [k' m'] l l' [_ M] F IH]; cbn [storage_of]; [reflexivity|].
  cbn [snd] in M. rewrite IH.
  change (__str__ m') with (__str__ (set_current_pow m' None)).
  change (__str__ m) with (__str__ (set_current_pow m None)).
  now rewrite M.
Qed.

Lemma get_worst_pow_ret env st wi wc st' :
  get_worst_pow env st = Ret (wi, wc) st' ->
  0 <= wc <= pow_max
  /\ required_pow st' = required_pow st
  /\ Forall2 same_but_current_pow (messages st) (messages st')
  /\ (forall now, utc_now env = Some now ->
        Forall (fun e => up_to_date now (snd e)) (messages st) -> st' = st).
Proof.
  unfold get_worst_pow.
  destruct (worst_loop env (messages st) [] (ticks st) 0 0)
    as [[wi0 wc0] [d n]|e [d n]] eqn:W; [|discriminate].
  intros H. injection H as -> -> <-.
  destruct (worst_loop_ret env _ _ _ _ _ _ _ _ _ W) as [R F].
  { rewrite pow_max_value; lia. }
  split; [exact R|]. split; [reflexivity|]. split; [exact F|].
  intros now E U.
  destruct (worst_loop_up_to_date env now _ _ _ _ _ _ _ _ _ E U W) as [-> ->].
  cbn [rev app]. now destruct st.
Qed.

(** A frame that [parse] accepts and whose payload is not a control
    payload goes to the admission loop. *)
Lemma handle_message_admits fuel env st s m p :
  parse __init__ s (required_pow st) (utc_now env) (wall env (ticks st))
  = Ret EmptyString m ->
  payload m = Some p -> is_control p = false ->
  handle_message fuel env st s = make_room fuel env m (__str__ m) (after_parse env st).
Proof.
  intros P Ep C. unfold handle_message. rewrite P. cbn [String.eqb negb].
  unfold payload_is. rewrite Ep.
  unfold is_control in C. rewrite !orb_false_iff in C.
  destruct C as (((-> & ->) & ->) & ->). reflexivity.
Qed.

(** C6.  Let a frame be accepted by the verifier with a payload that is
    not a control payload, let the store be non-empty and the message not
    fit, and let its current proof of work be strictly greater than wc,
    the greatest current proof of work [get_worst_pow] recomputes in the
    store.  Then the handler replies Required pow: 0x and wc on 8
    hexadecimal digits; no message is evicted and the new one is not
    inserted: the store has the same keys in the same order with the same
    messages, whose current proofs of work are the recomputed ones, the
    same bytes are used, and required_pow is the same.  With a fixed time
    and current proofs of work already up to date the state is exactly
    the one before the admission. *)
Theorem weaker_message_rejected_store_kept
  (fuel : nat) (env : Env) (st : State) (s p : string) (m : Message)
  (c wi wc : Z) (st' : State) :
  parse __init__ s (required_pow st) (utc_now env) (wall env (ticks st))
  = Ret EmptyString m ->
  payload m = Some p -> is_control p = false ->
  current_pow m = Some c ->
  messages st <> [] ->
  len (__str__ m) + get_storage_used st > max_storage env ->
  get_worst_pow env (after_parse env st) = Ret (wi, wc) st' ->
  c > wc ->
  handle_message (S fuel) env st s
  = Replied ("Required pow: 0x" ++ hex_of 8 wc ++ nl) st'
  /\ Forall2 same_but_current_pow (messages st) (messages st')
  /\ map fst (messages st') = map fst (messages st)
  /\ get_storage_used st' = get_storage_used st
  /\ required_pow st' = required_pow st
  /\ (forall now, utc_now env = Some now ->
        Forall (fun e => up_to_date now (snd e)) (messages st) ->
        messages st' = messages st /\ st' = after_parse env st).
Proof.
  intros P Ep C Ec Ne Big G Lt.
  destruct (get_worst_pow_ret _ _ _ _ _ G) as (R & Erp & F & U).
  cbn [after_parse messages required_pow] in Erp, F.
  split.
  - rewrite (handle_message_admits _ _ _ _ _ _ P Ep C). cbn [make_room].
    assert (L : (0 <? Z.of_nat (List.length (messages (after_parse env st)))) = true).
    { cbn [after_parse messages]. apply Z.ltb_lt.
      destruct (messages st); [congruence | cbn [List.length]; lia]. }
    rewrite L.
    change (get_storage_used (after_parse env st)) with (get_storage_used st).
    replace (len (__str__ m) + get_storage_used st >? max_storage env) with true
      by (symmetry; apply Z.gtb_lt; lia).
    cbn [andb]. rewrite G, Ec.
    replace (c >? wc) with true by (symmetry; apply Z.gtb_lt; lia).
    rewrite to_bytes_hex_some; [reflexivity|].
    rewrite pow_max_value in R. change (Z.to_nat (pow_bytes / 2)) with 4%nat.
    change (256 ^ Z.of_nat 4) with 4294967296. lia.
  - split; [exact F|].
    split; [now apply same_but_current_pow_keys|].
    split; [now apply same_but_current_pow_storage|].
    split; [exact Erp|].
    intros now E Up. rewrite (U now E Up). split; reflexivity.
Qed.

End RejectFacts.

Module ServerSamples.
Import Py Datetime Message_v0 Server Spec ServerFacts RejectFacts.

Example two_hello_state_store :
  map fst (messages two_hello_state) = [1137447016; 2394338968]
  /\ get_storage_used two_hello_state = 124.
Proof. split; vm_compute; reflexivity. Qed.

(** The theorem of C6 on the sample server: a message with payload a does
    not fit beside hello world and hello w and is weaker than both. *)
Lemma weaker_message_rejected_store_kept_witness :
  let st := two_hello_state in
  let m := parsed_at_midnight frame_a in
  (parse __init__ frame_a (required_pow st) (utc_now sample_env)
     (wall sample_env (ticks st)) = Ret EmptyString m
   /\ payload m = Some "a" /\ is_control "a" = false
   /\ current_pow m = Some 4007837776
   /\ messages st <> []
   /\ len (__str__ m) + get_storage_used st > max_storage sample_env
   /\ get_worst_pow sample_env (after_parse sample_env st)
      = Ret (2394338968, 2394338968) st
   /\ 4007837776 > 2394338968)
  /\ handle_message 1 sample_env st frame_a
     = Replied ("Required pow: 0x" ++ hex_of 8 2394338968 ++ nl) st
  /\ hex_of 8 2394338968 = "8eb6b698".
Proof.
  intros st m.
  assert (H1 : parse __init__ frame_a (required_pow st) (utc_now sample_env)
                 (wall sample_env (ticks st)) = Ret EmptyString m)
    by (vm_compute; reflexivity).
  assert (H2 : payload m = Some "a") by (vm_compute; reflexivity).
  assert (H3 : is_control "a" = false) by reflexivity.
  assert (H4 : current_pow m = Some 4007837776) by (vm_compute; reflexivity).
  assert (H5 : messages st <> []) by (vm_compute; discriminate).
  assert (H6 : len (__str__ m) + get_storage_used st > max_storage sample_env)
    by (vm_compute; reflexivity).
  assert (H7 : get_worst_pow sample_env (after_parse sample_env st)
               = Ret (2394338968, 2394338968) st) by (vm_compute; reflexivity).
  assert (H8 : 4007837776 > 2394338968) by lia.
  split; [exact (conj H1 (conj H2 (conj H3 (conj H4 (conj H5 (conj H6 (conj H7 H8)))))))|].
  split; [|vm_compute; reflexivity].
  exact (proj1 (weaker_message_rejected_store_kept
                  0 sample_env st frame_a "a" m 4007837776
                  2394338968 2394338968 st H1 H2 H3 H4 H5 H6 H7 H8)).
Defined.

(** The theorem of C10 on the sample server after two admissions. *)
Lemma required_pow_never_changes_witness :
  reachable sample_env two_hello_state
  /\ required_pow two_hello_state = 2 ^ 32 - 1
  /\ to_bytes_hex (Z.to_nat (pow_bytes / 2)) (required_pow two_hello_state)
     = Some "ffffffff".
Proof.
  assert (R : reachable sample_env two_hello_state).
  { apply (reach_reply sample_env 2
             (run sample_env initial_state [frame_hello_world])
             frame_hello_w ("ok" ++ nl)).
    - apply (reach_reply sample_env 1 initial_state frame_hello_world ("ok" ++ nl)).
      + apply reach_init.
      + vm_compute. reflexivity.
    - vm_compute. reflexivity. }
  split; [exact R|].
  exact (required_pow_never_changes sample_env two_hello_state R).
Defined.

End ServerSamples.

(* ================================================================== *)
(** * The server: admitting the same message again *)
(* ================================================================== *)

Module AdmitFacts.
Import Py Datetime Message_v0 Server Spec StrFacts IntFacts PowFacts ParseFacts
  ServerFacts RejectFacts.

Lemma length_slice_to_negative (s : string) (a b : Z) :
  0 <= a -> b < 0 -> a - b <= len s -> len (slice s a b) = len s + b - a.
Proof.
  intros Ha Hk Hl. unfold slice, clip.
  destruct (Z.ltb_spec a 0); [lia|]. destruct (Z.ltb_spec b 0); [|lia].
  rewrite (Z.min_l a), (Z.max_r 0 a) by lia.
  rewrite Z.min_l, Z.max_r by lia.
  unfold len in *. rewrite length_take; [lia|]. rewrite length_drop. lia.
Qed.

(** The wire form of a parsed message has the length of the frame it was
    parsed from. *)
Lemma len_to_str_parsed s now :
  53 <= len s -> len (__str__ (parsed __init__ s now)) = len s.
Proof.
  intros L.
  rewrite (RoundTrip.to_str_frame _ (field_timestamp s) (field_nonce s)
             (field_checksum s) (field_payload s)); try reflexivity.
  rewrite RoundTrip.len_frame.
  - unfold field_payload. rewrite length_slice_to_negative; lia.
  - unfold field_timestamp. rewrite length_slice; lia.
  - unfold field_nonce. rewrite length_slice; lia.
  - unfold field_checksum. rewrite length_slice; lia.
Qed.

Lemma parse_fixed_time self s required_pow now c1 c2 :
  parse self s required_pow (Some now) c1 = parse self s required_pow (Some now) c2.
Proof. now rewrite !parse_unfold. Qed.

(** No diagnostic of [parse] is the reply of an admission. *)
Lemma parse_reply_not_ok self s required_pow utc_now clock m :
  parse self s required_pow utc_now clock <> Ret ("ok" ++ nl) m.
Proof.
  rewrite parse_unfold. cbv zeta.
  destruct (len s <? 53); [discriminate|].
  destruct (negb (startswith s _)); [discriminate|].
  destruct (negb (endswith s _)); [discriminate|].
  destruct (negb (is_some (int_of_str 10 _))); [discriminate|].
  destruct (str_gt _ _); [discriminate|].
  destruct (frame_initial_pow s >? required_pow);
    [destruct (to_bytes_hex 4 required_pow); discriminate|].
  destruct (negb (is_some (strptime _))); [discriminate|].
  destruct (negb (String.eqb _ _)); [discriminate|].
  destruct (frame_current_pow s _ >? required_pow);
    [destruct (to_bytes_hex 4 required_pow); discriminate|].
  discriminate.
Qed.

Lemma all_messages_not_ok d : all_messages d <> "ok" ++ nl.
Proof. destruct d as [|[k m] d]; discriminate. Qed.

(** A handler that replies ok has parsed the frame and admitted the
    message. *)
Lemma handle_message_ok fuel env st s st1 :
  handle_message fuel env st s = Replied ("ok" ++ nl) st1 ->
  exists m p,
    parse __init__ s (required_pow st) (utc_now env) (wall env (ticks st))
    = Ret EmptyString m
    /\ payload m = Some p /\ is_control p = false
    /\ make_room fuel env m (__str__ m) (after_parse env st) = Replied ("ok" ++ nl) st1.
Proof.
  unfold handle_message.
  destruct (parse __init__ s (required_pow st) (utc_now env) (wall env (ticks st)))
    as [reply m|e m] eqn:P; [|discriminate].
  destruct (String.eqb_spec reply EmptyString) as [->|Ne]; cbn [negb].
  2:{ intros H. injection H as -> _. now apply parse_reply_not_ok in P. }
  pose proof (parse_success _ _ _ _ _ _ P) as (Em & _).
  assert (Ep : payload m = Some (field_payload s)) by (rewrite Em; reflexivity).
  unfold payload_is. rewrite Ep.
  destruct (String.eqb (field_payload s) "__info__") eqn:C1;
    [destruct (to_bytes_hex _ _); discriminate|].
  destruct (String.eqb (field_payload s) "__messages__") eqn:C2.
  { intros H. injection H as H _. now apply all_messages_not_ok in H. }
  destruct (String.eqb (field_payload s) "__exit__") eqn:C3;
    [destruct (utc_now env); discriminate|].
  destruct (String.eqb (field_payload s) "__memory__") eqn:C4;
    [destruct (utc_now env); discriminate|].
  intros H. exists m, (field_payload s).
  split; [reflexivity|]. split; [exact Ep|]. split; [|exact H].
  unfold is_control. now rewrite C1, C2, C3, C4.
Qed.

Lemma dict_set_twice d k v : dict_set (dict_set d k v) k v = dict_set d k v.
Proof.
  induction d as [|[k' v'] d IH]; cbn [dict_set].
  - now rewrite Z.eqb_refl.
  - destruct (Z.eqb_spec k' k) as [->|Ne]; cbn [dict_set].
    + now rewrite Z.eqb_refl.
    + destruct (Z.eqb_spec k' k); [contradiction|]. now rewrite IH.
Qed.

(** After an admission that replied ok the message is in the store under
    its initial proof of work. *)
Lemma admit_ok_stored fuel env m msg_str : forall st st1,
  make_room fuel env m msg_str st = Replied ("ok" ++ nl) st1 ->
  exists i c d,
    initial_pow m = Some i /\ current_pow m = Some c
    /\ messages st1 = dict_set d i m.
Proof.
  induction fuel as [|fuel IH]; intros st st1; cbn [make_room].
  - destruct (_ && _); [discriminate|].
    destruct (initial_pow m) as [i|]; [|discriminate].
    destruct (current_pow m) as [c|]; [|discriminate].
    intros H. injection H as <-. now exists i, c, (messages st).
  - destruct (_ && _).
    + destruct (get_worst_pow env st) as [[wi wc] st2|e st2]; [|discriminate].
      destruct (current_pow m) as [c|] eqn:Ec; [|discriminate].
      destruct (c >? wc); [destruct (to_bytes_hex _ wc); discriminate|].
      intros H. apply IH in H as (i & c' & d & Ei & Ec' & Ed).
      exists i, c', d. repeat split; assumption.
    + destruct (initial_pow m) as [i|]; [|discriminate].
      destruct (current_pow m) as [c|]; [|discriminate].
      intros H. injection H as <-. now exists i, c, (messages st).
Qed.

Lemma worst_loop_ticks_fixed env now todo : forall done n wi wc r d' n',
  utc_now env = Some now ->
  worst_loop env todo done n wi wc = Ret r (d', n') -> n' = n.
Proof.
  induction todo as [|[k m] todo IH]; intros done n wi wc r d' n' E H.
  - cbn in H. now injection H as _ _ <-.
  - cbn [worst_loop] in H. unfold tick in H. rewrite E in H.
    destruct (update_pow m _) as [u m'|e m']; [|discriminate].
    destruct (current_pow m') as [c|]; [|discriminate].
    destruct (wc <? c); now apply IH in H.
Qed.

Lemma admit_ticks_fixed fuel env now m msg_str : forall st reply st1,
  utc_now env = Some now ->
  make_room fuel env m msg_str st = Replied reply st1 -> ticks st1 = ticks st.
Proof.
  induction fuel as [|fuel IH]; intros st reply st1 E; cbn [make_room].
  - destruct (_ && _); [discriminate|].
    destruct (initial_pow m); [|discriminate].
    destruct (current_pow m); [|discriminate].
    intros H. now injection H as _ <-.
  - destruct (_ && _).
    + unfold get_worst_pow.
      destruct (worst_loop env (messages st) [] (ticks st) 0 0)
        as [[wi wc] [d n]|e [d n]] eqn:W; [|discriminate].
      apply (worst_loop_ticks_fixed env now) in W; [|exact E]. subst n.
      destruct (current_pow m) as [c|]; [|discriminate].
      destruct (c >? wc).
      * destruct (to_bytes_hex _ wc); [|discriminate].
        intros H. now injection H as _ <-.
      * intros H. now apply IH in H.
    + destruct (initial_pow m); [|discriminate].
      destruct (current_pow m); [|discriminate].
      intros H. now injection H as _ <-.
Qed.

(** A frame that [parse] has accepted once passes again every check that
    does not read the clock: at another time, and with the same
    [required_pow], only the timestamp in the future and the current proof
    of work can refuse it. *)
Lemma parse_again self s required_pow utc_now clock m utc_now' clock' :
  parse self s required_pow utc_now clock = Ret EmptyString m ->
  str_gt (field_timestamp s) (strftime (now_or utc_now clock)) = false
  /\ parse self s required_pow utc_now' clock'
     = if str_gt (field_timestamp s) (strftime (now_or utc_now' clock'))
       then Ret ("Datetime in future" ++ nl) self
       else if frame_current_pow s (now_or utc_now' clock') >? required_pow
            then Ret ("Required PoW: 0x" ++ hex_of 8 required_pow ++ nl) self
            else Ret EmptyString (parsed self s (now_or utc_now' clock')).
Proof.
  rewrite !parse_unfold. cbv zeta.
  destruct (len s <? 53); [discriminate|].
  destruct (negb (startswith s _)); [discriminate|].
  destruct (negb (endswith s _)); [discriminate|].
  destruct (negb (is_some (int_of_str 10 _))); [discriminate|].
  destruct (str_gt (field_timestamp s) (strftime (now_or utc_now clock)));
    [discriminate|].
  destruct (Z.gtb_spec (frame_initial_pow s) required_pow) as [|Hi];
    [destruct (to_bytes_hex 4 required_pow); discriminate|].
  destruct (negb (is_some (strptime _))); [discriminate|].
  destruct (negb (String.eqb _ _)); [discriminate|].
  intros _. split; [reflexivity|].
  destruct (str_gt _ _); [reflexivity|].
  destruct (Z.gtb_spec (frame_current_pow s (now_or utc_now' clock')) required_pow)
    as [Hc|Hc]; [|reflexivity].
  apply (too_weak_reply self required_pow
           (frame_current_pow s (now_or utc_now' clock'))).
  - pose proof (frame_initial_pow_range s). lia.
  - lia.
  - apply frame_current_pow_le_max.
Qed.

Lemma dict_set_over d k v v' : dict_set (dict_set d k v) k v' = dict_set d k v'.
Proof.
  induction d as [|[k' w] d IH]; cbn [dict_set].
  - now rewrite Z.eqb_refl.
  - destruct (Z.eqb_spec k' k) as [->|Ne]; cbn [dict_set].
    + now rewrite Z.eqb_refl.
    + destruct (Z.eqb_spec k' k); [contradiction|]. now rewrite IH.
Qed.

Lemma same_but_current_pow_refl d : Forall2 same_but_current_pow d d.
Proof. induction d; constructor; [split; reflexivity | assumption]. Qed.

Lemma dict_set_same_but_current_pow d k v v' :
  set_current_pow v None = set_current_pow v' None ->
  Forall2 same_but_current_pow (dict_set d k v) (dict_set d k v').
Proof.
  intros E. induction d as [|[k' w] d IH]; cbn [dict_set].
  - constructor; [split; [reflexivity | exact E] | constructor].
  - destruct (k' =? k).
    + constructor; [split; [reflexivity | exact E] | apply same_but_current_pow_refl].
    + constructor; [split; reflexivity | exact IH].
Qed.

(** What a second handler for an admitted frame does when the message
    fits: one of three things, by what [parse] finds at the new time. *)
Lemma second_handler fuel fuel' env st st1 s :
  handle_message fuel env st s = Replied ("ok" ++ nl) st1 ->
  len s + get_storage_used st1 <= max_storage env ->
  exists d,
    messages st1
    = dict_set d (frame_initial_pow s)
        (parsed __init__ s (now_or (utc_now env) (wall env (ticks st))))
    /\ required_pow st1 = required_pow st
    /\ str_gt (field_timestamp s)
         (strftime (now_or (utc_now env) (wall env (ticks st)))) = false
    /\ frame_current_pow s (now_or (utc_now env) (wall env (ticks st)))
       <= required_pow st
    /\ ((str_gt (field_timestamp s)
           (strftime (now_or (utc_now env) (wall env (ticks st1)))) = true
         /\ handle_message fuel' env st1 s
            = Replied ("Datetime in future" ++ nl) (after_parse env st1))
        \/ (str_gt (field_timestamp s)
              (strftime (now_or (utc_now env) (wall env (ticks st1)))) = false
            /\ required_pow st1
               < frame_current_pow s (now_or (utc_now env) (wall env (ticks st1)))
            /\ handle_message fuel' env st1 s
               = Replied ("Required PoW: 0x" ++ hex_of 8 (required_pow st1) ++ nl)
                   (after_parse env st1))
        \/ (str_gt (field_timestamp s)
              (strftime (now_or (utc_now env) (wall env (ticks st1)))) = false
            /\ frame_current_pow s (now_or (utc_now env) (wall env (ticks st1)))
               <= required_pow st1
            /\ handle_message fuel' env st1 s
               = Replied ("ok" ++ nl)
                   (mkState
                      (dict_set (messages st1) (frame_initial_pow s)
                         (parsed __init__ s
                            (now_or (utc_now env) (wall env (ticks st1)))))
                      (required_pow st1) (tick env (ticks st1))))).
Proof.
  intros H Fit.
  pose proof (handle_message_required_pow fuel env st s) as Rp. rewrite H in Rp.
  destruct (handle_message_ok _ _ _ _ _ H) as (m & p & P & Ep & C & A).
  pose proof (parse_success _ _ _ _ _ _ P) as (Em & L & _ & _ & Hc).
  destruct (admit_ok_stored _ _ _ _ _ _ A) as (i & c & d & Ei & Ec & Ed).
  assert (Ei' : i = frame_initial_pow s)
    by (rewrite Em in Ei; cbn in Ei; now injection Ei as <-).
  subst i. rewrite Em in Ed.
  destruct (parse_again __init__ s (required_pow st) (utc_now env)
              (wall env (ticks st)) m (utc_now env) (wall env (ticks st1)) P)
    as (T1 & P2).
  exists d. split; [exact Ed|]. split; [exact Rp|]. split; [exact T1|].
  split; [exact Hc|].
  set (now2 := now_or (utc_now env) (wall env (ticks st1))) in *.
  rewrite <- Rp in P2.
  unfold handle_message at 1 2 3. rewrite P2.
  fold (after_parse env st1).
  destruct (str_gt (field_timestamp s) (strftime now2)).
  { left. split; reflexivity. }
  right.
  destruct (Z.gtb_spec (frame_current_pow s now2) (required_pow st1)) as [G|G].
  { left. split; [reflexivity|]. split; [exact G|].
    cbn [String.eqb negb]. reflexivity. }
  right. split; [reflexivity|]. split; [exact G|].
  cbn [String.eqb negb].
  assert (Ep2 : payload (parsed __init__ s now2) = Some p)
    by (rewrite Em in Ep; exact Ep).
  unfold payload_is. rewrite Ep2.
  unfold is_control in C. rewrite !orb_false_iff in C.
  destruct C as (((-> & ->) & ->) & ->). cbv iota.
  assert (Lm : len (__str__ (parsed __init__ s now2)) = len s)
    by (now apply len_to_str_parsed).
  assert (Cond : (0 <? Z.of_nat (List.length (messages (after_parse env st1))))
                 && (len (__str__ (parsed __init__ s now2))
                     + get_storage_used (after_parse env st1)
                     >? max_storage env) = false).
  { apply andb_false_iff. right. rewrite Z.gtb_ltb. apply Z.ltb_ge.
    change (get_storage_used (after_parse env st1)) with (get_storage_used st1).
    lia. }
  destruct fuel'; cbn [make_room]; rewrite Cond;
    cbn [initial_pow current_pow parsed after_parse messages required_pow ticks];
    rewrite Z.max_l by lia; reflexivity.
Qed.

(** C9, as the code has it.  When a frame has been admitted (the reply was
    ok) and its message still fits beside the store as the first admission
    left it -- the length of the frame plus the bytes used is at most
    max_storage -- a second handler for the same frame evicts nothing,
    whether the time of the server is fixed or its clock runs: the store
    keeps its keys in their order, its bytes, and every message up to the
    current proof of work of the one that is written again, and
    required_pow is the same.  The handler replies ok exactly when [parse]
    accepts the frame at the new time, that is when the timestamp is not in
    the future there and the current proof of work at that time is at most
    required_pow; the same key is then written again, with the message as
    parsed at the new time.  Otherwise the reply is the diagnostic of
    [parse] and the store is the same.  When the current proof of work has
    not changed the store after the second admission is equal to the store
    after the first; with the time of the server fixed the reply is ok and
    the whole state is equal. *)
Theorem readmission_keeps_store_when_message_fits
  (fuel fuel' : nat) (env : Env) (st st1 : State) (s : string) :
  handle_message fuel env st s = Replied ("ok" ++ nl) st1 ->
  len s + get_storage_used st1 <= max_storage env ->
  exists reply st2,
    handle_message fuel' env st1 s = Replied reply st2
    /\ map fst (messages st2) = map fst (messages st1)
    /\ Forall2 same_but_current_pow (messages st1) (messages st2)
    /\ get_storage_used st2 = get_storage_used st1
    /\ required_pow st2 = required_pow st1
    /\ (reply = "ok" ++ nl
        <-> str_gt (field_timestamp s)
              (strftime (now_or (utc_now env) (wall env (ticks st1)))) = false
            /\ frame_current_pow s (now_or (utc_now env) (wall env (ticks st1)))
               <= required_pow st1)
    /\ (reply = "ok" ++ nl ->
        messages st2
        = dict_set (messages st1) (frame_initial_pow s)
            (parsed __init__ s (now_or (utc_now env) (wall env (ticks st1)))))
    /\ (reply <> "ok" ++ nl ->
        messages st2 = messages st1
        /\ (reply = "Datetime in future" ++ nl
            \/ reply = "Required PoW: 0x" ++ hex_of 8 (required_pow st1) ++ nl))
    /\ (frame_current_pow s (now_or (utc_now env) (wall env (ticks st1)))
        = frame_current_pow s (now_or (utc_now env) (wall env (ticks st))) ->
        messages st2 = messages st1)
    /\ (forall now, utc_now env = Some now -> reply = "ok" ++ nl /\ st2 = st1).
Proof.
  intros H Fit.
  destruct (second_handler fuel fuel' env st st1 s H Fit)
    as (d & Ed & Rp & T1 & C1 & Cases).
  set (now1 := now_or (utc_now env) (wall env (ticks st))) in *.
  set (now2 := now_or (utc_now env) (wall env (ticks st1))) in *.
  assert (Fixed : forall now, utc_now env = Some now ->
            now2 = now1 /\ tick env (ticks st1) = ticks st1).
  { intros now E. unfold now1, now2, tick. rewrite E. split; reflexivity. }
  destruct Cases as [(T & R) | [(T & G & R) | (T & G & R)]].
  - (* the timestamp is in the future at the new time *)
    exists ("Datetime in future" ++ nl), (after_parse env st1).
    split; [exact R|]. split; [reflexivity|].
    split; [apply same_but_current_pow_refl|].
    split; [reflexivity|]. split; [reflexivity|].
    split; [split; [discriminate | intros [T' _]; rewrite T in T'; discriminate T']|].
    split; [discriminate|].
    split; [intros _; split; [reflexivity | now left]|].
    split; [intros _; reflexivity|].
    intros now E. destruct (Fixed now E) as [E2 _].
    rewrite E2, T1 in T. discriminate T.
  - (* the current proof of work has aged past required_pow *)
    exists ("Required PoW: 0x" ++ hex_of 8 (required_pow st1) ++ nl),
      (after_parse env st1).
    split; [exact R|]. split; [reflexivity|].
    split; [apply same_but_current_pow_refl|].
    split; [reflexivity|]. split; [reflexivity|].
    split; [split; [discriminate | intros [_ G']; lia]|].
    split; [discriminate|].
    split; [intros _; split; [reflexivity | now right]|].
    split; [intros _; reflexivity|].
    intros now E. destruct (Fixed now E) as [E2 _].
    rewrite E2 in G. lia.
  - (* accepted again *)
    eexists. eexists. split; [exact R|].
    cbn [messages required_pow].
    assert (F : Forall2 same_but_current_pow (messages st1)
                  (dict_set (messages st1) (frame_initial_pow s)
                     (parsed __init__ s now2))).
    { rewrite Ed at 1. rewrite Ed, dict_set_over.
      apply dict_set_same_but_current_pow. reflexivity. }
    split; [apply same_but_current_pow_keys; exact F|].
    split; [exact F|].
    split; [unfold get_storage_used; cbn [messages];
            apply same_but_current_pow_storage; exact F|].
    split; [reflexivity|].
    split; [split; [intros _; split; assumption | reflexivity]|].
    split; [reflexivity|].
    split; [intros N; now contradiction N|].
    assert (Same : frame_current_pow s now2 = frame_current_pow s now1 ->
                   dict_set (messages st1) (frame_initial_pow s)
                     (parsed __init__ s now2) = messages st1).
    { intros E. rewrite Ed, dict_set_over. f_equal.
      unfold parsed. rewrite E. reflexivity. }
    split; [exact Same|].
    intros now E. destruct (Fixed now E) as [E2 E3].
    split; [reflexivity|].
    rewrite E3, Same by (rewrite E2; reflexivity). now destruct st1.
Qed.

End AdmitFacts.

Module AdmitSamples.
Import Py Datetime Message_v0 Server Spec AdmitFacts.

(** C9 as stated fails.  The sample server holds hello w (60 bytes) and
    has just admitted hi (55 bytes): 115 bytes of 128.  A second handler
    for the frame of hi finds that 55 more bytes do not fit, evicts the
    weakest message, hello w, and stores hi again: the store after the
    second admission is not the store after the first. *)
Lemma readmission_evicts_resident :
  let st0 := run sample_env initial_state [frame_hello_w] in
  exists st1 st2,
    handle_message 2 sample_env st0 frame_hi = Replied ("ok" ++ nl) st1
    /\ handle_message 3 sample_env st1 frame_hi = Replied ("ok" ++ nl) st2
    /\ map fst (messages st1) = [2394338968; 2190813103]
    /\ map fst (messages st2) = [2190813103]
    /\ messages st2 <> messages st1.
Proof.
  cbv zeta. eexists. eexists.
  split; [vm_compute; reflexivity|].
  split; [vm_compute; reflexivity|].
  split; [vm_compute; reflexivity|].
  split; [vm_compute; reflexivity|].
  vm_compute. discriminate.
Qed.

(** The theorem of C9 on a server whose clock runs: hi is admitted at
    midnight into the empty store, and fits a second time 20 seconds
    later.  Its current proof of work has doubled, to the cap, so the store
    is the same up to that value. *)
Lemma readmission_keeps_store_when_message_fits_witness :
  exists reply st2,
    handle_message 2 running_env (run running_env initial_state [frame_hi]) frame_hi
    = Replied reply st2
    /\ map fst (messages st2)
       = map fst (messages (run running_env initial_state [frame_hi]))
    /\ Forall2 same_but_current_pow
         (messages (run running_env initial_state [frame_hi])) (messages st2)
    /\ get_storage_used st2
       = get_storage_used (run running_env initial_state [frame_hi])
    /\ required_pow st2 = required_pow (run running_env initial_state [frame_hi])
    /\ (reply = "ok" ++ nl
        <-> str_gt (field_timestamp frame_hi)
              (strftime
                 (now_or (utc_now running_env)
                    (wall running_env
                       (ticks (run running_env initial_state [frame_hi])))))
            = false
            /\ frame_current_pow frame_hi
                 (now_or (utc_now running_env)
                    (wall running_env
                       (ticks (run running_env initial_state [frame_hi]))))
               <= required_pow (run running_env initial_state [frame_hi]))
    /\ (reply = "ok" ++ nl ->
        messages st2
        = dict_set (messages (run running_env initial_state [frame_hi]))
            (frame_initial_pow frame_hi)
            (parsed __init__ frame_hi
               (now_or (utc_now running_env)
                  (wall running_env
                     (ticks (run running_env initial_state [frame_hi]))))))
    /\ (reply <> "ok" ++ nl ->
        messages st2 = messages (run running_env initial_state [frame_hi])
        /\ (reply = "Datetime in future" ++ nl
            \/ reply
               = "Required PoW: 0x"
                 ++ hex_of 8 (required_pow (run running_env initial_state [frame_hi]))
                 ++ nl))
    /\ (frame_current_pow frame_hi
          (now_or (utc_now running_env)
             (wall running_env (ticks (run running_env initial_state [frame_hi]))))
        = frame_current_pow frame_hi
            (now_or (utc_now running_env) (wall running_env (ticks initial_state))) ->
        messages st2 = messages (run running_env initial_state [frame_hi]))
    /\ (forall now, utc_now running_env = Some now ->
        reply = "ok" ++ nl /\ st2 = run running_env initial_state [frame_hi]).
Proof.
  assert (H1 : handle_message 1 running_env initial_state frame_hi
               = Replied ("ok" ++ nl) (run running_env initial_state [frame_hi]))
    by (vm_compute; reflexivity).
  assert (H2 : len frame_hi
               + get_storage_used (run running_env initial_state [frame_hi])
               <= max_storage running_env)
    by (vm_compute; discriminate).
  exact (readmission_keeps_store_when_message_fits
           1 2 running_env initial_state
           (run running_env initial_state [frame_hi]) frame_hi H1 H2).
Defined.

(** On that server the second admission replies ok and the store differs
    from the first in the current proof of work of hi alone. *)
Lemma readmission_on_a_running_clock :
  exists m1 m2,
    messages (run running_env initial_state [frame_hi]) = [(2190813103, m1)]
    /\ messages (run running_env initial_state [frame_hi; frame_hi])
       = [(2190813103, m2)]
    /\ current_pow m1 = Some 2190813103
    /\ current_pow m2 = Some 4294967295
    /\ set_current_pow m1 None = set_current_pow m2 None.
Proof.
  eexists. eexists.
  split; [vm_compute; reflexivity|].
  split; [vm_compute; reflexivity|].
  split; [reflexivity|]. split; [reflexivity|]. reflexivity.
Qed.

End AdmitSamples.

(* ================================================================== *)
(** * The server: bytes used *)
(* ================================================================== *)

Module StorageFacts.
Import Py Datetime Message_v0 Server Spec StrFacts IntFacts PowFacts ParseFacts
  ServerFacts RejectFacts AdmitFacts.

Lemma storage_of_nonneg d : 0 <= storage_of d.
Proof.
  induction d as [|[k m] d IH]; cbn [storage_of]; [lia|].
  pose proof (len_nonneg (__str__ m)). lia.
Qed.

Lemma storage_of_pop d k : storage_of (dict_pop d k) <= storage_of d.
Proof.
  induction d as [|[k' m] d IH]; cbn [dict_pop storage_of]; [lia|].
  pose proof (len_nonneg (__str__ m)). pose proof (storage_of_nonneg d).
  destruct (k' =? k); cbn [storage_of]; lia.
Qed.

Lemma storage_of_set d k m :
  storage_of (dict_set d k m) <= storage_of d + len (__str__ m).
Proof.
  induction d as [|[k' m'] d IH]; cbn [dict_set storage_of]; [lia|].
  pose proof (len_nonneg (__str__ m')). pose proof (storage_of_nonneg d).
  destruct (k' =? k); cbn [storage_of]; lia.
Qed.

(** An admission that ends with a reply keeps the bytes used within
    [max_storage], provided they were and the message alone is. *)
Lemma admit_keeps_bound fuel env m : forall st reply st',
  get_storage_used st <= max_storage env ->
  len (__str__ m) <= max_storage env ->
  make_room fuel env m (__str__ m) st = Replied reply st' ->
  get_storage_used st' <= max_storage env.
Proof.
  assert (Ins : forall st i c reply st',
            get_storage_used st <= max_storage env ->
            len (__str__ m) <= max_storage env ->
            (0 <? Z.of_nat (List.length (messages st)))
            && (len (__str__ m) + get_storage_used st >? max_storage env) = false ->
            Replied ("ok" ++ nl)
              (mkState (dict_set (messages st) i m) (Z.max (required_pow st) c)
                 (ticks st)) = Replied reply st' ->
            get_storage_used st' <= max_storage env).
  { intros st i c reply st' B Lm Cond H. injection H as _ <-.
    unfold get_storage_used in *. cbn [messages].
    apply andb_false_iff in Cond as [E|E].
    - apply Z.ltb_ge in E.
      destruct (messages st) as [|e d]; [|cbn [List.length] in E; lia].
      cbn [dict_set storage_of]. lia.
    - rewrite Z.gtb_ltb in E. apply Z.ltb_ge in E.
      pose proof (storage_of_set (messages st) i m). lia. }
  induction fuel as [|fuel IH]; intros st reply st' B Lm; cbn [make_room].
  - destruct (_ && _) eqn:Cond; [discriminate|].
    destruct (initial_pow m) as [i|]; [|discriminate].
    destruct (current_pow m) as [c|]; [|discriminate].
    now apply Ins.
  - destruct (_ && _) eqn:Cond.
    + destruct (get_worst_pow env st) as [[wi wc] st1|e st1] eqn:G; [|discriminate].
      destruct (get_worst_pow_ret _ _ _ _ _ G) as (_ & _ & F & _).
      apply same_but_current_pow_storage in F.
      destruct (current_pow m) as [c|]; [|discriminate].
      destruct (c >? wc).
      * destruct (to_bytes_hex _ wc); [|discriminate].
        intros H. injection H as _ <-. unfold get_storage_used in *. lia.
      * apply IH; [|exact Lm]. unfold get_storage_used in *. cbn [messages].
        pose proof (storage_of_pop (messages st1) wi). lia.
    + destruct (initial_pow m) as [i|]; [|discriminate].
      destruct (current_pow m) as [c|]; [|discriminate].
      now apply Ins.
Qed.

(** The bound on the bytes used survives every handler whose frame is not
    longer than [max_storage]. *)
Lemma handle_message_keeps_bound fuel env st s reply st' :
  get_storage_used st <= max_storage env ->
  len s <= max_storage env ->
  handle_message fuel env st s = Replied reply st' ->
  get_storage_used st' <= max_storage env.
Proof.
  intros B Ls. unfold handle_message.
  destruct (parse __init__ s (required_pow st) (utc_now env) (wall env (ticks st)))
    as [r m|e m] eqn:P; [|discriminate].
  destruct (String.eqb_spec r EmptyString) as [->|Ne]; cbn [negb].
  2:{ intros H. now injection H as _ <-. }
  destruct (payload_is m "__info__");
    [destruct (to_bytes_hex _ _); [|discriminate]; intros H; now injection H as _ <-|].
  destruct (payload_is m "__messages__"); [intros H; now injection H as _ <-|].
  destruct (payload_is m "__exit__");
    [destruct (utc_now env); [discriminate|]; intros H; now injection H as _ <-|].
  destruct (payload_is m "__memory__");
    [destruct (utc_now env); intros H; now injection H as _ <-|].
  pose proof (parse_success _ _ _ _ _ _ P) as (Em & L & _).
  apply admit_keeps_bound; [exact B|].
  rewrite Em, len_to_str_parsed; assumption.
Qed.

(** C2 fails on the code.  The sample server, started with --mem 128 and
    empty, receives a valid frame of 153 bytes (a payload of 100
    characters, which the generator accepts): the loop that makes room is
    not entered because the store is empty, the message is inserted, and
    153 bytes are used, more than max_storage. *)
Lemma single_message_exceeds_max_storage :
  exists st',
    len (field_payload frame_x100) <= max_payload_bytes
    /\ messages initial_state = []
    /\ handle_message 1 sample_env initial_state frame_x100
       = Replied ("ok" ++ nl) st'
    /\ get_storage_used st' = 153
    /\ max_storage sample_env = 128
    /\ ~ get_storage_used st' <= max_storage sample_env.
Proof.
  eexists.
  split; [vm_compute; discriminate|].
  split; [reflexivity|].
  split; [vm_compute; reflexivity|].
  split; [vm_compute; reflexivity|].
  split; [reflexivity|].
  vm_compute. intros H. apply H. reflexivity.
Qed.

End StorageFacts.

(* ================================================================== *)
(** * Rounding *)
(* ================================================================== *)

Module FloatFacts.
Import Float.

Lemma round_half_even_bounds p q :
  0 < q ->
  p / q <= round_half_even p q <= p / q + 1
  /\ (round_half_even p q = p / q + 1 -> q <= 2 * (p mod q)).
Proof.
  intros Hq. unfold round_half_even.
  destruct (Z.ltb_spec (2 * (p mod q)) q); [lia|].
  destruct (Z.ltb_spec q (2 * (p mod q))); [lia|].
  destruct (Z.even (p / q)); lia.
Qed.

Lemma round_half_even_exact z q : 0 < q -> round_half_even (z * q) q = z.
Proof.
  intros Hq. unfold round_half_even.
  rewrite Z.mod_mul, Z.div_mul by lia.
  destruct (Z.ltb_spec (2 * 0) q); [reflexivity | lia].
Qed.

Lemma pow2_pos k : 0 < 2 ^ k \/ k < 0.
Proof.
  destruct (Z.le_gt_cases 0 k); [left; apply Z.pow_pos_nonneg; lia | now right].
Qed.

(** The exponent is not above the quotient, and not above the logarithm
    of the numerator. *)
Lemma exponent_spec a d :
  0 < a -> 0 < d ->
  d * 2 ^ Z.max 0 (exponent a d) <= a * 2 ^ Z.max 0 (- exponent a d)
  /\ exponent a d <= Z.log2 a.
Proof.
  intros Ha Hd. unfold exponent.
  pose proof (Z.log2_spec a Ha) as [La Ua].
  pose proof (Z.log2_spec d Hd) as [Ld Ud].
  pose proof (Z.log2_nonneg a) as Na. pose proof (Z.log2_nonneg d) as Nd.
  set (la := Z.log2 a) in *. set (ld := Z.log2 d) in *.
  destruct (Z.ltb_spec (a * 2 ^ Z.max 0 (- (la - ld))) (d * 2 ^ Z.max 0 (la - ld)))
    as [Lt|Ge]; [|split; lia].
  split; [|lia].
  destruct (Z.le_gt_cases 1 (la - ld)) as [Pos|Neg].
  - rewrite (Z.max_r 0 (la - ld - 1)), (Z.max_l 0 (- (la - ld - 1))) by lia.
    rewrite Z.pow_0_r, Z.mul_1_r.
    assert (E : 2 ^ la = 2 ^ Z.succ ld * 2 ^ (la - ld - 1)).
    { rewrite <- Z.pow_add_r by lia. f_equal. lia. }
    assert (P : 0 < 2 ^ (la - ld - 1)) by (apply Z.pow_pos_nonneg; lia).
    nia.
  - rewrite (Z.max_l 0 (la - ld - 1)), (Z.max_r 0 (- (la - ld - 1))) by lia.
    rewrite Z.pow_0_r, Z.mul_1_r.
    assert (E : 2 ^ Z.succ ld = 2 ^ la * 2 ^ (- (la - ld - 1))).
    { rewrite <- Z.pow_add_r by lia. f_equal. lia. }
    assert (P : 0 < 2 ^ (- (la - ld - 1))) by (apply Z.pow_pos_nonneg; lia).
    nia.
Qed.

Lemma to_int_Qred_nonneg q :
  0 <= Qnum q -> to_int (Qred q) = Qnum q / Zpos (Qden q).
Proof.
  intros Hq. unfold to_int.
  pose proof (Qred_correct q) as E. unfold Qeq in E.
  assert (N : 0 <= Qnum (Qred q)) by nia.
  rewrite Z.quot_div_nonneg by lia.
  assert (F : forall x : Q, Qnum x / Zpos (Qden x) = Qfloor x)
    by (intros [n d]; reflexivity).
  rewrite !F. apply Qfloor_comp, Qred_correct.
Qed.

Lemma to_int_scale_nonneg m t :
  0 <= m -> 0 <= t -> to_int (scale m (- t)) = m / 2 ^ t.
Proof.
  intros Hm Ht. unfold scale.
  rewrite (Z.max_l 0 (- t)), Z.opp_involutive, (Z.max_r 0 t) by lia.
  rewrite to_int_Qred_nonneg; cbn [Qnum Qden].
  - rewrite Z.pow_0_r, Z.mul_1_r, Z2Pos.id; [reflexivity|].
    apply Z.pow_pos_nonneg; lia.
  - rewrite Z.pow_0_r. lia.
Qed.

(** The quotient of two integers, rounded to a float and then truncated,
    is the integer quotient, provided the numerator is below 2^53. *)
Lemma to_int_rnd_quotient a d :
  0 <= a < 2 ^ 53 -> to_int (rnd (a # d)) = a / Zpos d.
Proof.
  intros [Ha Hb]. unfold rnd. cbn [Qnum Qden].
  destruct (Z.eqb_spec a 0) as [->|Nz]; [reflexivity|].
  assert (Pa : 0 < a) by lia.
  rewrite (Z.abs_eq a), (Z.sgn_pos a), Z.mul_1_l by lia.
  destruct (exponent_spec a (Zpos d) Pa (Pos2Z.is_pos d)) as [Lo Le].
  assert (L53 : Z.log2 a < 53) by (apply Z.log2_lt_pow2; lia).
  set (e := exponent a (Zpos d)) in *.
  set (t := 52 - e).
  assert (Ht : 0 <= t) by (unfold t; lia).
  replace (e - 52) with (- t) by (unfold t; lia).
  rewrite (Z.max_l 0 (- t)), Z.opp_involutive, (Z.max_r 0 t) by lia.
  rewrite Z.pow_0_r, Z.mul_1_r.
  assert (PT : 0 < 2 ^ t) by (apply Z.pow_pos_nonneg; lia).
  (* the denominator is below twice the scaling *)
  assert (Dt : Zpos d < 2 * 2 ^ t).
  { destruct (Z.le_gt_cases 0 e) as [Pe|Ne].
    - rewrite (Z.max_r 0 e), (Z.max_l 0 (- e)), Z.pow_0_r, Z.mul_1_r in Lo by lia.
      assert (E : 2 ^ 53 = 2 * 2 ^ t * 2 ^ e).
      { change 2 with (2 ^ 1) at 2. rewrite <- !Z.pow_add_r by lia.
        f_equal. unfold t. lia. }
      assert (Pe' : 0 < 2 ^ e) by (apply Z.pow_pos_nonneg; lia).
      nia.
    - rewrite (Z.max_l 0 e), (Z.max_r 0 (- e)), Z.pow_0_r, Z.mul_1_r in Lo by lia.
      assert (E : 2 * 2 ^ t = 2 ^ 53 * 2 ^ (- e)).
      { change 2 with (2 ^ 1) at 1. rewrite <- !Z.pow_add_r by lia.
        f_equal. unfold t. lia. }
      assert (Pe' : 0 < 2 ^ (- e)) by (apply Z.pow_pos_nonneg; lia).
      nia. }
  destruct (round_half_even_bounds (a * 2 ^ t) (Zpos d) (Pos2Z.is_pos d))
    as [[Bl Bu] Tie].
  set (m := round_half_even (a * 2 ^ t) (Zpos d)) in *.
  pose proof (Z.div_mod a (Zpos d)) as Da.
  pose proof (Z.mod_pos_bound a (Zpos d) (Pos2Z.is_pos d)) as Ra.
  pose proof (Z.div_mod (a * 2 ^ t) (Zpos d)) as Dp.
  pose proof (Z.mod_pos_bound (a * 2 ^ t) (Zpos d) (Pos2Z.is_pos d)) as Rp.
  set (n := a / Zpos d) in *. set (r0 := a mod Zpos d) in *.
  set (f := a * 2 ^ t / Zpos d) in *. set (r := (a * 2 ^ t) mod Zpos d) in *.
  set (T := 2 ^ t) in *. set (D := Zpos d) in *.
  assert (Nn : 0 <= n) by (apply Z.div_pos; lia).
  assert (Lower : n * T <= f).
  { apply Z.div_le_lower_bound; [lia|]. nia. }
  assert (Upper : m < (n + 1) * T).
  { assert (Fu : f < (n + 1) * T) by (apply Z.div_lt_upper_bound; nia).
    destruct (Z.eq_dec m (f + 1)) as [Em|Nm]; [|lia].
    specialize (Tie Em).
    destruct (Z.lt_ge_cases (f + 1) ((n + 1) * T)) as [|Ge]; [lia|].
    assert (Ef : f = (n + 1) * T - 1) by lia.
    exfalso. nia. }
  rewrite to_int_scale_nonneg by lia.
  symmetry. apply (Z.div_unique m T n (m - n * T)); lia.
Qed.

(** An integer below 2^53 is a float. *)
Lemma rnd_integer z d :
  0 <= z < 2 ^ 53 -> rnd ((z * Zpos d) # d) = inject_Z z.
Proof.
  intros [Hz Hb]. unfold rnd. cbn [Qnum Qden].
  destruct (Z.eqb_spec (z * Zpos d) 0) as [E|Nz].
  - assert (z = 0) by nia. subst z. reflexivity.
  - assert (Pz : 0 < z) by nia.
    assert (Pa : 0 < z * Zpos d) by nia.
    rewrite (Z.abs_eq (z * Zpos d)), (Z.sgn_pos (z * Zpos d)), Z.mul_1_l by lia.
    destruct (exponent_spec (z * Zpos d) (Zpos d) Pa (Pos2Z.is_pos d)) as [Lo _].
    set (e := exponent (z * Zpos d) (Zpos d)) in *.
    assert (Le : e <= 52).
    { destruct (Z.le_gt_cases e 52) as [|Gt]; [assumption|exfalso].
      rewrite (Z.max_r 0 e), (Z.max_l 0 (- e)), Z.pow_0_r, Z.mul_1_r in Lo by lia.
      assert (E : 2 ^ e = 2 ^ 53 * 2 ^ (e - 53)).
      { rewrite <- Z.pow_add_r by lia. f_equal. lia. }
      assert (P : 0 < 2 ^ (e - 53)) by (apply Z.pow_pos_nonneg; lia).
      nia. }
    set (t := 52 - e). assert (Ht : 0 <= t) by (unfold t; lia).
    replace (e - 52) with (- t) by (unfold t; lia).
    rewrite (Z.max_l 0 (- t)), Z.opp_involutive, (Z.max_r 0 t) by lia.
    rewrite Z.pow_0_r, Z.mul_1_r.
    replace (z * Zpos d * 2 ^ t) with (z * 2 ^ t * Zpos d) by ring.
    rewrite round_half_even_exact by lia.
    unfold scale. rewrite (Z.max_l 0 (- t)), Z.opp_involutive, (Z.max_r 0 t) by lia.
    rewrite Z.pow_0_r, Z.mul_1_r.
    assert (PT : 0 < 2 ^ t) by (apply Z.pow_pos_nonneg; lia).
    rewrite <- (Qred_identity (inject_Z z)) by (cbn; apply Z.gcd_1_r).
    apply Qred_complete. unfold Qeq, inject_Z. cbn [Qnum Qden].
    rewrite Z2Pos.id by lia. ring.
Qed.

End FloatFacts.

(* ================================================================== *)
(** * The generator: scaling of the bound *)
(* ================================================================== *)

Module GenerateFacts.
Import Py Datetime Message_v0 Generate Spec Float FloatFacts.

Lemma of_int_small w : 0 <= w < 2 ^ 53 -> of_int w = Some (inject_Z w).
Proof.
  intros H. unfold of_int.
  assert (E : rnd (inject_Z w) = inject_Z w).
  { pose proof (rnd_integer w 1 H) as R. rewrite Z.mul_1_r in R. exact R. }
  rewrite E.
  destruct (Qle_bool (inject_Z (2 ^ 1024)) (Qabs (inject_Z w))) eqn:B; [|reflexivity].
  apply Qle_bool_iff in B. unfold Qle, Qabs, inject_Z in B. cbn [Qnum Qden] in B.
  rewrite Z.abs_eq in B by lia.
  assert (2 ^ 53 < 2 ^ 1024) by (apply Z.pow_lt_mono_r; lia). lia.
Qed.

(** The age factor of a duration that is a whole number of tens of
    seconds is that number. *)
Lemma age_factor_exact k :
  0 < k < 2 ^ 53 ->
  truediv (10000000 * k) min_message_age = inject_Z k.
Proof.
  intros H. unfold truediv, truediv_int.
  change min_message_age with 10000000.
  change (inject_Z (10000000 * k) / inject_Z 10000000)%Q
    with ((10000000 * k * 1) # (1 * 10000000)).
  replace (10000000 * k * 1) with (k * Zpos (1 * 10000000)) by lia.
  apply rnd_integer. lia.
Qed.

(** C8, as the code has it.  For a bound W with 0 <= W < 2^53 and a
    duration of D > 0 seconds that a timedelta can hold, when
    max(D, 10) is a whole number of tens of seconds, the required_pow
    passed to the miner is floor(W / (max(D, 10) / 10)): W divided by the
    ratio of max(D, min_message_age) to min_message_age = 10 seconds, not
    divided by each in turn.  For a duration of at most 10 seconds it is W. *)
Theorem scale_pow_divides_by_age_factor (w d : Z) :
  0 <= w < 2 ^ 53 ->
  0 < d -> d / 86400 <= 999999999 ->
  Z.max d 10 mod 10 = 0 ->
  scale_pow w d = Passed (w / (Z.max d 10 / 10))
  /\ min_message_age = timedelta_seconds 10
  /\ (d <= 10 -> scale_pow w d = Passed w).
Proof.
  intros Hw Hd Hmax Hmod.
  assert (Main : scale_pow w d = Passed (w / (Z.max d 10 / 10))).
  { unfold scale_pow.
    destruct (Z.leb_spec d 0); [lia|].
    destruct (Z.ltb_spec 999999999 (d / 86400)); [lia|].
    set (k := Z.max d 10 / 10).
    assert (Ek : Z.max d 10 = 10 * k)
      by (unfold k; pose proof (Z.div_mod (Z.max d 10) 10); lia).
    assert (Kpos : 0 < k) by lia.
    assert (Kub : k < 2 ^ 53).
    { assert (d < 86400 * 1000000000)
        by (pose proof (Z.div_mod d 86400);
            pose proof (Z.mod_pos_bound d 86400); lia).
      change (2 ^ 53) with 9007199254740992. lia. }
    replace (Z.max (timedelta_seconds d) min_message_age) with (10000000 * k).
    2:{ unfold timedelta_seconds. change min_message_age with 10000000. lia. }
    rewrite age_factor_exact by lia.
    rewrite of_int_small by exact Hw.
    f_equal. unfold div.
    destruct k as [|p|p]; try lia.
    change (inject_Z w / inject_Z (Zpos p))%Q with ((w * 1) # (1 * p)).
    rewrite to_int_rnd_quotient by lia.
    f_equal; lia. }
  split; [exact Main|]. split; [reflexivity|].
  intros Le. rewrite Main. f_equal.
  rewrite Z.max_r by lia. change (10 / 10) with 1. apply Z.div_1_r.
Qed.

End GenerateFacts.

Module GenerateSamples.
Import Py Datetime Message_v0 Generate Spec GenerateFacts.

(** C8 as stated fails.  With the default bound ffffffff and the default
    duration of 10 seconds the miner gets the bound itself, 4294967295,
    where the formula of the claim gives 42949672.  (Read as W over the
    ratio of the two durations, the formula still differs from the code
    where the ratio is not a float: for W = 33 and 11 seconds the code
    passes 29, and 33 / (11 / 10) is 30.) *)
Lemma scaled_bound_is_not_divided_twice :
  scale_pow 4294967295 10 = Passed 4294967295
  /\ claimed_required_pow 4294967295 10 = 42949672
  /\ scale_pow 4294967295 10 <> Passed (claimed_required_pow 4294967295 10)
  /\ scale_pow 33 11 = Passed 29
  /\ 33 * 10 / 11 = 30.
Proof.
  split; [vm_compute; reflexivity|].
  split; [reflexivity|].
  split; [vm_compute; discriminate|].
  split; [vm_compute; reflexivity|reflexivity].
Qed.

(** The theorem of C8 for the bound 0x0fffffff and 30 seconds. *)
Lemma scale_pow_divides_by_age_factor_witness :
  (0 <= 268435455 < 2 ^ 53 /\ 0 < 30 /\ 30 / 86400 <= 999999999
   /\ Z.max 30 10 mod 10 = 0)
  /\ scale_pow 268435455 30 = Passed (268435455 / (Z.max 30 10 / 10))
  /\ min_message_age = timedelta_seconds 10
  /\ (30 <= 10 -> scale_pow 268435455 30 = Passed 268435455).
Proof.
  assert (H1 : 0 <= 268435455 < 2 ^ 53) by (split; [lia | reflexivity]).
  assert (H2 : 0 < 30) by lia.
  assert (H3 : 30 / 86400 <= 999999999) by (vm_compute; discriminate).
  assert (H4 : Z.max 30 10 mod 10 = 0) by reflexivity.
  split; [repeat split; assumption || apply H1|].
  exact (scale_pow_divides_by_age_factor 268435455 30 H1 H2 H3 H4).
Defined.

End GenerateSamples.

(* ================================================================== *)
(** * A current proof of work is null only if the initial one is *)
(* ================================================================== *)

Module ScaledFacts.
Import Py Datetime Message_v0 Spec Float FloatFacts.

Lemma rnd_ge_one (x : Q) : (1 <= x)%Q -> (1 <= rnd x)%Q.
Proof.
  destruct x as [n d]. intros H. unfold Qle in H. cbn [Qnum Qden] in H.
  assert (Hn : Zpos d <= n) by lia. clear H.
  unfold rnd. cbn [Qnum Qden].
  destruct (Z.eqb_spec n 0) as [->|_]; [lia|].
  assert (Pn : 0 < n) by lia.
  rewrite (Z.abs_eq n), (Z.sgn_pos n), Z.mul_1_l by lia.
  destruct (exponent_spec n (Zpos d) Pn (Pos2Z.is_pos d)) as [Lo _].
  set (e := exponent n (Zpos d)) in *.
  unfold scale. rewrite Qred_correct. unfold Qle. cbn [Qnum Qden].
  destruct (Z.le_gt_cases 52 e) as [Ge|Lt].
  - rewrite (Z.max_r 0 e), (Z.max_l 0 (- e)), Z.pow_0_r, Z.mul_1_r in Lo by lia.
    rewrite (Z.max_r 0 (e - 52)), (Z.max_l 0 (- (e - 52))) by lia.
    rewrite Z.pow_0_r, !Z.mul_1_r. cbn [Z.to_pos].
    set (S := 2 ^ (e - 52)).
    assert (PS : 0 < S) by (apply Z.pow_pos_nonneg; lia).
    assert (E : 2 ^ e = S * 2 ^ 52).
    { unfold S. rewrite <- Z.pow_add_r by lia. f_equal. lia. }
    destruct (round_half_even_bounds n (Zpos d * S)) as [[Bl _] _]; [nia|].
    assert (1 <= n / (Zpos d * S)).
    { apply Z.div_le_lower_bound; [nia|].
      change (2 ^ 52) with 4503599627370496 in E. nia. }
    nia.
  - rewrite (Z.max_l 0 (e - 52)), (Z.max_r 0 (- (e - 52))) by lia.
    rewrite Z.pow_0_r, !Z.mul_1_r.
    set (T := 2 ^ (- (e - 52))).
    assert (PT : 0 < T) by (apply Z.pow_pos_nonneg; lia).
    rewrite Z2Pos.id by lia.
    destruct (round_half_even_bounds (n * T) (Zpos d)) as [[Bl _] _]; [lia|].
    assert (T <= n * T / Zpos d).
    { apply Z.div_le_lower_bound; [lia|]. nia. }
    lia.
Qed.

Lemma to_int_ge_one (x : Q) : (1 <= x)%Q -> 1 <= to_int x.
Proof.
  destruct x as [n d]. unfold Qle, to_int. cbn [Qnum Qden]. intros H.
  rewrite Z.quot_div_nonneg by lia.
  apply Z.div_le_lower_bound; lia.
Qed.

Lemma ratio_ge_one a b : 0 < b -> b <= a -> (1 <= inject_Z a / inject_Z b)%Q.
Proof.
  intros Hb Ha. destruct b as [|p|p]; try lia.
  change (inject_Z a / inject_Z (Zpos p))%Q with ((a * 1) # (1 * p)).
  unfold Qle. cbn [Qnum Qden]. lia.
Qed.

Lemma Qmult_ge_one (x y : Q) : (1 <= x)%Q -> (1 <= y)%Q -> (1 <= x * y)%Q.
Proof.
  intros Hx Hy. setoid_replace 1%Q with (1 * 1)%Q by reflexivity.
  apply Qmult_le_compat_nonneg; split; (discriminate || assumption).
Qed.

(** The current proof of work: null for a null initial one, at least 1
    otherwise, never above [2^32 - 1]. *)
Lemma scaled_pow_sign initial now stamp length :
  0 <= initial ->
  0 <= scaled_pow initial now stamp length <= pow_max
  /\ (1 <= initial -> 1 <= scaled_pow initial now stamp length).
Proof.
  intros H0. unfold scaled_pow. fold pow_max.
  set (age := truediv _ _). set (size := truediv_int _ _).
  assert (A : (1 <= age)%Q).
  { unfold age, truediv, truediv_int. apply rnd_ge_one, ratio_ge_one.
    - reflexivity.
    - apply Z.le_max_r. }
  assert (S : (1 <= size)%Q).
  { unfold size, truediv_int. apply rnd_ge_one, ratio_ge_one.
    - reflexivity.
    - apply Z.le_max_r. }
  destruct (Z.eq_dec initial 0) as [->|Nz].
  - assert (E : mul (mul (rnd (inject_Z 0)) age) size = 0%Q).
    { reflexivity. }
    rewrite E. change (to_int 0%Q) with 0. rewrite Z.min_r by (vm_compute; discriminate).
    split; [split; [lia | vm_compute; discriminate] | lia].
  - assert (I : (1 <= rnd (inject_Z initial))%Q).
    { apply rnd_ge_one. unfold Qle, inject_Z. cbn [Qnum Qden]. lia. }
    assert (P : 1 <= to_int (mul (mul (rnd (inject_Z initial)) age) size)).
    { apply to_int_ge_one. unfold mul.
      apply rnd_ge_one, Qmult_ge_one; [|exact S].
      apply rnd_ge_one, Qmult_ge_one; assumption. }
    assert (M : 1 <= pow_max) by (vm_compute; discriminate).
    split; [split; [|apply Z.le_min_l] | intros _]; apply Z.min_glb; lia.
Qed.

End ScaledFacts.

(* ================================================================== *)
(** * The server: every handler replies *)
(* ================================================================== *)

Module TotalFacts.
Import Py Datetime Message_v0 Server Spec StrFacts IntFacts PowFacts ParseFacts
  ServerFacts RejectFacts ScaledFacts.

Lemma parse_no_exception self s required_pow utc_now clock :
  0 <= required_pow ->
  exists reply m, parse self s required_pow utc_now clock = Ret reply m.
Proof.
  intros Hrp. rewrite parse_unfold. cbv zeta.
  pose proof (frame_initial_pow_range s) as Ri.
  pose proof (frame_current_pow_le_max s (now_or utc_now clock)) as Rc.
  destruct (len s <? 53); [eexists; eexists; reflexivity|].
  destruct (negb (startswith s _)); [eexists; eexists; reflexivity|].
  destruct (negb (endswith s _)); [eexists; eexists; reflexivity|].
  destruct (negb (is_some (int_of_str 10 _))); [eexists; eexists; reflexivity|].
  destruct (str_gt _ _); [eexists; eexists; reflexivity|].
  destruct (frame_initial_pow s >? required_pow) eqn:Ei.
  { apply Z.gtb_lt in Ei.
    rewrite (too_weak_reply self required_pow (frame_initial_pow s)) by lia.
    eexists; eexists; reflexivity. }
  destruct (negb (is_some (strptime _))); [eexists; eexists; reflexivity|].
  destruct (negb (String.eqb _ _)); [eexists; eexists; reflexivity|].
  destruct (frame_current_pow s (now_or utc_now clock) >? required_pow) eqn:Ec.
  { apply Z.gtb_lt in Ec.
    rewrite (too_weak_reply self required_pow
               (frame_current_pow s (now_or utc_now clock))) by lia.
    eexists; eexists; reflexivity. }
  eexists; eexists; reflexivity.
Qed.

Lemma update_pow_stored k m now :
  stored_entry (k, m) ->
  exists c,
    update_pow m now = Ret tt (set_current_pow m (Some c))
    /\ 0 <= c <= pow_max /\ (1 <= k -> 1 <= c).
Proof.
  intros (Ei & Rk & Et). cbn [fst snd] in *. unfold update_pow.
  destruct (timestamp_obj m) as [t|]; [|congruence]. rewrite Ei.
  eexists. split; [reflexivity|]. apply scaled_pow_sign. lia.
Qed.

Lemma stored_entry_same a b :
  same_but_current_pow a b -> stored_entry a -> stored_entry b.
Proof.
  destruct a as [k m], b as [k' m']. intros [K M] (Ei & Rk & Et).
  cbn [fst snd] in *. subst k'.
  assert (I : initial_pow m' = initial_pow m)
    by (change (initial_pow (set_current_pow m' None)
                = initial_pow (set_current_pow m None)); now rewrite M).
  assert (T : timestamp_obj m' = timestamp_obj m)
    by (change (timestamp_obj (set_current_pow m' None)
                = timestamp_obj (set_current_pow m None)); now rewrite M).
  repeat split; cbn [fst snd]; try lia; congruence.
Qed.

(** On a well-formed store the loop of [get_worst_pow] ends without an
    exception, and the key it returns is a key of the store unless every
    key is null. *)
Lemma worst_loop_total env todo : forall done n wi wc,
  Forall stored_entry todo -> 0 <= wc ->
  exists wi' wc' d' n',
    worst_loop env todo done n wi wc = Ret (wi', wc') (d', n')
    /\ (In wi' (map fst todo)
        \/ (wi' = wi /\ wc' = wc
            /\ (wc = 0 -> Forall (fun e => fst e = 0) todo))).
Proof.
  induction todo as [|[k m] todo IH]; intros done n wi wc F Hwc.
  - cbn. do 4 eexists. split; [reflexivity|]. right. repeat split. constructor.
  - inversion F as [|x l Sk F']; subst.
    destruct (update_pow_stored k m (now_or (utc_now env) (wall env n)) Sk)
      as (c & U & Rc & Pc).
    cbn [worst_loop]. rewrite U. cbn [current_pow set_current_pow].
    destruct (Z.ltb_spec wc c) as [Lt|Ge].
    + destruct (IH ((k, set_current_pow m (Some c)) :: done) (tick env n) k c F')
        as (wi' & wc' & d' & n' & E & [I | (-> & -> & _)]); [lia| |];
        do 4 eexists; (split; [exact E|]); left; cbn [map fst In]; tauto.
    + destruct (IH ((k, set_current_pow m (Some c)) :: done) (tick env n) wi wc F' Hwc)
        as (wi' & wc' & d' & n' & E & [I | (-> & -> & Z0)]);
        do 4 eexists; (split; [exact E|]).
      * left. cbn [map fst In]. tauto.
      * right. repeat split. intros W0. constructor; [|now apply Z0].
        cbn [fst]. destruct Sk as (_ & Rk & _). cbn [fst] in Rk.
        destruct (Z.eq_dec k 0) as [|Nk]; [assumption|].
        assert (1 <= c) by (apply Pc; lia). lia.
Qed.

Lemma get_worst_pow_total env st :
  well_formed st ->
  exists wi wc st',
    get_worst_pow env st = Ret (wi, wc) st'
    /\ well_formed st'
    /\ List.length (messages st') = List.length (messages st)
    /\ (messages st <> [] -> In wi (map fst (messages st')))
    /\ 0 <= wc <= pow_max.
Proof.
  intros [F Rp].
  destruct (worst_loop_total env (messages st) [] (ticks st) 0 0 F (Z.le_refl 0))
    as (wi & wc & d & n & W & K).
  pose proof W as W'. apply worst_loop_ret in W' as [Rw F2];
    [|rewrite pow_max_value; lia]. cbn [rev app] in F2.
  exists wi, wc, (mkState d (required_pow st) n).
  split; [unfold get_worst_pow; now rewrite W|].
  pose proof (same_but_current_pow_keys _ _ F2) as Ek.
  split; [|split; [|split; [|exact Rw]]].
  - split; [|exact Rp]. cbn [messages].
    clear - F F2. induction F2 as [|a b l l' S F2 IH]; [constructor|].
    inversion F; subst. constructor; [now apply (stored_entry_same a) | now apply IH].
  - cbn [messages]. symmetry. eapply Forall2_length, F2.
  - cbn [messages]. rewrite Ek. intros Ne.
    destruct K as [I | (-> & _ & Z0)]; [exact I|].
    specialize (Z0 eq_refl). destruct (messages st) as [|[k m] l]; [congruence|].
    inversion Z0; subst. cbn [fst] in *. subst k. now left.
Qed.

Lemma dict_pop_length d k :
  In k (map fst d) -> S (List.length (dict_pop d k)) = List.length d.
Proof.
  induction d as [|[k' m] d IH]; cbn [map fst In dict_pop List.length]; [tauto|].
  destruct (Z.eqb_spec k' k) as [->|Ne]; [reflexivity|].
  intros [E | I]; [congruence|]. cbn [List.length]. now rewrite IH.
Qed.

Lemma dict_pop_stored d k : Forall stored_entry d -> Forall stored_entry (dict_pop d k).
Proof.
  induction 1 as [|[k' m] d S F IH]; cbn [dict_pop]; [constructor|].
  destruct (k' =? k); [exact F | now constructor].
Qed.

Lemma dict_set_stored d k m :
  stored_entry (k, m) -> Forall stored_entry d -> Forall stored_entry (dict_set d k m).
Proof.
  intros Sk. induction 1 as [|[k' m'] d S F IH]; cbn [dict_set].
  - constructor; [exact Sk | constructor].
  - destruct (k' =? k); constructor; assumption.
Qed.

(** From a well-formed state the loop that makes room ends with a reply,
    unless the fuel is less than the number of stored messages. *)
Lemma make_room_total env m i c msg_str : forall fuel st,
  stored_entry (i, m) -> current_pow m = Some c -> c <= pow_max ->
  well_formed st ->
  match make_room fuel env m msg_str st with
  | Replied _ st' => well_formed st'
  | OutOfFuel st' => well_formed st' /\ (fuel < List.length (messages st))%nat
  | Exited _ _ | Raised _ _ => False
  end.
Proof.
  intros fuel st Sm Ec Hc.
  assert (Ei : initial_pow m = Some i) by apply Sm.
  assert (Ins : forall st, well_formed st ->
            well_formed (mkState (dict_set (messages st) i m)
                           (Z.max (required_pow st) c) (ticks st))).
  { intros st0 [F Rp]. split; cbn [messages required_pow].
    - now apply dict_set_stored.
    - lia. }
  revert st. induction fuel as [|fuel IH]; intros st W; cbn [make_room].
  - destruct (Z.ltb_spec 0 (Z.of_nat (List.length (messages st)))) as [L|L];
      cbn [andb].
    + destruct (_ >? _); [split; [exact W | lia]|].
      rewrite Ei, Ec. now apply Ins.
    + rewrite Ei, Ec. now apply Ins.
  - destruct (Z.ltb_spec 0 (Z.of_nat (List.length (messages st)))) as [L|L];
      cbn [andb]; [|rewrite Ei, Ec; now apply Ins].
    destruct (_ >? _); [|rewrite Ei, Ec; now apply Ins].
    destruct (get_worst_pow_total env st W) as (wi & wc & st1 & G & W1 & Len & K & Rw).
    rewrite G, Ec.
    destruct (c >? wc).
    + rewrite to_bytes_hex_some; [exact W1|].
      rewrite pow_max_value in Rw. change (Z.to_nat (pow_bytes / 2)) with 4%nat.
      change (256 ^ Z.of_nat 4) with 4294967296. lia.
    + assert (Ne : messages st <> []) by (destruct (messages st); [cbn in L; lia | congruence]).
      specialize (K Ne). apply dict_pop_length in K.
      set (st2 := mkState (dict_pop (messages st1) wi) (required_pow st1) (ticks st1)).
      assert (W2 : well_formed st2).
      { destruct W1 as [F1 R1]. split; [now apply dict_pop_stored | exact R1]. }
      specialize (IH st2 W2).
      destruct (make_room fuel env m msg_str st2); try assumption.
      destruct IH as [W3 Lt]. split; [exact W3|]. cbn [st2 messages] in Lt. lia.
Qed.

(** From a well-formed state a handler ends with a reply (and the end of
    the process for __exit__ in test mode), never with an exception, and
    leaves a well-formed state; the fuel of the store's size is enough. *)
Lemma handle_message_total fuel env st s :
  well_formed st ->
  match handle_message fuel env st s with
  | Replied _ st' | Exited _ st' => well_formed st'
  | OutOfFuel st' => well_formed st' /\ (fuel < List.length (messages st))%nat
  | Raised _ _ => False
  end.
Proof.
  intros W. pose proof W as [F Rp]. unfold handle_message.
  assert (W1 : well_formed (mkState (messages st) (required_pow st)
                              (tick env (ticks st)))) by (split; assumption).
  destruct (parse_no_exception __init__ s (required_pow st) (utc_now env)
              (wall env (ticks st))) as (reply & m & P); [lia|].
  rewrite P.
  destruct (String.eqb_spec reply EmptyString) as [->|Ne]; cbn [negb]; [|exact W1].
  destruct (payload_is m "__info__").
  { rewrite to_bytes_hex_some; [exact W1|]. cbn [required_pow].
    rewrite pow_max_value in Rp. change (Z.to_nat (pow_bytes / 2)) with 4%nat.
    change (256 ^ Z.of_nat 4) with 4294967296. lia. }
  destruct (payload_is m "__messages__"); [exact W1|].
  destruct (payload_is m "__exit__"); [destruct (utc_now env); exact W1|].
  destruct (payload_is m "__memory__"); [destruct (utc_now env); exact W1|].
  pose proof (parse_success _ _ _ _ _ _ P) as (Em & _ & (t & Et) & _ & _).
  assert (Sm : stored_entry (frame_initial_pow s, m)).
  { rewrite Em. split; [reflexivity|]. split; [apply frame_initial_pow_range|].
    cbn. rewrite Et. discriminate. }
  assert (Ec : current_pow m
               = Some (frame_current_pow s
                         (now_or (utc_now env) (wall env (ticks st)))))
    by (rewrite Em; reflexivity).
  pose proof (make_room_total env m _ _ (__str__ m) fuel _ Sm Ec
                (frame_current_pow_le_max _ _) W1) as T.
  destruct (make_room fuel env m (__str__ m) _); try assumption. destruct T.
Qed.

Lemma reachable_well_formed env st : reachable env st -> well_formed st.
Proof.
  induction 1 as [|fuel st s reply st' R IH H|fuel st s e st' R IH H].
  - split; [constructor | vm_compute; split; discriminate].
  - pose proof (handle_message_total fuel env st s IH) as T. now rewrite H in T.
  - pose proof (handle_message_total fuel env st s IH) as T. now rewrite H in T.
Qed.

(** In every state the server can reach, the handler of any decoded
    string ends with a reply within the fuel of the store's size: from the
    call of [parse] on no exception leaves it and the loop that makes room
    terminates. *)
Theorem handler_always_replies env st s :
  reachable env st ->
  exists reply st',
    handle_message (List.length (messages st)) env st s = Replied reply st'
    \/ handle_message (List.length (messages st)) env st s = Exited reply st'.
Proof.
  intros R. apply reachable_well_formed in R.
  pose proof (handle_message_total (List.length (messages st)) env st s R) as T.
  destruct (handle_message (List.length (messages st)) env st s) as [r st'|r st'|e st'|st'].
  - exists r, st'. now left.
  - exists r, st'. now right.
  - destruct T.
  - destruct T as [_ L]. lia.
Qed.

End TotalFacts.

(* ================================================================== *)
(** * The static methods and [set_payload] *)
(* ================================================================== *)

Module MessageFacts.
Import Py Datetime Message_v0 Spec StrFacts IntFacts DigestFacts PowFacts
  RoundTrip MinerFacts.

Lemma all_chars_take p n : forall s,
  all_chars p s = true -> all_chars p (take n s) = true.
Proof.
  induction n as [|n IH]; intros [|c s] H; cbn in *; try reflexivity.
  apply andb_prop in H as [Hc Hs]. now rewrite Hc, IH.
Qed.

Lemma hexdigit_lower d : 0 <= d < 16 -> is_lower_hex (hexdigit d) = true.
Proof.
  intros H. unfold is_lower_hex, hexdigit.
  destruct (Z.ltb_spec d 10); rewrite ord_chr by lia.
  - apply orb_true_iff. left. apply andb_true_iff. split; apply Z.leb_le; lia.
  - apply orb_true_iff. right. apply andb_true_iff. split; apply Z.leb_le; lia.
Qed.

Lemma hex_of_lower n : forall v, all_chars is_lower_hex (hex_of n v) = true.
Proof.
  induction n as [|n IH]; intros v; cbn [hex_of]; [reflexivity|].
  rewrite all_chars_app, IH. cbn [all_chars andb].
  rewrite hexdigit_lower by (apply Z.mod_pos_bound; lia). reflexivity.
Qed.

Lemma hexdigest_lower msg : all_chars is_lower_hex (SHA256.hexdigest msg) = true.
Proof.
  unfold SHA256.hexdigest.
  induction (SHA256.digest_words msg) as [|w ws IH]; [reflexivity|].
  cbn [map String.concat]. destruct (map (hex_of 8) ws) as [|x xs] eqn:E.
  - apply hex_of_lower.
  - rewrite !all_chars_app, hex_of_lower. exact IH.
Qed.

(** The checksum of a payload is always 12 characters, each a digit or a
    letter from a to f: the first 12 of the 64 that [hexdigest] writes. *)
Theorem get_checksum_is_twelve_hex_digits (payload : string) :
  String.length (get_checksum payload) = 12%nat
  /\ all_chars is_lower_hex (get_checksum payload) = true
  /\ get_checksum payload
     = take 12 (SHA256.hexdigest (encode_utf8 payload)).
Proof.
  assert (E : get_checksum payload
              = take 12 (SHA256.hexdigest (encode_utf8 payload))).
  { unfold get_checksum. change checksum_bytes with 12.
    rewrite slice_inside; try lia; [reflexivity|].
    unfold len. rewrite length_hexdigest. lia. }
  split; [|split; [|exact E]].
  - pose proof (len_get_checksum payload) as L. unfold len in L. lia.
  - rewrite E. apply all_chars_take, hexdigest_lower.
Qed.

Lemma encode_utf8_app a b :
  encode_utf8 (a ++ b) = (encode_utf8 a ++ encode_utf8 b)%list.
Proof.
  induction a as [|c a IH]; [reflexivity|].
  cbn [String.append encode_utf8]. cbv zeta.
  destruct (ord c <? 128); rewrite IH; reflexivity.
Qed.

(** The three fields are hashed one after the other with nothing between
    them: the initial proof of work depends on their concatenation only,
    not on where one field ends and the next begins. *)
Theorem initial_pow_binds_the_concatenation
  (ts n c ts' n' c' : string) (target : Z) :
  ts ++ n ++ c = ts' ++ n' ++ c' ->
  get_initial_pow ts n c target = get_initial_pow ts' n' c' target.
Proof.
  intros H. unfold get_initial_pow.
  rewrite <- !encode_utf8_app, H. reflexivity.
Qed.

Lemma initial_pow_binds_the_concatenation_witness :
  "2000010203040" ++ "5aaaaaaaaa" ++ "ae3b0c44298fc"
  = "20000102030405" ++ "aaaaaaaaaa" ++ "e3b0c44298fc"
  /\ get_initial_pow "2000010203040" "5aaaaaaaaa" "ae3b0c44298fc" pow_target
     = get_initial_pow "20000102030405" "aaaaaaaaaa" "e3b0c44298fc" pow_target.
Proof.
  split; [reflexivity|].
  apply (initial_pow_binds_the_concatenation
           "2000010203040" "5aaaaaaaaa" "ae3b0c44298fc"
           "20000102030405" "aaaaaaaaaa" "e3b0c44298fc" pow_target).
  reflexivity.
Defined.

(** [set_payload] on a stamped object, for a payload of characters below
    U+0100.  A payload of more than 128 characters raises and leaves the
    object as it was.  Any other such payload is taken: the object gets
    the payload, its checksum, the nonce it had or aaaaaaaaaa when it had
    none, and the initial proof of work of these with its timestamp, a
    number from 0 to 2^32 - 1.  The current proof of work is left as it
    was.  (A payload with a lone surrogate is outside: it is assigned, and
    [get_checksum] raises.) *)
Theorem set_payload_on_stamped_object
  (self : Message) (ts : string) (cps : list Z) (p : string) :
  str_of_code_points cps = Some p ->
  timestamp_str self = Some ts ->
  exists i,
    get_initial_pow ts (nonce_or_default self) (get_checksum p) pow_target = Some i
    /\ 0 <= i <= pow_max
    /\ set_payload self p
       = if len p >? 128
         then Exc (RuntimeError "Payload too large") self
         else Ret tt
                (mkMessage (version self) (Some ts) (timestamp_obj self)
                   (Some (nonce_or_default self)) (Some (get_checksum p)) (Some p)
                   (Some i) (current_pow self) (Message_v0.utc_now self)).
Proof.
  intros _ T.
  destruct (initial_pow_range ts (nonce_or_default self) (get_checksum p))
    as (i & E & R).
  exists i. split; [exact E|]. split; [exact R|].
  unfold set_payload. change max_payload_bytes with 128.
  destruct (len p >? 128); [reflexivity|].
  rewrite T.
  change (match nonce self with
          | Some n => n
          | None => String.concat EmptyString (repeat "a" (Z.to_nat nonce_bytes))
          end) with (nonce_or_default self).
  rewrite E. reflexivity.
Qed.

Lemma set_payload_on_stamped_object_witness :
  exists i,
    get_initial_pow "20000102030405" "aaaaaaaaaa" (get_checksum "hi") pow_target
    = Some i
    /\ 0 <= i <= pow_max
    /\ set_payload (set_timestamp __init__ (Some sample_now) sample_now) "hi"
       = Ret tt
           (mkMessage "0" (Some "20000102030405") (Some sample_now)
              (Some "aaaaaaaaaa") (Some (get_checksum "hi")) (Some "hi")
              (Some i) None None).
Proof.
  exact (set_payload_on_stamped_object
           (set_timestamp __init__ (Some sample_now) sample_now)
           "20000102030405" [104; 105] "hi" eq_refl eq_refl).
Defined.

Lemma length_flat_map_const {A B} (f : A -> list B) k : forall l,
  (forall x, In x l -> List.length (f x) = k) ->
  List.length (flat_map f l) = (List.length l * k)%nat.
Proof.
  induction l as [|x l IH]; intros H; [reflexivity|].
  cbn [flat_map List.length]. rewrite List.length_app, H, IH.
  - lia.
  - intros y Hy. apply H. now right.
  - now left.
Qed.

Lemma length_product chars n :
  List.length (product chars n) = (List.length chars ^ n)%nat.
Proof.
  induction n as [|n IH]; [reflexivity|].
  cbn [product]. rewrite (length_flat_map_const _ (List.length chars ^ n)).
  - cbn [Nat.pow]. reflexivity.
  - intros x _. now rewrite length_map.
Qed.

Lemma length_candidates : Z.of_nat (List.length candidates) = 62 ^ 10.
Proof.
  unfold candidates. rewrite length_product.
  change (List.length nonce_chars) with 62%nat.
  change (Z.to_nat nonce_bytes) with 10%nat.
  rewrite Nat2Z.inj_pow. reflexivity.
Qed.

(** A bound of 0 is never met, since no proof of work is negative: on a
    stamped object with a checksum, [update_nonce] with [required_pow = 0]
    goes through all the 62^10 candidates and raises.  The object keeps its
    nonce and has lost both proofs of work. *)
Theorem update_nonce_bound_zero_is_never_met
  (self : Message) (ts cs : string) (utc_now : option datetime) (clock : datetime) :
  timestamp_str self = Some ts -> checksum self = Some cs ->
  search ts cs 0 candidates 0 = Exhausted (62 ^ 10)
  /\ update_nonce self 0 utc_now clock
     = Exc (RuntimeError "Couldn't reach target proof of work") (without_pow self).
Proof.
  intros T C.
  assert (S : search ts cs 0 candidates 0 = Exhausted (62 ^ 10)).
  { rewrite search_exhausted.
    - rewrite length_candidates. reflexivity.
    - intros c _ L. pose proof (nonce_pow_eq ts cs c) as E.
      destruct (initial_pow_range ts c cs) as (q & Eq & Rq).
      rewrite E in Eq. injection Eq as Eq. lia. }
  split; [exact S|].
  unfold update_nonce, without_pow. rewrite T, C.
  change (0 <? 0) with false. cbv iota.
  fold nonce_chars. fold candidates. rewrite S. reflexivity.
Qed.

Lemma update_nonce_bound_zero_is_never_met_witness :
  search "20000102030405" "e3b0c44298fc" 0 candidates 0 = Exhausted (62 ^ 10)
  /\ update_nonce sample_message 0 (Some sample_now) sample_now
     = Exc (RuntimeError "Couldn't reach target proof of work")
           (without_pow sample_message).
Proof.
  exact (update_nonce_bound_zero_is_never_met sample_message
           "20000102030405" "e3b0c44298fc" (Some sample_now) sample_now
           eq_refl eq_refl).
Defined.

End MessageFacts.

(* ================================================================== *)
(** * Timestamps: written by [set_timestamp], read by [parse] *)
(* ================================================================== *)

Module StampFacts.
Import Py Datetime Message_v0 Spec StrFacts IntFacts DigestFacts PowFacts
  ParseFacts DatetimeFacts RoundTrip.

Lemma two_digits v :
  0 <= v <= 99 ->
  is_digit (digit (v / 10)) = true /\ is_digit (digit (v mod 10)) = true
  /\ two (digit (v / 10)) (digit (v mod 10)) = v.
Proof.
  intros H.
  assert (A : 0 <= v / 10 <= 9) by (Z.div_mod_to_equations; lia).
  assert (B : 0 <= v mod 10 <= 9) by (pose proof (Z.mod_pos_bound v 10); lia).
  rewrite !digit_is_digit by assumption. repeat split.
  unfold two. rewrite !dval_digit by assumption.
  pose proof (Z.div_mod v 10). lia.
Qed.

(** Reading back what [strftime] wrote gives the instant, without its
    microseconds. *)
Lemma strptime_strftime t :
  valid t = true -> 1000 <= year t ->
  strptime (strftime t) = Some (whole_second t).
Proof.
  intros V Y. pose proof (valid_bounds _ V) as B.
  pose proof (days_in_month_le (year t) (month t)) as Dm.
  unfold strftime. rewrite year_string_long by lia.
  unfold four_digits, pad2. cbn [append strptime].
  set (y := year t) in *.
  assert (A0 : 0 <= y / 1000 <= 9) by (Z.div_mod_to_equations; lia).
  assert (A1 : 0 <= y / 100 mod 10 <= 9)
    by (pose proof (Z.mod_pos_bound (y / 100) 10); lia).
  assert (A2 : 0 <= y / 10 mod 10 <= 9)
    by (pose proof (Z.mod_pos_bound (y / 10) 10); lia).
  assert (A3 : 0 <= y mod 10 <= 9) by (pose proof (Z.mod_pos_bound y 10); lia).
  rewrite !digit_is_digit by assumption.
  destruct (two_digits (month t)) as (M1 & M2 & M3); [lia|].
  destruct (two_digits (day t)) as (D1 & D2 & D3); [lia|].
  destruct (two_digits (hour t)) as (H1 & H2 & H3); [lia|].
  destruct (two_digits (minute t)) as (N1 & N2 & N3); [lia|].
  destruct (two_digits (second t)) as (S1 & S2 & S3); [lia|].
  unfold month_pat, day_pat, hour_pat, minute_pat, second_pat, day_value.
  rewrite M1, M2, M3, D1, D2, D3, H1, H2, H3, N1, N2, N3, S1, S2, S3.
  assert (D4 : (ord (digit (day t / 10)) =? 32) = false).
  { apply Z.eqb_neq. apply is_digit_spec in D1. lia. }
  rewrite D4. cbn [andb orb]. rewrite !dval_digit by assumption.
  replace (((y / 1000 * 10 + y / 100 mod 10) * 10 + y / 10 mod 10) * 10 + y mod 10)
    with y by (clear - A0; Z.div_mod_to_equations; lia).
  cbn [andb orb].
  replace (1 <=? month t) with true by (symmetry; apply Z.leb_le; lia).
  replace (month t <=? 12) with true by (symmetry; apply Z.leb_le; lia).
  replace (1 <=? day t) with true by (symmetry; apply Z.leb_le; lia).
  replace (day t <=? 31) with true by (symmetry; apply Z.leb_le; lia).
  replace (hour t <=? 23) with true by (symmetry; apply Z.leb_le; lia).
  replace (minute t <=? 59) with true by (symmetry; apply Z.leb_le; lia).
  replace (second t <=? 61) with true by (symmetry; apply Z.leb_le; lia).
  cbn [andb orb].
  assert (W : valid {| year := y; month := month t; day := day t;
                       hour := hour t; minute := minute t; second := second t;
                       microsecond := 0 |} = true).
  { unfold valid in *. cbn [year month day hour minute second microsecond].
    rewrite !andb_true_iff in V. rewrite !andb_true_iff.
    fold y in V. intuition. }
  rewrite W. reflexivity.
Qed.

Lemma leb_whole_second t now :
  valid now = true -> leb t now = true -> leb (whole_second t) now = true.
Proof.
  intros V. apply valid_bounds in V.
  unfold leb, cmp, whole_second. cbn [fold_right year month day hour minute second microsecond].
  destruct (year t ?= year now); try (intros; reflexivity || assumption).
  destruct (month t ?= month now); try (intros; reflexivity || assumption).
  destruct (day t ?= day now); try (intros; reflexivity || assumption).
  destruct (hour t ?= hour now); try (intros; reflexivity || assumption).
  destruct (minute t ?= minute now); try (intros; reflexivity || assumption).
  destruct (second t ?= second now); try (intros; reflexivity || assumption).
  intros _. destruct (Z.compare_spec 0 (microsecond now)); try reflexivity. lia.
Qed.

(** The fields in order decide the order of the numbers they write. *)
Lemma stamp_number_leb a b :
  valid a = true -> valid b = true -> microsecond a = 0 ->
  stamp_number a <= stamp_number b -> leb a b = true.
Proof.
  intros Va Vb Ma. apply valid_bounds in Va, Vb.
  pose proof (days_in_month_le (year a) (month a)).
  pose proof (days_in_month_le (year b) (month b)).
  unfold leb, cmp, stamp_number. cbn [fold_right]. rewrite Ma.
  destruct (Z.compare_spec (year a) (year b)); [|reflexivity|intros; lia].
  destruct (Z.compare_spec (month a) (month b)); [|reflexivity|intros; lia].
  destruct (Z.compare_spec (day a) (day b)); [|reflexivity|intros; lia].
  destruct (Z.compare_spec (hour a) (hour b)); [|reflexivity|intros; lia].
  destruct (Z.compare_spec (minute a) (minute b)); [|reflexivity|intros; lia].
  destruct (Z.compare_spec (second a) (second b)); [|reflexivity|intros; lia].
  intros _. destruct (Z.compare_spec 0 (microsecond b)); try reflexivity. lia.
Qed.

Lemma strptime_whole ts t : strptime ts = Some t -> microsecond t = 0.
Proof.
  intros P.
  destruct ts as [|y1 [|y2 [|y3 [|y4 [|m1 [|m2 [|d1 [|d2 [|h1 [|h2
    [|n1 [|n2 [|s1 [|s2 [|x ts]]]]]]]]]]]]]]]; try discriminate P.
  cbn [strptime] in P.
  match type of P with (if ?c then _ else _) = _ => destruct c; [|discriminate] end.
  match type of P with (if ?c then _ else _) = _ => destruct c; [|discriminate] end.
  injection P as <-. reflexivity.
Qed.

(** ** What [int] and [strptime] accept together *)

Lemma to_ascii_digits_low s :
  all_chars (fun c => ord c <? 127) s = true -> to_ascii_digits s = s.
Proof.
  induction s as [|c s IH]; cbn [all_chars to_ascii_digits]; [reflexivity|].
  intros H. apply andb_prop in H as [Hc Hs]. cbv zeta. rewrite Hc.
  now rewrite IH.
Qed.

Lemma scan_digits_stop base a c r :
  all_chars (is_digit_of base) a = true ->
  (digit_value c <? base) = false -> is_underscore c = false ->
  forall seen acc, a <> EmptyString \/ seen = true ->
  scan_digits base (a ++ String c r) false seen acc
  = Some (digits_value base acc a, String c r).
Proof.
  intros Ha Hc Hu. induction a as [|x a IH]; intros seen acc Hne.
  - destruct Hne as [Hne | ->]; [congruence|].
    cbn [append scan_digits digits_value]. rewrite Hc, Hu. reflexivity.
  - cbn [all_chars] in Ha. apply andb_prop in Ha as [Hx Ha].
    cbn [append scan_digits digits_value]. unfold is_digit_of in Hx. rewrite Hx.
    apply IH; auto.
Qed.

(** A timestamp that [int] and [strptime] both accept is 14 digits: the
    blank that [strptime] allows before a day of one digit is refused by
    [int]. *)
Lemma accepted_timestamp_digits ts t :
  int_of_str 10 ts <> None -> strptime ts = Some t ->
  all_chars is_digit ts = true.
Proof.
  intros I P.
  destruct ts as [|y1 [|y2 [|y3 [|y4 [|m1 [|m2 [|d1 [|d2 [|h1 [|h2
    [|n1 [|n2 [|s1 [|s2 [|x ts]]]]]]]]]]]]]]]; try discriminate P.
  cbn [strptime] in P.
  match type of P with (if ?c then _ else _) = _ => destruct c eqn:C; [|discriminate] end.
  clear P. unfold month_pat, day_pat, hour_pat, minute_pat, second_pat in C.
  rewrite !andb_true_iff in C.
  destruct C as ((((((((Y1 & Y2) & Y3) & Y4) & ((M1 & M2) & _) & _) & Dd) & ((H1 & H2) & _)) & ((N1 & N2) & _)) & ((S1 & S2) & _)).
  cbn [all_chars]. rewrite Y1, Y2, Y3, Y4, M1, M2, H1, H2, N1, N2, S1, S2.
  apply orb_true_iff in Dd as [Dd|Dd].
  - rewrite !andb_true_iff in Dd. destruct Dd as (((D1 & D2) & _) & _).
    now rewrite D1, D2.
  - exfalso. apply I. clear I.
    rewrite !andb_true_iff in Dd. destruct Dd as ((D1 & D2) & _).
    apply Z.eqb_eq in D1.
    assert (Low : forall c, is_digit c = true -> (ord c <? 127) = true).
    { intros c Hc. apply is_digit_spec in Hc. apply Z.ltb_lt. lia. }
    unfold int_of_str. rewrite to_ascii_digits_low.
    2:{ cbn [all_chars].
        replace (ord d1 <? 127) with true by (symmetry; apply Z.ltb_lt; lia).
        rewrite !Low by assumption. reflexivity. }
    destruct (digit_facts 10 y1) as (_ & Hsp & Hplus & Hminus & _ & _ & Hus);
      [lia | now apply is_digit_base10 |].
    cbn [lstrip]. rewrite Hsp, Hplus, Hminus.
    cbn [skip_prefix]. change (10 =? 16) with false. cbn [andb].
    rewrite Hus.
    change (String y1 (String y2 (String y3 (String y4 (String m1 (String m2
             (String d1 (String d2 (String h1 (String h2 (String n1 (String n2
             (String s1 (String s2 EmptyString))))))))))))))
      with ((String y1 (String y2 (String y3 (String y4 (String m1 (String m2
             EmptyString))))))
            ++ String d1 (String d2 (String h1 (String h2 (String n1 (String n2
             (String s1 (String s2 EmptyString)))))))).
    rewrite scan_digits_stop.
    + cbn [lstrip]. unfold is_space. rewrite D1. cbn [orb Z.eqb andb].
      replace ((9 <=? 32) && (32 <=? 13) || (32 =? 32)) with true by reflexivity.
      destruct (digit_facts 10 d2) as (_ & Hsp2 & _);
        [lia | now apply is_digit_base10 |].
      unfold is_space in Hsp2. rewrite Hsp2. reflexivity.
    + cbn [all_chars]. rewrite !is_digit_base10 by assumption. reflexivity.
    + unfold digit_value. rewrite D1. reflexivity.
    + unfold is_underscore. rewrite D1. reflexivity.
    + left. discriminate.
Qed.

End StampFacts.

(* ================================================================== *)
(** * What [parse] reads of a frame *)
(* ================================================================== *)

Module FrameFacts.
Import Py Datetime Message_v0 Spec StrFacts IntFacts DigestFacts PowFacts
  ParseFacts DatetimeFacts RoundTrip MinerFacts StampFacts.

Section Loose.
Variables ts a n b c d p : string.
Hypothesis Lts : len ts = 14.
Hypothesis La : len a = 3.
Hypothesis Ln : len n = 10.
Hypothesis Lb : len b = 3.
Hypothesis Lc : len c = 12.
Hypothesis Ld : len d = 3.

Let pre : string := "[" ++ dq ++ "0" ++ dq ++ "," ++ dq.
Let suf : string := dq ++ "]".

Lemma loose_pieces :
  loose_frame ts a n b c d p = pre ++ ts ++ a ++ n ++ b ++ c ++ d ++ p ++ suf.
Proof. reflexivity. Qed.

Lemma len_loose : len (loose_frame ts a n b c d p) = 53 + len p.
Proof.
  rewrite loose_pieces, !len_app, Lts, La, Ln, Lb, Lc, Ld.
  change (len pre) with 6. change (len suf) with 2. lia.
Qed.

Lemma loose_startswith : startswith (loose_frame ts a n b c d p) pre = true.
Proof. rewrite loose_pieces. apply startswith_app. Qed.

Lemma loose_endswith : endswith (loose_frame ts a n b c d p) suf = true.
Proof.
  rewrite loose_pieces.
  replace (pre ++ ts ++ a ++ n ++ b ++ c ++ d ++ p ++ suf)
    with ((pre ++ ts ++ a ++ n ++ b ++ c ++ d ++ p) ++ suf)
    by (now rewrite !app_assoc).
  apply endswith_app.
Qed.

Lemma loose_timestamp : field_timestamp (loose_frame ts a n b c d p) = ts.
Proof.
  rewrite loose_pieces. unfold field_timestamp.
  apply slice_middle; [reflexivity|]. rewrite Lts. reflexivity.
Qed.

Lemma loose_nonce : field_nonce (loose_frame ts a n b c d p) = n.
Proof.
  rewrite loose_pieces. unfold field_nonce.
  replace (pre ++ ts ++ a ++ n ++ b ++ c ++ d ++ p ++ suf)
    with ((pre ++ ts ++ a) ++ n ++ b ++ c ++ d ++ p ++ suf)
    by (now rewrite !app_assoc).
  apply slice_middle; rewrite !len_app, Lts, La, ?Ln; reflexivity.
Qed.

Lemma loose_checksum : field_checksum (loose_frame ts a n b c d p) = c.
Proof.
  rewrite loose_pieces. unfold field_checksum.
  replace (pre ++ ts ++ a ++ n ++ b ++ c ++ d ++ p ++ suf)
    with ((pre ++ ts ++ a ++ n ++ b) ++ c ++ d ++ p ++ suf)
    by (now rewrite !app_assoc).
  apply slice_middle; rewrite !len_app, Lts, La, Ln, Lb, ?Lc; reflexivity.
Qed.

Lemma loose_payload : field_payload (loose_frame ts a n b c d p) = p.
Proof.
  rewrite loose_pieces. unfold field_payload.
  replace (pre ++ ts ++ a ++ n ++ b ++ c ++ d ++ p ++ suf)
    with ((pre ++ ts ++ a ++ n ++ b ++ c ++ d) ++ p ++ suf)
    by (now rewrite !app_assoc).
  apply slice_to_negative; [|reflexivity|reflexivity].
  rewrite !len_app, Lts, La, Ln, Lb, Lc, Ld. reflexivity.
Qed.

End Loose.

Lemma frame_is_loose ts n c p :
  frame ts n c p
  = loose_frame ts (dq ++ "," ++ dq) n (dq ++ "," ++ dq) c (dq ++ "," ++ dq) p.
Proof. reflexivity. Qed.

(** What [parse] answers depends on the length of the string and on the
    pieces it cuts out, the head and the tail included. *)
Lemma parse_same_pieces self s s' required_pow utc_now clock :
  len s = len s' ->
  startswith s ("[" ++ dq ++ "0" ++ dq ++ "," ++ dq)
  = startswith s' ("[" ++ dq ++ "0" ++ dq ++ "," ++ dq) ->
  endswith s (dq ++ "]") = endswith s' (dq ++ "]") ->
  field_timestamp s = field_timestamp s' ->
  field_nonce s = field_nonce s' ->
  field_checksum s = field_checksum s' ->
  field_payload s = field_payload s' ->
  parse self s required_pow utc_now clock
  = parse self s' required_pow utc_now clock.
Proof.
  intros L S E T N C P.
  assert (L' : String.length s = String.length s') by (unfold len in L; lia).
  rewrite !parse_unfold. cbv zeta.
  unfold parsed, frame_current_pow, frame_initial_pow.
  rewrite L, L', S, E, T, N, C, P. reflexivity.
Qed.

(** The nine characters between the fields are not read.  [parse] cuts the
    fields out by position: with any three characters in place of each
    separator it answers as it does on the wire form, and leaves the same
    object. *)
Theorem parse_does_not_read_the_separators
  (self : Message) (ts a n b c d p : string) (required_pow : Z)
  (utc_now : option datetime) (clock : datetime) :
  len ts = 14 -> len n = 10 -> len c = 12 ->
  len a = 3 -> len b = 3 -> len d = 3 ->
  parse self (loose_frame ts a n b c d p) required_pow utc_now clock
  = parse self (frame ts n c p) required_pow utc_now clock.
Proof.
  intros Lts Ln Lc La Lb Ld.
  assert (Ls : len (dq ++ "," ++ dq) = 3) by reflexivity.
  rewrite frame_is_loose.
  apply parse_same_pieces.
  - rewrite !len_loose by assumption. reflexivity.
  - rewrite !loose_startswith. reflexivity.
  - rewrite !loose_endswith. reflexivity.
  - rewrite !loose_timestamp by assumption. reflexivity.
  - rewrite !loose_nonce by assumption. reflexivity.
  - rewrite !loose_checksum by assumption. reflexivity.
  - rewrite !loose_payload by assumption. reflexivity.
Qed.

Lemma parse_does_not_read_the_separators_witness :
  parse __init__
    (loose_frame "20000102030405" "abc" "aaaaaaaaaa" "   " "e3b0c44298fc" "xyz"
       EmptyString)
    4294967295 (Some sample_now) sample_now
  = parse __init__ (frame "20000102030405" "aaaaaaaaaa" "e3b0c44298fc" EmptyString)
      4294967295 (Some sample_now) sample_now.
Proof.
  apply (parse_does_not_read_the_separators __init__
           "20000102030405" "abc" "aaaaaaaaaa" "   " "e3b0c44298fc" "xyz"
           EmptyString 4294967295 (Some sample_now) sample_now);
    reflexivity.
Defined.

(** A frame made of a timestamp of 14 digits that is a date not after now,
    a nonce of 10 characters, a payload and its checksum passes every check
    when [required_pow] bounds nothing. *)
Lemma parse_accepts self ts t n p required_pow now clock :
  strptime ts = Some t -> all_chars is_digit ts = true -> len n = 10 ->
  valid now = true -> leb t now = true -> pow_max <= required_pow ->
  let s := frame ts n (get_checksum p) p in
  parse self s required_pow (Some now) clock = Ret EmptyString (parsed self s now)
  /\ field_timestamp s = ts /\ field_nonce s = n
  /\ field_checksum s = get_checksum p /\ field_payload s = p
  /\ len s = 53 + len p.
Proof.
  intros Pts Dts Ln Vn Le Hrp s.
  destruct (strptime_digits ts t Pts Dts) as (Lts & _ & _).
  assert (Lts' : len ts = 14) by (unfold len; lia).
  pose proof (len_get_checksum p) as Lc.
  set (c := get_checksum p) in *.
  assert (Fts : field_timestamp s = ts) by (apply frame_timestamp; assumption).
  assert (Fn : field_nonce s = n) by (apply frame_nonce; assumption).
  assert (Fc : field_checksum s = c) by (apply frame_checksum; assumption).
  assert (Fp : field_payload s = p) by (apply frame_payload; assumption).
  pose proof (len_frame ts n c p Lts' Ln Lc) as Ls. fold s in Ls.
  pose proof (len_nonneg p) as Lp.
  split; [|repeat split; assumption].
  rewrite parse_unfold. cbv zeta. cbn [now_or].
  destruct (Z.ltb_spec (len s) 53); [lia|].
  unfold s at 1. rewrite (frame_startswith ts n c p). cbn [negb].
  unfold s at 1. rewrite (frame_endswith ts n c p). cbn [negb].
  rewrite Fts, Fc, Fp.
  rewrite (int_of_str_digits 10 ts).
  - cbn [is_some negb].
    rewrite (stamp_not_in_future ts t now Pts Dts Vn Le).
    pose proof (frame_initial_pow_range s) as Ri.
    replace (frame_initial_pow s >? required_pow) with false
      by (symmetry; rewrite Z.gtb_ltb; apply Z.ltb_ge; lia).
    rewrite Pts. cbn [is_some negb].
    unfold c. rewrite String.eqb_refl. cbn [negb].
    assert (Rc : frame_current_pow s now <= pow_max).
    { unfold frame_current_pow. rewrite Fts, Pts. apply scaled_pow_le_max. }
    replace (frame_current_pow s now >? required_pow) with false
      by (symmetry; rewrite Z.gtb_ltb; apply Z.ltb_ge; lia).
    reflexivity.
  - now left.
  - intros E. rewrite E in Lts. discriminate Lts.
  - apply (all_chars_impl is_digit); [apply is_digit_base10 | exact Dts].
Qed.

Lemma search_found_inv ts cs bound cands : forall tries0 tries c i,
  search ts cs bound cands tries0 = Found tries c i ->
  In c cands /\ get_initial_pow ts c cs pow_target = Some i /\ i < bound
  /\ tries0 < tries.
Proof.
  induction cands as [|x cands IH]; intros tries0 tries c i H; [discriminate H|].
  cbn [search] in H. rewrite nonce_pow_eq in H.
  destruct (Z.ltb_spec (nonce_pow ts cs x) bound) as [L|L].
  - injection H as <- <- <-. repeat split; try lia.
    + now left.
    + apply nonce_pow_eq.
  - apply IH in H as (I & G & B & T). repeat split; try assumption; try lia.
    now right.
Qed.

Lemma whole_second_id t : microsecond t = 0 -> whole_second t = t.
Proof. destruct t. cbn. intros ->. reflexivity. Qed.

Lemma str_set_current_pow m c : __str__ (set_current_pow m c) = __str__ m.
Proof. reflexivity. Qed.

(** When the first candidate is below the bound, one try is enough. *)
Lemma update_nonce_first self ts cs t required_pow utc_now clock i :
  timestamp_str self = Some ts -> timestamp_obj self = Some t ->
  checksum self = Some cs ->
  get_initial_pow ts "aaaaaaaaaa" cs pow_target = Some i ->
  i < search_bound required_pow ->
  exists self',
    update_nonce self required_pow utc_now clock = Ret 1 self'
    /\ self' = mkMessage (version self) (Some ts) (Some t) (Some "aaaaaaaaaa")
                 (Some cs) (payload self) (Some i) (current_pow self')
                 (Message_v0.utc_now self)
    /\ current_pow self'
       = Some (scaled_pow i (now_or utc_now clock) t (len (__str__ self'))).
Proof.
  intros T O C G B.
  unfold update_nonce. rewrite T, C.
  fold nonce_chars. fold candidates.
  pose proof (hd_product "a"%char (tl nonce_chars) 10) as Hd.
  change (product ("a"%char :: tl nonce_chars) 10) with candidates in Hd.
  destruct candidates as [|c0 rest]; [discriminate Hd|].
  cbn in Hd. injection Hd as ->.
  cbn [search]. rewrite G.
  unfold search_bound in B. change pow_max with (2 ^ (4 * pow_bytes) - 1) in B.
  replace (i <? (if required_pow <? 0 then 2 ^ (4 * pow_bytes) - 1 else required_pow))
    with true by (symmetry; apply Z.ltb_lt; exact B).
  unfold update_pow. cbn [timestamp_obj initial_pow]. rewrite O.
  eexists. split; [reflexivity|]. split; reflexivity.
Qed.

(** From the generator to the verifier.  An object stamped with a time of
    the year 1000 or later, given a payload and then a nonce by
    [update_nonce], whatever the bound, has a wire form that [parse] accepts
    at any time not before the stamp, with a [required_pow] of 2^32 - 1 or
    more: the parsed object has the same timestamp string, nonce, checksum,
    payload and initial proof of work; its instant is the stamp without the
    microseconds, and its current proof of work is the same when the stamp
    has none. *)
Theorem mined_message_is_accepted
  (self m1 m : Message) (stamp now clock clock' : datetime) (p : string)
  (bound tries required_pow : Z) :
  version self = "0" ->
  valid stamp = true -> 1000 <= year stamp ->
  valid now = true -> leb stamp now = true ->
  set_payload (set_timestamp self (Some stamp) clock) p = Ret tt m1 ->
  update_nonce m1 bound (Some now) clock = Ret tries m ->
  pow_max <= required_pow ->
  exists m',
    parse __init__ (__str__ m) required_pow (Some now) clock' = Ret EmptyString m'
    /\ len (__str__ m) = 53 + len p
    /\ timestamp_str m' = timestamp_str m
    /\ timestamp_obj m' = Some (whole_second stamp)
    /\ nonce m' = nonce m
    /\ checksum m' = checksum m
    /\ payload m' = Some p /\ payload m = Some p
    /\ initial_pow m' = initial_pow m
    /\ (microsecond stamp = 0 -> current_pow m' = current_pow m).
Proof.
  intros V Vs Ys Vn Le SP UN Hrp.
  pose proof (strptime_strftime stamp Vs Ys) as Pts.
  destruct (strftime_long stamp Vs Ys) as (Dts & _ & _).
  set (ts := strftime stamp) in *.
  (* set_payload *)
  unfold set_payload in SP.
  destruct (len p >? max_payload_bytes); [discriminate SP|].
  cbn [set_timestamp now_or timestamp_str version timestamp_obj nonce checksum
       payload initial_pow current_pow Message_v0.utc_now] in SP.
  fold ts in SP.
  match type of SP with
  | match get_initial_pow ?a ?b ?c ?d with _ => _ end = _ =>
      destruct (get_initial_pow a b c d) as [i0|]; [|discriminate SP]
  end.
  injection SP as <-.
  (* update_nonce *)
  unfold update_nonce in UN.
  cbn [timestamp_str checksum version timestamp_obj nonce payload
       Message_v0.utc_now] in UN.
  match type of UN with
  | match search ?a ?b ?c ?d ?e with _ => _ end = _ =>
      destruct (search a b c d e) as [k w i| |] eqn:S; try discriminate UN
  end.
  apply search_found_inv in S as (Iw & Gw & _ & _).
  apply in_product in Iw as [Lw _].
  unfold update_pow in UN. cbn [timestamp_obj initial_pow] in UN.
  injection UN as _ <-.
  cbn [__str__ set_current_pow version timestamp_str nonce checksum payload fmt].
  rewrite V.
  change ("[" ++ dq ++ "0" ++ dq ++ "," ++ dq ++ ts ++ dq ++ "," ++ dq ++ w ++ dq
          ++ "," ++ dq ++ get_checksum p ++ dq ++ "," ++ dq ++ p ++ dq ++ "]")
    with (frame ts w (get_checksum p) p).
  assert (Lw' : len w = 10) by (unfold len; rewrite Lw; reflexivity).
  destruct (parse_accepts __init__ ts (whole_second stamp) w p required_pow now
              clock' Pts Dts Lw' Vn (leb_whole_second stamp now Vn Le) Hrp)
    as (Pa & Fts & Fn & Fc & Fp & Ls).
  assert (Ls' : len (frame ts w (get_checksum p) p)
               = len (__str__ (mkMessage "0" (Some ts) (Some stamp) (Some w)
                                 (Some (get_checksum p)) (Some p) (Some i) None
                                 (Message_v0.utc_now self)))) by reflexivity.
  eexists. split; [exact Pa|].
  unfold parsed, frame_current_pow, frame_initial_pow.
  cbn [timestamp_str timestamp_obj nonce checksum payload initial_pow current_pow].
  rewrite Fts, Fn, Fc, Fp, Pts, Gw.
  split; [exact Ls|].
  split; [reflexivity|]. split; [reflexivity|]. split; [reflexivity|].
  split; [reflexivity|]. split; [reflexivity|]. split; [reflexivity|].
  split; [reflexivity|].
  intros Ms. rewrite (whole_second_id stamp Ms).
  cbn [current_pow set_current_pow].
  apply f_equal. apply f_equal. exact Ls'.
Qed.

Lemma mine_sample_message :
  update_nonce
    (mkMessage "0" (Some "20000102030405") (Some sample_now) (Some "aaaaaaaaaa")
       (Some "e3b0c44298fc") (Some EmptyString) (Some 1270388943) None None)
    (-1) (Some sample_now) sample_now
  = Ret 1 sample_message.
Proof.
  assert (G : get_initial_pow "20000102030405" "aaaaaaaaaa" "e3b0c44298fc" pow_target
               = Some 1270388943) by (vm_compute; reflexivity).
  assert (B : 1270388943 < search_bound (-1)) by (vm_compute; reflexivity).
  destruct (update_nonce_first
              (mkMessage "0" (Some "20000102030405") (Some sample_now)
                 (Some "aaaaaaaaaa") (Some "e3b0c44298fc") (Some EmptyString)
                 (Some 1270388943) None None)
              "20000102030405" "e3b0c44298fc" sample_now (-1) (Some sample_now)
              sample_now 1270388943 eq_refl eq_refl eq_refl G B)
    as (m & U & E & C).
  rewrite U. f_equal. rewrite E. rewrite C. rewrite E.
  vm_compute. reflexivity.
Qed.

Lemma mined_message_is_accepted_witness :
  exists m',
    parse __init__ (__str__ sample_message) 4294967295 (Some sample_now) sample_now
    = Ret EmptyString m'
    /\ len (__str__ sample_message) = 53 + len EmptyString
    /\ timestamp_str m' = timestamp_str sample_message
    /\ timestamp_obj m' = Some (whole_second sample_now)
    /\ nonce m' = nonce sample_message
    /\ checksum m' = checksum sample_message
    /\ payload m' = Some EmptyString /\ payload sample_message = Some EmptyString
    /\ initial_pow m' = initial_pow sample_message
    /\ (microsecond sample_now = 0 -> current_pow m' = current_pow sample_message).
Proof.
  assert (SP : set_payload (set_timestamp __init__ (Some sample_now) sample_now)
                 EmptyString
               = Ret tt
                   (mkMessage "0" (Some "20000102030405") (Some sample_now)
                      (Some "aaaaaaaaaa") (Some "e3b0c44298fc") (Some EmptyString)
                      (Some 1270388943) None None))
    by (vm_compute; reflexivity).
  assert (R : pow_max <= 4294967295) by (vm_compute; discriminate).
  exact (mined_message_is_accepted __init__ _ sample_message sample_now sample_now
           sample_now sample_now EmptyString (-1) 1 4294967295
           eq_refl eq_refl ltac:(cbn; lia) eq_refl eq_refl SP mine_sample_message R).
Defined.

End FrameFacts.

(* ================================================================== *)
(** * What an accepted frame is, and when [parse] raises *)
(* ================================================================== *)

Module AcceptFacts.
Import Py Datetime Message_v0 Spec StrFacts IntFacts DigestFacts PowFacts
  ParseFacts DatetimeFacts RoundTrip StampFacts FrameFacts ScaledFacts.

Lemma take_drop n : forall s, take n s ++ drop n s = s.
Proof.
  induction n as [|n IH]; intros [|c s]; cbn; try reflexivity.
  now rewrite IH.
Qed.

Lemma drop_drop a : forall b s, drop a (drop b s) = drop (b + a) s.
Proof.
  intros b. induction b as [|b IH]; intros s; [reflexivity|].
  destruct s as [|c s]; cbn [drop Nat.add]; [now destruct a | apply IH].
Qed.

Lemma drop_step a k s : drop a s = take k (drop a s) ++ drop (a + k) s.
Proof. now rewrite <- drop_drop, take_drop. Qed.

Lemma prefix_take p : forall s,
  String.prefix p s = true -> take (String.length p) s = p.
Proof.
  induction p as [|x p IH]; intros [|y s] H; cbn in *; try reflexivity;
    try discriminate.
  destruct (ascii_dec x y) as [->|]; [|discriminate]. now rewrite IH.
Qed.

Lemma slice_to_end_inside s a b :
  0 <= a -> b < 0 -> a - b <= len s ->
  slice s a b = take (Z.to_nat (len s + b - a)) (drop (Z.to_nat a) s).
Proof.
  intros Ha Hb Hl. unfold slice, clip.
  destruct (Z.ltb_spec a 0); [lia|]. destruct (Z.ltb_spec b 0); [|lia].
  rewrite (Z.min_l a), (Z.max_r 0 a) by lia.
  rewrite Z.min_l, Z.max_r by lia.
  f_equal. lia.
Qed.

(** A string of 53 characters or more with the head and the tail of a
    frame is a frame, up to the characters between its fields. *)
Lemma frame_shape s :
  53 <= len s ->
  startswith s ("[" ++ dq ++ "0" ++ dq ++ "," ++ dq) = true ->
  endswith s (dq ++ "]") = true ->
  exists a b d,
    len a = 3 /\ len b = 3 /\ len d = 3
    /\ s = loose_frame (field_timestamp s) a (field_nonce s) b
             (field_checksum s) d (field_payload s).
Proof.
  intros L P E.
  exists (slice s 20 23), (slice s 33 36), (slice s 48 51).
  rewrite !length_slice by lia.
  split; [reflexivity|]. split; [reflexivity|]. split; [reflexivity|].
  unfold field_timestamp, field_nonce, field_checksum, field_payload.
  rewrite !slice_inside by lia.
  rewrite (slice_to_end_inside s 51 (-2)) by lia.
  unfold startswith in P. apply prefix_take in P.
  unfold endswith in E. apply andb_prop in E as [_ E]. apply String.eqb_eq in E.
  change (String.length ("[" ++ dq ++ "0" ++ dq ++ "," ++ dq)) with 6%nat in P.
  change (String.length (dq ++ "]")) with 2%nat in E.
  unfold loose_frame.
  change ("[" ++ dq ++ "0" ++ dq ++ "," ++ dq ++
          take (Z.to_nat (20 - 6)) (drop (Z.to_nat 6) s) ++
          take (Z.to_nat (23 - 20)) (drop (Z.to_nat 20) s) ++
          take (Z.to_nat (33 - 23)) (drop (Z.to_nat 23) s) ++
          take (Z.to_nat (36 - 33)) (drop (Z.to_nat 33) s) ++
          take (Z.to_nat (48 - 36)) (drop (Z.to_nat 36) s) ++
          take (Z.to_nat (51 - 48)) (drop (Z.to_nat 48) s) ++
          take (Z.to_nat (len s + -2 - 51)) (drop (Z.to_nat 51) s) ++ dq ++ "]")
    with (("[" ++ dq ++ "0" ++ dq ++ "," ++ dq) ++
          take 14 (drop 6 s) ++ take 3 (drop 20 s) ++ take 10 (drop 23 s) ++
          take 3 (drop 33 s) ++ take 12 (drop 36 s) ++ take 3 (drop 48 s) ++
          take (Z.to_nat (len s + -2 - 51)) (drop 51 s) ++ (dq ++ "]")).
  rewrite <- P, <- E.
  replace (String.length s - 2)%nat with (51 + Z.to_nat (len s + -2 - 51))%nat
    by (unfold len in *; lia).
  rewrite <- (drop_step 51), <- (drop_step 48 3), <- (drop_step 36 12),
    <- (drop_step 33 3), <- (drop_step 23 10), <- (drop_step 20 3),
    <- (drop_step 6 14).
  symmetry. apply take_drop.
Qed.

(** What a string that [parse] accepts is made of. *)
Lemma accepted_frame_fields
  (self : Message) (s : string) (required_pow : Z)
  (utc_now : option datetime) (clock : datetime) (m : Message) :
  valid (now_or utc_now clock) = true -> 1000 <= year (now_or utc_now clock) ->
  version self = "0" ->
  parse self s required_pow utc_now clock = Ret EmptyString m ->
  exists ts t n p a b d i c,
    s = loose_frame ts a n b (get_checksum p) d p
    /\ len a = 3 /\ len b = 3 /\ len d = 3
    /\ String.length ts = 14%nat /\ all_chars is_digit ts = true
    /\ strptime ts = Some t /\ valid t = true
    /\ leb t (now_or utc_now clock) = true
    /\ len n = 10
    /\ get_initial_pow ts n (get_checksum p) pow_target = Some i
    /\ c = scaled_pow i (now_or utc_now clock) t (len s)
    /\ 0 <= i <= required_pow /\ 0 <= c <= required_pow
    /\ m = mkMessage "0" (Some ts) (Some t) (Some n) (Some (get_checksum p))
             (Some p) (Some i) (Some c) (Message_v0.utc_now self)
    /\ __str__ m = frame ts n (get_checksum p) p
    /\ len (__str__ m) = len s.
Proof.
  intros Vn Yn V P. set (now := now_or utc_now clock) in *.
  rewrite parse_unfold in P. cbv zeta in P. fold now in P.
  destruct (Z.ltb_spec (len s) 53) as [|L]; [discriminate P|].
  destruct (startswith s _) eqn:S; [|discriminate P].
  destruct (endswith s _) eqn:E; [|discriminate P].
  cbn [negb] in P.
  destruct (int_of_str 10 (field_timestamp s)) as [v|] eqn:I; [|discriminate P].
  cbn [is_some negb] in P.
  destruct (str_gt _ _) eqn:F; [discriminate P|].
  destruct (Z.gtb_spec (frame_initial_pow s) required_pow) as [|Ri].
  { destruct (to_bytes_hex 4 required_pow); discriminate P. }
  destruct (strptime (field_timestamp s)) as [t|] eqn:T; [|discriminate P].
  cbn [is_some negb] in P.
  destruct (String.eqb (field_checksum s) (get_checksum (field_payload s))) eqn:C;
    [|discriminate P].
  cbn [negb] in P. apply String.eqb_eq in C.
  destruct (Z.gtb_spec (frame_current_pow s now) required_pow) as [|Rc].
  { destruct (to_bytes_hex 4 required_pow); discriminate P. }
  injection P as <-.
  destruct (frame_shape s L S E) as (a & b & d & La & Lb & Ld & Sh).
  assert (D : all_chars is_digit (field_timestamp s) = true).
  { apply (accepted_timestamp_digits _ t); [rewrite I; discriminate | exact T]. }
  destruct (strptime_digits _ t T D) as (Lts & Val & Vt).
  destruct (strftime_long now Vn Yn) as (Dn & Ln & Valn).
  assert (Le : leb t now = true).
  { apply stamp_number_leb; [exact Vt | exact Vn | exact (strptime_whole _ _ T) |].
    unfold str_gt in F. rewrite compare_digit_strings in F
      by (assumption || congruence).
    rewrite Val, Valn in F.
    destruct (Z.compare_spec (stamp_number t) (stamp_number now));
      try discriminate F; lia. }
  pose proof (frame_initial_pow_range s) as R0.
  pose proof (frame_initial_pow_eq s) as G.
  assert (R1 : 0 <= frame_current_pow s now).
  { unfold frame_current_pow. rewrite T. apply scaled_pow_sign. lia. }
  exists (field_timestamp s), t, (field_nonce s), (field_payload s), a, b, d,
    (frame_initial_pow s), (frame_current_pow s now).
  rewrite <- C.
  split; [exact Sh|]. split; [exact La|]. split; [exact Lb|]. split; [exact Ld|].
  split; [exact Lts|]. split; [exact D|]. split; [exact T|]. split; [exact Vt|].
  split; [exact Le|].
  split; [unfold field_nonce; rewrite length_slice; lia|].
  split; [exact G|].
  split; [unfold frame_current_pow; rewrite T; reflexivity|].
  split; [lia|]. split; [lia|].
  split; [unfold parsed; rewrite T, V; reflexivity|].
  split; [unfold parsed, __str__, frame; cbn; rewrite V; reflexivity|].
  rewrite (to_str_frame _ (field_timestamp s) (field_nonce s)
             (field_checksum s) (field_payload s)); try reflexivity; [|exact V].
  rewrite len_frame.
  - unfold field_payload. rewrite AdmitFacts.length_slice_to_negative; lia.
  - unfold len. rewrite Lts. reflexivity.
  - unfold field_nonce. rewrite length_slice; lia.
  - unfold field_checksum. rewrite length_slice; lia.
Qed.

(** What [parse] has checked when it answers the empty string to a string
    of characters below U+0100, at a time of the year 1000 or later.  The
    string is a frame up to the nine characters between the fields.  The
    timestamp is 14 digits from 0 to 9 that write a date, not after now
    (beyond U+0100 the digits of other scripts pass too, and these are
    outside); the nonce has 10 characters and the checksum is
    the one of the payload.  The initial proof of work is the one of the
    three fields, the current one is not below it unless capped, and both
    are at most [required_pow].  The object holds these fields, and its
    wire form is the frame with the separators, as long as the string. *)
Theorem accepted_frame_is_genuine
  (self : Message) (cps : list Z) (s : string) (required_pow : Z)
  (utc_now : option datetime) (clock : datetime) (m : Message) :
  str_of_code_points cps = Some s ->
  valid (now_or utc_now clock) = true -> 1000 <= year (now_or utc_now clock) ->
  version self = "0" ->
  parse self s required_pow utc_now clock = Ret EmptyString m ->
  exists ts t n p a b d i c,
    s = loose_frame ts a n b (get_checksum p) d p
    /\ len a = 3 /\ len b = 3 /\ len d = 3
    /\ String.length ts = 14%nat /\ all_chars is_digit ts = true
    /\ strptime ts = Some t /\ valid t = true
    /\ leb t (now_or utc_now clock) = true
    /\ len n = 10
    /\ get_initial_pow ts n (get_checksum p) pow_target = Some i
    /\ c = scaled_pow i (now_or utc_now clock) t (len s)
    /\ 0 <= i <= required_pow /\ 0 <= c <= required_pow
    /\ m = mkMessage "0" (Some ts) (Some t) (Some n) (Some (get_checksum p))
             (Some p) (Some i) (Some c) (Message_v0.utc_now self)
    /\ __str__ m = frame ts n (get_checksum p) p
    /\ len (__str__ m) = len s.
Proof. intros _. apply accepted_frame_fields. Qed.

Lemma parse_sample_message :
  parse __init__ (frame "20000102030405" "aaaaaaaaaa" "e3b0c44298fc" EmptyString)
    4294967295 (Some sample_now) sample_now
  = Ret EmptyString sample_message.
Proof. vm_compute. reflexivity. Qed.

Lemma accepted_frame_is_genuine_witness :
  exists ts t n p a b d i c,
    frame "20000102030405" "aaaaaaaaaa" "e3b0c44298fc" EmptyString
    = loose_frame ts a n b (get_checksum p) d p
    /\ len a = 3 /\ len b = 3 /\ len d = 3
    /\ String.length ts = 14%nat /\ all_chars is_digit ts = true
    /\ strptime ts = Some t /\ valid t = true
    /\ leb t sample_now = true
    /\ len n = 10
    /\ get_initial_pow ts n (get_checksum p) pow_target = Some i
    /\ c = scaled_pow i sample_now t
             (len (frame "20000102030405" "aaaaaaaaaa" "e3b0c44298fc" EmptyString))
    /\ 0 <= i <= 4294967295 /\ 0 <= c <= 4294967295
    /\ sample_message
       = mkMessage "0" (Some ts) (Some t) (Some n) (Some (get_checksum p))
           (Some p) (Some i) (Some c) None
    /\ __str__ sample_message = frame ts n (get_checksum p) p
    /\ len (__str__ sample_message)
       = len (frame "20000102030405" "aaaaaaaaaa" "e3b0c44298fc" EmptyString).
Proof.
  exact (accepted_frame_is_genuine __init__
           (code_points
              (frame "20000102030405" "aaaaaaaaaa" "e3b0c44298fc" EmptyString))
           (frame "20000102030405" "aaaaaaaaaa" "e3b0c44298fc" EmptyString)
           4294967295 (Some sample_now) sample_now sample_message
           eq_refl eq_refl ltac:(cbn; lia) eq_refl parse_sample_message).
Defined.


End AcceptFacts.

(* ================================================================== *)
(** * Rounding to a float keeps the order *)
(* ================================================================== *)

Module RoundFacts.
Import Float FloatFacts.

(** ** Rounding of a quotient of integers *)

Lemma round_half_even_mono p q p' q' :
  0 < q -> 0 < q' -> p * q' <= p' * q ->
  round_half_even p q <= round_half_even p' q'.
Proof.
  intros Hq Hq' H.
  pose proof (Z.div_mod p q) as Dp. pose proof (Z.mod_pos_bound p q Hq) as Rp.
  pose proof (Z.div_mod p' q') as Dp'. pose proof (Z.mod_pos_bound p' q' Hq') as Rp'.
  unfold round_half_even.
  set (f := p / q) in *. set (r := p mod q) in *.
  set (f' := p' / q') in *. set (r' := p' mod q') in *.
  assert (Ff : f <= f').
  { destruct (Z.le_gt_cases f f') as [|G]; [assumption|exfalso].
    assert (q * (f' + 1) <= p) by nia.
    assert (p' < q' * (f' + 1)) by nia.
    assert (q * (f' + 1) * q' <= p * q') by nia.
    assert (p' * q < q' * (f' + 1) * q) by nia.
    nia. }
  destruct (Z.eq_dec f f') as [E|N].
  - assert (Rr : r * q' <= r' * q) by nia.
    rewrite <- E.
    destruct (Z.ltb_spec (2 * r) q), (Z.ltb_spec (2 * r') q'),
      (Z.ltb_spec q (2 * r)), (Z.ltb_spec q' (2 * r'));
      destruct (Z.even f); try lia; exfalso; nia.
  - destruct (Z.ltb_spec (2 * r) q), (Z.ltb_spec (2 * r') q'),
      (Z.ltb_spec q (2 * r)), (Z.ltb_spec q' (2 * r'));
      destruct (Z.even f), (Z.even f'); lia.
Qed.

Lemma round_half_even_integer k : round_half_even k 1 = k.
Proof.
  pose proof (round_half_even_exact k 1) as E. rewrite Z.mul_1_r in E.
  apply E. lia.
Qed.

(** ** Powers of two as rationals *)

Lemma two_pow_pos z : (0 < 2 ^ z)%Q.
Proof. apply Qpower_0_lt. reflexivity. Qed.

Lemma two_pow_add a b : (2 ^ (a + b) == 2 ^ a * 2 ^ b)%Q.
Proof. apply Qpower_plus. discriminate. Qed.

Lemma two_pow_nonneg z : 0 <= z -> (2 ^ z == inject_Z (2 ^ z))%Q.
Proof. intros H. symmetry. apply (Zpower_Qpower 2 z H). Qed.

Lemma inject_Z_pos z : 0 < z -> (0 < inject_Z z)%Q.
Proof. intros H. unfold Qlt, inject_Z. cbn. lia. Qed.

(** [2^z] as the quotient of the two integer powers the code uses. *)
Lemma two_pow_split z :
  (2 ^ z == inject_Z (2 ^ Z.max 0 z) / inject_Z (2 ^ Z.max 0 (- z)))%Q.
Proof.
  destruct (Z.le_gt_cases 0 z) as [P|N].
  - rewrite (Z.max_r 0 z), (Z.max_l 0 (- z)) by lia.
    rewrite two_pow_nonneg by lia. change (inject_Z (2 ^ 0)) with 1%Q.
    field.
  - rewrite (Z.max_l 0 z), (Z.max_r 0 (- z)) by lia.
    change (inject_Z (2 ^ 0)) with 1%Q.
    rewrite <- two_pow_nonneg by lia.
    rewrite Qpower_opp. field.
    apply Qnot_eq_sym, Qlt_not_eq, two_pow_pos.
Qed.

Lemma Qmake_inject n d : (n # d == inject_Z n / inject_Z (Zpos d))%Q.
Proof.
  unfold Qeq, Qdiv, Qmult, Qinv, inject_Z. cbn. lia.
Qed.

Lemma inject_Z_le a b : (inject_Z a <= inject_Z b)%Q <-> a <= b.
Proof. unfold Qle, inject_Z. cbn. lia. Qed.

Lemma inject_Z_lt a b : (inject_Z a < inject_Z b)%Q <-> a < b.
Proof. unfold Qlt, inject_Z. cbn. lia. Qed.

(** Order of two quotients of integers with positive denominators. *)
Lemma Qdiv_le_cross a b c d :
  0 < b -> 0 < d ->
  ((inject_Z a / inject_Z b <= inject_Z c / inject_Z d)%Q <-> a * d <= c * b).
Proof.
  intros Hb Hd. destruct b as [|b|b]; try lia. destruct d as [|d|d]; try lia.
  rewrite <- !Qmake_inject. unfold Qle. cbn. lia.
Qed.

Lemma Qdiv_lt_cross a b c d :
  0 < b -> 0 < d ->
  ((inject_Z a / inject_Z b < inject_Z c / inject_Z d)%Q <-> a * d < c * b).
Proof.
  intros Hb Hd. destruct b as [|b|b]; try lia. destruct d as [|d|d]; try lia.
  rewrite <- !Qmake_inject. unfold Qlt. cbn. lia.
Qed.

Lemma Qdiv_one x : (x / inject_Z 1 == x)%Q.
Proof. change (inject_Z 1) with 1%Q. field. Qed.

(** The rounded quotient is not on the other side of an integer. *)
Lemma round_half_even_ge k P D :
  0 < D -> (inject_Z k <= inject_Z P / inject_Z D)%Q -> k <= round_half_even P D.
Proof.
  intros HD H. rewrite <- (round_half_even_integer k).
  apply round_half_even_mono; [lia | exact HD |].
  apply (Qdiv_le_cross k 1 P D); [lia | exact HD |].
  rewrite Qdiv_one. exact H.
Qed.

Lemma round_half_even_le k P D :
  0 < D -> (inject_Z P / inject_Z D <= inject_Z k)%Q -> round_half_even P D <= k.
Proof.
  intros HD H. rewrite <- (round_half_even_integer k).
  apply round_half_even_mono; [exact HD | lia |].
  apply (Qdiv_le_cross P D k 1); [exact HD | lia |].
  rewrite Qdiv_one. exact H.
Qed.

(** ** The exponent and the rounding of a positive rational *)

Lemma exponent_bounds a d :
  0 < a -> 0 < d ->
  (2 ^ exponent a d <= inject_Z a / inject_Z d
   /\ inject_Z a / inject_Z d < 2 ^ (exponent a d + 1))%Q.
Proof.
  intros Ha Hd. unfold exponent.
  pose proof (Z.log2_spec a Ha) as [La Ua].
  pose proof (Z.log2_spec d Hd) as [Ld Ud].
  pose proof (Z.log2_nonneg a) as Na. pose proof (Z.log2_nonneg d) as Nd.
  set (la := Z.log2 a) in *. set (ld := Z.log2 d) in *.
  set (e0 := la - ld).
  assert (Pd : (0 < inject_Z d)%Q) by (apply inject_Z_pos; exact Hd).
  assert (QLa : (2 ^ la <= inject_Z a)%Q)
    by (rewrite two_pow_nonneg by lia; apply inject_Z_le; exact La).
  assert (QUa : (inject_Z a < 2 ^ (la + 1))%Q).
  { rewrite two_pow_nonneg by lia. apply inject_Z_lt.
    replace (la + 1) with (Z.succ la) by lia. exact Ua. }
  assert (QLd : (2 ^ ld <= inject_Z d)%Q)
    by (rewrite two_pow_nonneg by lia; apply inject_Z_le; exact Ld).
  assert (QUd : (inject_Z d < 2 ^ (ld + 1))%Q).
  { rewrite two_pow_nonneg by lia. apply inject_Z_lt.
    replace (ld + 1) with (Z.succ ld) by lia. exact Ud. }
  assert (Test : a * 2 ^ Z.max 0 (- e0) < d * 2 ^ Z.max 0 e0
                 <-> (inject_Z a / inject_Z d < 2 ^ e0)%Q).
  { rewrite (two_pow_split e0). rewrite Qdiv_lt_cross.
    - split; lia.
    - exact Hd.
    - apply Z.pow_pos_nonneg; lia. }
  pose proof (two_pow_pos (e0 - 1)) as P1. pose proof (two_pow_pos (e0 + 1)) as P2.
  pose proof (two_pow_pos ld) as P3.
  destruct (Z.ltb_spec (a * 2 ^ Z.max 0 (- e0)) (d * 2 ^ Z.max 0 e0)) as [T|T].
  - split.
    + apply Qle_shift_div_l; [exact Pd|].
      apply Qle_trans with (2 ^ (e0 - 1) * 2 ^ (ld + 1))%Q.
      * apply Qmult_le_l; [exact P1 | apply Qlt_le_weak; exact QUd].
      * rewrite <- two_pow_add. replace (e0 - 1 + (ld + 1)) with la by (unfold e0; lia).
        exact QLa.
    + replace (e0 - 1 + 1) with e0 by lia. apply Test. exact T.
  - split.
    + apply Qnot_lt_le. intros C. apply Test in C. lia.
    + apply Qlt_shift_div_r; [exact Pd|].
      apply Qlt_le_trans with (2 ^ (la + 1))%Q; [exact QUa|].
      replace (la + 1) with (e0 + 1 + ld) by (unfold e0; lia).
      rewrite two_pow_add.
      apply Qmult_le_l; [exact P2 | exact QLd].
Qed.

(** What [rnd] computes on a positive rational [n / d]: with [e] the
    exponent, the integer nearest to [(n / d) / 2^(e - 52)], ties to even,
    times [2^(e - 52)]. *)
Lemma rnd_pos_spec n d :
  0 < n ->
  exists P D,
    0 < D
    /\ (inject_Z P / inject_Z D == (n # d) / 2 ^ (exponent n (Zpos d) - 52))%Q
    /\ (rnd (n # d)
        == inject_Z (round_half_even P D) * 2 ^ (exponent n (Zpos d) - 52))%Q
    /\ (2 ^ exponent n (Zpos d) <= n # d)%Q
    /\ (n # d < 2 ^ (exponent n (Zpos d) + 1))%Q.
Proof.
  intros Hn.
  destruct (exponent_bounds n (Zpos d) Hn (Pos2Z.is_pos d)) as [Lo Up].
  rewrite <- Qmake_inject in Lo, Up.
  set (e := exponent n (Zpos d)) in *. set (s := e - 52).
  set (T := 2 ^ Z.max 0 (- s)). set (R := 2 ^ Z.max 0 s).
  assert (PT : 0 < T) by (apply Z.pow_pos_nonneg; lia).
  assert (PR : 0 < R) by (apply Z.pow_pos_nonneg; lia).
  assert (QT : (0 < inject_Z T)%Q) by (apply inject_Z_pos; exact PT).
  assert (QR : (0 < inject_Z R)%Q) by (apply inject_Z_pos; exact PR).
  assert (S2 : (2 ^ s == inject_Z R / inject_Z T)%Q) by apply two_pow_split.
  exists (n * T), (Zpos d * R).
  split; [lia|]. split; [|split; [|split; [exact Lo | exact Up]]].
  - rewrite S2, (Qmake_inject n d), !inject_Z_mult.
    field. repeat split; apply Qnot_eq_sym, Qlt_not_eq;
      try assumption; apply inject_Z_pos; lia.
  - unfold rnd. cbn [Qnum Qden].
    destruct (Z.eqb_spec n 0) as [->|_]; [lia|].
    rewrite (Z.abs_eq n), (Z.sgn_pos n), Z.mul_1_l by lia.
    fold e. fold s. fold T. fold R.
    unfold scale. rewrite Qred_correct. fold T. fold R.
    rewrite S2, Qmake_inject, Z2Pos.id by exact PT.
    rewrite inject_Z_mult. field.
    apply Qnot_eq_sym, Qlt_not_eq. exact QT.
Qed.

Lemma rnd_zero x : Qnum x = 0 -> rnd x = 0%Q.
Proof. intros H. unfold rnd. rewrite H. reflexivity. Qed.

Lemma rnd_pos x : (0 < x)%Q -> (0 < rnd x)%Q.
Proof.
  destruct x as [n d]. intros H.
  assert (Hn : 0 < n) by (unfold Qlt in H; cbn in H; lia).
  destruct (rnd_pos_spec n d Hn) as (P & D & PD & Eq & Er & Lo & Up).
  set (e := exponent n (Zpos d)) in *.
  pose proof (two_pow_pos (e - 52)) as Pu.
  rewrite Er.
  assert (M : 1 <= round_half_even P D).
  { apply round_half_even_ge; [exact PD|].
    rewrite Eq. apply Qle_shift_div_l; [exact Pu|].
    apply Qle_trans with (2 ^ e)%Q; [|exact Lo].
    change (inject_Z 1) with 1%Q. rewrite Qmult_1_l.
    apply Qpower_le_compat_l; [lia | discriminate]. }
  apply Qmult_lt_0_compat; [|exact Pu].
  apply inject_Z_pos. lia.
Qed.

(** Rounding keeps the order of two positive rationals. *)
Lemma rnd_mono_pos x y : (0 < x)%Q -> (x <= y)%Q -> (rnd x <= rnd y)%Q.
Proof.
  destruct x as [n d], y as [n' d']. intros Hx Hxy.
  assert (Hn : 0 < n) by (unfold Qlt in Hx; cbn in Hx; lia).
  assert (Hy : (0 < n' # d')%Q) by (apply Qlt_le_trans with (n # d); assumption).
  assert (Hn' : 0 < n') by (unfold Qlt in Hy; cbn in Hy; lia).
  destruct (rnd_pos_spec n d Hn) as (P & D & PD & Eq & Er & Lo & Up).
  destruct (rnd_pos_spec n' d' Hn') as (P' & D' & PD' & Eq' & Er' & Lo' & Up').
  set (e := exponent n (Zpos d)) in *. set (e' := exponent n' (Zpos d')) in *.
  pose proof (two_pow_pos (e - 52)) as Pu. pose proof (two_pow_pos (e' - 52)) as Pu'.
  assert (Ee : e <= e').
  { assert (L : (2 ^ e < 2 ^ (e' + 1))%Q).
    { apply Qle_lt_trans with (n # d); [exact Lo|].
      apply Qle_lt_trans with (n' # d'); [exact Hxy | exact Up']. }
    apply Qpower_lt_compat_l_inv in L; [lia | reflexivity]. }
  rewrite Er, Er'.
  destruct (Z.eq_dec e e') as [E|N].
  - rewrite <- E in *. apply Qmult_le_r; [exact Pu|].
    apply inject_Z_le. apply round_half_even_mono; try assumption.
    apply (Qdiv_le_cross P D P' D'); try assumption.
    rewrite Eq, Eq'. apply Qmult_le_r; [apply Qinv_lt_0_compat; exact Pu | exact Hxy].
  - (* the binade of [x] is below the binade of [y] *)
    assert (M : round_half_even P D <= 2 ^ 53).
    { apply round_half_even_le; [exact PD|].
      rewrite Eq. apply Qle_shift_div_r; [exact Pu|].
      apply Qlt_le_weak. apply Qlt_le_trans with (2 ^ (e + 1))%Q; [exact Up|].
      replace (e + 1) with (53 + (e - 52)) by lia. rewrite two_pow_add.
      rewrite (two_pow_nonneg 53) by lia. apply Qle_refl. }
    assert (M' : 2 ^ 52 <= round_half_even P' D').
    { apply round_half_even_ge; [exact PD'|].
      rewrite Eq'. apply Qle_shift_div_l; [exact Pu'|].
      apply Qle_trans with (2 ^ e')%Q; [|exact Lo'].
      replace e' with (52 + (e' - 52)) at 2 by lia. rewrite two_pow_add.
      rewrite (two_pow_nonneg 52) by lia. apply Qle_refl. }
    apply Qle_trans with (2 ^ (e + 1))%Q.
    + replace (e + 1) with (53 + (e - 52)) by lia. rewrite two_pow_add.
      apply Qmult_le_r; [exact Pu|].
      rewrite (two_pow_nonneg 53) by lia. apply inject_Z_le. exact M.
    + apply Qle_trans with (2 ^ e')%Q.
      * apply Qpower_le_compat_l; [lia | discriminate].
      * replace e' with (52 + (e' - 52)) at 1 by lia. rewrite two_pow_add.
        apply Qmult_le_r; [exact Pu'|].
        rewrite (two_pow_nonneg 52) by lia. apply inject_Z_le. exact M'.
Qed.

(** Rounding keeps the order of two rationals that are not negative. *)
Lemma rnd_mono x y : (0 <= x)%Q -> (x <= y)%Q -> (rnd x <= rnd y)%Q.
Proof.
  intros Hx Hxy.
  destruct (Qlt_le_dec 0 x) as [P|Z'].
  - apply rnd_mono_pos; assumption.
  - assert (E : Qnum x = 0).
    { unfold Qle in Hx, Z'. cbn in Hx, Z'. lia. }
    rewrite (rnd_zero x E).
    destruct (Qlt_le_dec 0 y) as [Py|Zy].
    + apply Qlt_le_weak, rnd_pos, Py.
    + assert (Ey : Qnum y = 0).
      { assert (Ny : (0 <= y)%Q) by (apply Qle_trans with x; assumption).
        unfold Qle in Ny, Zy. cbn in Ny, Zy. lia. }
      rewrite (rnd_zero y Ey). apply Qle_refl.
Qed.

Lemma rnd_nonneg x : (0 <= x)%Q -> (0 <= rnd x)%Q.
Proof.
  intros H. change 0%Q with (rnd 0). apply rnd_mono; [apply Qle_refl | exact H].
Qed.

(** A rational that is not below an integer under 2^53 is not rounded
    below it. *)
Lemma rnd_ge_integer z x :
  0 <= z < 2 ^ 53 -> (inject_Z z <= x)%Q -> (inject_Z z <= rnd x)%Q.
Proof.
  intros Hz H.
  pose proof (rnd_integer z 1 Hz) as E. rewrite Z.mul_1_r in E.
  change (z # 1) with (inject_Z z) in E. rewrite <- E at 1.
  apply rnd_mono; [apply inject_Z_le; lia | exact H].
Qed.

Lemma to_int_mono x y : (0 <= x)%Q -> (x <= y)%Q -> to_int x <= to_int y.
Proof.
  intros Hx Hxy.
  assert (F : forall q : Q, (0 <= q)%Q -> to_int q = Qfloor q).
  { intros [n d] H. unfold to_int, Qfloor. cbn [Qnum Qden].
    apply Z.quot_div_nonneg; [unfold Qle in H; cbn in H; lia | lia]. }
  rewrite (F x Hx), (F y) by (apply Qle_trans with x; assumption).
  apply Qfloor_resp_le, Hxy.
Qed.

Lemma to_int_integer z : to_int (inject_Z z) = z.
Proof. unfold to_int, inject_Z. cbn. apply Z.quot_1_r. Qed.

End RoundFacts.

(* ================================================================== *)
(** * The current proof of work *)
(* ================================================================== *)

Module ScalingFacts.
Import Py Datetime Message_v0 Spec Float FloatFacts GenerateFacts ScaledFacts
  RoundFacts.

Lemma truediv_int_ge_zero a b : 0 <= a -> 0 < b -> (0 <= inject_Z a / inject_Z b)%Q.
Proof.
  intros Ha Hb. apply Qle_shift_div_l; [apply inject_Z_pos; exact Hb|].
  rewrite Qmult_0_l. apply inject_Z_le. exact Ha.
Qed.

Lemma truediv_int_mono a a' b :
  0 <= a -> a <= a' -> 0 < b -> (truediv_int a b <= truediv_int a' b)%Q.
Proof.
  intros Ha Haa Hb. unfold truediv_int. apply rnd_mono.
  - apply truediv_int_ge_zero; assumption.
  - apply Qmult_le_r; [apply Qinv_lt_0_compat, inject_Z_pos; exact Hb|].
    apply inject_Z_le. exact Haa.
Qed.

Lemma truediv_int_nonneg a b : 0 <= a -> 0 < b -> (0 <= truediv_int a b)%Q.
Proof.
  intros Ha Hb. apply rnd_nonneg, truediv_int_ge_zero; assumption.
Qed.

Lemma mul_mono a a' b b' :
  (0 <= a)%Q -> (a <= a')%Q -> (0 <= b)%Q -> (b <= b')%Q ->
  (mul a b <= mul a' b')%Q.
Proof.
  intros Ha Haa Hb Hbb. unfold mul. apply rnd_mono.
  - apply Qmult_le_0_compat; assumption.
  - apply Qmult_le_compat_nonneg; split; assumption.
Qed.

Lemma mul_nonneg a b : (0 <= a)%Q -> (0 <= b)%Q -> (0 <= mul a b)%Q.
Proof. intros Ha Hb. apply rnd_nonneg, Qmult_le_0_compat; assumption. Qed.

Lemma rnd_inject z : 0 <= z < 2 ^ 53 -> rnd (inject_Z z) = inject_Z z.
Proof.
  intros H. pose proof (rnd_integer z 1 H) as E. rewrite Z.mul_1_r in E. exact E.
Qed.

Lemma mul_integers a b :
  0 <= a -> 0 <= b -> a * b < 2 ^ 53 -> mul (inject_Z a) (inject_Z b) = inject_Z (a * b).
Proof.
  intros Ha Hb H. unfold mul.
  change (inject_Z a * inject_Z b)%Q with ((a * b) # 1).
  apply (rnd_inject (a * b)). nia.
Qed.

Lemma truediv_int_exact k b :
  0 <= k < 2 ^ 53 -> 0 < b -> truediv_int (k * b) b = inject_Z k.
Proof.
  intros Hk Hb. unfold truediv_int. destruct b as [|p|p]; try lia.
  change (inject_Z (k * Zpos p) / inject_Z (Zpos p))%Q
    with ((k * Zpos p * 1) # (1 * p)).
  replace (k * Zpos p * 1) with (k * Zpos (1 * p)) by lia.
  apply rnd_integer. exact Hk.
Qed.

(** The value of [current_pow] does not go down when the initial proof of
    work, the age or the length goes up. *)
Lemma scaled_pow_mono i i' now now' stamp stamp' length length' :
  0 <= i -> i <= i' ->
  sub now stamp <= sub now' stamp' -> length <= length' ->
  scaled_pow i now stamp length <= scaled_pow i' now' stamp' length'.
Proof.
  intros Hi Hii Hd Hl. unfold scaled_pow.
  apply Z.min_le_compat_l.
  assert (A0 : 0 <= Z.max (sub now stamp) min_message_age)
    by (change min_message_age with 10000000; lia).
  assert (S0 : 0 <= Z.max length min_message_bytes)
    by (change min_message_bytes with 61; lia).
  assert (I0 : (0 <= rnd (inject_Z i))%Q)
    by (apply rnd_nonneg, inject_Z_le; exact Hi).
  apply to_int_mono.
  - apply mul_nonneg; [apply mul_nonneg; [exact I0|]|].
    + apply truediv_int_nonneg; [exact A0 | reflexivity].
    + apply truediv_int_nonneg; [exact S0 | reflexivity].
  - apply mul_mono.
    + apply mul_nonneg; [exact I0|].
      apply truediv_int_nonneg; [exact A0 | reflexivity].
    + apply mul_mono.
      * exact I0.
      * apply rnd_mono; apply inject_Z_le; assumption.
      * apply truediv_int_nonneg; [exact A0 | reflexivity].
      * apply truediv_int_mono; [exact A0 | lia | reflexivity].
    + apply truediv_int_nonneg; [exact S0 | reflexivity].
    + apply truediv_int_mono; [exact S0 | lia | reflexivity].
Qed.

(** The value at whole factors: with an age of [k] times ten seconds and a
    length of [j] times 61, it is [i * k * j], capped. *)
Lemma scaled_pow_exact i now stamp length k j :
  0 <= i ->
  Z.max (sub now stamp) min_message_age = 10000000 * k ->
  Z.max length min_message_bytes = 61 * j ->
  i * k * j < 2 ^ 53 ->
  scaled_pow i now stamp length = Z.min pow_max (i * k * j).
Proof.
  intros Hi Ek Ej Hb. unfold scaled_pow. fold pow_max. f_equal.
  assert (Pk : 1 <= k) by (change min_message_age with 10000000 in Ek; lia).
  assert (Pj : 1 <= j) by (change min_message_bytes with 61 in Ej; lia).
  destruct (Z.eq_dec i 0) as [->|Nz].
  - rewrite !Z.mul_0_l. reflexivity.
  - assert (Bi : i < 2 ^ 53) by nia.
    assert (Bk : k < 2 ^ 53) by nia.
    assert (Bj : j < 2 ^ 53) by nia.
    assert (Bik : i * k < 2 ^ 53) by nia.
    rewrite Ek, Ej, age_factor_exact by lia.
    replace (61 * j) with (j * min_message_bytes)
      by (change min_message_bytes with 61; lia).
    rewrite truediv_int_exact by (try reflexivity; lia).
    rewrite rnd_inject by lia.
    rewrite mul_integers by lia.
    rewrite mul_integers by nia.
    apply to_int_integer.
Qed.

(** Neither the age nor the length makes a proof of work better: below
    the cap the current one is not under the initial one. *)
Lemma scaled_pow_ge_initial i now stamp length :
  0 <= i <= pow_max -> i <= scaled_pow i now stamp length.
Proof.
  intros [H0 H1].
  assert (B : 0 <= i < 2 ^ 53).
  { split; [exact H0|]. apply Z.le_lt_trans with pow_max; [exact H1|].
    vm_compute. reflexivity. }
  unfold scaled_pow. fold pow_max. apply Z.min_glb; [exact H1|].
  set (age := truediv _ _). set (size := truediv_int _ _).
  assert (A : (1 <= age)%Q).
  { unfold age, truediv, truediv_int. apply rnd_ge_one, ratio_ge_one.
    - reflexivity.
    - apply Z.le_max_r. }
  assert (S : (1 <= size)%Q).
  { unfold size, truediv_int. apply rnd_ge_one, ratio_ge_one.
    - reflexivity.
    - apply Z.le_max_r. }
  rewrite rnd_inject by exact B.
  assert (Qi : (0 <= inject_Z i)%Q) by (apply inject_Z_le; exact H0).
  assert (M1 : (inject_Z i <= mul (inject_Z i) age)%Q).
  { unfold mul. apply rnd_ge_integer; [exact B|].
    rewrite <- (Qmult_1_r (inject_Z i)) at 1.
    apply Qmult_le_compat_nonneg; split;
      [exact Qi | apply Qle_refl | discriminate | exact A]. }
  assert (M2 : (inject_Z i <= mul (mul (inject_Z i) age) size)%Q).
  { unfold mul at 1. apply rnd_ge_integer; [exact B|].
    rewrite <- (Qmult_1_r (inject_Z i)) at 1.
    apply Qmult_le_compat_nonneg; split;
      [exact Qi | exact M1 | discriminate | exact S]. }
  rewrite <- (to_int_integer i) at 1.
  apply to_int_mono; [exact Qi | exact M2].
Qed.

End ScalingFacts.

(* ================================================================== *)
(** * The order of instants and their differences *)
(* ================================================================== *)

Module CalendarFacts.
Import Py Datetime Spec DatetimeFacts.

Lemma days_in_month_ge y m : 28 <= days_in_month y m.
Proof.
  unfold days_in_month.
  destruct (m =? 2); [destruct (is_leap y); lia|].
  destruct ((m =? 4) || (m =? 6) || (m =? 9) || (m =? 11)); lia.
Qed.

Lemma days_before_month_nat_mono y a b :
  (a <= b)%nat -> days_before_month_nat y a <= days_before_month_nat y b.
Proof.
  induction 1 as [|b _ IH]; [lia|].
  cbn [days_before_month_nat].
  pose proof (days_in_month_ge y (Z.of_nat (S b))). lia.
Qed.

Lemma days_before_month_next y m :
  1 <= m -> days_before_month y (m + 1) = days_before_month y m + days_in_month y m.
Proof.
  intros H. unfold days_before_month.
  replace (Z.to_nat (m + 1 - 1)) with (S (Z.to_nat (m - 1))) by lia.
  cbn [days_before_month_nat]. f_equal. f_equal. lia.
Qed.

Lemma days_before_month_mono y m m' :
  m <= m' -> days_before_month y m <= days_before_month y m'.
Proof.
  intros H. unfold days_before_month. apply days_before_month_nat_mono. lia.
Qed.

Lemma days_before_month_nonneg y m : 0 <= days_before_month y m.
Proof.
  unfold days_before_month.
  apply (days_before_month_nat_mono y 0 (Z.to_nat (m - 1))). lia.
Qed.

Lemma days_in_year y :
  days_before_month y 13 = if is_leap y then 366 else 365.
Proof.
  unfold days_before_month. change (Z.to_nat (13 - 1)) with 12%nat.
  cbn [days_before_month_nat]. unfold days_in_month.
  cbn [Z.of_nat Pos.of_succ_nat Pos.succ Z.eqb Pos.eqb orb].
  destruct (is_leap y); reflexivity.
Qed.

Lemma days_before_year_next y :
  days_before_year (y + 1)
  = days_before_year y + (if is_leap y then 366 else 365).
Proof.
  unfold days_before_year, is_leap. cbv zeta.
  replace (y + 1 - 1) with y by lia.
  destruct (Z.eqb_spec (y mod 4) 0) as [E4|E4];
    destruct (Z.eqb_spec (y mod 100) 0) as [E100|E100];
    destruct (Z.eqb_spec (y mod 400) 0) as [E400|E400];
    cbn [andb orb negb]; Z.div_mod_to_equations; lia.
Qed.

Lemma days_before_year_mono y y' : y <= y' -> days_before_year y <= days_before_year y'.
Proof.
  intros H. unfold days_before_year. cbv zeta. Z.div_mod_to_equations. lia.
Qed.

(** A date that comes first in the order of the fields has the smaller
    ordinal. *)
Lemma toordinal_lt a b :
  valid a = true -> valid b = true ->
  year a < year b
  \/ (year a = year b
      /\ (month a < month b \/ (month a = month b /\ day a < day b))) ->
  toordinal a < toordinal b.
Proof.
  intros Va Vb. apply valid_bounds in Va, Vb. unfold toordinal.
  pose proof (days_before_month_nonneg (year b) (month b)) as Nb.
  intros [Y | [Y [M | [M D]]]].
  - pose proof (days_before_month_mono (year a) (month a + 1) 13) as M13.
    rewrite days_before_month_next in M13 by lia.
    pose proof (days_before_year_next (year a)) as Ny.
    rewrite days_in_year in M13.
    pose proof (days_before_year_mono (year a + 1) (year b)) as My.
    destruct (is_leap (year a)); lia.
  - rewrite <- Y in *.
    pose proof (days_before_month_mono (year a) (month a + 1) (month b)) as Mm.
    rewrite days_before_month_next in Mm by lia. lia.
  - rewrite <- Y, <- M in *. lia.
Qed.

(** The difference of two instants is not negative when the first is not
    before the second, in the order of [datetime]. *)
Lemma sub_nonneg a b :
  valid a = true -> valid b = true -> leb a b = true -> 0 <= sub b a.
Proof.
  intros Va Vb L.
  pose proof (toordinal_lt a b Va Vb) as T.
  pose proof (valid_bounds _ Va) as Ba. pose proof (valid_bounds _ Vb) as Bb.
  unfold leb, cmp in L. cbn [fold_right] in L. unfold sub.
  destruct (Z.compare_spec (year a) (year b)) as [Y|Y|Y];
    [|specialize (T (or_introl Y)); lia|discriminate L].
  destruct (Z.compare_spec (month a) (month b)) as [M|M|M];
    [|specialize (T (or_intror (conj Y (or_introl M)))); lia|discriminate L].
  destruct (Z.compare_spec (day a) (day b)) as [D|D|D];
    [|specialize (T (or_intror (conj Y (or_intror (conj M D))))); lia
     |discriminate L].
  assert (To : toordinal a = toordinal b).
  { unfold toordinal. rewrite Y, M, D. reflexivity. }
  rewrite To.
  destruct (Z.compare_spec (hour a) (hour b)); [|lia|discriminate L].
  destruct (Z.compare_spec (minute a) (minute b)); [|lia|discriminate L].
  destruct (Z.compare_spec (second a) (second b)); [|lia|discriminate L].
  destruct (Z.compare_spec (microsecond a) (microsecond b)); [lia|lia|discriminate L].
Qed.

Lemma sub_sub a b c : sub a c - sub b c = sub a b.
Proof. unfold sub. ring. Qed.

(** A later reading of the clock gives an age that is not smaller. *)
Lemma sub_mono now now' stamp :
  valid now = true -> valid now' = true -> leb now now' = true ->
  sub now stamp <= sub now' stamp.
Proof.
  intros V V' L. pose proof (sub_nonneg now now' V V' L) as N.
  pose proof (sub_sub now' now stamp). lia.
Qed.

End CalendarFacts.

(* ================================================================== *)
(** * [update_pow]: how a proof of work ages *)
(* ================================================================== *)

Module AgeingFacts.
Import Py Datetime Message_v0 Spec Float FloatFacts ScaledFacts RoundFacts
  ScalingFacts CalendarFacts.

Lemma update_pow_value m stamp i now :
  timestamp_obj m = Some stamp -> initial_pow m = Some i ->
  update_pow m now
  = Ret tt (set_current_pow m
              (Some (scaled_pow i now stamp (len (__str__ m))))).
Proof. intros T I. unfold update_pow. rewrite T, I. reflexivity. Qed.

(** Age and length never make a proof of work better.  On an object with
    its instant and an initial proof of work between 0 and 2^32 - 1,
    [update_pow] sets a current proof of work that is not below the
    initial one and not above 2^32 - 1, whatever the time. *)
Theorem current_pow_is_not_below_initial
  (m : Message) (stamp : datetime) (i : Z) (now : datetime) :
  timestamp_obj m = Some stamp -> initial_pow m = Some i ->
  0 <= i <= pow_max ->
  exists c,
    update_pow m now = Ret tt (set_current_pow m (Some c))
    /\ i <= c <= pow_max.
Proof.
  intros T I R. rewrite (update_pow_value m stamp i now T I).
  eexists. split; [reflexivity|]. split.
  - apply scaled_pow_ge_initial. exact R.
  - apply ParseFacts.scaled_pow_le_max.
Qed.

Lemma current_pow_is_not_below_initial_witness :
  exists c,
    update_pow sample_message sample_now
    = Ret tt (set_current_pow sample_message (Some c))
    /\ 1270388943 <= c <= pow_max.
Proof.
  assert (R : 0 <= 1270388943 <= pow_max)
    by (split; [lia | vm_compute; discriminate]).
  exact (current_pow_is_not_below_initial sample_message sample_now 1270388943
           sample_now eq_refl eq_refl R).
Defined.

(** The value at whole factors.  When the age, or ten seconds if the age
    is less, is [k] times ten seconds, and the length of the wire form, or
    61 if it is less, is [j] times 61, [update_pow] sets
    [min(2^32 - 1, initial_pow * k * j)], as long as the product is below
    2^53.  With [k = j = 1]: a message of at most 61 characters that is at
    most ten seconds old has its initial proof of work as the current
    one. *)
Theorem current_pow_at_whole_factors
  (m : Message) (stamp : datetime) (i : Z) (now : datetime) (k j : Z) :
  timestamp_obj m = Some stamp -> initial_pow m = Some i -> 0 <= i ->
  Z.max (sub now stamp) min_message_age = k * min_message_age ->
  Z.max (len (__str__ m)) min_message_bytes = j * min_message_bytes ->
  i * k * j < 2 ^ 53 ->
  update_pow m now
  = Ret tt (set_current_pow m (Some (Z.min (2 ^ 32 - 1) (i * k * j)))).
Proof.
  intros T I Hi Ek Ej Hb. rewrite (update_pow_value m stamp i now T I).
  rewrite (scaled_pow_exact i now stamp (len (__str__ m)) k j); try assumption.
  - reflexivity.
  - rewrite Ek. change min_message_age with 10000000. lia.
  - rewrite Ej. change min_message_bytes with 61. lia.
Qed.

Lemma current_pow_at_whole_factors_witness :
  update_pow sample_message (mkDatetime 2000 1 2 3 4 25 0)
  = Ret tt (set_current_pow sample_message
              (Some (Z.min (2 ^ 32 - 1) (1270388943 * 2 * 1)))).
Proof.
  assert (B : 1270388943 * 2 * 1 < 2 ^ 53) by (vm_compute; reflexivity).
  exact (current_pow_at_whole_factors sample_message sample_now 1270388943
           (mkDatetime 2000 1 2 3 4 25 0) 2 1 eq_refl eq_refl
           ltac:(lia) eq_refl eq_refl B).
Defined.

(** A proof of work only gets worse with time.  On the same object,
    [update_pow] at a later time does not set a smaller current proof of
    work than at an earlier time. *)
Theorem current_pow_grows_with_time
  (m : Message) (stamp : datetime) (i : Z) (now now' : datetime) :
  timestamp_obj m = Some stamp -> initial_pow m = Some i -> 0 <= i ->
  valid now = true -> valid now' = true -> leb now now' = true ->
  exists c c',
    update_pow m now = Ret tt (set_current_pow m (Some c))
    /\ update_pow m now' = Ret tt (set_current_pow m (Some c'))
    /\ c <= c'.
Proof.
  intros T I Hi V V' L.
  rewrite (update_pow_value m stamp i now T I),
          (update_pow_value m stamp i now' T I).
  eexists. eexists. split; [reflexivity|]. split; [reflexivity|].
  apply scaled_pow_mono; try lia.
  apply sub_mono; assumption.
Qed.

Lemma current_pow_grows_with_time_witness :
  exists c c',
    update_pow sample_message sample_now
    = Ret tt (set_current_pow sample_message (Some c))
    /\ update_pow sample_message (mkDatetime 2000 1 2 3 4 25 0)
       = Ret tt (set_current_pow sample_message (Some c'))
    /\ c <= c'.
Proof.
  exact (current_pow_grows_with_time sample_message sample_now 1270388943
           sample_now (mkDatetime 2000 1 2 3 4 25 0) eq_refl eq_refl
           ltac:(lia) eq_refl eq_refl eq_refl).
Defined.

(** What [parse] and [update_pow] compute does not go down when the
    initial proof of work, the age or the length of the message goes up:
    of two frames with the same fields but for the payload, parsed at the
    same time, the longer has the larger current proof of work. *)
Theorem current_pow_grows_with_age_and_length
  (i i' : Z) (now now' stamp stamp' : datetime) (length length' : Z) :
  0 <= i -> i <= i' ->
  sub now stamp <= sub now' stamp' -> length <= length' ->
  scaled_pow i now stamp length <= scaled_pow i' now' stamp' length'.
Proof. apply scaled_pow_mono. Qed.

Lemma current_pow_grows_with_age_and_length_witness :
  scaled_pow 1270388943 sample_now sample_now 53
  <= scaled_pow 1270388943 sample_now sample_now 153.
Proof.
  apply (current_pow_grows_with_age_and_length 1270388943 1270388943
           sample_now sample_now sample_now sample_now 53 153); lia.
Defined.

End AgeingFacts.

(* ================================================================== *)
(** * What the methods keep true of an object *)
(* ================================================================== *)

Module ObjectFacts.
Import Py Datetime Message_v0 Spec StrFacts IntFacts DigestFacts PowFacts
  ParseFacts DatetimeFacts RoundTrip MinerFacts ScaledFacts FrameFacts.

Lemma consistent_init : consistent __init__.
Proof.
  unfold consistent, __init__. cbn.
  repeat split; try discriminate; try reflexivity.
Qed.

Lemma consistent_set_timestamp self utc_now clock :
  consistent self -> consistent (set_timestamp self utc_now clock).
Proof.
  intros (V & N & C & P & I & Cu & T). unfold consistent, set_timestamp. cbn.
  split; [exact V|]. split; [exact N|]. split; [exact C|]. split; [exact P|].
  split; [exact I|]. split.
  - intros c Hc. destruct (Cu c Hc) as (R & Ni & _).
    split; [exact R|]. split; [exact Ni | discriminate].
  - split; discriminate.
Qed.

Lemma consistent_set_payload self p :
  consistent self -> consistent (object_after (set_payload self p)).
Proof.
  intros K. pose proof K as (V & N & C & P & I & Cu & T). unfold set_payload.
  destruct (len p >? max_payload_bytes); [exact K|].
  set (n := match nonce self with
            | Some n => n
            | None => String.concat EmptyString (repeat "a" (Z.to_nat nonce_bytes))
            end).
  assert (Ln : len n = nonce_bytes).
  { unfold n. destruct (nonce self) as [n0|] eqn:E; [apply N; reflexivity|].
    reflexivity. }
  assert (Partial :
    consistent
      {| version := version self; timestamp_str := timestamp_str self;
         timestamp_obj := timestamp_obj self; nonce := Some n;
         checksum := Some (get_checksum p); payload := Some p;
         initial_pow := initial_pow self; current_pow := current_pow self;
         utc_now := Message_v0.utc_now self |}).
  { unfold consistent. cbn.
    split; [exact V|].
    split; [intros n0 E; injection E as <-; exact Ln|].
    split; [intros c E; injection E as <-; exists p; split; reflexivity|].
    split; [intros q E; injection E as <-; split; [reflexivity | discriminate]|].
    split; [exact I|]. split; [exact Cu | exact T]. }
  destruct (timestamp_str self) as [ts|] eqn:Ets; [|exact Partial].
  destruct (initial_pow_range ts n (get_checksum p)) as (i & Ei & Ri).
  rewrite Ei. cbn [object_after].
  unfold consistent. cbn.
  split; [exact V|].
  split; [intros n0 E; injection E as <-; exact Ln|].
  split; [intros c E; injection E as <-; exists p; split; reflexivity|].
  split; [intros q E; injection E as <-; split; [reflexivity | discriminate]|].
  split; [intros i0 E; injection E as <-; exact Ri|].
  split.
  - intros c Hc. destruct (Cu c Hc) as (R & _ & Nt).
    split; [exact R|]. split; [discriminate | exact Nt].
  - exact T.
Qed.

Lemma consistent_update_pow self now :
  consistent self -> consistent (object_after (update_pow self now)).
Proof.
  intros K. pose proof K as (V & N & C & P & I & Cu & T). unfold update_pow.
  destruct (timestamp_obj self) as [stamp|] eqn:Et; [|exact K].
  destruct (initial_pow self) as [i|] eqn:Ei; [|exact K].
  cbn [object_after]. unfold consistent, set_current_pow. cbn.
  split; [exact V|]. split; [exact N|]. split; [exact C|]. split; [exact P|].
  rewrite Ei, Et.
  split; [intros i0 E; injection E as <-; apply I; reflexivity|].
  split; [|exact T].
  intros c E. injection E as <-.
  destruct (I i eq_refl) as [I0 _].
  split; [apply scaled_pow_sign; exact I0|]. split; discriminate.
Qed.

Lemma consistent_update_nonce self required_pow utc_now clock :
  consistent self ->
  consistent (object_after (update_nonce self required_pow utc_now clock)).
Proof.
  intros (V & N & C & P & I & Cu & T). unfold update_nonce.
  assert (Cleared :
    consistent
      {| version := version self; timestamp_str := timestamp_str self;
         timestamp_obj := timestamp_obj self; nonce := nonce self;
         checksum := checksum self; payload := payload self;
         initial_pow := None; current_pow := None; utc_now := Message_v0.utc_now self |}).
  { unfold consistent. cbn.
    split; [exact V|]. split; [exact N|]. split; [exact C|]. split; [exact P|].
    split; [discriminate|]. split; [discriminate | exact T]. }
  destruct (timestamp_str self) as [ts|] eqn:Ets; [|exact Cleared].
  destruct (checksum self) as [cs|] eqn:Ecs; [|exact Cleared].
  match goal with
  | |- context [search ?a ?b ?c ?d ?e] =>
      destruct (search a b c d e) as [k w i| |] eqn:S; try exact Cleared
  end.
  apply search_found_inv in S as (Iw & Gw & _ & _).
  apply in_product in Iw as [Lw _].
  destruct (initial_pow_range ts w cs) as (i' & Ei' & Ri).
  rewrite Gw in Ei'. injection Ei' as <-.
  assert (Found :
    consistent
      {| version := version self; timestamp_str := Some ts;
         timestamp_obj := timestamp_obj self; nonce := Some w;
         checksum := Some cs; payload := payload self;
         initial_pow := Some i; current_pow := None; utc_now := Message_v0.utc_now self |}).
  { unfold consistent. cbn.
    split; [exact V|].
    split; [intros n0 E; injection E as <-; unfold len; rewrite Lw; reflexivity|].
    split; [exact (C)|].
    split; [intros q E; destruct (P q E) as [E1 _]; split; [exact E1 | discriminate]|].
    split; [intros i0 E; injection E as <-; exact Ri|].
    split; [discriminate|].
    split; [discriminate|]. intros E. apply T in E. discriminate E. }
  pose proof (consistent_update_pow _ (now_or utc_now clock) Found) as U.
  destruct (update_pow _ _); exact U.
Qed.

Lemma consistent_parse self s required_pow utc_now clock :
  consistent self ->
  consistent (object_after (parse self s required_pow utc_now clock)).
Proof.
  intros K. pose proof K as (V & _).
  rewrite parse_unfold. cbv zeta.
  destruct (Z.ltb_spec (len s) 53) as [|L]; [exact K|].
  destruct (negb (startswith s _)); [exact K|].
  destruct (negb (endswith s _)); [exact K|].
  destruct (negb (is_some (int_of_str 10 (field_timestamp s)))); [exact K|].
  destruct (str_gt _ _); [exact K|].
  destruct (frame_initial_pow s >? required_pow);
    [destruct (to_bytes_hex 4 required_pow); exact K|].
  destruct (strptime (field_timestamp s)) as [t|] eqn:T; [|exact K].
  cbn [is_some negb].
  destruct (String.eqb (field_checksum s) (get_checksum (field_payload s))) eqn:C;
    [|exact K].
  cbn [negb]. apply String.eqb_eq in C.
  destruct (frame_current_pow s (now_or utc_now clock) >? required_pow);
    [destruct (to_bytes_hex 4 required_pow); exact K|].
  cbn [object_after]. unfold consistent, parsed. cbn. rewrite T.
  pose proof (frame_initial_pow_range s) as Ri.
  split; [exact V|].
  split; [intros n E; injection E as <-; unfold field_nonce;
          rewrite length_slice by lia; reflexivity|].
  split; [intros c E; injection E as <-; eexists; split; [reflexivity | exact C]|].
  split; [intros p E; injection E as <-; rewrite C; split;
          [reflexivity | discriminate]|].
  split; [intros i E; injection E as <-; exact Ri|].
  split; [|split; discriminate].
  intros c E. injection E as <-.
  split; [|split; discriminate].
  unfold frame_current_pow. rewrite T. apply scaled_pow_sign. lia.
Qed.

(** Whatever the calls and whether they returned or raised, as long as
    the strs passed to [set_payload] and [parse] hold characters below
    U+0100 only, an object made by the constructor and changed by the
    methods has version 0; its nonce, when set, has 10 characters; its
    checksum and its payload are set together and the checksum is the one
    of the payload; each proof of work, when set, is between 0 and
    2^32 - 1, and the current one is set only with the initial one and the
    instant; the timestamp string and the instant are set together.
    (A payload with a lone surrogate is outside: [set_payload] assigns it
    and raises before the checksum is set.) *)
Theorem methods_keep_the_object_consistent (m : Message) :
  built m -> consistent m.
Proof.
  induction 1.
  - exact consistent_init.
  - now apply consistent_set_timestamp.
  - now apply consistent_set_payload.
  - now apply consistent_update_nonce.
  - now apply consistent_update_pow.
  - now apply consistent_parse.
Qed.

Lemma methods_keep_the_object_consistent_witness :
  consistent
    (object_after
       (set_payload (set_timestamp __init__ (Some sample_now) sample_now) "hi")).
Proof.
  apply (methods_keep_the_object_consistent
           (object_after
              (set_payload (set_timestamp __init__ (Some sample_now) sample_now)
                 "hi"))).
  apply (built_set_payload _ [104; 105] "hi" eq_refl).
  apply built_set_timestamp, built_init.
Defined.

End ObjectFacts.

(* ================================================================== *)
(** * What the store holds *)
(* ================================================================== *)

Module StoreFacts.
Import Py Datetime Message_v0 Server Spec StrFacts IntFacts PowFacts ParseFacts
  DatetimeFacts RoundTrip ServerFacts RejectFacts AdmitFacts StorageFacts
  ScaledFacts TotalFacts StampFacts FrameFacts AcceptFacts.

(** What [parse] has checked when it answers the empty string. *)
Lemma parse_accepted_inv self s required_pow utc_now clock m :
  parse self s required_pow utc_now clock = Ret EmptyString m ->
  53 <= len s
  /\ int_of_str 10 (field_timestamp s) <> None
  /\ str_gt (field_timestamp s) (strftime (now_or utc_now clock)) = false
  /\ (exists t, strptime (field_timestamp s) = Some t)
  /\ field_checksum s = get_checksum (field_payload s)
  /\ m = parsed self s (now_or utc_now clock).
Proof.
  intros P. rewrite parse_unfold in P. cbv zeta in P.
  destruct (Z.ltb_spec (len s) 53) as [|L]; [discriminate P|].
  destruct (startswith s _); [|discriminate P].
  destruct (endswith s _); [|discriminate P].
  cbn [negb] in P.
  destruct (int_of_str 10 (field_timestamp s)) as [v|] eqn:I; [|discriminate P].
  cbn [is_some negb] in P.
  destruct (str_gt _ _) eqn:F; [discriminate P|].
  destruct (frame_initial_pow s >? required_pow).
  { destruct (to_bytes_hex 4 required_pow); discriminate P. }
  destruct (strptime (field_timestamp s)) as [t|] eqn:T; [|discriminate P].
  cbn [is_some negb] in P.
  destruct (String.eqb (field_checksum s) (get_checksum (field_payload s))) eqn:C;
    [|discriminate P].
  cbn [negb] in P. apply String.eqb_eq in C.
  destruct (frame_current_pow s (now_or utc_now clock) >? required_pow).
  { destruct (to_bytes_hex 4 required_pow); discriminate P. }
  injection P as <-.
  split; [exact L|]. split; [discriminate|]. split; [reflexivity|].
  split; [exists t; reflexivity|]. split; [exact C | reflexivity].
Qed.

(** The object [parse] makes of an accepted string is a valid message. *)
Lemma parsed_is_genuine s required_pow utc_now clock m :
  parse __init__ s required_pow utc_now clock = Ret EmptyString m ->
  genuine_entry (frame_initial_pow s, m).
Proof.
  intros P.
  destruct (parse_accepted_inv _ _ _ _ _ _ P) as (L & I & _ & (t & T) & C & ->).
  assert (D : all_chars is_digit (field_timestamp s) = true)
    by (apply (accepted_timestamp_digits _ t); assumption).
  unfold genuine_entry. cbn [fst snd].
  split; [reflexivity|]. split.
  - split; [reflexivity|].
    exists (field_timestamp s), t, (field_nonce s), (field_payload s).
    unfold parsed. cbn. rewrite T, C.
    repeat split; try reflexivity; try assumption.
    unfold field_nonce. rewrite length_slice by lia. reflexivity.
  - split; [rewrite len_to_str_parsed by exact L; exact L|].
    exists (field_timestamp s), (field_nonce s), (field_checksum s).
    repeat split. apply frame_initial_pow_eq.
Qed.

Lemma genuine_entry_same a b :
  same_but_current_pow a b -> genuine_entry a -> genuine_entry b.
Proof.
  destruct a as [k m], b as [k' m']. unfold same_but_current_pow, genuine_entry.
  cbn [fst snd]. intros [<- E] (I & V & L & G).
  assert (Ev : version m' = version m) by (apply (f_equal version) in E; exact (eq_sym E)).
  assert (Es : timestamp_str m' = timestamp_str m)
    by (apply (f_equal timestamp_str) in E; exact (eq_sym E)).
  assert (Eo : timestamp_obj m' = timestamp_obj m)
    by (apply (f_equal timestamp_obj) in E; exact (eq_sym E)).
  assert (En : nonce m' = nonce m) by (apply (f_equal nonce) in E; exact (eq_sym E)).
  assert (Ec : checksum m' = checksum m)
    by (apply (f_equal checksum) in E; exact (eq_sym E)).
  assert (Ep : payload m' = payload m) by (apply (f_equal payload) in E; exact (eq_sym E)).
  assert (Ei : initial_pow m' = initial_pow m)
    by (apply (f_equal initial_pow) in E; exact (eq_sym E)).
  split; [rewrite Ei; exact I|]. split.
  - destruct V as (V & ts & t & n & p & H1 & H2 & H3 & H4 & H5 & H6 & H7 & H8).
    split; [rewrite Ev; exact V|].
    exists ts, t, n, p. rewrite Es, Eo, En, Ep, Ec. repeat split; assumption.
  - split; [unfold __str__ in *; rewrite Ev, Es, En, Ec, Ep; exact L|].
    rewrite Es, En, Ec. exact G.
Qed.

(** ** Invariants of the store *)

Section Invariant.
Variable Inv : list (Z * Message) -> Prop.
Hypothesis Inv_same :
  forall d d', Forall2 same_but_current_pow d d' -> Inv d -> Inv d'.
Hypothesis Inv_pop : forall d k, Inv d -> Inv (dict_pop d k).

(** The loop that makes room and the insertion keep a property of the
    store that the recomputation of the current proofs of work, an eviction
    and the insertion of the message each keep. *)
Lemma make_room_inv env m msg_str :
  (forall d i, Inv d -> initial_pow m = Some i -> Inv (dict_set d i m)) ->
  forall fuel st,
  Inv (messages st) ->
  match make_room fuel env m msg_str st with
  | Replied _ st' | OutOfFuel st' => Inv (messages st')
  | Exited _ _ => False
  | Raised _ _ => True
  end.
Proof.
  intros Ins.
  assert (Done : forall st, Inv (messages st) ->
            match
              match initial_pow m, current_pow m with
              | Some i, Some c =>
                  Replied ("ok" ++ nl)
                    {| messages := dict_set (messages st) i m;
                       required_pow := Z.max (required_pow st) c;
                       ticks := ticks st |}
              | _, _ => Raised TypeError st
              end
            with
            | Replied _ st' | OutOfFuel st' => Inv (messages st')
            | Exited _ _ => False
            | Raised _ _ => True
            end).
  { intros st0 I0. destruct (initial_pow m) as [i|] eqn:Ei; [|exact I].
    destruct (current_pow m); [|exact I]. cbn [messages]. now apply Ins. }
  induction fuel as [|fuel IH]; intros st I0; cbn [make_room].
  - destruct (_ && _); [exact I0 | now apply Done].
  - destruct (_ && _); [|now apply Done].
    destruct (get_worst_pow env st) as [[wi wc] st1|e st1] eqn:G; [|exact I].
    destruct (get_worst_pow_ret _ _ _ _ _ G) as (_ & _ & F & _).
    pose proof (Inv_same _ _ F I0) as I1.
    destruct (current_pow m) as [c|]; [|exact I].
    destruct (c >? wc).
    + destruct (to_bytes_hex _ wc); [exact I1 | exact I].
    + apply IH. cbn [messages]. now apply Inv_pop.
Qed.

Lemma handle_message_inv fuel env st s :
  (forall m i d,
     parse __init__ s (required_pow st) (utc_now env) (wall env (ticks st))
     = Ret EmptyString m ->
     initial_pow m = Some i -> Inv d -> Inv (dict_set d i m)) ->
  Inv (messages st) ->
  match handle_message fuel env st s with
  | Replied _ st' | Exited _ st' | OutOfFuel st' => Inv (messages st')
  | Raised _ _ => True
  end.
Proof.
  intros Ins I0. unfold handle_message.
  destruct (parse __init__ s _ _ _) as [reply m|e m] eqn:P; [|exact I].
  destruct (String.eqb_spec reply EmptyString) as [->|Ne]; cbn [negb]; [|exact I0].
  destruct (payload_is m "__info__").
  { destruct (to_bytes_hex _ _); [exact I0 | exact I]. }
  destruct (payload_is m "__messages__"); [exact I0|].
  destruct (payload_is m "__exit__"); [destruct (utc_now env); exact I0|].
  destruct (payload_is m "__memory__"); [destruct (utc_now env); exact I0|].
  pose proof (make_room_inv env m (__str__ m)
                (fun d i Id Ei => Ins m i d eq_refl Ei Id) fuel
                (mkState (messages st) (required_pow st) (tick env (ticks st)))
                I0) as T.
  destruct (make_room fuel env m (__str__ m) _); try exact T. destruct T.
Qed.

(** A property of the empty store that every handler keeps holds of every
    store the server can reach. *)
Lemma reachable_inv env st :
  Inv [] ->
  (forall s required_pow utc_now clock m i d,
     parse __init__ s required_pow utc_now clock = Ret EmptyString m ->
     initial_pow m = Some i -> Inv d -> Inv (dict_set d i m)) ->
  reachable env st -> Inv (messages st).
Proof.
  intros I0 Ins R.
  induction R as [|fuel st s reply st' R IH H|fuel st s e st' R IH H].
  - exact I0.
  - pose proof (handle_message_inv fuel env st s
                  (fun m i d P => Ins _ _ _ _ m i d P) IH) as T.
    now rewrite H in T.
  - pose proof (handle_message_total fuel env st s (reachable_well_formed _ _ R)) as T.
    rewrite H in T. destruct T.
Qed.

End Invariant.

(** ** The dict operations *)

Lemma dict_pop_forall (P : Z * Message -> Prop) d k :
  Forall P d -> Forall P (dict_pop d k).
Proof.
  induction 1 as [|[k' v'] r H F IH]; cbn [dict_pop]; [constructor|].
  destruct (k' =? k); [exact F | now constructor].
Qed.

Lemma dict_set_forall (P : Z * Message -> Prop) d k m :
  P (k, m) -> Forall P d -> Forall P (dict_set d k m).
Proof.
  intros Pm. induction 1 as [|[k' v'] r H F IH]; cbn [dict_set].
  - now repeat constructor.
  - destruct (k' =? k); now constructor.
Qed.

Lemma in_keys_dict_pop d k x :
  In x (map fst (dict_pop d k)) -> In x (map fst d).
Proof.
  induction d as [|[k' v'] r IH]; cbn [dict_pop]; [intros []|].
  destruct (k' =? k); cbn [map fst In]; [now right|].
  intros [E|H]; [now left | right; now apply IH].
Qed.

Lemma keys_dict_pop_nodup d k :
  NoDup (map fst d) -> NoDup (map fst (dict_pop d k)).
Proof.
  induction d as [|[k' v'] r IH]; cbn [dict_pop map fst]; [intros; constructor|].
  intros N. inversion N as [|? ? Ni Nr]; subst.
  destruct (k' =? k); [exact Nr|].
  cbn [map fst]. constructor; [|now apply IH].
  intros H. apply Ni. now apply in_keys_dict_pop in H.
Qed.

Lemma in_keys_dict_set d k m x :
  In x (map fst (dict_set d k m)) <-> x = k \/ In x (map fst d).
Proof.
  induction d as [|[k' v'] r IH]; cbn [dict_set map fst In].
  - split; [intros [E|[]]; left; congruence | intros [E|[]]; left; congruence].
  - destruct (Z.eqb_spec k' k) as [->|Ne]; cbn [map fst In].
    + split; [intros [E|H]; [left; congruence | right; now right]
             | intros [E|[E|H]]; [left; congruence | left; congruence | now right]].
    + rewrite IH. split.
      * intros [E|[E|H]]; [right; now left | now left | right; now right].
      * intros [E|[E|H]]; [right; now left | now left | right; now right].
Qed.

Lemma keys_dict_set_nodup d k m :
  NoDup (map fst d) -> NoDup (map fst (dict_set d k m)).
Proof.
  induction d as [|[k' v'] r IH]; cbn [dict_set map fst].
  - intros _. constructor; [intros [] | constructor].
  - intros N. inversion N as [|? ? Ni Nr]; subst.
    destruct (Z.eqb_spec k' k) as [->|Ne]; cbn [map fst].
    + constructor; assumption.
    + constructor; [|now apply IH].
      intros H. apply in_keys_dict_set in H as [E|H]; [congruence | now apply Ni].
Qed.

Lemma forall2_forall (P : Z * Message -> Prop) d d' :
  (forall a b, same_but_current_pow a b -> P a -> P b) ->
  Forall2 same_but_current_pow d d' -> Forall P d -> Forall P d'.
Proof.
  intros H. induction 1 as [|a b r r' S _ IH]; intros F; [constructor|].
  inversion F; subst. constructor; [now apply (H a) | now apply IH].
Qed.

(** In dict order: a lookup of a key that is set finds what was set. *)
Lemma in_dict_set d k m : In (k, m) (dict_set d k m).
Proof.
  induction d as [|[k' v'] r IH]; cbn [dict_set]; [now left|].
  destruct (k' =? k); [now left | now right].
Qed.

(** Every message in the store came through [parse] and is kept under its
    own initial proof of work, and no two are kept under the same: each is
    a valid message of 53 characters or more on the wire. *)
Lemma store_is_genuine env st :
  reachable env st ->
  Forall genuine_entry (messages st) /\ NoDup (map fst (messages st)).
Proof.
  apply (reachable_inv
           (fun d => Forall genuine_entry d /\ NoDup (map fst d))).
  - intros d d' F [G N]. split.
    + apply (forall2_forall genuine_entry d d'); try assumption.
      apply genuine_entry_same.
    + rewrite (same_but_current_pow_keys d d' F). exact N.
  - intros d k [G N]. split;
      [now apply dict_pop_forall | now apply keys_dict_pop_nodup].
  - split; constructor.
  - intros s rp u c m i d P Ei [G N]. split; [|now apply keys_dict_set_nodup].
    apply dict_set_forall; [|exact G].
    pose proof (parsed_is_genuine s rp u c m P) as Gm.
    destruct Gm as (Ei' & Gm). cbn [fst snd] in Ei'.
    rewrite Ei in Ei'. injection Ei' as ->.
    split; [exact Ei | exact Gm].
Qed.

(** ** The bound on the store *)

Lemma length_dict_pop d k : (List.length (dict_pop d k) <= List.length d)%nat.
Proof.
  induction d as [|[k' v'] r IH]; cbn [dict_pop List.length]; [lia|].
  destruct (k' =? k); cbn [List.length]; lia.
Qed.

Lemma make_room_within_bound env m : forall fuel st,
  within_bound env st ->
  match make_room fuel env m (__str__ m) st with
  | Replied _ st' | OutOfFuel st' => within_bound env st'
  | Exited _ _ => False
  | Raised _ _ => True
  end.
Proof.
  assert (Done : forall st,
            (0 <? Z.of_nat (List.length (messages st)))
            && (len (__str__ m) + get_storage_used st >? max_storage env) = false ->
            match
              match initial_pow m, current_pow m with
              | Some i, Some c =>
                  Replied ("ok" ++ nl)
                    {| messages := dict_set (messages st) i m;
                       required_pow := Z.max (required_pow st) c;
                       ticks := ticks st |}
              | _, _ => Raised TypeError st
              end
            with
            | Replied _ st' | OutOfFuel st' => within_bound env st'
            | Exited _ _ => False
            | Raised _ _ => True
            end).
  { intros st C. destruct (initial_pow m) as [i|]; [|exact I].
    destruct (current_pow m); [|exact I].
    unfold within_bound, get_storage_used in *. cbn [messages].
    apply andb_false_iff in C as [C|C].
    - left. apply Z.ltb_ge in C.
      destruct (messages st); [cbn; lia | cbn [List.length] in C; lia].
    - right. rewrite Z.gtb_ltb in C. apply Z.ltb_ge in C.
      pose proof (storage_of_set (messages st) i m). lia. }
  induction fuel as [|fuel IH]; intros st B; cbn [make_room].
  - destruct (_ && _) eqn:C; [exact B | now apply Done].
  - destruct (_ && _) eqn:C; [|now apply Done].
    destruct (get_worst_pow env st) as [[wi wc] st1|e st1] eqn:G; [|exact I].
    destruct (get_worst_pow_ret _ _ _ _ _ G) as (_ & _ & F & _).
    assert (B1 : within_bound env st1).
    { unfold within_bound, get_storage_used in *.
      rewrite (same_but_current_pow_storage _ _ F).
      rewrite <- (Forall2_length F). exact B. }
    destruct (current_pow m) as [c|]; [|exact I].
    destruct (c >? wc).
    + destruct (to_bytes_hex _ wc); [exact B1 | exact I].
    + apply IH. unfold within_bound, get_storage_used in *. cbn [messages].
      pose proof (length_dict_pop (messages st1) wi).
      pose proof (storage_of_pop (messages st1) wi).
      destruct B1; [left | right]; lia.
Qed.

Lemma handle_message_within_bound fuel env st s :
  within_bound env st ->
  match handle_message fuel env st s with
  | Replied _ st' | Exited _ st' | OutOfFuel st' => within_bound env st'
  | Raised _ _ => True
  end.
Proof.
  intros B. unfold handle_message.
  assert (B0 : within_bound env
                 (mkState (messages st) (required_pow st) (tick env (ticks st))))
    by exact B.
  destruct (parse __init__ s _ _ _) as [reply m|e m]; [|exact I].
  destruct (negb _); [exact B0|].
  destruct (payload_is m "__info__").
  { destruct (to_bytes_hex _ _); [exact B0 | exact I]. }
  destruct (payload_is m "__messages__"); [exact B0|].
  destruct (payload_is m "__exit__"); [destruct (utc_now env); exact B0|].
  destruct (payload_is m "__memory__"); [destruct (utc_now env); exact B0|].
  pose proof (make_room_within_bound env m fuel _ B0) as T.
  destruct (make_room fuel env m (__str__ m) _); try exact T. destruct T.
Qed.

Lemma reachable_within_bound env st : reachable env st -> within_bound env st.
Proof.
  induction 1 as [|fuel st s reply st' R IH H|fuel st s e st' R IH H].
  - left. cbn. lia.
  - pose proof (handle_message_within_bound fuel env st s IH) as T.
    now rewrite H in T.
  - pose proof (handle_message_total fuel env st s (reachable_well_formed _ _ R)) as T.
    rewrite H in T. destruct T.
Qed.

Lemma storage_of_genuine d :
  Forall genuine_entry d -> 53 * Z.of_nat (List.length d) <= storage_of d.
Proof.
  induction 1 as [|[k m] r (_ & _ & L & _) _ IH]; cbn [storage_of List.length]; [lia|].
  cbn [snd] in L. lia.
Qed.

(** ** The worst message *)

Lemma update_pow_updated k m now :
  stored_entry (k, m) ->
  exists c,
    update_pow m now = Ret tt (set_current_pow m (Some c))
    /\ k <= c <= pow_max.
Proof.
  intros (Ei & Rk & Et). cbn [fst snd] in *. unfold update_pow.
  destruct (timestamp_obj m) as [t|]; [|congruence]. rewrite Ei.
  eexists. split; [reflexivity|]. split.
  - apply ScalingFacts.scaled_pow_ge_initial. exact Rk.
  - apply scaled_pow_le_max.
Qed.

Lemma pow_is_weaken (r r' : Z -> Z -> Prop) w w' l :
  (forall c, r c w -> r' c w') -> Forall (pow_is r w) l -> Forall (pow_is r' w') l.
Proof.
  intros H F. apply Forall_impl with (2 := F).
  intros e (c & E & R). exists c. split; [exact E | now apply H].
Qed.

(** The loop of [get_worst_pow] on stored entries: it runs to its end, and
    with the entries visited so far it keeps the largest current proof of
    work and the key of the first entry that has it. *)
Lemma worst_loop_worst env todo : forall done n wi wc,
  Forall stored_entry todo ->
  Forall updated_entry (rev done) -> Forall stored_entry (rev done) ->
  worst_of (rev done) wi wc -> 0 <= wc ->
  exists wi' wc' d' n',
    worst_loop env todo done n wi wc = Ret (wi', wc') (d', n')
    /\ worst_of d' wi' wc' /\ 0 <= wc'
    /\ Forall updated_entry d' /\ Forall stored_entry d'.
Proof.
  induction todo as [|[k m] todo IH]; intros done n wi wc F U S W Hwc.
  - cbn. do 4 eexists. split; [reflexivity|]. repeat split; assumption.
  - inversion F as [|x l Sk F']; subst.
    destruct (update_pow_updated k m (now_or (utc_now env) (wall env n)) Sk)
      as (c & Up & Rc).
    pose proof Sk as (_ & Rk & _). cbn [fst] in Rk.
    cbn [worst_loop]. rewrite Up. cbn [current_pow set_current_pow].
    set (m' := set_current_pow m (Some c)).
    assert (Um : updated_entry (k, m')) by (exists c; split; [reflexivity | exact Rc]).
    assert (Sm : stored_entry (k, m')).
    { apply (stored_entry_same (k, m)); [|exact Sk]. split; reflexivity. }
    assert (U' : Forall updated_entry (rev ((k, m') :: done))).
    { cbn [rev]. apply Forall_app. split; [exact U | now constructor]. }
    assert (S' : Forall stored_entry (rev ((k, m') :: done))).
    { cbn [rev]. apply Forall_app. split; [exact S | now constructor]. }
    destruct (Z.ltb_spec wc c) as [Lt|Ge].
    + apply IH; try assumption; [|lia].
      right. exists (rev done), m', []. cbn [rev].
      split; [reflexivity|]. split; [reflexivity|]. split; [|constructor].
      destruct W as [(E & _ & ->) | (b & m0 & a & E & C0 & Fb & Fa)].
      * rewrite E. constructor.
      * rewrite E. apply Forall_app. split.
        -- apply (pow_is_weaken Z.lt Z.lt wc c); [intros; lia | exact Fb].
        -- constructor.
           ++ exists wc. split; [exact C0 | exact Lt].
           ++ apply (pow_is_weaken Z.le Z.lt wc c); [intros; lia | exact Fa].
    + apply IH; try assumption.
      destruct W as [(E & -> & ->) | (b & m0 & a & E & C0 & Fb & Fa)].
      * right. exists [], m', []. cbn [rev]. rewrite E. cbn [app].
        assert (k = 0) by lia. assert (c = 0) by lia. subst k c.
        split; [reflexivity|]. split; [reflexivity|]. split; constructor.
      * right. exists b, m0, (a ++ [(k, m')])%list. cbn [rev]. rewrite E.
        split; [rewrite <- List.app_assoc; reflexivity|].
        split; [exact C0|]. split; [exact Fb|].
        apply Forall_app. split; [exact Fa|]. constructor; [|constructor].
        exists c. split; [reflexivity | exact Ge].
Qed.

Lemma get_worst_pow_worst env st :
  well_formed st ->
  exists wi wc st',
    get_worst_pow env st = Ret (wi, wc) st'
    /\ worst_of (messages st') wi wc
    /\ Forall updated_entry (messages st')
    /\ well_formed st'
    /\ Forall2 same_but_current_pow (messages st) (messages st')
    /\ 0 <= wc <= pow_max.
Proof.
  intros [F Rp].
  assert (W0 : worst_of (rev []) 0 0) by (left; repeat split).
  destruct (worst_loop_worst env (messages st) [] (ticks st) 0 0 F
              (Forall_nil _) (Forall_nil _) W0 (Z.le_refl 0))
    as (wi & wc & d & n & E & W & Hwc & U & S).
  pose proof E as E'. apply worst_loop_ret in E' as [Rw F2];
    [|rewrite pow_max_value; lia]. cbn [rev app] in F2.
  exists wi, wc, (mkState d (required_pow st) n).
  split; [unfold get_worst_pow; now rewrite E|].
  cbn [messages].
  split; [exact W|]. split; [exact U|].
  split; [split; [exact S | exact Rp]|]. split; [exact F2 | exact Rw].
Qed.

End StoreFacts.

(* ================================================================== *)
(** * Admission, refusal and listing *)
(* ================================================================== *)

Module AdmissionFacts.
Import Py Datetime Message_v0 Server Spec StrFacts IntFacts PowFacts ParseFacts
  DatetimeFacts RoundTrip ServerFacts RejectFacts AdmitFacts StorageFacts
  ScaledFacts TotalFacts StampFacts FrameFacts AcceptFacts StoreFacts.

(** A message that is not weaker than any resident gets in, whatever has
    to be evicted for it. *)
Lemma make_room_strong env m i c : forall fuel st,
  initial_pow m = Some i -> current_pow m = Some c ->
  well_formed st ->
  (forall k, In k (map fst (messages st)) -> c <= k) ->
  (List.length (messages st) <= fuel)%nat ->
  exists st',
    make_room fuel env m (__str__ m) st = Replied ("ok" ++ nl) st'
    /\ In (i, m) (messages st')
    /\ incl (map fst (messages st')) (i :: map fst (messages st)).
Proof.
  intros fuel st Ei Ec. revert st.
  assert (Done : forall st,
            exists st',
              match initial_pow m, current_pow m with
              | Some i, Some c =>
                  Replied ("ok" ++ nl)
                    {| messages := dict_set (messages st) i m;
                       required_pow := Z.max (required_pow st) c;
                       ticks := ticks st |}
              | _, _ => Raised TypeError st
              end = Replied ("ok" ++ nl) st'
              /\ In (i, m) (messages st')
              /\ incl (map fst (messages st')) (i :: map fst (messages st))).
  { intros st. rewrite Ei, Ec. eexists. split; [reflexivity|]. cbn [messages].
    split; [apply in_dict_set|].
    intros x Hx. apply in_keys_dict_set in Hx as [->|Hx]; [now left | now right]. }
  induction fuel as [|fuel IH]; intros st W K Lf; cbn [make_room].
  - destruct (messages st) eqn:E; [|cbn in Lf; lia].
    cbn [List.length Z.of_nat Z.ltb Z.compare andb].
    rewrite <- E. apply Done.
  - destruct (_ && _) eqn:C; [|apply Done].
    apply andb_prop in C as [C _]. apply Z.ltb_lt in C.
    destruct (get_worst_pow_worst env st W)
      as (wi & wc & st1 & G & Wo & U & W1 & F2 & Rw).
    rewrite G, Ec.
    pose proof (same_but_current_pow_keys _ _ F2) as Ek.
    pose proof (Forall2_length F2) as El.
    destruct Wo as [(E & _) | (b & m0 & a & E & C0 & _ & _)].
    { rewrite E in El. cbn in El. lia. }
    assert (Iw : In (wi, m0) (messages st1)).
    { rewrite E. apply in_or_app. right. now left. }
    assert (Kw : In wi (map fst (messages st1)))
      by (apply (in_map fst) in Iw; exact Iw).
    assert (Le : wi <= wc).
    { rewrite Forall_forall in U. destruct (U _ Iw) as (c0 & E0 & R0).
      cbn [fst snd] in *. rewrite C0 in E0. injection E0 as <-. lia. }
    assert (Cw : c <= wi) by (apply K; rewrite <- Ek; exact Kw).
    replace (c >? wc) with false
      by (symmetry; rewrite Z.gtb_ltb; apply Z.ltb_ge; lia).
    set (st2 := {| messages := dict_pop (messages st1) wi;
                   required_pow := required_pow st1; ticks := ticks st1 |}).
    destruct (IH st2) as (st' & M & I' & Inc).
    + destruct W1 as [F1 R1]. split; [now apply dict_pop_stored | exact R1].
    + intros k Hk. cbn [st2 messages] in Hk. apply in_keys_dict_pop in Hk.
      apply K. rewrite <- Ek. exact Hk.
    + cbn [st2 messages]. pose proof (dict_pop_length _ _ Kw). lia.
    + exists st'. split; [exact M|]. split; [exact I'|].
      intros x Hx. apply Inc in Hx. destruct Hx as [->|Hx]; [now left|].
      right. cbn [st2 messages] in Hx. apply in_keys_dict_pop in Hx.
      rewrite <- Ek. exact Hx.
Qed.

(** A handler that does not answer ok has added nothing. *)
Lemma make_room_refused env m msg_str : forall fuel st,
  match make_room fuel env m msg_str st with
  | Replied reply st' =>
      reply = "ok" ++ nl
      \/ (incl (map fst (messages st')) (map fst (messages st))
          /\ get_storage_used st' <= get_storage_used st
          /\ (List.length (messages st') <= List.length (messages st))%nat)
  | Exited _ _ | Raised _ _ | OutOfFuel _ => True
  end.
Proof.
  assert (Done : forall st,
            match
              match initial_pow m, current_pow m with
              | Some i, Some c =>
                  Replied ("ok" ++ nl)
                    {| messages := dict_set (messages st) i m;
                       required_pow := Z.max (required_pow st) c;
                       ticks := ticks st |}
              | _, _ => Raised TypeError st
              end
            with
            | Replied reply st' =>
                reply = "ok" ++ nl
                \/ (incl (map fst (messages st')) (map fst (messages st))
                    /\ get_storage_used st' <= get_storage_used st
                    /\ (List.length (messages st') <= List.length (messages st))%nat)
            | Exited _ _ | Raised _ _ | OutOfFuel _ => True
            end).
  { intros st. destruct (initial_pow m); [|exact I].
    destruct (current_pow m); [|exact I]. now left. }
  induction fuel as [|fuel IH]; intros st; cbn [make_room].
  - destruct (_ && _); [exact I | apply Done].
  - destruct (_ && _); [|apply Done].
    destruct (get_worst_pow env st) as [[wi wc] st1|e st1] eqn:G; [|exact I].
    destruct (get_worst_pow_ret _ _ _ _ _ G) as (_ & _ & F & _).
    pose proof (same_but_current_pow_keys _ _ F) as Ek.
    pose proof (same_but_current_pow_storage _ _ F) as Es.
    pose proof (Forall2_length F) as El.
    destruct (current_pow m) as [c|]; [|exact I].
    destruct (c >? wc).
    + destruct (to_bytes_hex _ wc); [|exact I]. right.
      unfold get_storage_used. rewrite Ek, Es, El.
      split; [apply incl_refl | split; lia].
    + specialize (IH {| messages := dict_pop (messages st1) wi;
                        required_pow := required_pow st1; ticks := ticks st1 |}).
      destruct (make_room fuel env m msg_str _) as [reply st'| | |]; try exact I.
      destruct IH as [E | (Inc & St & Le)]; [now left | right].
      cbn [messages] in *. unfold get_storage_used in *. cbn [messages] in St.
      pose proof (storage_of_pop (messages st1) wi).
      pose proof (length_dict_pop (messages st1) wi).
      split; [|split; lia].
      intros x Hx. apply Inc in Hx. apply in_keys_dict_pop in Hx.
      rewrite <- Ek. exact Hx.
Qed.

Lemma all_messages_lists d k m :
  In (k, m) d ->
  exists pre post, all_messages d = pre ++ __str__ m ++ nl ++ post.
Proof.
  induction d as [|[k' m'] r IH]; intros H; [destruct H|].
  destruct H as [E | H].
  - injection E as -> ->. exists EmptyString, (all_messages r). reflexivity.
  - destruct (IH H) as (pre & post & E).
    exists (__str__ m' ++ nl ++ pre), post.
    cbn [all_messages]. rewrite E. now rewrite !app_assoc.
Qed.

Lemma length_all_messages d :
  len (all_messages d) = storage_of d + Z.of_nat (List.length d).
Proof.
  induction d as [|[k m] r IH]; [reflexivity|].
  cbn [all_messages storage_of List.length].
  rewrite !len_app, IH. change (len nl) with 1. lia.
Qed.

End AdmissionFacts.

(* ================================================================== *)
(** * Bytes, code points and the strings of the development *)
(* ================================================================== *)

Module CodecFacts.
Import Py Datetime Message_v0 Server Spec IntFacts.

(** Every string is the string of its code points. *)
Lemma str_of_code_points_code_points s :
  str_of_code_points (code_points s) = Some s.
Proof.
  unfold code_points. induction s as [|c s IH]; [reflexivity|].
  cbn [list_ascii_of_string map str_of_code_points].
  pose proof (ord_range c) as R.
  replace ((0 <=? ord c) && (ord c <? 256)) with true
    by (symmetry; apply andb_true_iff; split; [apply Z.leb_le | apply Z.ltb_lt]; lia).
  rewrite IH, chr_ord. reflexivity.
Qed.

(** The string that code points give has these code points. *)
Lemma code_points_str_of_code_points : forall cps s,
  str_of_code_points cps = Some s -> code_points s = cps.
Proof.
  induction cps as [|c cps IH]; intros s H; cbn [str_of_code_points] in H.
  - injection H as <-. reflexivity.
  - destruct (Z.leb_spec 0 c); [|discriminate H].
    destruct (Z.ltb_spec c 256); [|discriminate H]. cbn [andb] in H.
    destruct (str_of_code_points cps) as [r|]; [|discriminate H].
    injection H as <-. unfold code_points.
    cbn [list_ascii_of_string map]. rewrite ord_chr by lia.
    f_equal. apply IH. reflexivity.
Qed.

(** Decoding what [encode] wrote gives the string back. *)
Lemma decode_encode s : decode_utf8 (encode_utf8 s) = Some (code_points s).
Proof.
  unfold code_points. induction s as [|c s IH]; [reflexivity|].
  cbn [encode_utf8 list_ascii_of_string map]. cbv zeta.
  pose proof (ord_range c) as R.
  destruct (Z.ltb_spec (ord c) 128) as [L|L].
  - cbn [decode_utf8].
    replace ((0 <=? ord c) && (ord c <? 128)) with true
      by (symmetry; apply andb_true_iff; split;
          [apply Z.leb_le | apply Z.ltb_lt]; lia).
    rewrite IH. reflexivity.
  - pose proof (Z.mod_pos_bound (ord c) 64 ltac:(lia)) as M.
    pose proof (Z.div_mod (ord c) 64 ltac:(lia)) as D.
    assert (Q : 2 <= ord c / 64 <= 3) by lia.
    cbn [decode_utf8].
    replace ((0 <=? 192 + ord c / 64) && (192 + ord c / 64 <? 128)) with false
      by (symmetry; apply andb_false_iff; right; apply Z.ltb_ge; lia).
    replace ((194 <=? 192 + ord c / 64) && (192 + ord c / 64 <=? 223)) with true
      by (symmetry; apply andb_true_iff; split; apply Z.leb_le; lia).
    unfold is_cont.
    replace ((128 <=? 128 + ord c mod 64) && (128 + ord c mod 64 <=? 191)) with true
      by (symmetry; apply andb_true_iff; split; apply Z.leb_le; lia).
    rewrite IH. cbn [option_map]. do 2 f_equal. lia.
Qed.

(** On the bytes of a string the handler is [handle_message] on that
    string. *)
Lemma handle_data_encode fuel env st s :
  handle_data fuel env st (encode_utf8 s) = Some (handle_message fuel env st s).
Proof.
  unfold handle_data. now rewrite decode_encode, str_of_code_points_code_points.
Qed.

(** What the handler does on data is [handle_message] on a string, or the
    [UnicodeDecodeError] that leaves everything as it was. *)
Lemma handle_data_some fuel env st data o :
  handle_data fuel env st data = Some o ->
  (decode_utf8 data = None /\ o = Raised UnicodeDecodeError st)
  \/ exists cps s,
       decode_utf8 data = Some cps /\ str_of_code_points cps = Some s
       /\ o = handle_message fuel env st s.
Proof.
  unfold handle_data. destruct (decode_utf8 data) as [cps|].
  - destruct (str_of_code_points cps) as [s|] eqn:E; [|discriminate].
    intros H. injection H as <-. right. now exists cps, s.
  - intros H. injection H as <-. now left.
Qed.

(** The states reached through data are the states reached through
    strings. *)
Lemma reachable_by_data_iff env st : reachable_by_data env st <-> reachable env st.
Proof.
  split.
  - induction 1 as [|fuel st data reply st' _ IH H|fuel st data e st' _ IH H].
    + constructor.
    + apply handle_data_some in H as [[_ H]|(cps & s & _ & _ & H)];
        [discriminate H|].
      exact (reach_reply env fuel st s reply st' IH (eq_sym H)).
    + apply handle_data_some in H as [[_ H]|(cps & s & _ & _ & H)].
      * injection H as _ <-. exact IH.
      * exact (reach_raise env fuel st s e st' IH (eq_sym H)).
  - induction 1 as [|fuel st s reply st' _ IH H|fuel st s e st' _ IH H].
    + constructor.
    + apply (by_data_reply env fuel st (encode_utf8 s) reply st' IH).
      rewrite handle_data_encode, H. reflexivity.
    + apply (by_data_raise env fuel st (encode_utf8 s) e st' IH).
      rewrite handle_data_encode, H. reflexivity.
Qed.

End CodecFacts.

(* ================================================================== *)
(** * The server: what holds in every state it can reach *)
(* ================================================================== *)

Module ServerTheorems.
Import Py Datetime Message_v0 Server Spec StrFacts IntFacts PowFacts ParseFacts
  DatetimeFacts RoundTrip ServerFacts RejectFacts AdmitFacts StorageFacts
  ScaledFacts TotalFacts StampFacts FrameFacts AcceptFacts StoreFacts
  AdmissionFacts CodecFacts.

Lemma two_hello_state_reachable : reachable sample_env two_hello_state.
Proof.
  apply (reach_reply sample_env 2
           (run sample_env initial_state [frame_hello_world])
           frame_hello_w ("ok" ++ nl)).
  - apply (reach_reply sample_env 1 initial_state frame_hello_world ("ok" ++ nl)).
    + apply reach_init.
    + vm_compute. reflexivity.
  - vm_compute. reflexivity.
Qed.

Lemma two_hello_state_by_data : reachable_by_data sample_env two_hello_state.
Proof. apply reachable_by_data_iff, two_hello_state_reachable. Qed.

(** The handler, from the bytes read.  On data that is not UTF-8 the
    handler is left by the [UnicodeDecodeError] of [decode]: nothing
    catches it, no reply is written, and the store and required_pow are as
    they were.  On data that decodes to characters below U+0100, in every
    state the server reaches through data of these two kinds, the handler
    ends with a reply, or with the exit of __exit__, within the fuel of the
    store's size: no exception leaves it and the loop that makes room
    terminates. *)
Theorem handler_replies_unless_decoding_fails
  (env : Env) (st : State) (data : list Z) :
  reachable_by_data env st ->
  (decode_utf8 data = None ->
   handle_data (List.length (messages st)) env st data
   = Some (Raised UnicodeDecodeError st))
  /\ (forall cps s,
        decode_utf8 data = Some cps -> str_of_code_points cps = Some s ->
        exists reply st',
          handle_data (List.length (messages st)) env st data
          = Some (Replied reply st')
          \/ handle_data (List.length (messages st)) env st data
             = Some (Exited reply st')).
Proof.
  intros R. apply reachable_by_data_iff in R. split.
  - intros D. unfold handle_data. rewrite D. reflexivity.
  - intros cps s D S. unfold handle_data. rewrite D, S.
    destruct (handler_always_replies env st s R) as (reply & st' & [H|H]);
      exists reply, st'; rewrite H; [now left | now right].
Qed.

Lemma handler_replies_unless_decoding_fails_witness :
  (decode_utf8 (encode_utf8 frame_a) = None ->
   handle_data (List.length (messages two_hello_state)) sample_env two_hello_state
     (encode_utf8 frame_a)
   = Some (Raised UnicodeDecodeError two_hello_state))
  /\ (forall cps s,
        decode_utf8 (encode_utf8 frame_a) = Some cps ->
        str_of_code_points cps = Some s ->
        exists reply st',
          handle_data (List.length (messages two_hello_state)) sample_env
            two_hello_state (encode_utf8 frame_a)
          = Some (Replied reply st')
          \/ handle_data (List.length (messages two_hello_state)) sample_env
               two_hello_state (encode_utf8 frame_a)
             = Some (Exited reply st')).
Proof.
  exact (handler_replies_unless_decoding_fails sample_env two_hello_state
           (encode_utf8 frame_a) two_hello_state_by_data).
Defined.

(** The byte 0xff is not UTF-8: the handler writes no reply and changes
    nothing.  The frame of a, as bytes, is refused with a reply. *)
Lemma undecodable_data_gets_no_reply :
  handle_data 2 sample_env two_hello_state [255]
  = Some (Raised UnicodeDecodeError two_hello_state)
  /\ handle_data 2 sample_env two_hello_state (encode_utf8 frame_a)
     = Some (Replied ("Required pow: 0x" ++ "8eb6b698" ++ nl) two_hello_state).
Proof.
  split; [reflexivity|]. vm_compute. reflexivity.
Qed.



(** What the store holds.  In every state the server reaches as long as
    the data it has received was not UTF-8 or decoded to characters below
    U+0100, each stored message is a valid message: version 0, a timestamp
    of 14 digits from 0 to 9 that writes the instant it holds, a nonce of 10
    characters, a payload and its checksum; its wire form has 53
    characters or more; it is kept under its initial proof of work, which
    is the one of its timestamp, nonce and checksum.  No two messages are
    kept under the same key.  (Beyond U+0100 [int] and [strptime] also
    take other decimal digits, and a timestamp with such a digit can be
    stored.) *)
Theorem stored_messages_are_genuine (env : Env) (st : State) :
  reachable_by_data env st ->
  Forall genuine_entry (messages st) /\ NoDup (map fst (messages st)).
Proof.
  intros R. apply (store_is_genuine env). apply reachable_by_data_iff, R.
Qed.

Lemma stored_messages_are_genuine_witness :
  Forall genuine_entry (messages two_hello_state)
  /\ NoDup (map fst (messages two_hello_state)).
Proof.
  exact (stored_messages_are_genuine sample_env two_hello_state
           two_hello_state_by_data).
Defined.

(** The number of messages stored.  A stored message takes 53 characters
    or more, so in every state the server can reach the store holds at
    most [max_storage // 53] messages, or one. *)
Theorem store_holds_few_messages (env : Env) (st : State) :
  reachable env st ->
  Z.of_nat (List.length (messages st)) <= Z.max 1 (max_storage env / 53).
Proof.
  intros R.
  destruct (store_is_genuine env st R) as [G _].
  pose proof (storage_of_genuine _ G) as S.
  destruct (reachable_within_bound env st R) as [L|B]; [lia|].
  unfold get_storage_used in B.
  assert (Z.of_nat (List.length (messages st)) <= max_storage env / 53).
  { apply Z.div_le_lower_bound; lia. }
  lia.
Qed.

Lemma store_holds_few_messages_witness :
  Z.of_nat (List.length (messages two_hello_state))
  <= Z.max 1 (max_storage sample_env / 53).
Proof.
  exact (store_holds_few_messages sample_env two_hello_state
           two_hello_state_reachable).
Defined.



(** A message that is not weaker than any resident always gets in.  In a
    state the server can reach, let a frame be accepted by [parse] with a
    payload that is not a control payload, and let its current proof of
    work be at most every key of the store, the initial proofs of work of
    the residents.  Then the handler answers ok, whatever it has to evict,
    and the message is in the store under its initial proof of work; no
    other key is new. *)
Theorem strong_message_is_always_admitted
  (env : Env) (st : State) (s p : string) (m : Message) (c : Z) :
  reachable env st ->
  parse __init__ s (required_pow st) (utc_now env) (wall env (ticks st))
  = Ret EmptyString m ->
  payload m = Some p -> is_control p = false ->
  current_pow m = Some c ->
  (forall k, In k (map fst (messages st)) -> c <= k) ->
  exists st',
    handle_message (List.length (messages st)) env st s = Replied ("ok" ++ nl) st'
    /\ In (frame_initial_pow s, m) (messages st')
    /\ incl (map fst (messages st')) (frame_initial_pow s :: map fst (messages st)).
Proof.
  intros R P Ep Cp Ec K.
  rewrite (handle_message_admits _ env st s m p P Ep Cp).
  apply reachable_well_formed in R.
  destruct (parse_accepted_inv _ _ _ _ _ _ P) as (_ & _ & _ & _ & _ & Em).
  assert (Ei : initial_pow m = Some (frame_initial_pow s)) by (rewrite Em; reflexivity).
  assert (W' : well_formed (after_parse env st))
    by (destruct R as [F Rp]; split; assumption).
  exact (make_room_strong env m (frame_initial_pow s) c
           (List.length (messages st)) (after_parse env st) Ei Ec W' K (le_n _)).
Qed.

Lemma strong_message_is_always_admitted_witness :
  exists st',
    handle_message (List.length (messages two_hello_state)) sample_env
      two_hello_state frame_d = Replied ("ok" ++ nl) st'
    /\ In (frame_initial_pow frame_d, parsed_at_midnight frame_d) (messages st')
    /\ incl (map fst (messages st'))
         (frame_initial_pow frame_d :: map fst (messages two_hello_state)).
Proof.
  assert (P : parse __init__ frame_d (required_pow two_hello_state)
                (utc_now sample_env) (wall sample_env (ticks two_hello_state))
              = Ret EmptyString (parsed_at_midnight frame_d))
    by (vm_compute; reflexivity).
  assert (Ep : payload (parsed_at_midnight frame_d) = Some "d")
    by (vm_compute; reflexivity).
  assert (Ec : current_pow (parsed_at_midnight frame_d) = Some 79878571)
    by (vm_compute; reflexivity).
  assert (K : forall k, In k (map fst (messages two_hello_state)) -> 79878571 <= k).
  { intros k Hk.
    replace (map fst (messages two_hello_state)) with [1137447016; 2394338968] in Hk
      by (vm_compute; reflexivity).
    destruct Hk as [<-|[<-|[]]]; lia. }
  exact (strong_message_is_always_admitted sample_env two_hello_state frame_d "d"
           (parsed_at_midnight frame_d) 79878571 two_hello_state_reachable
           P Ep eq_refl Ec K).
Defined.

(** A handler that does not answer ok stores nothing.  Whatever the
    state and the data, when the reply is not ok every key of the store
    afterwards was a key before, and neither the bytes stored nor the
    number of messages has grown.  They may have shrunk: a message can be
    refused after residents have been evicted for it. *)
Theorem refused_message_is_not_stored
  (fuel : nat) (env : Env) (st : State) (s reply : string) (st' : State) :
  handle_message fuel env st s = Replied reply st' ->
  reply <> "ok" ++ nl ->
  incl (map fst (messages st')) (map fst (messages st))
  /\ get_storage_used st' <= get_storage_used st
  /\ (List.length (messages st') <= List.length (messages st))%nat.
Proof.
  intros H Ne.
  assert (Same : incl (map fst (messages st)) (map fst (messages st))
                 /\ get_storage_used st <= get_storage_used st
                 /\ (List.length (messages st) <= List.length (messages st))%nat)
    by (split; [apply incl_refl | split; lia]).
  unfold handle_message in H.
  destruct (parse __init__ s _ _ _) as [r m|e m]; [|discriminate H].
  destruct (negb _); [injection H as <- <-; exact Same|].
  destruct (payload_is m "__info__").
  { destruct (to_bytes_hex _ _); [|discriminate H].
    injection H as <- <-. exact Same. }
  destruct (payload_is m "__messages__"); [injection H as <- <-; exact Same|].
  destruct (payload_is m "__exit__").
  { destruct (utc_now env); [discriminate H | injection H as <- <-; exact Same]. }
  destruct (payload_is m "__memory__").
  { destruct (utc_now env); injection H as <- <-; exact Same. }
  pose proof (make_room_refused env m (__str__ m) fuel
                (mkState (messages st) (required_pow st) (tick env (ticks st)))) as T.
  rewrite H in T. destruct T as [E | T]; [contradiction | exact T].
Qed.

(** The theorem above on the sample server with hello w and hi stored,
    for a message of 74 characters that is stronger than hello w and
    weaker than hi: hello w is evicted, then the message is refused. *)
Lemma refused_message_is_not_stored_witness :
  exists st',
    handle_message 2 sample_env hello_hi_state frame_u21
    = Replied ("Required pow: 0x829527af" ++ nl) st'
    /\ map fst (messages hello_hi_state) = [2394338968; 2190813103]
    /\ map fst (messages st') = [2190813103]
    /\ incl (map fst (messages st')) (map fst (messages hello_hi_state))
    /\ get_storage_used st' <= get_storage_used hello_hi_state
    /\ (List.length (messages st') <= List.length (messages hello_hi_state))%nat.
Proof.
  assert (H : exists st',
            handle_message 2 sample_env hello_hi_state frame_u21
            = Replied ("Required pow: 0x829527af" ++ nl) st'
            /\ map fst (messages st') = [2190813103]).
  { eexists. split; vm_compute; reflexivity. }
  destruct H as (st' & H & K).
  exists st'. split; [exact H|].
  split; [vm_compute; reflexivity|]. split; [exact K|].
  apply (refused_message_is_not_stored 2 sample_env hello_hi_state frame_u21
           ("Required pow: 0x829527af" ++ nl) st' H).
  discriminate.
Defined.

(** What [__messages__] lists can be sent again.  Let the server be in a
    state it reaches as long as the data it has received was not UTF-8 or
    decoded to characters below U+0100.  Data that decodes to such a
    frame, which [parse] accepts with the payload [__messages__], is
    answered with the wire forms of the stored messages, each followed by a
    newline, in the order of insertion, and the store is left as it is.
    Each stored message is there, and its wire form is a frame that
    [parse] accepts at any time not before its timestamp, with a
    [required_pow] of 2^32 - 1 or more: the parsed object has the same
    fields, and its initial proof of work is the key it is stored under. *)
Theorem listed_messages_parse_again
  (fuel : nat) (env : Env) (st : State) (data cps : list Z) (q : string)
  (mq : Message) :
  reachable_by_data env st ->
  decode_utf8 data = Some cps -> str_of_code_points cps = Some q ->
  parse __init__ q (required_pow st) (utc_now env) (wall env (ticks st))
  = Ret EmptyString mq ->
  payload mq = Some "__messages__" ->
  handle_data fuel env st data
  = Some (Replied (all_messages (messages st)) (after_parse env st))
  /\ len (all_messages (messages st))
     = get_storage_used st + Z.of_nat (List.length (messages st))
  /\ forall k m, In (k, m) (messages st) ->
       (exists pre post,
          all_messages (messages st) = pre ++ __str__ m ++ nl ++ post)
       /\ forall now clock required_pow,
            valid now = true -> not_after m now -> pow_max <= required_pow ->
            exists m',
              parse __init__ (__str__ m) required_pow (Some now) clock
              = Ret EmptyString m'
              /\ timestamp_str m' = timestamp_str m
              /\ timestamp_obj m' = timestamp_obj m
              /\ nonce m' = nonce m
              /\ checksum m' = checksum m
              /\ payload m' = payload m
              /\ initial_pow m' = Some k.
Proof.
  intros R D S P Ep. apply reachable_by_data_iff in R.
  split; [|split; [apply length_all_messages|]].
  - unfold handle_data. rewrite D, S. f_equal.
    unfold handle_message. rewrite P. cbn [String.eqb negb].
    unfold payload_is. rewrite Ep. reflexivity.
  - intros k m Hin. split; [now apply (all_messages_lists _ k)|].
    intros now clock rp Vn (t' & Et' & Le) Hrp.
    destruct (store_is_genuine env st R) as [G _].
    rewrite Forall_forall in G.
    destruct (G _ Hin) as (Ei & V & L & (ts' & n' & c' & Ets' & En' & Ec' & Gp)).
    cbn [fst snd] in *.
    destruct V as (V & ts & t & n & p & Ets & Dts & Et & Pts & En & Ln & Epl & Ec).
    rewrite Ets in Ets'. injection Ets' as <-.
    rewrite En in En'. injection En' as <-.
    rewrite Ec in Ec'. injection Ec' as <-.
    rewrite Et in Et'. injection Et' as <-.
    change nonce_bytes with 10 in Ln.
    destruct (parse_accepts __init__ ts t n p rp now clock Pts Dts Ln Vn Le Hrp)
      as (Pa & Fts & Fn & Fc & Fp & _).
    rewrite (to_str_frame m ts n (get_checksum p) p V Ets En Ec Epl).
    eexists. split; [exact Pa|].
    unfold parsed. cbn [timestamp_str timestamp_obj nonce checksum payload initial_pow].
    rewrite Fts, Fn, Fc, Fp, Pts, Ets, Et, En, Ec, Epl.
    repeat split.
    pose proof (frame_initial_pow_eq (frame ts n (get_checksum p) p)) as Q.
    rewrite Fts, Fn, Fc, Gp in Q. exact (eq_sym Q).
Qed.

Lemma listed_messages_parse_again_witness :
  handle_data 0 sample_env two_hello_state (encode_utf8 frame_messages)
  = Some (Replied (all_messages (messages two_hello_state))
            (after_parse sample_env two_hello_state))
  /\ len (all_messages (messages two_hello_state))
     = get_storage_used two_hello_state
       + Z.of_nat (List.length (messages two_hello_state))
  /\ forall k m, In (k, m) (messages two_hello_state) ->
       (exists pre post,
          all_messages (messages two_hello_state) = pre ++ __str__ m ++ nl ++ post)
       /\ forall now clock required_pow,
            valid now = true -> not_after m now -> pow_max <= required_pow ->
            exists m',
              parse __init__ (__str__ m) required_pow (Some now) clock
              = Ret EmptyString m'
              /\ timestamp_str m' = timestamp_str m
              /\ timestamp_obj m' = timestamp_obj m
              /\ nonce m' = nonce m
              /\ checksum m' = checksum m
              /\ payload m' = payload m
              /\ initial_pow m' = Some k.
Proof.
  assert (P : parse __init__ frame_messages (required_pow two_hello_state)
                (utc_now sample_env) (wall sample_env (ticks two_hello_state))
              = Ret EmptyString (parsed_at_midnight frame_messages))
    by (vm_compute; reflexivity).
  assert (Ep : payload (parsed_at_midnight frame_messages) = Some "__messages__")
    by (vm_compute; reflexivity).
  exact (listed_messages_parse_again 0 sample_env two_hello_state
           (encode_utf8 frame_messages) (code_points frame_messages) frame_messages
           (parsed_at_midnight frame_messages) two_hello_state_by_data
           (decode_encode frame_messages)
           (str_of_code_points_code_points frame_messages) P Ep).
Defined.

End ServerTheorems.

(* ================================================================== *)
(** * The loop of the generator *)
(* ================================================================== *)

Module LoopFacts.
Import Py Datetime Message_v0 Generate Spec StrFacts IntFacts DigestFacts PowFacts
  ParseFacts DatetimeFacts RoundTrip MinerFacts Float FloatFacts GenerateFacts
  ScaledFacts MessageFacts StampFacts FrameFacts AcceptFacts ScalingFacts.

(** The bound the miner gets, for a duration of whole tens of seconds. *)
Lemma scale_pow_value w d :
  0 <= w < 2 ^ 53 -> 0 < d -> d / 86400 <= 999999999 ->
  Z.max d 10 mod 10 = 0 ->
  scale_pow w d = Passed (w / (Z.max d 10 / 10)).
Proof.
  intros Hw Hd Hmax Hmod. unfold scale_pow.
  destruct (Z.leb_spec d 0); [lia|].
  destruct (Z.ltb_spec 999999999 (d / 86400)); [lia|].
  set (k := Z.max d 10 / 10).
  assert (Ek : Z.max d 10 = 10 * k)
    by (unfold k; pose proof (Z.div_mod (Z.max d 10) 10); lia).
  assert (Kpos : 0 < k) by lia.
  assert (Kub : k < 2 ^ 53).
  { assert (d < 86400 * 1000000000)
      by (pose proof (Z.div_mod d 86400);
          pose proof (Z.mod_pos_bound d 86400); lia).
    change (2 ^ 53) with 9007199254740992. lia. }
  replace (Z.max (timedelta_seconds d) min_message_age) with (10000000 * k).
  2:{ unfold timedelta_seconds. change min_message_age with 10000000. lia. }
  rewrite age_factor_exact by lia.
  rewrite of_int_small by exact Hw.
  f_equal. unfold div.
  destruct k as [|p|p]; try lia.
  change (inject_Z w / inject_Z (Zpos p))%Q with ((w * 1) # (1 * p)).
  rewrite to_int_rnd_quotient by lia.
  f_equal; lia.
Qed.

(** What a payload and a nonce leave in an object that was stamped. *)
Lemma mined_shape self m1 m stamp ct clock clock' p bound tries :
  version self = "0" ->
  set_payload (set_timestamp self (Some stamp) clock) p = Ret tt m1 ->
  update_nonce m1 bound (Some ct) clock' = Ret tries m ->
  exists w i,
    len w = 10
    /\ get_initial_pow (strftime stamp) w (get_checksum p) pow_target = Some i
    /\ i < search_bound bound /\ 0 <= i <= pow_max
    /\ __str__ m = frame (strftime stamp) w (get_checksum p) p
    /\ version m = "0"
    /\ initial_pow m = Some i
    /\ current_pow m = Some (scaled_pow i ct stamp (len (__str__ m))).
Proof.
  intros V SP UN.
  unfold set_payload in SP.
  destruct (len p >? max_payload_bytes); [discriminate SP|].
  cbn [set_timestamp now_or timestamp_str version timestamp_obj nonce checksum
       payload initial_pow current_pow Message_v0.utc_now] in SP.
  match type of SP with
  | match get_initial_pow ?a ?b ?c ?d with _ => _ end = _ =>
      destruct (get_initial_pow a b c d) as [i0|]; [|discriminate SP]
  end.
  injection SP as <-.
  unfold update_nonce in UN.
  cbn [timestamp_str checksum version timestamp_obj nonce payload
       Message_v0.utc_now] in UN.
  match type of UN with
  | match search ?a ?b ?c ?d ?e with _ => _ end = _ =>
      destruct (search a b c d e) as [k w i| |] eqn:S; try discriminate UN
  end.
  apply search_found_inv in S as (Iw & Gw & Bw & _).
  apply in_product in Iw as [Lw _].
  unfold update_pow in UN. cbn [timestamp_obj initial_pow] in UN.
  injection UN as _ <-.
  exists w, i.
  split; [unfold len; rewrite Lw; reflexivity|].
  split; [exact Gw|].
  split; [exact Bw|].
  split.
  { destruct (initial_pow_range (strftime stamp) w (get_checksum p))
      as (q & Eq & Rq).
    rewrite Gw in Eq. injection Eq as <-. exact Rq. }
  split.
  { cbn [__str__ set_current_pow version timestamp_str nonce checksum payload fmt].
    rewrite V. reflexivity. }
  split; [exact V|].
  split; [reflexivity|].
  cbn [current_pow set_current_pow now_or]. reflexivity.
Qed.

(** A frame made of a timestamp of 14 digits that is a date not after now,
    a nonce of 10 characters, a payload and its checksum is accepted when
    its two proofs of work are not above [required_pow]. *)
Lemma parse_accepts_bounded self ts t n p i required_pow now clock :
  strptime ts = Some t -> all_chars is_digit ts = true -> len n = 10 ->
  valid now = true -> leb t now = true ->
  get_initial_pow ts n (get_checksum p) pow_target = Some i ->
  i <= required_pow ->
  scaled_pow i now t (53 + len p) <= required_pow ->
  let s := frame ts n (get_checksum p) p in
  parse self s required_pow (Some now) clock = Ret EmptyString (parsed self s now)
  /\ field_payload s = p /\ len s = 53 + len p.
Proof.
  intros Pts Dts Ln Vn Le G Hi Hc s.
  destruct (parse_accepts self ts t n p pow_max now clock Pts Dts Ln Vn Le
              (Z.le_refl _)) as (_ & Fts & Fn & Fc & Fp & Ls).
  fold s in Fts, Fn, Fc, Fp, Ls.
  split; [|split; assumption].
  assert (Ei : frame_initial_pow s = i).
  { unfold frame_initial_pow. rewrite Fts, Fn, Fc, G. reflexivity. }
  rewrite parse_unfold. cbv zeta. cbn [now_or].
  pose proof (len_nonneg p) as Lp.
  destruct (Z.ltb_spec (len s) 53); [lia|].
  unfold s at 1. rewrite (frame_startswith ts n (get_checksum p) p). cbn [negb].
  unfold s at 1. rewrite (frame_endswith ts n (get_checksum p) p). cbn [negb].
  rewrite Fts, Fc, Fp.
  rewrite (int_of_str_digits 10 ts).
  - cbn [is_some negb].
    rewrite (stamp_not_in_future ts t now Pts Dts Vn Le).
    replace (frame_initial_pow s >? required_pow) with false
      by (symmetry; rewrite Z.gtb_ltb; apply Z.ltb_ge; lia).
    rewrite Pts. cbn [is_some negb].
    rewrite String.eqb_refl. cbn [negb].
    assert (Ec : frame_current_pow s now = scaled_pow i now t (53 + len p)).
    { unfold frame_current_pow. rewrite Fts, Pts, Ei, Ls. reflexivity. }
    replace (frame_current_pow s now >? required_pow) with false
      by (symmetry; rewrite Z.gtb_ltb; apply Z.ltb_ge; lia).
    reflexivity.
  - now left.
  - intros E. destruct (strptime_digits ts t Pts Dts) as (Lts & _ & _).
    rewrite E in Lts. discriminate Lts.
  - apply (all_chars_impl is_digit); [apply is_digit_base10 | exact Dts].
Qed.

(** The loop prints a line for each payload it gets through, in order. *)
Lemma main_loop_lines pow ct mt debug wall : forall payloads n message lines e,
  version message = "0" ->
  main_loop pow ct mt debug wall n message payloads = (lines, e) ->
  (List.length lines <= List.length payloads)%nat
  /\ (e = Finished -> List.length lines = List.length payloads)
  /\ (e = Finished \/ (debug = false -> exists x, e = Stopped EmptyString x))
  /\ Forall2 (printed_for pow ct mt debug wall)
       (firstn (List.length lines) payloads) lines.
Proof.
  induction payloads as [|payload rest IH]; intros n message lines e V H.
  - cbn [main_loop] in H. injection H as <- <-. cbn.
    split; [lia|]. split; [reflexivity|]. split; [now left | constructor].
  - cbn [main_loop] in H. cbv zeta in H.
    destruct (set_payload _ payload) as [[] m2 | x m2] eqn:SP.
    2:{ injection H as <- <-. cbn.
        split; [lia|]. split; [discriminate|].
        split; [right; intros _; now exists x | constructor]. }
    destruct (update_nonce m2 pow _ _) as [tries m3 | x m3] eqn:UN.
    2:{ injection H as <- <-. cbn.
        split; [lia|]. split; [discriminate|].
        split; [right; intros _; now exists x | constructor]. }
    destruct (if debug then debug_text m3 else inr EmptyString) as [x | d] eqn:D.
    { injection H as <- <-. cbn.
      split; [lia|]. split; [discriminate|].
      split; [|constructor].
      right. intros ->. discriminate D. }
    destruct (main_loop pow ct mt debug wall (S (S n)) m3 rest) as [ls e'] eqn:R.
    injection H as <- <-.
    destruct (mined_shape message m2 m3 _ _ _ _ payload pow tries V SP UN)
      as (w & i & _ & _ & _ & _ & _ & V3 & _).
    destruct (IH (S (S n)) m3 ls e' V3 R) as (L1 & L2 & L3 & F).
    cbn [List.length firstn].
    split; [lia|]. split; [intros E; rewrite (L2 E); reflexivity|].
    split; [exact L3|].
    constructor; [|exact F].
    exists n, message, m2, m3, tries, d.
    split; [exact V|]. split; [exact SP|]. split; [exact UN|].
    split; [exact D | reflexivity].
Qed.

(** Every line the generator prints without [--debug] is a message that
    [parse] accepts, at any time not before the stamps and with a
    [required_pow] of 2^32 - 1 or more; the object it leaves has the
    payload the line was printed for, and the line is 53 characters longer
    than the payload.  The lines are as many as the payloads when the loop
    ends without an exception, and for the first payloads otherwise; an
    exception leaves no unfinished line.  The stamps are taken to be valid
    dates of the year 1000 or later. *)
Theorem printed_lines_are_accepted
  (pow : Z) (ct mt : option datetime) (wall : nat -> datetime)
  (payloads lines : list string) (e : ended)
  (now : datetime) (required_pow : Z) (clock : datetime) :
  (forall k, valid (now_or mt (wall k)) = true
             /\ 1000 <= year (now_or mt (wall k))
             /\ leb (now_or mt (wall k)) now = true) ->
  valid now = true -> pow_max <= required_pow ->
  main_loop pow ct mt false wall 0 __init__ payloads = (lines, e) ->
  (e = Finished -> List.length lines = List.length payloads)
  /\ (e = Finished \/ exists x, e = Stopped EmptyString x)
  /\ Forall2
       (fun payload line =>
          exists m,
            parse __init__ line required_pow (Some now) clock = Ret EmptyString m
            /\ Message_v0.payload m = Some payload
            /\ len line = 53 + len payload)
       (firstn (List.length lines) payloads) lines.
Proof.
  intros T Vn Hrp H.
  destruct (main_loop_lines pow ct mt false wall payloads 0 __init__ lines e
              eq_refl H) as (_ & L2 & L3 & F).
  split; [exact L2|].
  split; [destruct L3 as [L3|L3]; [now left | right; now apply L3]|].
  eapply Forall2_impl; [|exact F].
  intros payload line (n & self & m2 & m3 & tries & d & V & SP & UN & D & ->).
  injection D as <-.
  destruct (mined_shape self m2 m3 _ _ _ _ payload pow tries V SP UN)
    as (w & i & Lw & G & _ & Ri & Str & _).
  destruct (T (S n)) as (Vs & Ys & Le).
  set (stamp := now_or mt (wall (S n))) in *.
  pose proof (strptime_strftime stamp Vs Ys) as Pts.
  destruct (strftime_long stamp Vs Ys) as (Dts & _ & _).
  replace (__str__ m3 ++ EmptyString) with (__str__ m3)
    by (clear; induction (__str__ m3) as [|c s IH]; cbn; [reflexivity | now rewrite <- IH]).
  rewrite Str.
  destruct (parse_accepts __init__ (strftime stamp) (whole_second stamp) w payload
              required_pow now clock Pts Dts Lw Vn
              (leb_whole_second stamp now Vn Le) Hrp)
    as (Pa & _ & _ & _ & Fp & Ls).
  eexists. split; [exact Pa|]. split; [|exact Ls].
  unfold parsed. cbn [Message_v0.payload]. rewrite Fp. reflexivity.
Qed.

(** The age factor of the reference pair used below. *)
Lemma sub_reference k :
  sub (mkDatetime 1 1 1 0 0 (10 * k) 0) (mkDatetime 1 1 1 0 0 0 0) = 10000000 * k.
Proof.
  unfold sub, toordinal. cbn [year month day hour minute second microsecond]. lia.
Qed.

(** A bound divided by the age factor of a duration leaves room for that
    duration: an initial proof of work below the quotient stays below the
    bound for as long, in a message of at most 61 characters. *)
Lemma scaled_pow_within_duration i w k now stamp length :
  0 <= i -> 0 <= w < 2 ^ 53 -> 1 <= k -> i < w / k ->
  sub now stamp <= 10000000 * k -> length <= 61 ->
  scaled_pow i now stamp length < w.
Proof.
  intros Hi Hw Hk Hb Ha Hl.
  assert (Q : k * (w / k) <= w) by (apply Z.mul_div_le; lia).
  assert (IK : i * k + k <= w) by nia.
  pose proof (scaled_pow_mono i i now (mkDatetime 1 1 1 0 0 (10 * k) 0)
                stamp (mkDatetime 1 1 1 0 0 0 0) length 61 Hi (Z.le_refl _)) as M.
  rewrite sub_reference in M. specialize (M Ha Hl).
  rewrite (scaled_pow_exact i _ _ 61 k 1) in M.
  - pose proof (Z.le_min_r pow_max (i * k * 1)). lia.
  - exact Hi.
  - rewrite sub_reference. change min_message_age with 10000000. lia.
  - reflexivity.
  - lia.
Qed.

(** What [--duration] is for.  With a bound W and a duration of D seconds,
    D a whole number of tens, every line printed for a payload of at most 8
    characters is accepted by [parse] with [required_pow = W] at any time
    from its stamp to D seconds later: the miner was given W divided by
    D / 10, and a message of at most 61 characters ages by that factor in D
    seconds. *)
Theorem message_lasts_its_duration
  (w d b : Z) (ct mt : option datetime) (wall : nat -> datetime)
  (payloads lines : list string) (e : ended) (now clock : datetime) :
  0 <= w < 2 ^ 53 -> 0 < d -> d / 86400 <= 999999999 ->
  Z.max d 10 mod 10 = 0 ->
  scale_pow w d = Passed b ->
  (forall k, valid (now_or mt (wall k)) = true
             /\ 1000 <= year (now_or mt (wall k))
             /\ leb (now_or mt (wall k)) now = true
             /\ sub now (whole_second (now_or mt (wall k))) <= timedelta_seconds d) ->
  valid now = true ->
  main_loop b ct mt false wall 0 __init__ payloads = (lines, e) ->
  Forall2
    (fun payload line =>
       len payload <= 8 ->
       exists m,
         parse __init__ line w (Some now) clock = Ret EmptyString m
         /\ Message_v0.payload m = Some payload
         /\ exists c, current_pow m = Some c /\ c < w)
    (firstn (List.length lines) payloads) lines.
Proof.
  intros Hw Hd Hmax Hmod SC T Vn H.
  rewrite (scale_pow_value w d Hw Hd Hmax Hmod) in SC. injection SC as <-.
  set (k := Z.max d 10 / 10) in *.
  assert (Ek : Z.max d 10 = 10 * k)
    by (unfold k; pose proof (Z.div_mod (Z.max d 10) 10); lia).
  assert (Kpos : 1 <= k) by lia.
  assert (B0 : 0 <= w / k) by (apply Z.div_pos; lia).
  destruct (main_loop_lines (w / k) ct mt false wall payloads 0 __init__ lines e
              eq_refl H) as (_ & _ & _ & F).
  eapply Forall2_impl; [|exact F].
  intros payload line (n & self & m2 & m3 & tries & x & V & SP & UN & D & ->) Lp.
  injection D as <-.
  destruct (mined_shape self m2 m3 _ _ _ _ payload (w / k) tries V SP UN)
    as (nc & i & Lw & G & Bi & Ri & Str & _).
  unfold search_bound in Bi.
  destruct (Z.ltb_spec (w / k) 0) as [|_]; [lia|].
  destruct (T (S n)) as (Vs & Ys & Le & Age).
  set (stamp := now_or mt (wall (S n))) in *.
  pose proof (strptime_strftime stamp Vs Ys) as Pts.
  destruct (strftime_long stamp Vs Ys) as (Dts & _ & _).
  replace (__str__ m3 ++ EmptyString) with (__str__ m3)
    by (clear; induction (__str__ m3) as [|c s IH]; cbn; [reflexivity | now rewrite <- IH]).
  rewrite Str.
  pose proof (len_nonneg payload) as Lp0.
  assert (Cur : scaled_pow i now (whole_second stamp) (53 + len payload) < w).
  { apply (scaled_pow_within_duration i w k); try lia.
    unfold timedelta_seconds in Age. lia. }
  assert (Q : k * (w / k) <= w) by (apply Z.mul_div_le; lia).
  destruct (parse_accepts_bounded __init__ (strftime stamp) (whole_second stamp) nc
              payload i w now clock Pts Dts Lw Vn
              (leb_whole_second stamp now Vn Le) G ltac:(nia) ltac:(lia))
    as (Pa & Fp & Ls).
  eexists. split; [exact Pa|].
  unfold parsed. cbn [Message_v0.payload current_pow]. rewrite Fp.
  split; [reflexivity|].
  eexists. split; [reflexivity|].
  unfold frame_current_pow, frame_initial_pow.
  destruct (parse_accepts __init__ (strftime stamp) (whole_second stamp) nc payload
              pow_max now clock Pts Dts Lw Vn (leb_whole_second stamp now Vn Le)
              (Z.le_refl _)) as (_ & Fts & Fn & Fc & _ & _).
  rewrite Fts, Fn, Fc, Pts, G, Ls. exact Cur.
Qed.

(** The last characters of two equal strings are equal. *)
Lemma app_last_inj a : forall b (c d : ascii),
  a ++ String c EmptyString = b ++ String d EmptyString -> c = d.
Proof.
  induction a as [|x a IH]; intros [|y b] c d H; cbn in H.
  - now injection H.
  - injection H as _ H. destruct b; discriminate H.
  - injection H as _ H. destruct a; discriminate H.
  - injection H as _ H. exact (IH b c d H).
Qed.

Lemma append_assoc (a b c : string) : (a ++ b) ++ c = a ++ b ++ c.
Proof. induction a as [|x a IH]; cbn; [reflexivity | now rewrite IH]. Qed.

(** A string that ends with a hexadecimal digit does not end with the
    tail of a message. *)
Lemma endswith_hex_digit a v :
  endswith (a ++ String (hexdigit (v mod 16)) EmptyString) (dq ++ "]") = false.
Proof.
  destruct (endswith _ _) eqn:E; [|reflexivity]. exfalso.
  unfold endswith in E. apply andb_prop in E as [_ E].
  apply String.eqb_eq in E.
  set (s := a ++ String (hexdigit (v mod 16)) EmptyString) in *.
  set (k := (String.length s - String.length (dq ++ "]"))%nat) in *.
  pose proof (take_drop k s) as TD. rewrite E in TD.
  change (dq ++ "]") with (dq ++ String "]"%char EmptyString) in TD.
  rewrite <- append_assoc in TD. unfold s in TD.
  apply app_last_inj in TD.
  assert (L : is_lower_hex (hexdigit (v mod 16)) = true)
    by (apply hexdigit_lower, Z.mod_pos_bound; lia).
  rewrite <- TD in L. discriminate L.
Qed.

Lemma startswith_app_assoc a b c : startswith ((a ++ b) ++ c) a = true.
Proof. rewrite append_assoc. apply startswith_app. Qed.

(** With [--debug] the lines are not messages.  Each line is a message
    followed by its two proofs of work, 8 hexadecimal digits each; these
    are always in range, so that the loop never stops in the middle of a
    line;
    [parse] answers Wrong format/payload on such a line, whatever the time
    and the bound, and leaves its object as it was. *)
Theorem debug_lines_are_not_messages
  (pow : Z) (ct mt : option datetime) (wall : nat -> datetime)
  (payloads lines : list string) (e : ended)
  (self : Message) (required_pow : Z) (utc_now : option datetime)
  (clock : datetime) :
  main_loop pow ct mt true wall 0 __init__ payloads = (lines, e) ->
  (e = Finished \/ exists x, e = Stopped EmptyString x)
  /\ Forall2
       (fun payload line =>
          exists ts w i c,
            line = frame ts w (get_checksum payload) payload
                   ++ ", init PoW: " ++ hex_of 8 i
                   ++ "  current PoW: " ++ hex_of 8 c
            /\ parse self line required_pow utc_now clock
               = Ret ("Wrong format/payload" ++ nl) self)
       (firstn (List.length lines) payloads) lines.
Proof.
  intros H.
  assert (Shape : forall n message payload m2 tries m3,
    version message = "0" ->
    set_payload
      (set_timestamp message (Some (now_or mt (wall (S n))))
         (now_or mt (wall (S n)))) payload = Ret tt m2 ->
    update_nonce m2 pow (Some (now_or ct (wall n))) (now_or ct (wall n))
    = Ret tries m3 ->
    exists ts w i c,
      len w = 10
      /\ __str__ m3 = frame ts w (get_checksum payload) payload
      /\ debug_text m3
         = inr (", init PoW: " ++ hex_of 8 i ++ "  current PoW: " ++ hex_of 8 c)).
  { intros n message payload m2 tries m3 V SP UN.
    destruct (mined_shape message m2 m3 _ _ _ _ payload pow tries V SP UN)
      as (w & i & Lw & G & _ & Ri & Str & _ & Ei & Ec).
    exists (strftime (now_or mt (wall (S n)))), w, i,
      (scaled_pow i (now_or ct (wall n)) (now_or mt (wall (S n)))
         (len (__str__ m3))).
    split; [exact Lw|]. split; [exact Str|].
    unfold debug_text. rewrite Ei, Ec.
    change (Z.to_nat (pow_bytes / 2)) with 4%nat.
    rewrite (to_bytes_hex_some 4 i)
      by (change (256 ^ Z.of_nat 4) with 4294967296;
          change pow_max with 4294967295 in Ri; lia).
    destruct (scaled_pow_sign i (now_or ct (wall n)) (now_or mt (wall (S n)))
                (len (__str__ m3)) (proj1 Ri)) as [Rc _].
    rewrite (to_bytes_hex_some 4 _)
      by (change (256 ^ Z.of_nat 4) with 4294967296;
          change pow_max with 4294967295 in Rc; lia).
    reflexivity. }
  assert (Loop : forall payloads n message lines e,
    version message = "0" ->
    main_loop pow ct mt true wall n message payloads = (lines, e) ->
    e = Finished \/ exists x, e = Stopped EmptyString x).
  { clear H payloads lines e.
    induction payloads as [|payload rest IH]; intros n message lines e V H.
    - cbn [main_loop] in H. injection H as _ <-. now left.
    - cbn [main_loop] in H. cbv zeta in H.
      destruct (set_payload _ payload) as [[] m2 | x m2] eqn:SP.
      2:{ injection H as _ <-. right. now exists x. }
      destruct (update_nonce m2 pow _ _) as [tries m3 | x m3] eqn:UN.
      2:{ injection H as _ <-. right. now exists x. }
      destruct (Shape n message payload m2 tries m3 V SP UN)
        as (ts & w & i & c & _ & _ & D).
      rewrite D in H.
      destruct (main_loop pow ct mt true wall (S (S n)) m3 rest) as [ls e'] eqn:R.
      injection H as _ <-.
      destruct (mined_shape message m2 m3 _ _ _ _ payload pow tries V SP UN)
        as (_ & _ & _ & _ & _ & _ & _ & V3 & _).
      exact (IH (S (S n)) m3 ls e' V3 R). }
  split; [exact (Loop payloads 0%nat __init__ lines e eq_refl H)|].
  destruct (main_loop_lines pow ct mt true wall payloads 0 __init__ lines e
              eq_refl H) as (_ & _ & _ & F).
  eapply Forall2_impl; [|exact F].
  intros payload line (n & message & m2 & m3 & tries & d & V & SP & UN & D & ->).
  destruct (Shape n message payload m2 tries m3 V SP UN)
    as (ts & w & i & c & Lw & Str & D').
  rewrite D' in D.
  set (text := ", init PoW: " ++ hex_of 8 i ++ "  current PoW: " ++ hex_of 8 c) in *.
  assert (Ed : d = text) by (injection D as D; symmetry; exact D).
  rewrite Ed, Str. clear D Ed.
  exists ts, w, i, c. split; [reflexivity|].
  assert (Lt : len text = 43).
  { assert (Lh : forall v, len (hex_of 8 v) = 8)
      by (intros v; unfold len; rewrite length_hex_of; reflexivity).
    unfold text. rewrite !len_app, !Lh. reflexivity. }
  assert (Ll : 53 <= len (frame ts w (get_checksum payload) payload ++ text)).
  { unfold frame. rewrite !len_app, Lw, len_get_checksum.
    pose proof (len_nonneg ts). pose proof (len_nonneg payload).
    change (len "[") with 1. change (len dq) with 1. change (len "0") with 1.
    change (len ",") with 1. change (len "]") with 1. lia. }
  rewrite parse_unfold. cbv zeta.
  destruct (Z.ltb_spec (len (frame ts w (get_checksum payload) payload ++ text)) 53);
    [lia|].
  replace (startswith (frame ts w (get_checksum payload) payload ++ text)
             ("[" ++ dq ++ "0" ++ dq ++ "," ++ dq)) with true.
  2:{ symmetry.
      change (frame ts w (get_checksum payload) payload)
        with (("[" ++ dq ++ "0" ++ dq ++ "," ++ dq)
              ++ (ts ++ dq ++ "," ++ dq ++ w ++ dq ++ "," ++ dq
                  ++ get_checksum payload ++ dq ++ "," ++ dq ++ payload
                  ++ dq ++ "]")).
      apply startswith_app_assoc. }
  cbn [negb].
  replace (endswith (frame ts w (get_checksum payload) payload ++ text) (dq ++ "]"))
    with false; [reflexivity|].
  symmetry. unfold text.
  change (hex_of 8 c)
    with (hex_of 7 (c / 16) ++ String (hexdigit (c mod 16)) EmptyString).
  rewrite <- !append_assoc.
  apply endswith_hex_digit.
Qed.

(** A bound below the age factor of the duration is never met.  The
    scaling leaves 0, which no proof of work is below: on a first payload
    of at most 128 characters, all below U+0100, the miner goes through
    all its candidates and raises, and nothing is printed.  (A payload
    with a lone surrogate, as an argument that is not UTF-8 gives, is
    outside: [set_payload] raises on it before the search.) *)
Theorem bound_below_the_age_factor_is_never_met
  (w d : Z) (ct mt : option datetime) (debug : bool) (wall : nat -> datetime)
  (cps : list Z) (payload : string) (rest : list string) :
  0 <= w -> 0 < d -> d / 86400 <= 999999999 ->
  Z.max d 10 mod 10 = 0 ->
  w < Z.max d 10 / 10 ->
  str_of_code_points cps = Some payload ->
  len payload <= 128 ->
  scale_pow w d = Passed 0
  /\ main_loop 0 ct mt debug wall 0 __init__ (payload :: rest)
     = ([], Stopped EmptyString
              (RuntimeError "Couldn't reach target proof of work")).
Proof.
  intros Hw Hd Hmax Hmod Hk _ Lp.
  assert (W53 : 0 <= w < 2 ^ 53).
  { assert (d < 86400 * 1000000000)
      by (pose proof (Z.div_mod d 86400);
          pose proof (Z.mod_pos_bound d 86400); lia).
    pose proof (Z.div_mod (Z.max d 10) 10).
    change (2 ^ 53) with 9007199254740992. lia. }
  split.
  { rewrite (scale_pow_value w d W53 Hd Hmax Hmod).
    rewrite Z.div_small by lia. reflexivity. }
  cbn [main_loop]. cbv zeta.
  set (stamp := now_or mt (wall 1%nat)).
  set (now := now_or ct (wall 0%nat)).
  unfold set_payload.
  replace (len payload >? max_payload_bytes) with false
    by (symmetry; rewrite Z.gtb_ltb; apply Z.ltb_ge;
        change max_payload_bytes with 128; exact Lp).
  cbn [set_timestamp now_or timestamp_str version timestamp_obj nonce checksum
       Message_v0.payload initial_pow current_pow Message_v0.utc_now __init__].
  match goal with
  | |- context [get_initial_pow ?a ?b ?c ?t] =>
      destruct (initial_pow_range a b c) as (i0 & -> & _)
  end.
  unfold update_nonce.
  cbn [timestamp_str checksum version timestamp_obj nonce Message_v0.payload
       Message_v0.utc_now].
  change (0 <? 0) with false. cbv iota.
  fold nonce_chars. fold candidates.
  rewrite search_exhausted.
  - reflexivity.
  - intros c _ L. pose proof (nonce_pow_eq (strftime stamp) (get_checksum payload) c) as E.
    destruct (initial_pow_range (strftime stamp) c (get_checksum payload))
      as (q & Eq & Rq).
    rewrite E in Eq. injection Eq as Eq. lia.
Qed.

(** The sample run: one empty payload, both times given as 2 January 2000,
    03:04:05.  The first candidate has the proof of work 0x4bb898cf. *)
Lemma sample_loop bound debug :
  1270388943 < search_bound bound ->
  main_loop bound (Some sample_now) (Some sample_now) debug sample_wall 0 __init__
    [EmptyString]
  = ([frame "20000102030405" "aaaaaaaaaa" "e3b0c44298fc" EmptyString
      ++ (if debug then ", init PoW: 4bb898cf  current PoW: 4bb898cf"
          else EmptyString)], Finished).
Proof.
  intros B.
  assert (SP : set_payload (set_timestamp __init__ (Some sample_now) sample_now)
                 EmptyString
               = Ret tt
                   (mkMessage "0" (Some "20000102030405") (Some sample_now)
                      (Some "aaaaaaaaaa") (Some "e3b0c44298fc") (Some EmptyString)
                      (Some 1270388943) None None))
    by (vm_compute; reflexivity).
  assert (G : get_initial_pow "20000102030405" "aaaaaaaaaa" "e3b0c44298fc" pow_target
               = Some 1270388943) by (vm_compute; reflexivity).
  destruct (update_nonce_first
              (mkMessage "0" (Some "20000102030405") (Some sample_now)
                 (Some "aaaaaaaaaa") (Some "e3b0c44298fc") (Some EmptyString)
                 (Some 1270388943) None None)
              "20000102030405" "e3b0c44298fc" sample_now bound (Some sample_now)
              sample_now 1270388943 eq_refl eq_refl eq_refl G B)
    as (m & U & E & C).
  assert (Em : m = sample_message).
  { rewrite E. rewrite C. rewrite E. vm_compute. reflexivity. }
  subst m.
  cbn [main_loop now_or]. cbv zeta.
  rewrite SP, U.
  destruct debug; vm_compute; reflexivity.
Qed.

Lemma sample_times (now : datetime) :
  leb sample_now now = true ->
  forall k : nat,
    valid (now_or (Some sample_now) (sample_wall k)) = true
    /\ 1000 <= year (now_or (Some sample_now) (sample_wall k))
    /\ leb (now_or (Some sample_now) (sample_wall k)) now = true.
Proof.
  intros L k. cbn [now_or]. split; [reflexivity|]. split; [|exact L].
  cbn. lia.
Qed.

Lemma printed_lines_are_accepted_witness :
  (Finished = Finished ->
   List.length
     [frame "20000102030405" "aaaaaaaaaa" "e3b0c44298fc" EmptyString ++ EmptyString]
   = List.length [EmptyString])
  /\ (Finished = Finished \/ exists x, Finished = Stopped EmptyString x)
  /\ Forall2
       (fun payload line =>
          exists m,
            parse __init__ line 4294967295 (Some sample_now) sample_now
            = Ret EmptyString m
            /\ Message_v0.payload m = Some payload
            /\ len line = 53 + len payload)
       (firstn
          (List.length
             [frame "20000102030405" "aaaaaaaaaa" "e3b0c44298fc" EmptyString
              ++ EmptyString])
          [EmptyString])
       [frame "20000102030405" "aaaaaaaaaa" "e3b0c44298fc" EmptyString ++ EmptyString].
Proof.
  assert (B : 1270388943 < search_bound 4294967295) by (vm_compute; reflexivity).
  assert (R : pow_max <= 4294967295) by (vm_compute; discriminate).
  exact (printed_lines_are_accepted 4294967295 (Some sample_now) (Some sample_now)
           sample_wall [EmptyString] _ Finished sample_now 4294967295 sample_now
           (sample_times sample_now eq_refl) eq_refl R
           (sample_loop 4294967295 false B)).
Defined.

Lemma message_lasts_its_duration_witness :
  Forall2
    (fun payload line =>
       len payload <= 8 ->
       exists m,
         parse __init__ line 4294967295 (Some (mkDatetime 2000 1 2 3 4 35 0))
           sample_now
         = Ret EmptyString m
         /\ Message_v0.payload m = Some payload
         /\ exists c, current_pow m = Some c /\ c < 4294967295)
    (firstn
       (List.length
          [frame "20000102030405" "aaaaaaaaaa" "e3b0c44298fc" EmptyString
           ++ EmptyString])
       [EmptyString])
    [frame "20000102030405" "aaaaaaaaaa" "e3b0c44298fc" EmptyString ++ EmptyString].
Proof.
  assert (W : 0 <= 4294967295 < 2 ^ 53) by (split; [lia | reflexivity]).
  assert (D : 30 / 86400 <= 999999999) by (vm_compute; discriminate).
  assert (SC : scale_pow 4294967295 30 = Passed 1431655765)
    by (vm_compute; reflexivity).
  assert (B : 1270388943 < search_bound 1431655765) by (vm_compute; reflexivity).
  assert (T : forall k : nat,
    valid (now_or (Some sample_now) (sample_wall k)) = true
    /\ 1000 <= year (now_or (Some sample_now) (sample_wall k))
    /\ leb (now_or (Some sample_now) (sample_wall k)) (mkDatetime 2000 1 2 3 4 35 0)
       = true
    /\ sub (mkDatetime 2000 1 2 3 4 35 0)
         (whole_second (now_or (Some sample_now) (sample_wall k)))
       <= timedelta_seconds 30).
  { intros k. cbn [now_or]. split; [reflexivity|]. split; [cbn; lia|].
    split; [reflexivity|]. vm_compute. discriminate. }
  exact (message_lasts_its_duration 4294967295 30 1431655765 (Some sample_now)
           (Some sample_now) sample_wall [EmptyString] _ Finished
           (mkDatetime 2000 1 2 3 4 35 0) sample_now
           W ltac:(lia) D eq_refl SC T eq_refl
           (sample_loop 1431655765 false B)).
Defined.

Lemma debug_lines_are_not_messages_witness :
  (Finished = Finished \/ exists x, Finished = Stopped EmptyString x)
  /\ Forall2
       (fun payload line =>
          exists ts w i c,
            line = frame ts w (get_checksum payload) payload
                   ++ ", init PoW: " ++ hex_of 8 i
                   ++ "  current PoW: " ++ hex_of 8 c
            /\ parse __init__ line 4294967295 (Some sample_now) sample_now
               = Ret ("Wrong format/payload" ++ nl) __init__)
       (firstn
          (List.length
             [frame "20000102030405" "aaaaaaaaaa" "e3b0c44298fc" EmptyString
              ++ ", init PoW: 4bb898cf  current PoW: 4bb898cf"])
          [EmptyString])
       [frame "20000102030405" "aaaaaaaaaa" "e3b0c44298fc" EmptyString
        ++ ", init PoW: 4bb898cf  current PoW: 4bb898cf"].
Proof.
  assert (B : 1270388943 < search_bound 4294967295) by (vm_compute; reflexivity).
  exact (debug_lines_are_not_messages 4294967295 (Some sample_now) (Some sample_now)
           sample_wall [EmptyString] _ Finished __init__ 4294967295
           (Some sample_now) sample_now (sample_loop 4294967295 true B)).
Defined.

Lemma bound_below_the_age_factor_is_never_met_witness :
  scale_pow 2 30 = Passed 0
  /\ main_loop 0 (Some sample_now) (Some sample_now) false sample_wall 0 __init__
       [EmptyString]
     = ([], Stopped EmptyString
              (RuntimeError "Couldn't reach target proof of work")).
Proof.
  assert (D : 30 / 86400 <= 999999999) by (vm_compute; discriminate).
  assert (K : 2 < Z.max 30 10 / 10) by (vm_compute; reflexivity).
  assert (L : len EmptyString <= 128) by (vm_compute; discriminate).
  exact (bound_below_the_age_factor_is_never_met 2 30 (Some sample_now)
           (Some sample_now) false sample_wall [] EmptyString []
           ltac:(lia) ltac:(lia) D eq_refl K eq_refl L).
Defined.

End LoopFacts.

(* ================================================================== *)
(** * Sample evaluations *)
(* ================================================================== *)

Example sha256_empty :
  SHA256.hexdigest [] = "e3b0c44298fc1c149afbf4c8996fb92427ae41e4649b934ca495991b7852b855".
Proof. vm_compute. reflexivity. Qed.

Example sha256_abc :
  SHA256.hexdigest (Py.encode_utf8 "abc")
  = "ba7816bf8f01cfea414140de5dae2223b00361a396177a9cb410ff61f20015ad".
Proof. vm_compute. reflexivity. Qed.

Example sha256_two_blocks :
  SHA256.hexdigest
    (Py.encode_utf8 "abcdbcdecdefdefgefghfghighijhijkijkljklmklmnlmnomnopnopq")
  = "248d6a61d20638b8e5c026930c3e6039a33ce45964ff2167f6ecedd419db06c1".
Proof. vm_compute. reflexivity. Qed.

Example float_33_over_1_1 :
  Float.to_int (Float.div (Float.rnd 33) (Float.truediv_int 11 10)) = 29.
Proof. vm_compute. reflexivity. Qed.

Example strptime_sample :
  Datetime.strptime "20000102030405"
  = Some (Datetime.mkDatetime 2000 1 2 3 4 5 0).
Proof. reflexivity. Qed.

Example strftime_sample :
  Datetime.strftime (Datetime.mkDatetime 2000 1 2 3 4 5 0) = "20000102030405".
Proof. reflexivity. Qed.

Example toordinal_sample :
  Datetime.toordinal (Datetime.mkDatetime 2000 1 2 3 4 5 0) = 730121.
Proof. reflexivity. Qed.

Example constants_sample :
  Message_v0.overhead_bytes = 53 /\ Message_v0.min_message_bytes = 61
  /\ Message_v0.max_message_bytes = 181 /\ Message_v0.pow_target = 4294967295.
Proof. repeat split. Qed.

Example checksum_sample : Message_v0.get_checksum "" = "e3b0c44298fc".
Proof. vm_compute. reflexivity. Qed.

Example scaled_pow_sample :
  Message_v0.scaled_pow 85278824 Spec.sample_midnight Spec.sample_midnight 153
  = 213896066.
Proof. vm_compute. reflexivity. Qed.

Example scaled_pow_aged_sample :
  Message_v0.scaled_pow 1000003
    (Datetime.mkDatetime 2000 1 2 3 6 45 0) Spec.sample_now 64
  = 16786935.
Proof. vm_compute. reflexivity. Qed.
